(* ===== verification/_CoqProject ===== *)
-Q . S2P
Prelude.v
Store.v
Reviews.v
Samples.v
Aggregator.v
Consistency.v
Concurrency.v
Failures.v
JsValues.v
Boot.v
Tours.v
TourInvariant.v
Reads.v
ApiFeatures.v
Json.v
QueryFilter.v
Middleware.v
FrontEnd.v
RateLimit.v
Routes.v
AppPipeline.v
