(* ===== verification/Prelude.v ===== *)
(** * Natours: a verification development of the review-rating aggregate,
      the query-shaping pipeline and the API's request handling

    The repository is an Express/Mongoose tour-booking API.  Two parts of it
    carry real logic, the rating aggregate and the query shaping; around
    them, the request path (rate limiting, query sanitising, routing with
    its access guards) and the process's failure handling decide what
    reaches them and what becomes of their errors; the read path and the
    browser scripts show their results.  All are modelled here; what is
    left is listed under "Not modelled" below.

    ** The program's parts and how they interact

    - The data store (MongoDB reached through Mongoose).  Two collections,
      [Tour] ([src/models/tourModel.js]) and [Review]
      ([src/models/reviewModel.js]).  Each schema declares field validators,
      defaults, setters and query middleware that Mongoose runs around every
      operation.  The store is a shared resource of every request.
    - The RatingAggregator ([reviewModel.js], [calcAverageRatings] and the
      three hooks [post('save')], [pre(/^findOneAnd/)], [post(/^findOneAnd/)]).
      It keeps [ratingsQuantity] and [ratingsAverage] of a tour equal to the
      count and mean rating of the tour's reviews.  It reads the [Review]
      collection with an aggregation pipeline and writes the [Tour]
      collection with [Tour.findByIdAndUpdate], which itself goes through
      the tour's [pre(/^find/)] middleware and the [ratingsAverage] setter.
    - The QueryShaper ([src/utils/apiFeatures.js], class [APIFeatures]).
      It turns the request's query-string object into a Mongoose query:
      [filter], [sort], [limitFields], [paginate], chained in this order by
      the controllers.
    - The controllers ([controllers/handlerFactory.js], [reviewController])
      are not under [src/]: the create / update-by-id / delete-by-id wrappers
      and [setTourUserIds] are modelled from the spec and marked so in the
      manifest.
    - The application ([src/app.js]): a stack of middleware run in order
      for every request: CORS, static files, security headers, a rate
      limiter on [/api] keyed by [req.ip] (with [trust proxy] on), a
      webhook route, the body parsers, the sanitising middlewares on
      [req.query], then the three routers ([src/routes/]) whose chains of
      [protect], [restrictTo] and handlers decide who reaches a controller.
    - The process ([src/server.js]): it builds the connection string,
      connects to the database without catching a refusal, listens, and
      registers listeners for uncaught exceptions and (under a misspelled
      event name) unhandled rejections, which is where a refused
      connection, or a failure of the recomputation the post-save hook
      leaves running, ends.
    - The reads ([tourModel.js], [reviewModel.js]): a tour page is the tour
      with its guides and its reviews, filled in by Mongoose's populates.
    - The browser ([src/public/js]): the map of a tour's locations
      (mapbox.js) and the booking button (stripe.js).

    ** Files, and what each models

    - [Prelude.v] (this file): the JavaScript error values, a state-and-error
      monad [ST] (an instance of stdpp's [MRet]/[MBind], written with
      [x ← c; k]; state threaded through every store call, errors as
      values, no rollback: Mongoose has no transactions here), its twin
      for results without state, JavaScript's [Math.round], sums and
      means of rationals ([Proper] for permutations and [==], so that
      [rewrite] works under them), the tactics and the hint database
      [natours] shared by the other files.
    - [Store.v]: the documents ([Module Tour], [Module Review]) as records,
      the store as two [gmap]s keyed by object id, the Mongoose query
      middleware dispatch (the [/^find/] and [/^findOneAnd/] regular
      expressions as string-prefix tests), the [ratingsAverage] setter and
      [Tour.findByIdAndUpdate] as the aggregator calls it.
    - [Reviews.v]: [Module Aggregate]: the pipeline ([$match] then [$group]),
      [calcAverageRatings], its abstract specification [refresh_tour] and the
      invariant [aggregates_consistent]; [Module Mutations]: review
      validation, the unique [(tour, user)] index, [Review.create] with its
      post-save hook, [findByIdAndUpdate]/[findByIdAndDelete] with the
      two-phase [findOneAnd] hooks, and the controllers that call them.
    - [Samples.v]: a small store of three tours (one secret) and request
      bodies used by the scenario theorems and the witnesses.
    - [Aggregator.v]: the contract of the spec's section 6 as the class
      [RatingAggregator] (a hook after a creation; a capture before and a
      hook after a mutation by identifier, with the effect each must have
      on the store), the mutation paths written once over the class with
      the captured context passed explicitly, their preservation of the
      invariant proved against the class, and two instances: the code's
      Mongoose hooks ([code_aggregator], whose paths are shown equal to
      [Review.create], [findByIdAndUpdate] and [findByIdAndDelete]) and the
      spec's variant whose post hook does nothing without a captured
      document.  The lemmas on [refresh_tour] live here.
    - [Consistency.v]: the theorems of the RatingAggregator (C1-C8):
      refinement of [calcAverageRatings] to [refresh_tour]; preservation of
      the invariant by every mutation (through [Aggregator.v]) and by every
      sequence of them (the step relations [mutation] and [request], by
      induction on [rtc]); the error path of a missing id; validity and
      uniqueness of reviews, the duplicate pair, the spec's scenarios and
      the bounds of [ratingsAverage] (as lemmas);
      and where the code loses the invariant, from any consistent store:
      an update that moves a review to another tour, and a review created
      on a secret tour.
    - [Concurrency.v]: requests interleaved at their [await]s: review
      mutations as steps that start a recomputation (the post-save hook
      does not await it), each [calcAverageRatings] split into its
      aggregation (which assigns the implicit global [stats]) and its
      write, the scheduler free to pick any thread, and an optional
      per-tour lock.  The split is shown to follow the code
      ([Review_create_commit], [run_query_commit]).  Theorems (C31-C32):
      with the lock every quiescent state is consistent and quiescence is
      always reachable (an invariant over the step relation and a
      termination measure on the work in flight).  As lemmas, without the
      lock the race of the spec's section 5 leaves a tour stale after
      every recomputation has ended (one trace), and the next
      uninterrupted recomputation repairs it.
    - [Failures.v]: the recomputation over a data store whose aggregation
      or tour write may reject, the floating promise of [post('save')] and
      the awaited [post(/^findOneAnd/)], the [catchAsync] of the
      controllers, the process listeners of [server.js] and Node's
      dispatch of an unhandled rejection ([warn] and [throw] modes).  With
      a data store that serves, the model agrees with [Reviews.v].
      Theorems (C13-C14): a failed recomputation after a creation is
      answered 201 and left unhandled, which under [throw] mode ends the
      process at once (the graceful listener is never called); after an
      update or delete it fails the request although the write committed.
    - [Boot.v]: the script of [server.js] in its order: the connection
      string built with [String.prototype.replace] (its replacement
      templates [$$], [$&], [$`], [$'] written out), [mongoose.connect]
      without a catch, [app.listen], the listeners, and what the event
      loop then delivers (a refused connection, a port in use), with the
      environment, the database and the port as section parameters.
      Theorem (C15): for every password of the form [p1 ++ "$&" ++ p2]
      with no [$] in [p1], the connection string holds the placeholder
      where the [$&] was and is never the one with the password in
      place (the connection string for a password without [$] is a
      lemma).
    - [JsValues.v]: the JavaScript semantics the QueryShaper relies on:
      query-string values (string, array, object), property reads and
      truthiness, [split]/[join] on characters, numbers with [NaN] and the
      infinities, [ToNumber] of strings (the StringNumericLiteral grammar:
      white space, sign, decimals, exponents, [0x]/[0o]/[0b], [Infinity]),
      and [+], [-], [*] with the overflow and underflow of doubles.
    - [Tours.v]: the write paths of the Tour model: the request body, the
      schema's validators in schema order (required, lengths after [trim],
      enum, range after the rounding setter, the discount below the price,
      GeoJSON types), [Tour.create] with its defaults, the slug hook
      (with [slugify], a library, as a section parameter) and the unique
      name index, and the update and delete by id with their update
      validators and the [pre(/^find/)] filter.  Theorem (C33): no update
      can set a discount; as lemmas, a creation that leaves the ratings to
      their defaults keeps the aggregates right, but the body may set
      them, and a secret tour can be neither updated nor deleted.
    - [TourInvariant.v]: the schema's constraints as an invariant of the
      stored tours ([tour_ok]: the name's length, the average in [[1, 5]]
      and rounded, the discount below the price; [tours_wf] adds the
      unique names), and every write path of the application as one step
      relation [tour_request] (the review requests of [Consistency.v] with
      their hooks, [createTour], [updateTour], [deleteTour]).  Theorems
      (C9-C10): the invariant, with the reviews' own, holds along every
      sequence of requests whose tour updates keep the price above the
      stored discount (by induction on [rtc]; the aggregator's write keeps
      it because an average of valid ratings is in [[1, 5]] and the
      setter's rounding is idempotent); and an update of the price alone
      breaks it, since the discount's validator does not run.
    - [ApiFeatures.v]: the QueryShaper's [sort], [limitFields] and
      [paginate] on a record of what the Mongoose query accumulates, with
      Mongoose's parsing of sort and select strings, and its theorems
      (C16-C18): the defaults; [skip((page - 1) * limit)] and
      [limit(limit)] for decimal numerals; a negative limit passed on as
      it is, where the spec asks for the default.  Infinite limits and
      fractional pages (one sample each) and field order are lemmas.
    - [Json.v]: [JSON.stringify] (the ECMAScript [QuoteJSONString] with its
      escapes) and [JSON.parse] (on fuel) on query-string values, and the
      round trip (a lemma): the text parses back to the value, with the
      length of the text as fuel.  The parsing lemma is proved once for
      [stringify_with body], a serialisation with any text between the
      quotes that the parser reads back, and used for [filter]'s edited
      text as well.
    - [QueryFilter.v]: the QueryShaper's [filter]: the copy without the
      control keys, the regular-expression replacement as the engine scans
      the text ([replace_ops]), proved equal to its specification on words
      ([word_replace], C19); [filter] rewrites every key and string of
      the object when no key or string holds a control character (C20),
      but not always when one does; as a lemma, [filter] never throws,
      whatever the query string (the edit only puts a [$] before a [g] or
      an [l], never inside an escape, so the parser reads every edited
      string).
    - [Middleware.v]: what [app.js] does to [req.query] before a
      controller sees it: [mongoSanitize()] (keys starting with [$] or
      holding a dot removed at any depth, a lemma), [xss()] (every [<]
      replaced by [&lt;] through a [JSON.stringify]/[JSON.parse] round
      trip, proved with the lemmas of [Json.v]) and [hpp] (the last
      value of a repeated parameter off the whitelist); and the
      [getAll] chain [filter], [sort], [limitFields], [paginate] after
      them (from the spec).  Theorems: the spec's request end to end
      (a lemma); whatever the query string, the only operators in the
      conditions are [$gte], [$gt], [$lte] and [$lt] at a word boundary
      (C21, the spec's whitelist: the sanitiser removes the caller's
      operators, [filter] adds a [$] only before a comparison word); the
      only exceptions of a request's query building are the [TypeError]s
      of [sort] and [limitFields] on an object parameter (C22); the
      operators [filter] creates may stand at the top level or come from
      plain values (a sample, a lemma).
    - [RateLimit.v]: [req.ip] as Express computes it with [trust proxy]
      (the [X-Forwarded-For] entries and the trusted hops), the memory
      store of express-rate-limit (a counter per key, all reset at the end
      of each fixed window of an hour, refusal above 100) and its mount on
      [/api] (case-insensitive prefix).  Theorems (C25-C26): of the
      requests a client sends from its socket without a forwarded header
      in one clock hour, exactly the first 100 pass, whatever [trust
      proxy] is; with [trust proxy] on, one client passes any number by
      varying the header.  As a lemma, for requests in time order at most
      [max_hits] pass per address and window.
    - [Routes.v]: the three routers as lists of layers in registration
      order ([router.use], routes with a chain per method, the review
      router mounted under tours with [mergeParams]), [app.js]'s mounts and
      404 fallback, and Express's first-match dispatch with parameters.
      The ways to each handler are collected ([router_entries]) and shown
      to cover every dispatch.  Theorems (C23-C24): the routers enforce a
      per-handler access policy (a refinement of the route table to a flat
      specification); any user may edit any review, and the nested tour id
      arrives as [id].  As a lemma, dispatch needs two levels of fuel.
    - [AppPipeline.v]: the whole middleware stack of [app.js] in
      registration order, as a list of steps each of which answers or
      calls [next] ([run_mw], [run_stack]), with the limiter's store
      shared by successive requests ([run_all]).  It composes [RateLimit.v]
      (the limiter), [Middleware.v] (the three sanitisers) and [Routes.v]
      (the API routers); the view and booking routers and the public
      directory, not under [src/], are section parameters.  Theorem
      (C27): a request the API routers answer has passed the limiter,
      the body limits and the sanitisers, in that order (a refinement of
      the stack to the three models).  As lemmas: an oversize JSON body
      gets 413, and the webhook reads bodies up to 100kb, uncounted.
    - [Reads.v]: the read path of a tour page, [Tour.findById] with the
      [pre(/^find/)] filter, the populate of [guides], the virtual
      [reviews] read through the review's own [pre(/^find/)] populate of
      [user] (the [User] model, not under [src/], as a lookup parameter).
      Theorems (C11-C12): in a consistent store the page's count and
      average are those of the reviews it lists (the read path refines the
      aggregate's specification); a deleted user's reviews stay listed,
      and counted, with [user] null, and a deleted guide disappears.
    - [FrontEnd.v]: the browser scripts.  [displayMap] (mapbox.js) as its
      [forEach] over the locations, with what mapbox-gl's [LngLat],
      [LngLatBounds.extend] and [fitBounds] do (modelled from the
      library), and [bookTour] (stripe.js) with [axios] and
      [redirectToCheckout] as parameters.  Theorems (C28-C30): the map is
      fitted to the smallest box holding every marker (an invariant of
      the loop); where it throws (no locations; coordinates that are not
      a point or a latitude out of range); the popup renders the
      description as markup, which only [xss()] on the API path escapes.
      [bookTour] is modelled and has no theorem of its own.

    ** Numbers and bounds

    JavaScript numbers are IEEE doubles.  Ratings, averages and prices are
    modelled as exact rationals [Q]: the rounding of the double arithmetic
    of [$avg] and of [Math.round(val * 10) / 10] is not modelled, the
    rounding the code writes (to one decimal, ties toward +infinity) is.
    In [JsValues.v] a number is [NaN], [Fin q] or an infinity; a result of
    magnitude at least [2^1024 - 2^970] overflows to an infinity and one of
    magnitude at most [2^-1075] underflows to zero, as in IEEE round to
    nearest; results in between are kept exact, which is the double's value
    for the integers below [2^53] the pagination theorems compute with (they
    assume page and limit below [2^400], so that [(page - 1) * limit] stays
    below [2^800]).  Counts are [nat].  Object ids are [nat].  Characters
    are 8-bit code units.  Request times in [RateLimit.v] are milliseconds
    as [Z] (binary, so that the window of an hour, 3600000 ms, computes).
    Body lengths in [AppPipeline.v] are bytes as [N], for the same reason
    (the limits are 10240 and 102400).
    Two definitions run on fuel: the JSON parser ([Json.parse_value]),
    given the length of its text, and the dispatch of nested routers
    ([Routes.route_router]), given the nesting depth [api_fuel = 2] (the
    application mounts the tour router, which mounts the review router),
    which the lemma [app_dispatch_terminates] shows is enough; every other
    recursion is structural.

    ** Not modelled

    Authentication itself ([authController], not under [src/]: [protect]
    and [restrictTo] are modelled from their use), image upload, payments,
    e-mail and the view and booking routers (not under [src/], parameters
    of [AppPipeline.v]) are I/O glue with no state of their own in the
    core.  Of the front-end scripts, the map's rendering, its style and
    token, and the alert's display are not modelled.  The indexes of
    [tourModel.js] (lines 129-134: a compound index, the slug, the
    [2dsphere] index) change no result of the queries modelled here.  Of [helmet], [cors],
    the body parsers and [express.static] only what decides the answer
    is modelled: which of them answers, the two header sets, the body
    limits; the headers' values, [cookieParser], [compression] and the
    parsed body's content are not.  [dotenv]'s reading of [config.env]
    and the console output of [server.js] are I/O; the environment is an
    input of [Boot.v].
    Failures of the data store are modelled for the recomputation the
    review hooks run (their failures of the review writes only propagate
    as errors); the sanitising middlewares are modelled on
    [req.query] only (the request bodies of [Reviews.v] and [Tours.v] are
    those they leave); [populate] in the [pre(/^find/)] hooks only shapes
    the returned documents and does not change the store.  Mongoose's cast
    of the condition values to the schema's types, and MongoDB's execution
    of the query, are not modelled: neither library is in the repository.
    In [Concurrency.v] the pre hook's capture and the query it precedes
    are one step, although the code awaits between them: splitting them
    lets other requests run in between, which changes nothing for
    reviews that exist at the capture (their tour cannot change under a
    tour-preserving update) but needs a model of how MongoDB draws fresh
    object ids for the reviews created in between; that model is still
    to be written.
*)

From stdpp Require Export base gmap strings list fin_maps.
From Stdlib Require Export QArith Qround Qabs Lqa.

Declare Scope natours_scope.
Delimit Scope natours_scope with natours.
Open Scope natours_scope.

(** ** JavaScript errors and results *)

(** The errors the modelled code can raise: a Mongoose [ValidationError]
    (with the failing paths), a MongoDB duplicate-key error [E11000], a
    JavaScript [TypeError], a [SyntaxError] of [JSON.parse], the
    application's [AppError] with its HTTP status code, and the rejection
    of a database call the server could not serve (a [MongoNetworkError]
    or a server selection timeout), a plain [Error] of a library (the
    map's [LngLat]), and the failure of an HTTP request made with
    [axios] (its status, [0] when no response came). *)
Inductive js_error :=
  | ValidationError (paths : list string)
  | DuplicateKey (index : string)
  | TypeError (msg : string)
  | SyntaxError (msg : string)
  | AppError (status : Z)
  | MongoError (msg : string)
  | PlainError (msg : string)
  | AxiosError (status : Z).

Inductive result (A : Type) :=
  | Ok (a : A)
  | Err (e : js_error).
Arguments Ok {A} a.
Arguments Err {A} e.

(** A chain of calls that may throw: the first error is the result. *)
#[export] Instance result_mret : MRet result := @Ok.
#[export] Instance result_mbind : MBind result :=
  fun A B k r => match r with Ok a => k a | Err e => Err e end.

(** ** A state monad with errors and no rollback

    [ST S A] threads the store [S] through a computation.  An error is a
    value and the store reached before it is kept: a mutation that commits
    and is followed by a failing hook returns the new store and the error. *)
Definition ST (S A : Type) : Type := S -> S * result A.

Definition st_ret {S A} (a : A) : ST S A := fun s => (s, Ok a).
Definition st_fail {S A} (e : js_error) : ST S A := fun s => (s, Err e).
Definition st_bind {S A B} (c : ST S A) (k : A -> ST S B) : ST S B :=
  fun s => match c s with
           | (s', Ok a) => k a s'
           | (s', Err e) => (s', Err e)
           end.
Definition st_get {S} : ST S S := fun s => (s, Ok s).
Definition st_modify {S} (f : S -> S) : ST S unit := fun s => (f s, Ok tt).
Definition st_lift {S A} (r : result A) : ST S A := fun s => (s, r).

#[export] Instance st_mret {S} : MRet (ST S) := @st_ret S.
#[export] Instance st_mbind {S} : MBind (ST S) := fun A B k c => st_bind c k.

Lemma st_bind_ret_l {S A B} (a : A) (k : A -> ST S B) s :
  st_bind (st_ret a) k s = k a s.
Proof. reflexivity. Qed.

Lemma st_bind_assoc {S A B C} (c : ST S A) (k : A -> ST S B) (k' : B -> ST S C) s :
  st_bind (st_bind c k) k' s = st_bind c (fun a => st_bind (k a) k') s.
Proof. unfold st_bind. destruct (c s) as [s' [a|e]]; reflexivity. Qed.

(** ** Rationals: JavaScript's [Math.round], sums and means *)

Open Scope Q_scope.

(** [Math.round x]: the integer closest to [x], ties toward +infinity,
    that is [floor (x + 1/2)]. *)
Definition Math_round (x : Q) : Z := Qfloor (x + (1 # 2)).

Definition Qsum (l : list Q) : Q := fold_right Qplus 0 l.

Definition Qmean (l : list Q) : Q := Qsum l / inject_Z (Z.of_nat (length l)).

(** All elements of a list lie in [[lo, hi]]. *)
Definition all_between (lo hi : Q) (l : list Q) : Prop :=
  Forall (fun x => lo <= x <= hi) l.

Create HintDb natours.

(** Rationals compared structurally, so that [decide] can evaluate
    equalities of stored values (kept canonical by [Qred]). *)
#[export] Instance Q_eq_dec : EqDecision Q.
Proof. solve_decision. Defined.

Lemma Qsum_cons x l : Qsum (x :: l) = x + Qsum l.
Proof. reflexivity. Qed.

(** Sums and means do not depend on the order of the ratings (the order
    in which the store yields the reviews), and are compared with [==]:
    both are [Proper], so [rewrite] works under them. *)
#[export] Instance Qsum_perm : Proper ((≡ₚ) ==> Qeq) Qsum.
Proof.
  induction 1 as [|x l1 l2 _ IH|x y l|l1 l2 l3 _ IH1 _ IH2]; simpl.
  - reflexivity.
  - rewrite IH. reflexivity.
  - ring.
  - rewrite IH1, IH2. reflexivity.
Qed.

#[export] Instance Qmean_perm : Proper ((≡ₚ) ==> Qeq) Qmean.
Proof. intros l1 l2 Hp. unfold Qmean. rewrite (Qsum_perm _ _ Hp), (Permutation_length Hp). reflexivity. Qed.

Lemma Qsum_bounds lo hi l :
  all_between lo hi l ->
  inject_Z (Z.of_nat (length l)) * lo <= Qsum l <= inject_Z (Z.of_nat (length l)) * hi.
Proof.
  induction 1 as [|x l [Hlo Hhi] _ [IHlo IHhi]]; simpl length; rewrite ?Qsum_cons.
  - change (inject_Z (Z.of_nat 0)) with 0. simpl. lra.
  - rewrite Nat2Z.inj_succ, <- Z.add_1_l, inject_Z_plus.
    change (inject_Z 1) with 1. split; lra.
Qed.

(** The mean of a nonempty list of values in [[lo, hi]] lies in [[lo, hi]]. *)
Lemma Qmean_bounds lo hi l :
  l <> [] -> all_between lo hi l -> lo <= Qmean l <= hi.
Proof.
  intros Hne Hb. pose proof (Qsum_bounds lo hi l Hb) as [H1 H2].
  unfold Qmean. set (n := inject_Z (Z.of_nat (length l))) in *.
  assert (Hn : 0 < n).
  { unfold n. destruct l as [|x l]; [congruence|]. simpl length.
    change 0 with (inject_Z 0). rewrite <- Zlt_Qlt. lia. }
  split.
  - apply Qle_shift_div_l; [exact Hn|]. rewrite Qmult_comm. exact H1.
  - apply Qle_shift_div_r; [exact Hn|]. rewrite Qmult_comm. exact H2.
Qed.

#[export] Instance Math_round_comp : Proper (Qeq ==> eq) Math_round.
Proof. intros x y H. unfold Math_round. apply Qfloor_comp. rewrite H. reflexivity. Qed.

(** [Math.round] is monotone, and fixes integers. *)
Lemma Math_round_le x y : x <= y -> (Math_round x <= Math_round y)%Z.
Proof. intros H. unfold Math_round. apply Qfloor_resp_le. lra. Qed.

Lemma Math_round_inject_Z z : Math_round (inject_Z z) = z.
Proof.
  unfold Math_round. pose proof (Qfloor_le (inject_Z z + (1#2))) as H1.
  apply Z.le_antisymm.
  - apply Z.lt_succ_r. rewrite Zlt_Qlt. unfold Z.succ. rewrite inject_Z_plus.
    change (inject_Z 1) with 1. lra.
  - rewrite <- (Qfloor_Z z) at 1. apply Qfloor_resp_le. lra.
Qed.


(** ** Lists *)

(** Two maps agree where the functions agree on every element: the step of
    the inductions through arrays and objects. *)
Lemma map_ext_Forall {A B} (f g : A -> B) l : Forall (fun x => f x = g x) l -> map f l = map g l.
Proof. induction 1; cbn; congruence. Qed.

(** ** Tactics shared by the components *)

(** Destruct a [match] on a decision or an option in the goal, remembering
    the equation. *)
Ltac case_match_eqn :=
  match goal with
  | |- context [match ?x with _ => _ end] =>
      let E := fresh "E" in destruct x eqn:E
  end.

Ltac invc H := inversion H; subst; clear H.

(** Unfold the monad's operations, and nothing else. *)
Ltac st_simpl :=
  cbv [mbind mret st_mbind st_mret st_bind st_ret st_fail st_get st_modify st_lift] in *.

(** Prove a decidable proposition, or its negation, about concrete data by
    evaluating its decision procedure. *)
Ltac decide_true := refine (bool_decide_eq_true_1 _ _); vm_compute; reflexivity.
Ltac decide_false := refine (bool_decide_eq_false_1 _ _); vm_compute; reflexivity.
