(* ===== verification/Store.v ===== *)
(** * The document store: Tour and Review documents, Mongoose query
      middleware, and [Tour.findByIdAndUpdate]

    The two Mongoose models of [src/models/tourModel.js] and
    [src/models/reviewModel.js] as records, the store as one [gmap] per
    collection keyed by object id, the dispatch of query middleware on the
    operation's name (Mongoose matches the regular expression of a
    [schema.pre(/^find/, ...)] against the name of the query operation),
    the [ratingsAverage] setter and the tour update that the aggregator
    issues. *)

From S2P Require Import Prelude.

Abbreviation oid := nat (only parsing).

(** ** Tour documents ([tourModel.js], the schema of lines 6-124) *)
Module Tour.

Inductive difficulty := easy | medium | difficult.

(** A GeoJSON point with its optional address and description
    ([startLocation], and each element of [locations] with its [day]). *)
Record geo_point := mk_geo_point {
  geo_type : string;
  coordinates : list Q;
  address : option string;
  geo_description : option string;
}.

Record location := mk_location { loc_point : geo_point; day : option Q }.

Record t := mk {
  name : string;
  slug : option string;
  duration : Q;
  maxGroupSize : Q;
  difficulty_of : difficulty;
  ratingsAverage : Q;
  ratingsQuantity : nat;
  price : Q;
  priceDiscount : option Q;
  summary : string;
  description : option string;
  imageCover : string;
  images : list string;
  createdAt : Z;
  startDates : list Z;
  secretTour : bool;
  startLocation : option geo_point;
  locations : list location;
  guides : list oid;
}.

(** The virtual [durationWeeks] (lines 138-140): [this.duration / 7],
    computed on every read and serialised with the document
    ([toJSON: { virtuals: true }]); it is stored nowhere, so no write
    path has to keep it in step.  The virtual [reviews] (lines 143-149)
    is a populate of the [Review] collection, read only. *)
Definition durationWeeks (T : t) : Q := (duration T / 7)%Q.

(** The setter of [ratingsAverage] (line 41):
    [set: (val) => Math.round(val * 10) / 10].  Mongoose applies it to
    the values of updates as well as of saved documents.  [Qred] picks the
    canonical representative of the rational, as a double has one. *)
Definition ratingsAverage_set (val : Q) : Q :=
  Qred (inject_Z (Math_round (val * 10)) / 10).

(** [ratingsAverage: { default: 4.5 }] (line 37). *)
Definition ratingsAverage_default : Q := 9 # 2.

(** The two fields that [calcAverageRatings] writes, through the setter. *)
Definition set_ratings (quantity : nat) (average : Q) (T : t) : t :=
  mk (name T) (slug T) (duration T) (maxGroupSize T) (difficulty_of T)
     (ratingsAverage_set average) quantity (price T) (priceDiscount T)
     (summary T) (description T) (imageCover T) (images T) (createdAt T)
     (startDates T) (secretTour T) (startLocation T) (locations T) (guides T).

End Tour.

(** ** Review documents ([reviewModel.js], the schema of lines 5-40) *)
Module Review.

Record t := mk {
  review : string;
  rating : Q;
  createdAt : Z;
  tour : oid;
  user : oid;
}.

End Review.

(** ** The store: one collection per model *)
Record store := mk_store {
  tours : gmap oid Tour.t;
  reviews : gmap oid Review.t;
}.

Definition set_tours (m : gmap oid Tour.t) (s : store) : store := mk_store m (reviews s).
Definition set_reviews (m : gmap oid Review.t) (s : store) : store := mk_store (tours s) m.

(** ** Query operations and middleware dispatch

    The operation names Mongoose gives a query; [Model.findByIdAndUpdate]
    and [Model.findByIdAndDelete] run as [findOneAndUpdate] and
    [findOneAndDelete] queries. *)
Inductive query_op :=
  | op_find | op_findOne | op_findOneAndUpdate | op_findOneAndDelete
  | op_updateOne | op_deleteOne | op_countDocuments.

Definition op_name (op : query_op) : string :=
  match op with
  | op_find => "find"
  | op_findOne => "findOne"
  | op_findOneAndUpdate => "findOneAndUpdate"
  | op_findOneAndDelete => "findOneAndDelete"
  | op_updateOne => "updateOne"
  | op_deleteOne => "deleteOne"
  | op_countDocuments => "countDocuments"
  end.

(** A middleware registered with a regular expression [/^p/] runs for the
    operations whose name starts with [p]. *)
Definition hook_applies (prefix : string) (op : query_op) : bool :=
  String.prefix prefix (op_name op).

(** The tour's query middleware [tourSchema.pre(/^find/)] (tourModel.js lines 162-168)
    adds the condition [{ secretTour: { $ne: true } }] to the query; the
    other [pre(/^find/)] (lines 170-176) only populates [guides].  This is
    the condition a tour must meet to be matched by a query [op] on it. *)
Definition tour_query_visible (op : query_op) (T : Tour.t) : bool :=
  if hook_applies "find" op then negb (Tour.secretTour T) else true.

(** [Tour.findByIdAndUpdate(tourId, { ratingsQuantity, ratingsAverage })]
    as issued by [calcAverageRatings] (reviewModel.js lines 61-69): a
    [findOneAndUpdate] on [{ _id: tourId }] extended by the [/^find/]
    middleware, the [ratingsAverage] setter applied to the new value, no
    validators (the call passes no [runValidators]) and no upsert.  It
    returns the document found before the update, or [null]. *)
Definition Tour_findByIdAndUpdate_ratings (id : oid) (quantity : nat) (average : Q)
    : ST store (option Tour.t) :=
  fun s =>
    match tours s !! id with
    | Some T =>
        if tour_query_visible op_findOneAndUpdate T
        then (set_tours (<[id := Tour.set_ratings quantity average T]> (tours s)) s, Ok (Some T))
        else (s, Ok None)
    | None => (s, Ok None)
    end.

(** ** Lemmas *)

#[export] Instance ratingsAverage_set_comp : Proper (Qeq ==> eq) Tour.ratingsAverage_set.
Proof. intros x y H. unfold Tour.ratingsAverage_set. by rewrite H. Qed.

(** The setter keeps the values [1 <= v <= 5] that the schema validator
    demands (tourModel.js lines 39-40): rounding to a tenth cannot leave [[1, 5]]. *)
(** Rounding to a tenth twice is rounding once: the setter is idempotent,
    so rounding again inside the recomputation's write (as the spec's
    section 9 supposes the code does) would change nothing. *)
Lemma ratingsAverage_set_idem v : Tour.ratingsAverage_set (Tour.ratingsAverage_set v) = Tour.ratingsAverage_set v.
Proof.
  unfold Tour.ratingsAverage_set. set (z := Math_round (v * 10)).
  assert (E : Qred (inject_Z z / 10) * 10 == inject_Z z) by (rewrite Qred_correct; field).
  by rewrite E, Math_round_inject_Z.
Qed.

Lemma ratingsAverage_set_bounds v : 1 <= v <= 5 -> 1 <= Tour.ratingsAverage_set v <= 5.
Proof.
  intros [Hlo Hhi]. unfold Tour.ratingsAverage_set. rewrite !Qred_correct.
  assert (H10 : (Math_round (inject_Z 10) <= Math_round (v * 10))%Z)
    by (apply Math_round_le; unfold inject_Z; lra).
  assert (H50 : (Math_round (v * 10) <= Math_round (inject_Z 50))%Z)
    by (apply Math_round_le; unfold inject_Z; lra).
  rewrite Math_round_inject_Z in H10, H50.
  rewrite Zle_Qle in H10, H50. change (inject_Z 10) with (10 # 1) in H10.
  change (inject_Z 50) with (50 # 1) in H50.
  split.
  - apply Qle_shift_div_l; [reflexivity|]. lra.
  - apply Qle_shift_div_r; [reflexivity|]. lra.
Qed.
