(* ===== verification/Reviews.v ===== *)
(** * The RatingAggregator ([src/models/reviewModel.js])

    [calcAverageRatings] with its aggregation pipeline, the abstract
    specification it refines ([refresh_tour]: the tour's aggregate becomes
    the count and rounded mean of its reviews' ratings, or the defaults
    0 / 4.5), review validation and the unique [(tour, user)] index, the
    three mutation paths with their hooks, the consistency invariant and
    its preservation. *)

From S2P Require Import Prelude Store.

Module Aggregate.

(** ** The aggregation pipeline of [calcAverageRatings] (lines 51-58) *)

(** The collection in its natural order. *)
Definition review_docs (rv : gmap oid Review.t) : list Review.t :=
  map snd (map_to_list rv).

(** [{ $match: { tour: tourId } }] *)
Definition match_tour (tourId : oid) (docs : list Review.t) : list Review.t :=
  filter (fun r => Review.tour r = tourId) docs.

(** One output document of [$group]. *)
Record ReviewStat := mk_stat { stat_id : oid; nRating : nat; avgRating : Q }.

(** The [$group] accumulators of one key: [nRating: { $sum: 1 }] and the
    running sum behind [avgRating: { $avg: '$rating' }]. *)
Fixpoint group_add (k : oid) (x : Q) (acc : list (oid * (nat * Q))) : list (oid * (nat * Q)) :=
  match acc with
  | [] => [(k, (1%nat, x))]
  | (k', (n, sm)) :: acc' =>
      if decide (k = k') then (k', (S n, sm + x)) :: acc'
      else (k', (n, sm)) :: group_add k x acc'
  end.

(** [{ $group: { _id: '$tour', nRating: { $sum: 1 }, avgRating: { $avg: '$rating' } } }] *)
Definition group_by_tour (docs : list Review.t) : list ReviewStat :=
  map (fun '(k, (n, sm)) => mk_stat k n (sm / inject_Z (Z.of_nat n)))
      (fold_left (fun acc r => group_add (Review.tour r) (Review.rating r) acc) docs []).

(** [this.aggregate([...])]: reads the review collection. *)
Definition aggregate_ratings (tourId : oid) : ST store (list ReviewStat) :=
  fun s => (s, Ok (group_by_tour (match_tour tourId (review_docs (reviews s))))).

(** [reviewSchema.statics.calcAverageRatings] (lines 50-71). *)
Definition calcAverageRatings (tourId : oid) : ST store unit :=
  stats ← aggregate_ratings tourId;
  match stats with
  | st :: _ =>
      _ ← Tour_findByIdAndUpdate_ratings tourId (nRating st) (avgRating st); mret tt
  | [] =>
      _ ← Tour_findByIdAndUpdate_ratings tourId 0 (9 # 2); mret tt
  end.

(** ** The abstract specification *)

(** The ratings of the reviews of a tour. *)
Definition tour_ratings (tourId : oid) (rv : gmap oid Review.t) : list Q :=
  map Review.rating (match_tour tourId (review_docs rv)).

(** What a tour's [(ratingsQuantity, ratingsAverage)] should be given
    the ratings of its reviews, before the setter rounds the average. *)
Definition rating_summary (rs : list Q) : nat * Q :=
  match rs with
  | [] => (0%nat, 9 # 2)
  | _ => (length rs, Qmean rs)
  end.

(** Recompute: the visible tour [tourId] gets the summary of its
    reviews; a secret or missing tour is left alone. *)
Definition refresh_tour (tourId : oid) (s : store) : store :=
  match tours s !! tourId with
  | Some T =>
      if Tour.secretTour T then s
      else let '(n, a) := rating_summary (tour_ratings tourId (reviews s)) in
           set_tours (<[tourId := Tour.set_ratings n a T]> (tours s)) s
  | None => s
  end.

(** The pair a tour stores for the given ratings, after the setter. *)
Definition stored_summary (rs : list Q) : nat * Q :=
  let '(n, a) := rating_summary rs in (n, Tour.ratingsAverage_set a).

(** A tour agrees with its reviews. *)
Definition tour_consistent (rv : gmap oid Review.t) (tourId : oid) (T : Tour.t) : Prop :=
  (Tour.ratingsQuantity T, Tour.ratingsAverage T) = stored_summary (tour_ratings tourId rv).

(** The invariant the aggregator maintains: every tour that queries can
    see agrees with its reviews. *)
Definition aggregates_consistent (s : store) : Prop :=
  map_Forall (fun id T => Tour.secretTour T = false -> tour_consistent (reviews s) id T) (tours s).

(** ** Lemmas on the pipeline *)

Lemma fold_Qplus_sum (l : list Q) sm : fold_left Qplus l sm == sm + Qsum l.
Proof.
  revert sm. induction l as [|x l IH]; intros sm; simpl.
  - ring.
  - rewrite IH. ring.
Qed.

Lemma group_fold_same_key tourId docs n sm :
  Forall (fun r => Review.tour r = tourId) docs ->
  fold_left (fun acc r => group_add (Review.tour r) (Review.rating r) acc) docs [(tourId, (n, sm))]
  = [(tourId, ((n + length docs)%nat, fold_left Qplus (map Review.rating docs) sm))].
Proof.
  intros Hall. revert n sm.
  induction Hall as [|r docs Hr _ IH]; intros n sm; simpl.
  - by rewrite Nat.add_0_r.
  - rewrite Hr, decide_True by reflexivity. rewrite IH. do 3 f_equal. lia.
Qed.

(** The pipeline on the matched documents: no output when nothing
    matched, else one group with the count and the running sum. *)
Lemma group_by_tour_matched tourId docs :
  group_by_tour (match_tour tourId docs) =
  match map Review.rating (match_tour tourId docs) with
  | [] => []
  | x :: xs => [mk_stat tourId (length (x :: xs))
                 (fold_left Qplus xs x / inject_Z (Z.of_nat (length (x :: xs))))]
  end.
Proof.
  unfold group_by_tour.
  assert (Hall : Forall (fun r => Review.tour r = tourId) (match_tour tourId docs)).
  { apply Forall_forall. intros r Hr. unfold match_tour in Hr.
    rewrite list_elem_of_filter in Hr. tauto. }
  destruct (match_tour tourId docs) as [|r rs]; [reflexivity|].
  apply Forall_cons in Hall as [Hr Hrs]. simpl. rewrite Hr.
  rewrite group_fold_same_key by exact Hrs. simpl. rewrite length_map. reflexivity.
Qed.

Lemma set_ratings_secret n a T : Tour.secretTour (Tour.set_ratings n a T) = Tour.secretTour T.
Proof. reflexivity. Qed.

Lemma set_ratings_twice n a n' a' T :
  Tour.set_ratings n a (Tour.set_ratings n' a' T) = Tour.set_ratings n a T.
Proof. reflexivity. Qed.

Lemma set_ratings_comp n a b T :
  Tour.ratingsAverage_set a = Tour.ratingsAverage_set b ->
  Tour.set_ratings n a T = Tour.set_ratings n b T.
Proof. intros H. unfold Tour.set_ratings. by rewrite H. Qed.

(** The average the pipeline hands to the setter rounds like the mean. *)
Lemma pipeline_average_set x xs :
  Tour.ratingsAverage_set (fold_left Qplus xs x / inject_Z (Z.of_nat (length (x :: xs))))
  = Tour.ratingsAverage_set (Qmean (x :: xs)).
Proof.
  apply ratingsAverage_set_comp. unfold Qmean. rewrite fold_Qplus_sum.
  reflexivity.
Qed.

(** ** Refinement: the code implements the specification

    [calcAverageRatings tourId] (the aggregation pipeline followed by
    [Tour.findByIdAndUpdate]) has exactly the effect of [refresh_tour],
    and never fails. *)


Lemma calcAverageRatings_eq tourId s :
  calcAverageRatings tourId s = (refresh_tour tourId s, Ok tt).
Proof.
  unfold calcAverageRatings, aggregate_ratings, refresh_tour, tour_ratings.
  st_simpl.
  rewrite group_by_tour_matched.
  destruct (map Review.rating _) as [|x xs] eqn:E;
    unfold Tour_findByIdAndUpdate_ratings, tour_query_visible;
    destruct (tours s !! tourId) as [T|]; try reflexivity;
    destruct (Tour.secretTour T); try reflexivity; simpl.
  by rewrite (set_ratings_comp _ _ _ T (pipeline_average_set x xs)).
Qed.
(** ** Lemmas on the invariant *)

Lemma stored_summary_perm l1 l2 : l1 ≡ₚ l2 -> stored_summary l1 = stored_summary l2.
Proof.
  intros Hp. destruct l1 as [|x l1], l2 as [|y l2].
  - reflexivity.
  - apply Permutation_nil_l in Hp. discriminate.
  - apply Permutation_nil_r in Hp. discriminate.
  - unfold stored_summary, rating_summary. rewrite (Permutation_length Hp).
    by rewrite Hp.
Qed.

Lemma tour_consistent_perm rv rv' tourId T :
  tour_ratings tourId rv' ≡ₚ tour_ratings tourId rv ->
  tour_consistent rv tourId T -> tour_consistent rv' tourId T.
Proof. unfold tour_consistent. intros Hp ->. by apply stored_summary_perm. Qed.

(** The ratings a single review contributes to a tour. *)
Definition own_rating (tourId : oid) (r : Review.t) : list Q :=
  if decide (Review.tour r = tourId) then [Review.rating r] else [].

Lemma tour_ratings_insert_fresh tourId rv id r :
  rv !! id = None ->
  tour_ratings tourId (<[id := r]> rv) ≡ₚ own_rating tourId r ++ tour_ratings tourId rv.
Proof.
  intros Hfresh. unfold tour_ratings, match_tour, review_docs, own_rating.
  rewrite (map_to_list_insert rv id r Hfresh). simpl.
  rewrite filter_cons. by case_decide.
Qed.

Lemma tour_ratings_delete tourId rv id r :
  rv !! id = Some r ->
  tour_ratings tourId rv ≡ₚ own_rating tourId r ++ tour_ratings tourId (delete id rv).
Proof.
  intros Hin. rewrite <- (insert_delete_id rv id r Hin) at 1.
  apply tour_ratings_insert_fresh, lookup_delete_eq.
Qed.

Lemma tour_ratings_insert_existing tourId rv id old r :
  rv !! id = Some old ->
  tour_ratings tourId (<[id := r]> rv) ≡ₚ own_rating tourId r ++ tour_ratings tourId (delete id rv).
Proof.
  intros Hin. rewrite <- insert_delete_eq.
  apply tour_ratings_insert_fresh, lookup_delete_eq.
Qed.

Lemma own_rating_other tourId r : Review.tour r <> tourId -> own_rating tourId r = [].
Proof. intros H. unfold own_rating. by case_decide. Qed.

Lemma tour_ratings_In x t rv :
  In x (tour_ratings t rv) ->
  exists i r, rv !! i = Some r /\ Review.tour r = t /\ Review.rating r = x.
Proof.
  unfold tour_ratings, match_tour, review_docs. intros Hx.
  apply in_map_iff in Hx as [r [<- Hr]].
  apply list_elem_of_In, list_elem_of_filter in Hr as [Ht Hr].
  apply list_elem_of_In, in_map_iff in Hr as [[i r'] [Heq Hin]]. simpl in Heq. subst r'.
  apply list_elem_of_In, elem_of_map_to_list in Hin. eauto.
Qed.

End Aggregate.

Module Mutations.
Import Aggregate.

(** ** Documents as the client sends them *)

(** The body of a create request: every field may be missing. *)
Record ReviewInput := mk_input {
  in_review : option string;
  in_rating : option Q;
  in_createdAt : option Z;
  in_tour : option oid;
  in_user : option oid;
}.

(** The body of an update request: the fields to [$set]. *)
Record ReviewUpdate := mk_update {
  up_review : option string;
  up_rating : option Q;
  up_createdAt : option Z;
  up_tour : option oid;
  up_user : option oid;
}.

(** ** Validators of the schema (lines 7-32) *)

(** [review]: [required], [maxLength: 150], [minLength: 10]; the empty
    string, which [required] refuses, is also too short. *)
Definition review_text_ok (txt : string) : bool :=
  (10 <=? String.length txt)%nat && (String.length txt <=? 150)%nat.

(** [rating]: [required], [min: 1], [max: 5]. *)
Definition rating_ok (q : Q) : bool := Qle_bool 1 q && Qle_bool q 5.

Definition path_error (path : string) (ok : bool) : list string :=
  if ok then [] else [path].

(** The paths that fail validation, in schema order. *)
Definition review_errors (d : ReviewInput) : list string :=
  path_error "review" (default false (review_text_ok <$> in_review d)) ++
  path_error "rating" (default false (rating_ok <$> in_rating d)) ++
  path_error "tour" (bool_decide (is_Some (in_tour d))) ++
  path_error "user" (bool_decide (is_Some (in_user d))).

(** The update validators ([runValidators: true]) check only the paths
    the update sets. *)
Definition update_errors (u : ReviewUpdate) : list string :=
  path_error "review" (default true (review_text_ok <$> up_review u)) ++
  path_error "rating" (default true (rating_ok <$> up_rating u)).

(** A stored review passes its validators. *)
Definition review_valid (r : Review.t) : Prop :=
  review_text_ok (Review.review r) = true /\ rating_ok (Review.rating r) = true.

(** ** The unique index [{ tour: 1, user: 1 }] (line 74) *)

(** Another document than [self] already holds the pair. *)
Definition pair_taken (rv : gmap oid Review.t) (self t u : oid) : bool :=
  existsb (fun '(i, r) => bool_decide (i <> self /\ Review.tour r = t /\ Review.user r = u))
          (map_to_list rv).

Definition reviews_unique (rv : gmap oid Review.t) : Prop :=
  forall i j ri rj, rv !! i = Some ri -> rv !! j = Some rj ->
    Review.tour ri = Review.tour rj -> Review.user ri = Review.user rj -> i = j.

Section WithSchema.

(** [createdAt: { default: Date.now() }] (line 21) evaluates [Date.now()]
once, when the schema is built at start-up: every review created
without a date gets this same instant. *)
Context (schema_loaded_at : Z).

(** Build the document and run the validators of [save]. *)
Definition review_validate (d : ReviewInput) : result Review.t :=
match in_review d, in_rating d, in_tour d, in_user d with
| Some txt, Some q, Some t, Some u =>
  if review_text_ok txt && rating_ok q
  then Ok (Review.mk txt q (default schema_loaded_at (in_createdAt d)) t u)
  else Err (ValidationError (review_errors d))
| _, _, _, _ => Err (ValidationError (review_errors d))
end.

(** [insertOne]: the primary key and the unique index are checked by the
database. *)
Definition insertOne (id : oid) (r : Review.t) : ST store unit :=
fun s =>
match reviews s !! id with
| Some _ => (s, Err (DuplicateKey "_id_"))
| None =>
    if pair_taken (reviews s) id (Review.tour r) (Review.user r)
    then (s, Err (DuplicateKey "tour_1_user_1"))
    else (set_reviews (<[id := r]> (reviews s)) s, Ok tt)
end.

(** [reviewSchema.post('save')] (lines 77-80):
[this.constructor.calcAverageRatings(this.tour)]. *)
Definition post_save (r : Review.t) : ST store unit :=
calcAverageRatings (Review.tour r).

(** [Review.create(body)]: validate, insert, then the post-save hook. *)
Definition Review_create (id : oid) (d : ReviewInput) : ST store Review.t :=
r ← st_lift (review_validate d);
insertOne id r;;
post_save r;;
mret r.

End WithSchema.

(** ** Update and delete by id, with the two-phase hook *)

(** [this.findOne()] on the query's condition [{ _id: id }]. *)
Definition findOne (id : oid) : ST store (option Review.t) :=
  fun s => (s, Ok (reviews s !! id)).

(** [reviewSchema.post(/^findOneAnd/)] (lines 89-92):
    [await this.r.constructor.calcAverageRatings(this.r.tour)].  When the
    pre hook found no document, [this.r] is [null] and reading
    [this.r.constructor] throws. *)
Definition post_findOneAnd (captured : option Review.t) : ST store unit :=
  match captured with
  | Some r => calcAverageRatings (Review.tour r)
  | None => st_fail (TypeError "Cannot read properties of null (reading 'constructor')")
  end.

(** A query [op] on [{ _id: id }] whose own work is [exec], with the
    middleware [reviewSchema.pre(/^findOneAnd/)] (lines 82-87, which keeps
    [this.r = await this.findOne()]) and [post(/^findOneAnd/)] around it.
    An error of [exec] skips the post hook. *)
Definition run_query {A} (op : query_op) (id : oid) (exec : ST store A) : ST store A :=
  if hook_applies "findOneAnd" op then
    captured ← findOne id;
    res ← exec;
    post_findOneAnd captured;;
    mret res
  else exec.

Definition apply_update (u : ReviewUpdate) (r : Review.t) : Review.t :=
  Review.mk (default (Review.review r) (up_review u)) (default (Review.rating r) (up_rating u))
            (default (Review.createdAt r) (up_createdAt u)) (default (Review.tour r) (up_tour u))
            (default (Review.user r) (up_user u)).

(** The [findOneAndUpdate] itself with [{ new: true, runValidators: true }]:
    update validators first, then the update, checked by the unique
    index; the updated document, or [null]. *)
Definition update_exec (id : oid) (u : ReviewUpdate) : ST store (option Review.t) :=
  fun s =>
    match update_errors u with
    | [] =>
        match reviews s !! id with
        | None => (s, Ok None)
        | Some old =>
            let r := apply_update u old in
            if pair_taken (reviews s) id (Review.tour r) (Review.user r)
            then (s, Err (DuplicateKey "tour_1_user_1"))
            else (set_reviews (<[id := r]> (reviews s)) s, Ok (Some r))
        end
    | errs => (s, Err (ValidationError errs))
    end.

(** The [findOneAndDelete] itself: the deleted document, or [null]. *)
Definition delete_exec (id : oid) : ST store (option Review.t) :=
  fun s =>
    match reviews s !! id with
    | None => (s, Ok None)
    | Some r => (set_reviews (delete id (reviews s)) s, Ok (Some r))
    end.

Definition Review_findByIdAndUpdate (id : oid) (u : ReviewUpdate) : ST store (option Review.t) :=
  run_query op_findOneAndUpdate id (update_exec id u).

Definition Review_findByIdAndDelete (id : oid) : ST store (option Review.t) :=
  run_query op_findOneAndDelete id (delete_exec id).

(** The two operations the aggregation hooks run for. *)
Lemma findOneAnd_hooks_run :
  hook_applies "findOneAnd" op_findOneAndUpdate = true /\
  hook_applies "findOneAnd" op_findOneAndDelete = true.
Proof. split; reflexivity. Qed.

(** ... and one that they do not: a plain [findOne] (e.g. [getReview]). *)
Lemma findOneAnd_hooks_skip_findOne : hook_applies "findOneAnd" op_findOne = false.
Proof. reflexivity. Qed.

(** ** The controllers ([handlerFactory.js], [reviewController.js]) *)

(** [setTourUserIds]: the tour from the route, the user from the login. *)
Definition setTourUserIds (paramTourId : option oid) (currentUser : oid) (d : ReviewInput)
    : ReviewInput :=
  mk_input (in_review d) (in_rating d) (in_createdAt d)
           (match in_tour d with Some t => Some t | None => paramTourId end)
           (match in_user d with Some u => Some u | None => Some currentUser end).

Definition createReview (schema_loaded_at : Z) (paramTourId : option oid) (currentUser : oid)
    (id : oid) (body : ReviewInput) : ST store Review.t :=
  Review_create schema_loaded_at id (setTourUserIds paramTourId currentUser body).

(** [factory.updateOne(Review)]: [404] when no document was updated. *)
Definition updateReview (id : oid) (u : ReviewUpdate) : ST store Review.t :=
  doc ← Review_findByIdAndUpdate id u;
  match doc with
  | Some d => mret d
  | None => st_fail (AppError 404)
  end.

(** [factory.deleteOne(Review)]: [404] when no document was deleted. *)
Definition deleteReview (id : oid) : ST store unit :=
  doc ← Review_findByIdAndDelete id;
  match doc with
  | Some _ => mret tt
  | None => st_fail (AppError 404)
  end.

End Mutations.
