(* ===== verification/Samples.v ===== *)
(** * Sample documents and stores

    Concrete tours, request bodies and stores on which the theorems of
    [Consistency.v] are instantiated and the scenarios of the spec are
    evaluated. *)

From S2P Require Import Prelude Store Reviews.
Import Aggregate Mutations.

Definition sample_tour (nm : string) (secret : bool) : Tour.t :=
  Tour.mk nm None 5 25 Tour.easy Tour.ratingsAverage_default 0 397 None
          "Breathtaking hike through the national park" None "tour-cover.jpg" [] 0 [] secret
          None [] [].

(** Two visible tours (ids 1 and 2) and a secret one (id 3), no review. *)
Definition sample_store : store :=
  mk_store (<[1%nat := sample_tour "The Forest Hiker" false]>
            (<[2%nat := sample_tour "The Sea Explorer" false]>
             (<[3%nat := sample_tour "The Secret Lagoon" true]> ∅))) ∅.

(** A review body with a text of valid length and the given rating; the
    tour and user come from the route and the login ([setTourUserIds]). *)
Definition sample_body (q : Q) : ReviewInput :=
  mk_input (Some "Amazing tour, the guides were great!") (Some q) None None None.

Definition rating_update (q : Q) : ReviewUpdate := mk_update None (Some q) None None None.

Definition move_update (t : oid) : ReviewUpdate := mk_update None None None (Some t) None.

(** What a tour shows: [(ratingsQuantity, ratingsAverage)]. *)
Definition summary_of (s : store) (t : oid) : option (nat * Q) :=
  (fun T => (Tour.ratingsQuantity T, Tour.ratingsAverage T)) <$> tours s !! t.

(** Users 10, 11, 12 review tour 1 with 3, 4 and 5 (review ids 100-102). *)
Definition after_three : store :=
  fst (createReview 0 (Some 1%nat) 12 102 (sample_body 5)
    (fst (createReview 0 (Some 1%nat) 11 101 (sample_body 4)
      (fst (createReview 0 (Some 1%nat) 10 100 (sample_body 3) sample_store))))).

(** User 10 reviews tour 1 with 5 (review id 100). *)
Definition after_one : store :=
  fst (createReview 0 (Some 1%nat) 10 100 (sample_body 5) sample_store).

(** Tour 1 as [after_three] stores it. *)
Definition hiker_after_three : Tour.t :=
  Tour.set_ratings 3 4 (sample_tour "The Forest Hiker" false).

(** The review [after_one] holds under id 100. *)
Definition review_100 : Review.t := Review.mk "Amazing tour, the guides were great!" 5 0 1 10.
