(* ===== verification/Aggregator.v ===== *)
(** * The RatingAggregator's contract with the mutation paths

    The spec (section 6) states what the aggregator offers the mutation
    paths: a hook after a review is created, and for the mutations by
    identifier a capture before the mutation and a hook after it that uses
    the captured document.  The class [RatingAggregator] states these
    operations with the effect each must have on the store; the mutation
    paths, written once over the class with the captured context passed
    explicitly (the design of the spec's section 9), keep the aggregates
    consistent for every instance.  The code's Mongoose hooks
    ([reviewModel.js], lines 77-92) are one instance, and the generic paths
    are the code's [Review.create], [findByIdAndUpdate] and
    [findByIdAndDelete]; the spec's variant, whose post hook does nothing
    when nothing was captured, is another. *)

From S2P Require Import Prelude Store Reviews.
Import Aggregate Mutations.

(** ** Recompute restores the invariant *)

(** Every visible tour except [t] agrees with its reviews. *)
Definition consistent_except (t : oid) (s : store) : Prop :=
  map_Forall (fun id T => id <> t -> Tour.secretTour T = false -> tour_consistent (reviews s) id T)
             (tours s).

Lemma consistent_except_weaken t s : aggregates_consistent s -> consistent_except t s.
Proof. intros H id T Hid _. by apply H. Qed.

Lemma refresh_tour_reviews t s : reviews (refresh_tour t s) = reviews s.
Proof.
  unfold refresh_tour. destruct (tours s !! t); [|done].
  destruct (Tour.secretTour _); [done|]. by destruct (rating_summary _).
Qed.

Lemma refresh_restores t s : consistent_except t s -> aggregates_consistent (refresh_tour t s).
Proof.
  intros H. unfold refresh_tour.
  destruct (tours s !! t) as [T|] eqn:Ht.
  2: { intros id T' Hid Hs. apply (H id T' Hid); [congruence|done]. }
  destruct (Tour.secretTour T) eqn:Hsec.
  { intros id T' Hid Hs. apply (H id T' Hid); [congruence|done]. }
  destruct (rating_summary _) as [n a] eqn:Hsum.
  intros id T' Hid Hs. simpl in *. rewrite lookup_insert in Hid.
  case_decide; simplify_eq.
  - unfold tour_consistent, stored_summary. by rewrite Hsum.
  - by apply H.
Qed.

(** Changing the reviews of tour [t] only keeps every other tour right. *)
Lemma consistent_except_reviews t s rv' :
  consistent_except t s ->
  (forall t', t' <> t -> tour_ratings t' rv' ≡ₚ tour_ratings t' (reviews s)) ->
  consistent_except t (set_reviews rv' s).
Proof.
  intros H Hp id T Hid Hne Hs. simpl in *.
  apply (tour_consistent_perm (reviews s)); [by apply Hp|]. by apply H.
Qed.

#[export] Hint Resolve consistent_except_weaken refresh_restores : natours.

(** Inserting a review of tour [t] leaves the ratings of the other tours. *)
Lemma ratings_insert_other rv id r t' :
  rv !! id = None -> t' <> Review.tour r ->
  tour_ratings t' (<[id := r]> rv) ≡ₚ tour_ratings t' rv.
Proof.
  intros Hf Hne. rewrite tour_ratings_insert_fresh by done.
  by rewrite own_rating_other by congruence.
Qed.

Lemma ratings_delete_other rv id r t' :
  rv !! id = Some r -> t' <> Review.tour r ->
  tour_ratings t' (delete id rv) ≡ₚ tour_ratings t' rv.
Proof.
  intros Hin Hne. rewrite (tour_ratings_delete t' rv id r Hin).
  by rewrite own_rating_other by congruence.
Qed.

Lemma ratings_replace_other rv id old r t' :
  rv !! id = Some old -> t' <> Review.tour r -> t' <> Review.tour old ->
  tour_ratings t' (<[id := r]> rv) ≡ₚ tour_ratings t' rv.
Proof.
  intros Hin Hne Hne'. rewrite (tour_ratings_insert_existing t' rv id old r Hin).
  rewrite own_rating_other by congruence. simpl.
  by apply ratings_delete_other with old.
Qed.


(** ** The contract *)

(** What the aggregator offers the mutation paths (spec, section 6), with
    the effect on the store that each operation must have. *)
Class RatingAggregator := {
  (** [onReviewCreated(review)] *)
  on_review_created : Review.t -> ST store unit;
  (** [beforeReviewMutationByIdentifier(identifier) -> capturedContext] *)
  before_mutation : oid -> ST store (option Review.t);
  (** [afterReviewMutationByIdentifier(capturedContext)] *)
  after_mutation : option Review.t -> ST store unit;
  on_review_created_effect r s : fst (on_review_created r s) = refresh_tour (Review.tour r) s;
  before_mutation_reads id s : before_mutation id s = (s, Ok (reviews s !! id));
  after_mutation_some r s : fst (after_mutation (Some r) s) = refresh_tour (Review.tour r) s;
  after_mutation_none s : fst (after_mutation None s) = s;
}.

Section Paths.
Context `{RatingAggregator}.

(** Creation: validate, insert under the unique indexes, then the hook. *)
Definition create_path (sl : Z) (id : oid) (d : ReviewInput) : ST store Review.t :=
  r ← st_lift (review_validate sl d);
  insertOne id r;;
  on_review_created r;;
  mret r.

(** A mutation by identifier: capture, mutate, then the hook on the
    captured context. *)
Definition by_id_path {A} (id : oid) (exec : ST store A) : ST store A :=
  ctx ← before_mutation id;
  res ← exec;
  after_mutation ctx;;
  mret res.

Lemma create_path_state sl id d s :
  fst (create_path sl id d s) =
  match review_validate sl d with
  | Ok r =>
      if bool_decide (reviews s !! id = None) && negb (pair_taken (reviews s) id (Review.tour r) (Review.user r))
      then refresh_tour (Review.tour r) (set_reviews (<[id := r]> (reviews s)) s)
      else s
  | Err _ => s
  end.
Proof.
  unfold create_path, insertOne. st_simpl.
  destruct (review_validate sl d) as [r|e]; [|done].
  destruct (reviews s !! id); [by rewrite bool_decide_false|]. rewrite bool_decide_true by done. cbn.
  destruct (pair_taken _ _ _ _); [done|]. cbn.
  rewrite <- on_review_created_effect. by destruct (on_review_created r _) as [s2 [[]|e]].
Qed.

Lemma by_id_path_state {A} id (exec : ST store A) s :
  fst (by_id_path id exec s) =
  match snd (exec s) with
  | Ok _ => match reviews s !! id with
            | Some r => refresh_tour (Review.tour r) (fst (exec s))
            | None => fst (exec s)
            end
  | Err _ => fst (exec s)
  end.
Proof.
  unfold by_id_path. st_simpl. rewrite before_mutation_reads. st_simpl.
  destruct (exec s) as [s1 [x|e]]; [|done]. cbn.
  destruct (reviews s !! id) as [r|].
  - rewrite <- after_mutation_some. by destruct (after_mutation (Some r) s1) as [s2 [[]|e]].
  - rewrite <- (after_mutation_none s1) at 2. by destruct (after_mutation None s1) as [s2 [[]|e]].
Qed.

(** Every creation keeps the aggregates consistent. *)
Lemma create_path_consistent sl id d s :
  aggregates_consistent s -> aggregates_consistent (fst (create_path sl id d s)).
Proof.
  intros Hs. rewrite create_path_state.
  destruct (review_validate sl d) as [r|]; [|done]. destruct (_ && _) eqn:E; [|done].
  apply andb_true_iff in E as [E _]. apply bool_decide_eq_true in E.
  apply refresh_restores, consistent_except_reviews; [auto with natours|].
  intros t' Hne. by apply ratings_insert_other.
Qed.

(** Every deletion by identifier keeps them consistent. *)
Lemma by_id_delete_consistent id s :
  aggregates_consistent s -> aggregates_consistent (fst (by_id_path id (delete_exec id) s)).
Proof.
  intros Hs. rewrite by_id_path_state. unfold delete_exec.
  destruct (reviews s !! id) as [r|] eqn:Hr; [|done]. cbn.
  apply refresh_restores, consistent_except_reviews; [auto with natours|].
  intros t' Hne. by apply ratings_delete_other with r.
Qed.

(** An update by identifier that leaves the review on its tour. *)
Definition keeps_tour (rv : gmap oid Review.t) (id : oid) (u : ReviewUpdate) : Prop :=
  forall old, rv !! id = Some old -> Review.tour (apply_update u old) = Review.tour old.

Lemma by_id_update_consistent id u s :
  keeps_tour (reviews s) id u -> aggregates_consistent s ->
  aggregates_consistent (fst (by_id_path id (update_exec id u) s)).
Proof.
  intros Hkeep Hs. rewrite by_id_path_state. unfold update_exec.
  destruct (update_errors u); [|done]. destruct (reviews s !! id) as [old|] eqn:Ho; [|done].
  destruct (pair_taken _ _ _ _); [done|]. cbn.
  apply refresh_restores, consistent_except_reviews; [auto with natours|].
  intros t' Hne. apply ratings_replace_other with old; [done| |done]. by rewrite Hkeep.
Qed.

End Paths.

(** ** The code's hooks are an instance *)

(** [post('save')] calls [calcAverageRatings(this.tour)]; the pre hook of
    [/^findOneAnd/] keeps [this.r = await this.findOne()]; the post hook
    calls [calcAverageRatings(this.r.tour)], and throws when [this.r] is
    [null]. *)
#[export] Instance code_aggregator : RatingAggregator.
Proof.
  refine {| on_review_created := post_save; before_mutation := findOne; after_mutation := post_findOneAnd |}.
  - intros r s. unfold post_save. by rewrite calcAverageRatings_eq.
  - done.
  - intros r s. cbn. by rewrite calcAverageRatings_eq.
  - done.
Defined.

(** The spec's variant: the post hook does nothing without a captured
    document. *)
Definition spec_after_mutation (ctx : option Review.t) : ST store unit :=
  match ctx with
  | Some r => calcAverageRatings (Review.tour r)
  | None => mret tt
  end.

#[export] Instance spec_aggregator : RatingAggregator.
Proof.
  refine {| on_review_created := post_save; before_mutation := findOne; after_mutation := spec_after_mutation |}.
  - intros r s. unfold post_save. by rewrite calcAverageRatings_eq.
  - done.
  - intros r s. cbn. by rewrite calcAverageRatings_eq.
  - done.
Defined.

(** The generic paths over the code's instance are the code's
    [Review.create], [findByIdAndUpdate] and [findByIdAndDelete]. *)
Lemma create_path_code sl id d s : @create_path code_aggregator sl id d s = Review_create sl id d s.
Proof. reflexivity. Qed.

Lemma by_id_update_code id u s :
  @by_id_path code_aggregator _ id (update_exec id u) s = Review_findByIdAndUpdate id u s.
Proof. unfold Review_findByIdAndUpdate, run_query. by rewrite (proj1 findOneAnd_hooks_run). Qed.

Lemma by_id_delete_code id s :
  @by_id_path code_aggregator _ id (delete_exec id) s = Review_findByIdAndDelete id s.
Proof. unfold Review_findByIdAndDelete, run_query. by rewrite (proj2 findOneAnd_hooks_run). Qed.
