(* ===== verification/Consistency.v ===== *)
(** * The aggregate invariant of the RatingAggregator

    The store effect of each mutation path of [Reviews.v] as a function of
    the store, the preservation of [aggregates_consistent] by every path
    that keeps a review on its tour, the reachability theorem over the step
    relation of all such mutations, and the well-formedness invariants of
    the review collection (validators, unique index). *)

From S2P Require Import Prelude Store Reviews Samples Aggregator.
Import Aggregate Mutations.

(** ** The store effect of each mutation path *)

Lemma Review_create_state sl id d s :
  fst (Review_create sl id d s) =
  match review_validate sl d with
  | Ok r =>
      if bool_decide (reviews s !! id = None) && negb (pair_taken (reviews s) id (Review.tour r) (Review.user r))
      then refresh_tour (Review.tour r) (set_reviews (<[id := r]> (reviews s)) s)
      else s
  | Err _ => s
  end.
Proof.
  unfold Review_create, insertOne, post_save. st_simpl.
  destruct (review_validate sl d) as [r|e]; [|done].
  destruct (reviews s !! id).
  { by rewrite bool_decide_false. }
  rewrite bool_decide_true by done. simpl.
  destruct (pair_taken _ _ _ _); [done|]. simpl.
  by rewrite calcAverageRatings_eq.
Qed.

Lemma Review_findByIdAndUpdate_state id u s :
  fst (Review_findByIdAndUpdate id u s) =
  match reviews s !! id with
  | Some old =>
      if bool_decide (update_errors u = [])
         && negb (pair_taken (reviews s) id (Review.tour (apply_update u old))
                                            (Review.user (apply_update u old)))
      then refresh_tour (Review.tour old) (set_reviews (<[id := apply_update u old]> (reviews s)) s)
      else s
  | None => s
  end.
Proof.
  unfold Review_findByIdAndUpdate, run_query, findOne, update_exec, post_findOneAnd.
  rewrite (proj1 findOneAnd_hooks_run). st_simpl.
  destruct (update_errors u) eqn:Eu.
  2: { rewrite bool_decide_false by done. destruct (reviews s !! id); simpl; try done. }
  rewrite bool_decide_true by done.
  destruct (reviews s !! id) as [old|]; [|done]. simpl.
  destruct (pair_taken _ _ _ _); [done|]. simpl.
  by rewrite calcAverageRatings_eq.
Qed.

Lemma Review_findByIdAndDelete_state id s :
  fst (Review_findByIdAndDelete id s) =
  match reviews s !! id with
  | Some r => refresh_tour (Review.tour r) (set_reviews (delete id (reviews s)) s)
  | None => s
  end.
Proof.
  unfold Review_findByIdAndDelete, run_query, findOne, delete_exec, post_findOneAnd.
  rewrite (proj2 findOneAnd_hooks_run). st_simpl.
  destruct (reviews s !! id) as [r|]; [|done]. simpl.
  by rewrite calcAverageRatings_eq.
Qed.

Lemma updateReview_state id u s :
  fst (updateReview id u s) = fst (Review_findByIdAndUpdate id u s).
Proof.
  unfold updateReview. st_simpl.
  destruct (Review_findByIdAndUpdate id u s) as [s' [[d|]|e]]; reflexivity.
Qed.

Lemma deleteReview_state id s :
  fst (deleteReview id s) = fst (Review_findByIdAndDelete id s).
Proof.
  unfold deleteReview. st_simpl.
  destruct (Review_findByIdAndDelete id s) as [s' [[d|]|e]]; reflexivity.
Qed.

(** ** Preservation of the aggregate invariant *)

(** Creating a review keeps the invariant. *)
Lemma create_preserves sl tourParam user id body s :
  aggregates_consistent s ->
  aggregates_consistent (fst (createReview sl tourParam user id body s)).
Proof. intros H. unfold createReview. rewrite <- create_path_code. by apply create_path_consistent. Qed.

(** Deleting a review keeps the invariant. *)
Lemma delete_preserves id s :
  aggregates_consistent s -> aggregates_consistent (fst (deleteReview id s)).
Proof. intros H. rewrite deleteReview_state, <- by_id_delete_code. by apply by_id_delete_consistent. Qed.

Lemma keeps_tour_no_set rv id u : up_tour u = None -> keeps_tour rv id u.
Proof. intros Hu old _. unfold apply_update. simpl. by rewrite ?Hu. Qed.

(** An update that keeps the tour keeps the invariant. *)
Lemma update_preserves id u s :
  keeps_tour (reviews s) id u ->
  aggregates_consistent s -> aggregates_consistent (fst (updateReview id u s)).
Proof.
  intros Hkeep H. rewrite updateReview_state, <- by_id_update_code. by apply by_id_update_consistent.
Qed.

(** ** The step relation of the review mutations

    Any request of the three mutation paths, and any stand-alone
    recomputation; an update is the one the spec allows (it does not set
    [tour]). *)
Inductive mutation (sl : Z) : store -> store -> Prop :=
  | mut_create tourParam user id body s :
      mutation sl s (fst (createReview sl tourParam user id body s))
  | mut_update id u s :
      up_tour u = None -> mutation sl s (fst (updateReview id u s))
  | mut_delete id s :
      mutation sl s (fst (deleteReview id s))
  | mut_recompute t s :
      mutation sl s (fst (calcAverageRatings t s)).

Lemma calcAverageRatings_consistent t s :
  aggregates_consistent s -> aggregates_consistent (fst (calcAverageRatings t s)).
Proof. intros H. rewrite calcAverageRatings_eq. simpl. auto with natours. Qed.

Lemma mutation_consistent sl s s' :
  mutation sl s s' -> aggregates_consistent s -> aggregates_consistent s'.
Proof.
  destruct 1.
  - apply create_preserves.
  - by apply update_preserves, keeps_tour_no_set.
  - apply delete_preserves.
  - apply calcAverageRatings_consistent.
Qed.

(** ** Decidability of the invariant *)

#[export] Instance tour_consistent_dec rv id T : Decision (tour_consistent rv id T).
Proof. unfold tour_consistent. apply _. Defined.

#[export] Instance aggregates_consistent_dec s : Decision (aggregates_consistent s).
Proof. unfold aggregates_consistent. apply _. Defined.

(** ** Reachability *)

(** A fresh database: tours with the schema defaults and no review. *)
Lemma fresh_store_consistent (ts : gmap oid Tour.t) :
  map_Forall (fun _ T => Tour.ratingsQuantity T = 0%nat /\ Tour.ratingsAverage T = Tour.ratingsAverage_default) ts ->
  aggregates_consistent (mk_store ts ∅).
Proof.
  intros H id T Hid _. destruct (H id T Hid) as [Hq Ha].
  unfold tour_consistent. rewrite Hq, Ha. reflexivity.
Qed.

(** C5: in every store reached from a consistent one by any sequence of
    review creations, updates that keep the tour, deletions and
    recomputations, every visible tour agrees with its reviews. *)
Theorem reachable_consistent sl s s' :
  rtc (mutation sl) s s' -> aggregates_consistent s -> aggregates_consistent s'.
Proof. induction 1; eauto using mutation_consistent. Qed.

Lemma reachable_consistent_witness : aggregates_consistent after_one.
Proof.
  apply (reachable_consistent 0 sample_store).
  - apply rtc_once. apply mut_create.
  - decide_true.
Defined.

(** ** Recompute: idempotence and the secret-tour filter *)

Lemma set_tours_twice m m' s : set_tours m (set_tours m' s) = set_tours m s.
Proof. reflexivity. Qed.

Lemma refresh_tour_idempotent t s : refresh_tour t (refresh_tour t s) = refresh_tour t s.
Proof.
  unfold refresh_tour at 2 3. destruct (tours s !! t) as [T|] eqn:Ht; [|by unfold refresh_tour; rewrite Ht].
  destruct (Tour.secretTour T) eqn:Hs; [by unfold refresh_tour; rewrite Ht, Hs|].
  destruct (rating_summary _) as [n a] eqn:Hsum.
  unfold refresh_tour. simpl. rewrite lookup_insert_eq, set_ratings_secret, Hs, Hsum.
  by rewrite insert_insert_eq, set_ratings_twice.
Qed.

(** Recomputing twice in a row with no review mutation in between
    yields the same store and the same result as recomputing once. *)
Theorem calcAverageRatings_idempotent t s :
  calcAverageRatings t (fst (calcAverageRatings t s)) = calcAverageRatings t s.
Proof.
  rewrite !calcAverageRatings_eq. simpl. by rewrite refresh_tour_idempotent.
Qed.

(** The [pre(/^find/)] middleware of tours excludes secret tours from
    [Tour.findByIdAndUpdate]: recomputing the aggregate of a secret tour
    writes nothing. *)
Theorem calcAverageRatings_secret_noop t s T :
  tours s !! t = Some T -> Tour.secretTour T = true ->
  calcAverageRatings t s = (s, Ok tt).
Proof.
  intros Ht Hs. rewrite calcAverageRatings_eq. unfold refresh_tour. by rewrite Ht, Hs.
Qed.

(** ** Update and delete of a missing review *)

Definition null_constructor_error : js_error :=
  TypeError "Cannot read properties of null (reading 'constructor')".

(** C7: deleting a review id that does not exist, or updating it with a
    body that passes the update validators, leaves the store unchanged
    and fails with the [TypeError] of the post hook (which reads
    [this.r.constructor] with [this.r = null]), not with the controller's
    404: the hook throws before the controller checks for [null]. *)
Theorem missing_review_errors id u s :
  reviews s !! id = None -> update_errors u = [] ->
  deleteReview id s = (s, Err null_constructor_error) /\
  updateReview id u s = (s, Err null_constructor_error).
Proof.
  intros Hn Hu. split.
  - unfold deleteReview, Review_findByIdAndDelete, run_query, findOne, delete_exec.
    rewrite (proj2 findOneAnd_hooks_run). st_simpl. by rewrite Hn.
  - unfold updateReview, Review_findByIdAndUpdate, run_query, findOne, update_exec.
    rewrite (proj1 findOneAnd_hooks_run). st_simpl. by rewrite Hu, Hn.
Qed.

Lemma missing_review_errors_witness :
  deleteReview 999 after_one = (after_one, Err null_constructor_error) /\
  updateReview 999 (rating_update 1) after_one = (after_one, Err null_constructor_error).
Proof. apply missing_review_errors; vm_compute; reflexivity. Defined.

(** ** Well-formedness of the review collection *)

(** Every stored review passes its validators. *)
Definition reviews_valid (rv : gmap oid Review.t) : Prop :=
  map_Forall (fun _ r => review_valid r) rv.

Definition reviews_wf (rv : gmap oid Review.t) : Prop :=
  reviews_valid rv /\ reviews_unique rv.

Lemma rating_ok_bounds q : rating_ok q = true -> 1 <= q <= 5.
Proof. unfold rating_ok. rewrite andb_true_iff, !Qle_bool_iff. done. Qed.

Lemma review_validate_valid sl d r : review_validate sl d = Ok r -> review_valid r.
Proof.
  unfold review_validate.
  destruct (in_review d) as [txt|], (in_rating d) as [q|], (in_tour d) as [t|], (in_user d) as [u|];
    try discriminate.
  destruct (review_text_ok txt && rating_ok q) eqn:E; [|discriminate].
  intros [= <-]. by apply andb_true_iff in E.
Qed.

Lemma path_error_nil p b : path_error p b = [] -> b = true.
Proof. by destruct b. Qed.

Lemma apply_update_valid u r :
  update_errors u = [] -> review_valid r -> review_valid (apply_update u r).
Proof.
  unfold update_errors. intros Hu [H1 H2].
  apply app_nil in Hu as [Hr Hq]. apply path_error_nil in Hr, Hq.
  unfold review_valid, apply_update; simpl.
  destruct (up_review u), (up_rating u); simpl in *; done.
Qed.

Lemma pair_taken_spec rv self t u :
  pair_taken rv self t u = true <->
  exists i r, rv !! i = Some r /\ i <> self /\ Review.tour r = t /\ Review.user r = u.
Proof.
  unfold pair_taken. rewrite existsb_exists. split.
  - intros [[i r] [Hin H]]. apply bool_decide_eq_true in H.
    apply list_elem_of_In, elem_of_map_to_list in Hin. by exists i, r.
  - intros (i & r & Hi & H). exists (i, r). split.
    + by apply list_elem_of_In, elem_of_map_to_list.
    + by apply bool_decide_eq_true.
Qed.

Lemma reviews_unique_insert rv id r :
  reviews_unique rv -> pair_taken rv id (Review.tour r) (Review.user r) = false ->
  reviews_unique (<[id := r]> rv).
Proof.
  intros U P i j ri rj Hi Hj Ht Hu.
  assert (Hno : forall k rk, rv !! k = Some rk -> k <> id ->
                  Review.tour rk = Review.tour r -> Review.user rk = Review.user r -> False).
  { intros k rk Hk Hne Hkt Hku. apply not_true_iff_false in P. apply P, pair_taken_spec.
    by exists k, rk. }
  apply lookup_insert_Some in Hi as [[<- <-]|[Hne Hi]];
  apply lookup_insert_Some in Hj as [[<- <-]|[Hne' Hj]].
  - done.
  - exfalso. apply (Hno j rj); congruence.
  - exfalso. apply (Hno i ri); congruence.
  - by apply (U i j ri rj).
Qed.

Lemma reviews_unique_delete rv id : reviews_unique rv -> reviews_unique (delete id rv).
Proof.
  intros U i j ri rj Hi Hj. apply lookup_delete_Some in Hi as [_ Hi], Hj as [_ Hj]. eauto.
Qed.

Lemma reviews_wf_refresh t s : reviews_wf (reviews s) -> reviews_wf (reviews (refresh_tour t s)).
Proof. by rewrite refresh_tour_reviews. Qed.

#[export] Hint Resolve reviews_unique_insert reviews_unique_delete reviews_wf_refresh : natours.

#[export] Instance review_valid_dec r : Decision (review_valid r).
Proof. unfold review_valid. apply _. Defined.

#[export] Instance reviews_valid_dec rv : Decision (reviews_valid rv).
Proof. unfold reviews_valid. apply _. Defined.

Lemma reviews_wf_empty : reviews_wf ∅.
Proof.
  split; [apply map_Forall_empty|]. intros i j ri rj Hi. by rewrite lookup_empty in Hi.
Qed.


Lemma createReview_wf sl tp usr id body s :
  reviews_wf (reviews s) -> reviews_wf (reviews (fst (createReview sl tp usr id body s))).
Proof.
  intros [V U]. unfold createReview. rewrite Review_create_state.
  destruct (review_validate _ _) as [r|] eqn:Hv; [|by split].
  destruct (bool_decide _ && _) eqn:E; [|by split].
  apply andb_true_iff in E as [_ E]. apply negb_true_iff in E.
  apply reviews_wf_refresh. split; simpl.
  - apply map_Forall_insert_2; [by eapply review_validate_valid|done].
  - by apply reviews_unique_insert.
Qed.

Lemma updateReview_wf id u s :
  reviews_wf (reviews s) -> reviews_wf (reviews (fst (updateReview id u s))).
Proof.
  intros [V U]. rewrite updateReview_state, Review_findByIdAndUpdate_state.
  destruct (reviews s !! id) as [old|] eqn:Ho; [|by split].
  destruct (bool_decide _ && _) eqn:E; [|by split].
  apply andb_true_iff in E as [E1 E2].
  apply bool_decide_eq_true in E1. apply negb_true_iff in E2.
  apply reviews_wf_refresh. split; simpl.
  - apply map_Forall_insert_2; [apply apply_update_valid; [done|by apply (V id)]|done].
  - by apply reviews_unique_insert.
Qed.

Lemma deleteReview_wf id s :
  reviews_wf (reviews s) -> reviews_wf (reviews (fst (deleteReview id s))).
Proof.
  intros [V U]. rewrite deleteReview_state, Review_findByIdAndDelete_state.
  destruct (reviews s !! id) as [r|]; [|by split].
  apply reviews_wf_refresh. split; simpl.
  - by apply map_Forall_delete.
  - by apply reviews_unique_delete.
Qed.

(** Every request of the three mutation paths, whatever its body. *)
Inductive request (sl : Z) : store -> store -> Prop :=
  | req_create tp usr id body s : request sl s (fst (createReview sl tp usr id body s))
  | req_update id u s : request sl s (fst (updateReview id u s))
  | req_delete id s : request sl s (fst (deleteReview id s)).

(** In every store reached by requests from a store whose reviews pass
    their validators and respect the unique [(tour, user)] index, the
    reviews still do: create validates, update runs the update
    validators, and the index refuses a second review of a pair. *)
Theorem reachable_reviews_wf sl s s' :
  rtc (request sl) s s' -> reviews_wf (reviews s) -> reviews_wf (reviews s').
Proof.
  induction 1 as [|s1 s2 s3 Hstep _ IH]; [done|]. intros Hwf. apply IH.
  destruct Hstep; auto using createReview_wf, updateReview_wf, deleteReview_wf.
Qed.

Lemma reachable_reviews_wf_witness : reviews_wf (reviews after_one).
Proof.
  apply (reachable_reviews_wf 0 sample_store).
  - apply rtc_once. apply req_create.
  - apply reviews_wf_empty.
Defined.

(** ** Bounds of the stored average *)

Lemma tour_ratings_between t rv : reviews_valid rv -> all_between 1 5 (tour_ratings t rv).
Proof.
  intros V. apply Forall_forall. intros x Hx. apply list_elem_of_In in Hx.
  destruct (tour_ratings_In x t rv Hx) as (i & r & Hi & _ & <-).
  apply rating_ok_bounds, (V i r Hi).
Qed.

(** When the aggregates are consistent and the reviews valid, every
    visible tour's [ratingsAverage] lies in [[1, 5]], the range its schema
    validator demands: the aggregator never writes a value that
    validation would refuse. *)
Theorem consistent_average_bounds s id T :
  aggregates_consistent s -> reviews_valid (reviews s) ->
  tours s !! id = Some T -> Tour.secretTour T = false ->
  1 <= Tour.ratingsAverage T <= 5.
Proof.
  intros H V Ht Hs. specialize (H id T Ht Hs). unfold tour_consistent, stored_summary in H.
  pose proof (tour_ratings_between id (reviews s) V) as Hb.
  destruct (tour_ratings id (reviews s)) as [|x xs] eqn:E; simpl in H; injection H as _ ->.
  - apply ratingsAverage_set_bounds. unfold Qle. simpl. lia.
  - apply ratingsAverage_set_bounds, Qmean_bounds; [discriminate|exact Hb].
Qed.

Lemma consistent_average_bounds_witness : 1 <= Tour.ratingsAverage hiker_after_three <= 5.
Proof.
  apply (consistent_average_bounds after_three 1); [decide_true | decide_true | |].
  - vm_compute. reflexivity.
  - reflexivity.
Defined.

(** ** The unique index at creation *)

(** Creating a review for a [(tour, user)] pair that another review
    already holds fails with the duplicate-key error of the unique index
    and leaves the store unchanged. *)
Theorem createReview_duplicate_pair sl tp usr id body s r :
  review_validate sl (setTourUserIds tp usr body) = Ok r ->
  reviews s !! id = None ->
  (exists j rj, reviews s !! j = Some rj /\ Review.tour rj = Review.tour r /\ Review.user rj = Review.user r) ->
  createReview sl tp usr id body s = (s, Err (DuplicateKey "tour_1_user_1")).
Proof.
  intros Hv Hid (j & rj & Hj & Ht & Hu).
  assert (Hp : pair_taken (reviews s) id (Review.tour r) (Review.user r) = true).
  { apply pair_taken_spec. exists j, rj. repeat split; try done. congruence. }
  unfold createReview, Review_create, insertOne. st_simpl. by rewrite Hv, Hid, Hp.
Qed.

Lemma createReview_duplicate_pair_witness :
  createReview 0 (Some 1%nat) 10 103 (sample_body 2) after_one
  = (after_one, Err (DuplicateKey "tour_1_user_1")).
Proof.
  apply (createReview_duplicate_pair _ _ _ _ _ _ (Review.mk "Amazing tour, the guides were great!" 2 0 1 10)).
  - reflexivity.
  - vm_compute. reflexivity.
  - exists 100%nat, review_100. split; [vm_compute; reflexivity | split; reflexivity].
Defined.

(** * Properties of the RatingAggregator *)

(** C1: [calcAverageRatings tourId] (the [$match]/[$group] pipeline
    followed by [Tour.findByIdAndUpdate] through the tour's query
    middleware and setter) refines the specification [refresh_tour]: the
    visible tour gets the count and rounded mean of its reviews' ratings,
    or 0 and 4.5 when it has none; nothing else changes; it never fails. *)
Theorem calcAverageRatings_refines tourId s :
  calcAverageRatings tourId s = (refresh_tour tourId s, Ok tt).
Proof. exact (calcAverageRatings_eq tourId s). Qed.

(** C2: creating a review (whatever the body: valid or not, accepted or
    refused by the unique index) keeps every visible tour's aggregate
    equal to the count and rounded mean of its reviews. *)
Theorem createReview_consistent sl tp usr id body s :
  aggregates_consistent s -> aggregates_consistent (fst (createReview sl tp usr id body s)).
Proof. apply create_preserves. Qed.

Lemma createReview_consistent_witness :
  aggregates_consistent (fst (createReview 0 (Some 1%nat) 10 100 (sample_body 5) sample_store)).
Proof. apply createReview_consistent. decide_true. Defined.

(** C3: deleting a review by id keeps the invariant: the pre hook captured
    the review before the delete, and its tour is recomputed after. *)
Theorem deleteReview_consistent id s :
  aggregates_consistent s -> aggregates_consistent (fst (deleteReview id s)).
Proof. apply delete_preserves. Qed.

Lemma deleteReview_consistent_witness : aggregates_consistent (fst (deleteReview 100 after_one)).
Proof. apply deleteReview_consistent. decide_true. Defined.

(** C4: an update by id that leaves the review on its tour (the updates
    the spec allows: text and rating) keeps the invariant. *)
Theorem updateReview_consistent id u s :
  keeps_tour (reviews s) id u ->
  aggregates_consistent s -> aggregates_consistent (fst (updateReview id u s)).
Proof. apply update_preserves. Qed.

Lemma updateReview_consistent_witness :
  aggregates_consistent (fst (updateReview 100 (rating_update 1) after_one)).
Proof.
  apply updateReview_consistent; [by apply keeps_tour_no_set | decide_true].
Defined.

(** The spec's scenarios: reviews rated 3, 4 and 5 give the tour
    [ratingsQuantity = 3], [ratingsAverage = 4]; deleting the review rated
    3 gives [2] and [4.5]; deleting the other two restores the defaults [0]
    and [4.5]; and on a tour whose only review is rated 5, updating that
    review's rating to 1 by id gives [ratingsQuantity = 1],
    [ratingsAverage = 1]. *)
Theorem rating_scenarios :
  (summary_of after_three 1 = Some (3%nat, 4%Q) /\
   summary_of (fst (deleteReview 100 after_three)) 1 = Some (2%nat, (9 # 2)%Q) /\
   summary_of (fst (deleteReview 102 (fst (deleteReview 101 (fst (deleteReview 100 after_three)))))) 1
     = Some (0%nat, (9 # 2)%Q)) /\
  (summary_of after_one 1 = Some (1%nat, 5%Q) /\
   summary_of (fst (updateReview 100 (rating_update 1) after_one)) 1 = Some (1%nat, 1%Q)).
Proof. split; [split; [|split] | split]; vm_compute; reflexivity. Qed.

(** ** Where the invariant is lost *)

Lemma stored_summary_length rs : fst (stored_summary rs) = length rs.
Proof. by destruct rs. Qed.

Lemma refresh_tour_other t t' s : t' <> t -> tours (refresh_tour t s) !! t' = tours s !! t'.
Proof.
  intros Hne. unfold refresh_tour. destruct (tours s !! t); [|done].
  destruct (Tour.secretTour _); [done|]. destruct (rating_summary _). cbn. by rewrite lookup_insert_ne.
Qed.

(** A review stored on tour [t] adds one rating to [t], whether it is new
    or moved there from another tour. *)
Lemma tour_ratings_length_fresh t rv id r :
  rv !! id = None -> Review.tour r = t ->
  length (tour_ratings t (<[id := r]> rv)) = S (length (tour_ratings t rv)).
Proof.
  intros Hf Ht. rewrite (Permutation_length (tour_ratings_insert_fresh t rv id r Hf)).
  unfold own_rating. by case_decide.
Qed.

Lemma tour_ratings_length_moved t rv id old r :
  rv !! id = Some old -> Review.tour old <> t -> Review.tour r = t ->
  length (tour_ratings t (<[id := r]> rv)) = S (length (tour_ratings t rv)).
Proof.
  intros Hold Hne Ht. rewrite (Permutation_length (tour_ratings_insert_existing t rv id old r Hold)), length_app.
  rewrite (Permutation_length (ratings_delete_other rv id old t Hold (not_eq_sym Hne))).
  unfold own_rating. by case_decide.
Qed.

Lemma consistent_quantity s t T :
  aggregates_consistent s -> tours s !! t = Some T -> Tour.secretTour T = false ->
  Tour.ratingsQuantity T = length (tour_ratings t (reviews s)).
Proof.
  intros Hc Ht Hs. pose proof (f_equal fst (Hc t T Ht Hs)) as H. cbn [fst] in H.
  by rewrite H, stored_summary_length.
Qed.

(** C6: An update by id that moves a review to another visible tour (the
    update controller passes the request body, [tour] included, to
    [findByIdAndUpdate]) breaks the invariant, from any consistent store:
    the post hook recomputes only the tour captured before the update, so
    the new tour keeps its document, while it now has one more review than
    its [ratingsQuantity] says. *)
Theorem updateReview_move_breaks_consistency id u s old t' T' :
  aggregates_consistent s -> reviews s !! id = Some old ->
  up_tour u = Some t' -> t' <> Review.tour old ->
  tours s !! t' = Some T' -> Tour.secretTour T' = false ->
  update_errors u = [] -> pair_taken (reviews s) id t' (Review.user (apply_update u old)) = false ->
  tours (fst (updateReview id u s)) !! t' = Some T' /\
  length (tour_ratings t' (reviews (fst (updateReview id u s)))) = S (Tour.ratingsQuantity T') /\
  ~ aggregates_consistent (fst (updateReview id u s)).
Proof.
  intros Hc Hold Hu Hne HT Hs He Hp.
  assert (Hnew : Review.tour (apply_update u old) = t') by (unfold apply_update; cbn; by rewrite Hu).
  rewrite updateReview_state, Review_findByIdAndUpdate_state, Hold, bool_decide_true by done.
  rewrite Hnew, Hp. cbn [negb andb].
  assert (Hl : length (tour_ratings t' (reviews (refresh_tour (Review.tour old)
                 (set_reviews (<[id:=apply_update u old]> (reviews s)) s)))) = S (Tour.ratingsQuantity T')).
  { rewrite refresh_tour_reviews. cbn [reviews set_reviews].
    rewrite (tour_ratings_length_moved _ _ _ old) by done. by rewrite (consistent_quantity s t' T'). }
  assert (Ht' : tours (refresh_tour (Review.tour old) (set_reviews (<[id:=apply_update u old]> (reviews s)) s)) !! t'
                = Some T') by (by rewrite refresh_tour_other).
  split_and!; [done|done|]. intros Hc'. rewrite (consistent_quantity _ t' T') in Hl by done. lia.
Qed.

Lemma updateReview_move_breaks_consistency_witness :
  tours (fst (updateReview 100 (move_update 2) after_one)) !! 2%nat = Some (sample_tour "The Sea Explorer" false) /\
  length (tour_ratings 2 (reviews (fst (updateReview 100 (move_update 2) after_one)))) = 1%nat /\
  ~ aggregates_consistent (fst (updateReview 100 (move_update 2) after_one)).
Proof.
  apply (updateReview_move_breaks_consistency 100 (move_update 2) after_one review_100 2
           (sample_tour "The Sea Explorer" false));
    [decide_true|vm_compute; reflexivity|reflexivity|discriminate|vm_compute; reflexivity|reflexivity
    |vm_compute; reflexivity|vm_compute; reflexivity].
Defined.

(** C8: A secret tour's aggregate is never maintained: a review created
    on a secret tour is stored, and the store's tours are left as they
    were, since the tour's [pre(/^find/)] middleware hides the tour from
    the [findByIdAndUpdate] of [calcAverageRatings]; the tour has one more
    review and still shows its former [ratingsQuantity] and
    [ratingsAverage]. *)
Theorem secret_tour_aggregate_stale sl tp usr id body s r T :
  review_validate sl (setTourUserIds tp usr body) = Ok r ->
  tours s !! Review.tour r = Some T -> Tour.secretTour T = true ->
  reviews s !! id = None -> pair_taken (reviews s) id (Review.tour r) (Review.user r) = false ->
  fst (createReview sl tp usr id body s) = set_reviews (<[id := r]> (reviews s)) s /\
  length (tour_ratings (Review.tour r) (reviews (fst (createReview sl tp usr id body s))))
    = S (length (tour_ratings (Review.tour r) (reviews s))).
Proof.
  intros Hv HT Hs Hf Hp.
  assert (Hst : fst (createReview sl tp usr id body s) = set_reviews (<[id := r]> (reviews s)) s).
  { unfold createReview. rewrite Review_create_state, Hv, bool_decide_true, Hp by done. cbn [negb andb].
    unfold refresh_tour. cbn [tours set_reviews]. by rewrite HT, Hs. }
  split; [done|]. rewrite Hst. cbn [reviews set_reviews]. by apply tour_ratings_length_fresh.
Qed.

Lemma secret_tour_aggregate_stale_witness :
  fst (createReview 0 (Some 3%nat) 10 100 (sample_body 5) sample_store)
    = set_reviews (<[100%nat := Review.mk "Amazing tour, the guides were great!" 5 0 3 10]> (reviews sample_store))
        sample_store /\
  length (tour_ratings 3 (reviews (fst (createReview 0 (Some 3%nat) 10 100 (sample_body 5) sample_store)))) = 1%nat.
Proof.
  apply (secret_tour_aggregate_stale 0 (Some 3%nat) 10 100 (sample_body 5) sample_store
           (Review.mk "Amazing tour, the guides were great!" 5 0 3 10) (sample_tour "The Secret Lagoon" true));
    vm_compute; reflexivity.
Defined.
