(* ===== verification/Concurrency.v ===== *)
(** * Interleaved requests and the recomputation race

    Node runs each request as a task that suspends at every [await].
    [calcAverageRatings] ([src/models/reviewModel.js], lines 50-71) has two
    such points: the aggregation ([stats = await this.aggregate(...)]) and
    the write ([await Tour.findByIdAndUpdate(...)]).  Between them other
    requests run.  The post-save hook (lines 77-80) does not even await the
    recomputation: it is left running after the response.

    A configuration is the store, the recomputations in flight (threads)
    and the implicit global [stats] the code assigns.  A step is one of:
    a review mutation committed by a request (create, a tour-preserving
    update, delete: the capture of the pre hook and the mutation taken as
    one step), which starts the recomputation of the review's tour; the
    aggregation of a thread, which fixes the update document it will
    write; the write of a thread.  The scheduler picks any thread.  The
    [locked] flag adds the per-tour lock the spec suggests (section 9): an
    aggregation waits while a write for the same tour is in flight. *)

From S2P Require Import Prelude Store Reviews Samples Aggregator Consistency.
Import Aggregate Mutations.

(** ** Configurations *)

(** A recomputation about to aggregate, or about to write the update
    document it computed. *)
Inductive thread :=
  | RecRead (tourId : oid)
  | RecWrite (tourId : oid) (quantity : nat) (average : Q).

#[export] Instance thread_eq_dec : EqDecision thread.
Proof. solve_decision. Defined.

Record config := mk_config {
  cstore : store;
  threads : list thread;
  stats_global : list ReviewStat;
}.

(** The update document of lines 60-70, from the [stats] just assigned. *)
Definition update_of (stats : list ReviewStat) : nat * Q :=
  match stats with
  | st :: _ => (nRating st, avgRating st)
  | [] => (0%nat, 9 # 2)
  end.

(** Line 51 and the synchronous code up to the next [await]: the
    aggregation result is assigned to the global [stats] and the update
    document is read from it at once. *)
Definition read_step (i : nat) (t : oid) (c : config) : config :=
  let stats := group_by_tour (match_tour t (review_docs (reviews (cstore c)))) in
  let '(n, a) := update_of stats in
  mk_config (cstore c) (<[i := RecWrite t n a]> (threads c)) stats.

(** Lines 61-69: the write through the tour's query middleware. *)
Definition write_step (i : nat) (t : oid) (n : nat) (a : Q) (c : config) : config :=
  mk_config (fst (Tour_findByIdAndUpdate_ratings t n a (cstore c))) (delete i (threads c))
            (stats_global c).

(** A write for tour [t] is in flight. *)
Definition write_pending (t : oid) (ths : list thread) : bool :=
  existsb (fun th => match th with RecWrite t' _ _ => Nat.eqb t' t | RecRead _ => false end) ths.

(** [Review.create] up to the post-save hook: validation and insert. *)
Definition create_commit (sl : Z) (id : oid) (d : ReviewInput) : ST store Review.t :=
  r ← st_lift (review_validate sl d);
  insertOne id r;;
  mret r.

(** A [findOneAnd...] query up to its post hook: the pre hook's capture,
    then the query. *)
Definition query_commit {A} (id : oid) (exec : ST store A) : ST store (option Review.t * A) :=
  captured ← findOne id;
  res ← exec;
  mret (captured, res).

Definition spawn (s : store) (t : oid) (c : config) : config :=
  mk_config s (threads c ++ [RecRead t]) (stats_global c).

Inductive cstep (locked : bool) : config -> config -> Prop :=
  | cs_create sl tourParam user id body c r s' :
      create_commit sl id (setTourUserIds tourParam user body) (cstore c) = (s', Ok r) ->
      cstep locked c (spawn s' (Review.tour r) c)
  | cs_update id u c r res s' :
      up_tour u = None ->
      query_commit id (update_exec id u) (cstore c) = (s', Ok (Some r, res)) ->
      cstep locked c (spawn s' (Review.tour r) c)
  | cs_delete id c r res s' :
      query_commit id (delete_exec id) (cstore c) = (s', Ok (Some r, res)) ->
      cstep locked c (spawn s' (Review.tour r) c)
  | cs_read c i t :
      threads c !! i = Some (RecRead t) ->
      (locked = true -> write_pending t (threads c) = false) ->
      cstep locked c (read_step i t c)
  | cs_write c i t n a :
      threads c !! i = Some (RecWrite t n a) ->
      cstep locked c (write_step i t n a c).

(** The recomputations still to run, a read counting for two steps. *)
Fixpoint work (ths : list thread) : nat :=
  match ths with
  | [] => 0
  | RecRead _ :: ths' => S (S (work ths'))
  | RecWrite _ _ _ :: ths' => S (work ths')
  end.

(** ** The decomposition follows the code *)

(** [Review.create] is the commit followed by the post-save hook. *)
Lemma Review_create_commit sl id d s :
  Review_create sl id d s = (r ← create_commit sl id d; post_save r;; mret r) s.
Proof.
  unfold Review_create, create_commit. st_simpl.
  destruct (review_validate sl d); [|done]. destruct (insertOne id _ s) as [s1 [[]|e]]; [|done].
  by destruct (post_save _ s1) as [s2 [[]|e]].
Qed.

(** A [findOneAnd...] with the hooks is the commit followed by the post
    hook on the captured document. *)
Lemma run_query_commit {A} op id (exec : ST store A) s :
  hook_applies "findOneAnd" op = true ->
  run_query op id exec s = (p ← query_commit id exec; post_findOneAnd (fst p);; mret (snd p)) s.
Proof.
  intros Hop. unfold run_query, query_commit, findOne. rewrite Hop. st_simpl.
  destruct (exec s) as [s1 [x|e]]; [|done]. by destruct (post_findOneAnd _ s1) as [s2 [[]|e]].
Qed.

(** ** The effect of each step *)

Lemma create_commit_ok sl id d s s' r :
  create_commit sl id d s = (s', Ok r) ->
  reviews s !! id = None /\ s' = set_reviews (<[id := r]> (reviews s)) s.
Proof.
  unfold create_commit, insertOne. st_simpl.
  destruct (review_validate sl d) as [r0|]; [|done].
  destruct (reviews s !! id); [done|]. destruct (pair_taken _ _ _ _); [done|]. by intros [= <- <-].
Qed.

Lemma query_commit_update_ok id u s s' r res :
  query_commit id (update_exec id u) s = (s', Ok (Some r, res)) ->
  reviews s !! id = Some r /\ s' = set_reviews (<[id := apply_update u r]> (reviews s)) s.
Proof.
  unfold query_commit, findOne, update_exec. st_simpl.
  destruct (update_errors u); [|done]. destruct (reviews s !! id) as [old|]; [|done].
  destruct (pair_taken _ _ _ _); [done|]. by intros [= <- <- _].
Qed.

Lemma query_commit_delete_ok id s s' r res :
  query_commit id (delete_exec id) s = (s', Ok (Some r, res)) ->
  reviews s !! id = Some r /\ s' = set_reviews (delete id (reviews s)) s.
Proof.
  unfold query_commit, findOne, delete_exec. st_simpl.
  destruct (reviews s !! id) as [old|]; [|done]. by intros [= <- <- _].
Qed.

Lemma Tour_findByIdAndUpdate_ratings_state t n a s :
  fst (Tour_findByIdAndUpdate_ratings t n a s) =
  match tours s !! t with
  | Some T => if Tour.secretTour T then s else set_tours (<[t := Tour.set_ratings n a T]> (tours s)) s
  | None => s
  end.
Proof.
  unfold Tour_findByIdAndUpdate_ratings, tour_query_visible.
  destruct (tours s !! t) as [T|]; [|done]. by destruct (Tour.secretTour T).
Qed.

Lemma write_reviews t n a s : reviews (fst (Tour_findByIdAndUpdate_ratings t n a s)) = reviews s.
Proof.
  rewrite Tour_findByIdAndUpdate_ratings_state.
  destruct (tours s !! t) as [T|]; [|done]. by destruct (Tour.secretTour T).
Qed.

(** The update document the aggregation yields is the summary of the
    tour's reviews at that moment. *)
Definition fresh_write (s : store) (t : oid) (n : nat) (a : Q) : Prop :=
  (n, Tour.ratingsAverage_set a) = stored_summary (tour_ratings t (reviews s)).

Lemma update_of_fresh t s :
  let '(n, a) := update_of (group_by_tour (match_tour t (review_docs (reviews s)))) in
  fresh_write s t n a.
Proof.
  unfold fresh_write, tour_ratings. rewrite group_by_tour_matched.
  destruct (map Review.rating _) as [|x xs]; [reflexivity|]. cbn [update_of nRating avgRating].
  unfold stored_summary, rating_summary. by rewrite pipeline_average_set.
Qed.

Lemma fresh_write_perm s s' t n a :
  tour_ratings t (reviews s') ≡ₚ tour_ratings t (reviews s) -> fresh_write s t n a -> fresh_write s' t n a.
Proof. unfold fresh_write. intros Hp ->. symmetry. by apply stored_summary_perm. Qed.

(** A tour that receives a fresh update document agrees with its reviews. *)
Lemma fresh_write_consistent s t n a T :
  fresh_write s t n a -> tour_consistent (reviews s) t (Tour.set_ratings n a T).
Proof. unfold fresh_write, tour_consistent. done. Qed.

(** ** Lists of threads *)

Lemma elem_of_delete_other {A} (l : list A) i y x :
  l !! i = Some y -> x ∈ l -> x <> y -> x ∈ delete i l.
Proof.
  intros Hi Hx Hne. rewrite <- (take_drop_middle l i y Hi) in Hx.
  rewrite delete_take_drop. apply elem_of_app in Hx as [?|Hx]; apply elem_of_app; [by left|].
  apply elem_of_cons in Hx as [->|?]; [done|by right].
Qed.

Lemma elem_of_delete_inv {A} (l : list A) i x : x ∈ delete i l -> x ∈ l.
Proof.
  rewrite delete_take_drop. intros Hx. apply elem_of_app in Hx as [Hx|Hx].
  - apply elem_of_take in Hx as (j & Hj & _). by eapply list_elem_of_lookup_2.
  - apply list_elem_of_lookup in Hx as [j Hj]. rewrite lookup_drop in Hj. by eapply list_elem_of_lookup_2.
Qed.

Lemma elem_of_insert_other {A} (l : list A) i y y' x :
  l !! i = Some y -> x ∈ l -> x <> y -> x ∈ <[i := y']> l.
Proof.
  intros Hi Hx Hne. apply list_elem_of_lookup in Hx as [j Hj].
  apply list_elem_of_lookup. exists j. destruct (decide (i = j)) as [->|Hij]; [congruence|].
  by rewrite list_lookup_insert_ne.
Qed.

Lemma elem_of_insert_new {A} (l : list A) i y y' : l !! i = Some y -> y' ∈ <[i := y']> l.
Proof.
  intros Hi. apply list_elem_of_lookup. exists i. apply list_lookup_insert_eq.
  by apply lookup_lt_Some in Hi.
Qed.

Lemma elem_of_insert_inv {A} (l : list A) i y' x : x ∈ <[i := y']> l -> x = y' \/ x ∈ l.
Proof.
  intros Hx. apply list_elem_of_lookup in Hx as [j Hj].
  destruct (decide (i = j)) as [->|Hij].
  - left. apply list_lookup_insert_Some in Hj. naive_solver.
  - right. rewrite list_lookup_insert_ne in Hj by done. by eapply list_elem_of_lookup_2.
Qed.

Lemma write_pending_false t n a ths : write_pending t ths = false -> RecWrite t n a ∉ ths.
Proof.
  intros H Hin. induction ths as [|th ths IH]; [by apply elem_of_nil in Hin|].
  cbn in H. apply orb_false_iff in H as [H1 H2]. apply elem_of_cons in Hin as [<-|Hin].
  - by rewrite Nat.eqb_refl in H1.
  - by apply IH.
Qed.

(** ** The invariant of the locked system *)

(** Every visible tour agrees with its reviews, or a recomputation of it
    is still to aggregate, or a write of the current summary is in flight;
    and every write in flight is of the current summary, or a
    recomputation of its tour is still to aggregate. *)
Definition conc_inv (c : config) : Prop :=
  (forall t T, tours (cstore c) !! t = Some T -> Tour.secretTour T = false ->
     tour_consistent (reviews (cstore c)) t T \/ RecRead t ∈ threads c \/
     exists n a, RecWrite t n a ∈ threads c /\ fresh_write (cstore c) t n a) /\
  (forall t n a, RecWrite t n a ∈ threads c -> fresh_write (cstore c) t n a \/ RecRead t ∈ threads c).

Lemma conc_inv_init s g : aggregates_consistent s -> conc_inv (mk_config s [] g).
Proof.
  intros H. split; cbn.
  - intros t T Ht Hs. left. by apply (H t T).
  - intros t n a Hin. by apply elem_of_nil in Hin.
Qed.

Lemma conc_inv_quiescent c : conc_inv c -> threads c = [] -> aggregates_consistent (cstore c).
Proof.
  intros [H _] Hq t T Ht Hs. rewrite Hq in H.
  destruct (H t T Ht Hs) as [?|[Hin|(? & ? & Hin & _)]]; [done|by apply elem_of_nil in Hin..].
Qed.

(** A review mutation of tour [u] that starts the recomputation of [u]. *)
Lemma conc_inv_spawn c s' u :
  conc_inv c -> tours s' = tours (cstore c) ->
  (forall t', t' <> u -> tour_ratings t' (reviews s') ≡ₚ tour_ratings t' (reviews (cstore c))) ->
  conc_inv (spawn s' u c).
Proof.
  intros [H1 H2] Ht Hp. split; cbn.
  - intros t T HT Hs. destruct (decide (t = u)) as [->|Hne].
    { right; left. apply elem_of_app. right. by left. }
    rewrite Ht in HT. destruct (H1 t T HT Hs) as [Hc|[Hr|(n & a & Hw & Hf)]].
    + left. by apply (tour_consistent_perm (reviews (cstore c))); [apply Hp|].
    + right; left. apply elem_of_app. by left.
    + right; right. exists n, a. split; [apply elem_of_app; by left|].
      by apply (fresh_write_perm (cstore c)); [apply Hp|].
  - intros t n a Hin. apply elem_of_app in Hin as [Hin|Hin].
    2: { apply list_elem_of_singleton in Hin. discriminate. }
    destruct (decide (t = u)) as [->|Hne].
    { right. apply elem_of_app. right. by left. }
    destruct (H2 t n a Hin) as [Hf|Hr].
    + left. by apply (fresh_write_perm (cstore c)); [apply Hp|].
    + right. apply elem_of_app. by left.
Qed.

(** The aggregation of a recomputation, when no write of its tour is in
    flight. *)
Lemma conc_inv_read c i t :
  conc_inv c -> threads c !! i = Some (RecRead t) -> write_pending t (threads c) = false ->
  conc_inv (read_step i t c).
Proof.
  intros [H1 H2] Hi Hlock. pose proof (update_of_fresh t (cstore c)) as Hf.
  unfold read_step. destruct (update_of _) as [n a]. split; cbn.
  - intros t' T HT Hs. destruct (decide (t' = t)) as [->|Hne].
    { right; right. exists n, a. split; [by eapply elem_of_insert_new|done]. }
    destruct (H1 t' T HT Hs) as [Hc|[Hr|(n' & a' & Hw & Hf')]]; [by left| |].
    + right; left. eapply elem_of_insert_other; [exact Hi|exact Hr|congruence].
    + right; right. exists n', a'. split; [|done]. eapply elem_of_insert_other; [exact Hi|exact Hw|congruence].
  - intros t' n' a' Hin. apply elem_of_insert_inv in Hin as [[= -> -> ->]|Hin]; [by left|].
    destruct (decide (t' = t)) as [->|Hne].
    { by apply (write_pending_false t n' a') in Hlock. }
    destruct (H2 t' n' a' Hin) as [?|Hr]; [by left|].
    right. eapply elem_of_insert_other; [exact Hi|exact Hr|congruence].
Qed.

(** The write of a recomputation. *)
Lemma conc_inv_write c i t n a :
  conc_inv c -> threads c !! i = Some (RecWrite t n a) -> conc_inv (write_step i t n a c).
Proof.
  intros [H1 H2] Hi. pose proof (list_elem_of_lookup_2 _ _ _ Hi) as Hw.
  assert (Hkeep : forall th, th ∈ threads c -> th <> RecWrite t n a -> th ∈ delete i (threads c))
    by (intros; by eapply elem_of_delete_other).
  assert (Hwrites : forall t' n' a', RecWrite t' n' a' ∈ delete i (threads c) ->
                      fresh_write (cstore c) t' n' a' \/ RecRead t' ∈ delete i (threads c)).
  { intros t' n' a' Hin. apply elem_of_delete_inv in Hin.
    destruct (H2 t' n' a' Hin) as [?|Hr]; [by left|]. right. by apply Hkeep. }
  assert (Hother : forall t' T', t' <> t -> tours (cstore c) !! t' = Some T' -> Tour.secretTour T' = false ->
            tour_consistent (reviews (cstore c)) t' T' \/ RecRead t' ∈ delete i (threads c) \/
            exists n' a', RecWrite t' n' a' ∈ delete i (threads c) /\ fresh_write (cstore c) t' n' a').
  { intros t' T' Hne HT Hs. destruct (H1 t' T' HT Hs) as [?|[Hr|(n' & a' & Hw' & Hf)]]; [by left| |].
    - right; left. by apply Hkeep.
    - right; right. exists n', a'. split; [|done]. apply Hkeep; [done|congruence]. }
  unfold write_step. cbn [cstore threads]. rewrite Tour_findByIdAndUpdate_ratings_state.
  destruct (tours (cstore c) !! t) as [T|] eqn:Et; [destruct (Tour.secretTour T) eqn:Es|].
  - split; [|exact Hwrites]. intros t' T' HT Hs'. cbn in HT. apply Hother; [intros ->; congruence|done|done].
  - split; [|exact Hwrites]. intros t' T' HT Hs'. cbn in HT.
    destruct (decide (t' = t)) as [->|Hne].
    + rewrite lookup_insert_eq in HT. injection HT as <-.
      destruct (H2 t n a Hw) as [Hf|Hr]; [left; by apply fresh_write_consistent|].
      right; left. by apply Hkeep.
    + rewrite lookup_insert_ne in HT by congruence. by apply Hother.
  - split; [|exact Hwrites]. intros t' T' HT Hs'. cbn in HT. apply Hother; [intros ->; congruence|done|done].
Qed.

Lemma cstep_locked_inv c c' : cstep true c c' -> conc_inv c -> conc_inv c'.
Proof.
  intros Hstep Hinv. destruct Hstep as [sl tp usr id body c r s' Hc|id u c r res s' Hu Hc|id c r res s' Hc|c i t Hi Hl|c i t n a Hi].
  - apply create_commit_ok in Hc as [Hf ->]. apply conc_inv_spawn; [done..|].
    intros t' Hne. by apply ratings_insert_other.
  - apply query_commit_update_ok in Hc as [Hr ->]. apply conc_inv_spawn; [done..|].
    intros t' Hne. apply ratings_replace_other with r; [done| |done].
    by rewrite (keeps_tour_no_set _ id u Hu r Hr).
  - apply query_commit_delete_ok in Hc as [Hr ->]. apply conc_inv_spawn; [done..|].
    intros t' Hne. by apply ratings_delete_other with r.
  - by apply conc_inv_read; [|done|apply Hl].
  - by apply conc_inv_write.
Qed.

Lemma locked_rtc_inv c c' : rtc (cstep true) c c' -> conc_inv c -> conc_inv c'.
Proof. induction 1 as [|c1 c2 c3 Hstep _ IH]; [done|]. intros H. by apply IH, (cstep_locked_inv c1). Qed.

(** ** Progress *)

Definition weight (th : thread) : nat :=
  match th with RecRead _ => 2 | RecWrite _ _ _ => 1 end.

Lemma work_app l1 l2 : work (l1 ++ l2) = (work l1 + work l2)%nat.
Proof. induction l1 as [|[] l1 IH]; cbn; lia. Qed.

Lemma work_cons th l : work (th :: l) = (weight th + work l)%nat.
Proof. by destruct th. Qed.

Lemma work_delete l i th : l !! i = Some th -> (work (delete i l) + weight th)%nat = work l.
Proof.
  intros Hi. rewrite <- (take_drop_middle l i th Hi) at 2. rewrite delete_take_drop.
  rewrite !work_app, work_cons. lia.
Qed.

Lemma work_insert l i th th' :
  l !! i = Some th -> (work (<[i := th']> l) + weight th)%nat = (work l + weight th')%nat.
Proof.
  intros Hi. assert (Hlt : (i < length l)%nat) by (by eapply lookup_lt_Some).
  rewrite insert_take_drop by done. rewrite <- (take_drop_middle l i th Hi) at 3.
  rewrite !work_app, !work_cons. lia.
Qed.

(** Either a write is in flight, or every thread is still to aggregate. *)
Lemma write_or_reads (l : list thread) :
  (exists i t n a, l !! i = Some (RecWrite t n a)) \/
  Forall (fun th => exists t, th = RecRead t) l.
Proof.
  induction l as [|th l [(i & t & n & a & Hi)|Hall]]; [by right| |].
  - left. exists (S i), t, n, a. done.
  - destruct th as [t|t n a].
    + right. constructor; [by eexists|done].
    + left. by exists 0%nat, t, n, a.
Qed.

Lemma reads_no_write t l : Forall (fun th => exists t', th = RecRead t') l -> write_pending t l = false.
Proof. induction 1 as [|th l [t' ->] _ IH]; [done|]. by cbn. Qed.

(** While a recomputation is in flight, some step of the locked system
    makes progress. *)
Lemma locked_progress c :
  threads c <> [] -> exists c', cstep true c c' /\ (work (threads c') < work (threads c))%nat.
Proof.
  intros Hne. destruct (write_or_reads (threads c)) as [(i & t & n & a & Hi)|Hall].
  - exists (write_step i t n a c). split; [by constructor|].
    cbn. pose proof (work_delete _ _ _ Hi). cbn in *. lia.
  - destruct (threads c) as [|th ths] eqn:Eth; [done|].
    apply Forall_cons in Hall as [[t ->] Hall].
    exists (read_step 0 t c). split.
    + apply cs_read; [by rewrite Eth|]. intros _. rewrite Eth. cbn. by apply reads_no_write.
    + unfold read_step. destruct (update_of _) as [n a]. cbn. rewrite Eth. cbn. lia.
Qed.

(** From every configuration the locked system can run every
    recomputation in flight to its end. *)
Lemma locked_drain c : exists c', rtc (cstep true) c c' /\ threads c' = [].
Proof.
  remember (work (threads c)) as w eqn:Ew. revert c Ew.
  induction w as [w IH] using lt_wf_ind. intros c ->.
  destruct (threads c) as [|th ths] eqn:Eth; [by exists c|].
  destruct (locked_progress c) as (c1 & Hstep & Hlt); [by rewrite Eth|].
  destruct (IH (work (threads c1))) with c1 as (c2 & Hr & Hq); [by rewrite <- Eth|done|].
  exists c2. split; [by eapply rtc_l|done].
Qed.

(** ** Theorems *)

Ltac step_create u id q :=
  eapply rtc_l; [apply (cs_create _ 0 (Some 1%nat) u id (sample_body q)); reflexivity|].
Ltac step_read i t := eapply rtc_l; [apply (cs_read _ _ i t); [reflexivity|first [discriminate | intros _; reflexivity]]|].
Ltac step_write i := eapply rtc_l; [eapply (cs_write _ _ i); reflexivity|].

(** The race of the spec (section 5) loses an update for good.  From
    the consistent sample store, users 10 and 11 review tour 1 (ratings 3
    and 5); the first recomputation aggregates before the second review
    and writes last.  All recomputations have ended, yet tour 1 shows one
    review rated 3 for its two reviews. *)
Theorem recompute_race :
  aggregates_consistent sample_store /\
  exists c, rtc (cstep false) (mk_config sample_store [] []) c /\ threads c = [] /\
            summary_of (cstore c) 1 = Some (1%nat, 3) /\
            tour_ratings 1 (reviews (cstore c)) = [3; 5] /\ ~ aggregates_consistent (cstore c).
Proof.
  split; [decide_true|]. eexists. split.
  { step_create 10%nat 100%nat 3. step_read 0%nat 1%nat. step_create 11%nat 101%nat 5.
    step_read 1%nat 1%nat. step_write 1%nat. step_write 0%nat. apply rtc_refl. }
  split; [reflexivity|]. split; [vm_compute; reflexivity|]. split; [vm_compute; reflexivity|].
  decide_false.
Qed.

(** Whatever state the race left, the next recomputation of a visible
    tour that aggregates and writes with no step in between repairs the
    tour: the convergence the spec relies on. *)
Theorem recompute_repairs c i t T :
  threads c !! i = Some (RecRead t) -> tours (cstore c) !! t = Some T -> Tour.secretTour T = false ->
  exists n a, cstep false c (read_step i t c) /\
              cstep false (read_step i t c) (write_step i t n a (read_step i t c)) /\
              exists T', tours (cstore (write_step i t n a (read_step i t c))) !! t = Some T' /\
                         tour_consistent (reviews (cstore (write_step i t n a (read_step i t c)))) t T'.
Proof.
  intros Hi HT Hs. pose proof (update_of_fresh t (cstore c)) as Hf.
  destruct (update_of _) as [n a] eqn:Eu. exists n, a.
  assert (Hw : threads (read_step i t c) !! i = Some (RecWrite t n a)).
  { unfold read_step. rewrite Eu. cbn. apply list_lookup_insert_eq. by eapply lookup_lt_Some. }
  split; [by constructor|]. split; [by constructor|].
  exists (Tour.set_ratings n a T). unfold write_step, read_step. rewrite Eu. cbn [cstore].
  rewrite Tour_findByIdAndUpdate_ratings_state, HT, Hs. cbn. split; [by rewrite lookup_insert_eq|].
  by apply fresh_write_consistent.
Qed.

(** The configuration after user 10 reviews tour 1, with its
    recomputation still to run. *)
Definition after_create_config : config :=
  spawn (fst (create_commit 0 100 (setTourUserIds (Some 1%nat) 10 (sample_body 5)) sample_store)) 1%nat
        (mk_config sample_store [] []).

Lemma recompute_repairs_witness :
  exists n a, cstep false after_create_config (read_step 0 1 after_create_config) /\
              cstep false (read_step 0 1 after_create_config)
                          (write_step 0 1 n a (read_step 0 1 after_create_config)) /\
              exists T', tours (cstore (write_step 0 1 n a (read_step 0 1 after_create_config))) !! 1%nat = Some T' /\
                         tour_consistent (reviews (cstore (write_step 0 1 n a (read_step 0 1 after_create_config)))) 1 T'.
Proof. apply (recompute_repairs _ _ _ (sample_tour "The Forest Hiker" false)); reflexivity. Defined.

(** C31: with the per-tour lock, every configuration reached from a
    consistent store in which no recomputation is in flight is consistent:
    the lost update of [recompute_race] cannot happen. *)
Theorem locked_quiescent_consistent s g c :
  aggregates_consistent s -> rtc (cstep true) (mk_config s [] g) c -> threads c = [] ->
  aggregates_consistent (cstore c).
Proof.
  intros Hs Hr Hq. apply conc_inv_quiescent; [|done].
  by apply (locked_rtc_inv _ _ Hr), conc_inv_init.
Qed.

Lemma locked_quiescent_consistent_witness :
  exists c, rtc (cstep true) (mk_config sample_store [] []) c /\ threads c = [] /\
            aggregates_consistent (cstore c).
Proof.
  eexists. split; [|split].
  - step_create 10%nat 100%nat 3. step_read 0%nat 1%nat. step_create 11%nat 101%nat 5.
    step_write 0%nat. step_read 0%nat 1%nat. step_write 0%nat. apply rtc_refl.
  - reflexivity.
  - apply (locked_quiescent_consistent sample_store []); [decide_true| |reflexivity].
    step_create 10%nat 100%nat 3. step_read 0%nat 1%nat. step_create 11%nat 101%nat 5.
    step_write 0%nat. step_read 0%nat 1%nat. step_write 0%nat. apply rtc_refl.
Defined.

(** C32: with the per-tour lock, from every configuration reached from a
    consistent store the recomputations in flight can all run to their
    end (no deadlock, every run of them is finite), and the store is then
    consistent. *)
Theorem locked_converges s g c :
  aggregates_consistent s -> rtc (cstep true) (mk_config s [] g) c ->
  exists c', rtc (cstep true) c c' /\ threads c' = [] /\ aggregates_consistent (cstore c').
Proof.
  intros Hs Hr. destruct (locked_drain c) as (c' & Hr' & Hq). exists c'.
  split; [done|]. split; [done|]. apply conc_inv_quiescent; [|done].
  apply (locked_rtc_inv _ _ Hr'), (locked_rtc_inv _ _ Hr). by apply conc_inv_init.
Qed.

Lemma locked_converges_witness :
  exists c', rtc (cstep true) after_create_config c' /\ threads c' = [] /\ aggregates_consistent (cstore c').
Proof.
  apply (locked_converges sample_store []); [decide_true|]. step_create 10%nat 100%nat 5. apply rtc_refl.
Defined.
