(* ===== verification/Failures.v ===== *)
(** * Data-store failures after a review mutation, and the process handlers

    The recomputation a review mutation triggers makes two data-store
    calls, [this.aggregate] and [Tour.findByIdAndUpdate]
    ([src/models/reviewModel.js], lines 50-71); either can reject when the
    database cannot serve it.  Where that rejection goes depends on how
    the hook runs the recomputation:
    - the post-save hook (lines 77-80) neither awaits nor catches the
      promise: the response is sent, and the rejection is left unhandled,
      for the process to deal with;
    - the post [findOneAnd] hook (lines 89-92) awaits it: the query
      rejects, and the controller answers with the error although the
      review was already written.

    [src/server.js] registers two process listeners: [uncaughtException]
    (lines 5-10: [process.exit(1)] at once) and, meant for unhandled
    rejections, a listener on the event name ['unhandledRejectit54353on']
    (lines 32-40: [server.close], then exit), which Node never emits.

    Here the data store is a record of the two calls: [reliable_store] is
    the one of [Reviews.v], [failing_store] rejects one of them.  The
    recomputation, the hooks and the two controllers are written over it;
    an [outcome] is the store after the request and the work it started,
    the response, and the rejections left unhandled.  Node's dispatch of
    these to the listeners is [on_unhandled_rejection], in either of its
    modes ([--unhandled-rejections=warn], the default before Node 15, and
    [throw], the default since). *)

From S2P Require Import Prelude Store Reviews Samples Concurrency.
Import Aggregate Mutations.

(** ** The data store and the recomputation over it *)

Record data_store := mk_data_store {
  aggregate_call : oid -> ST store (list ReviewStat);
  update_call : oid -> nat -> Q -> ST store (option Tour.t);
}.

Definition reliable_store : data_store :=
  mk_data_store aggregate_ratings Tour_findByIdAndUpdate_ratings.

(** Which call rejects, and with what. *)
Inductive fault :=
  | aggregate_rejects (e : js_error)
  | update_rejects (e : js_error).

Definition fault_error (f : fault) : js_error :=
  match f with aggregate_rejects e | update_rejects e => e end.

Definition failing_store (f : fault) : data_store :=
  match f with
  | aggregate_rejects e => mk_data_store (fun _ => st_fail e) Tour_findByIdAndUpdate_ratings
  | update_rejects e => mk_data_store aggregate_ratings (fun _ _ _ => st_fail e)
  end.

(** [reviewSchema.statics.calcAverageRatings] (lines 50-71) on [ds]. *)
Definition calcAverageRatings_on (ds : data_store) (tourId : oid) : ST store unit :=
  stats ← aggregate_call ds tourId;
  match stats with
  | st :: _ =>
      _ ← update_call ds tourId (nRating st) (avgRating st); mret tt
  | [] =>
      _ ← update_call ds tourId 0 (9 # 2); mret tt
  end.

(** ** Requests and the promises they leave *)

Record outcome (A : Type) := mk_outcome {
  o_store : store;
  o_response : result A;
  o_unhandled : list js_error;
}.
Arguments mk_outcome {A} o_store o_response o_unhandled.
Arguments o_store {A} o.
Arguments o_response {A} o.
Arguments o_unhandled {A} o.

(** A promise started and neither awaited nor caught: its work is done
    (after the response, which the store after the request includes), and
    its rejection is unhandled. *)
Definition floating (c : ST store unit) (s : store) : store * list js_error :=
  match c s with
  | (s', Ok _) => (s', [])
  | (s', Err e) => (s', [e])
  end.

(** [reviewSchema.post('save', function () { this.constructor.calcAverageRatings(this.tour); })]
    (lines 77-80). *)
Definition post_save_on (ds : data_store) (r : Review.t) (s : store) : store * list js_error :=
  floating (calcAverageRatings_on ds (Review.tour r)) s.

(** [createReview]: [Review.create] (validation and insert) awaited by the
    controller, which answers 201 with the review once it is saved. *)
Definition createReview_on (ds : data_store) (sl : Z) (paramTourId : option oid)
    (currentUser : oid) (id : oid) (body : ReviewInput) (s : store) : outcome Review.t :=
  match create_commit sl id (setTourUserIds paramTourId currentUser body) s with
  | (s1, Ok r) => let '(s2, rej) := post_save_on ds r s1 in mk_outcome s2 (Ok r) rej
  | (s1, Err e) => mk_outcome s1 (Err e) []
  end.

(** [reviewSchema.post(/^findOneAnd/, async function () { await this.r.constructor.calcAverageRatings(this.r.tour); })]
    (lines 89-92). *)
Definition post_findOneAnd_on (ds : data_store) (captured : option Review.t) : ST store unit :=
  match captured with
  | Some r => calcAverageRatings_on ds (Review.tour r)
  | None => st_fail (TypeError "Cannot read properties of null (reading 'constructor')")
  end.

(** A [findOneAnd...] query with the pre hook (lines 82-87) and the
    awaited post hook: an error of the post hook is the query's error. *)
Definition run_query_on {A} (ds : data_store) (op : query_op) (id : oid) (exec : ST store A)
    : ST store A :=
  if hook_applies "findOneAnd" op then
    captured ← findOne id;
    res ← exec;
    post_findOneAnd_on ds captured;;
    mret res
  else exec.

(** A handler wrapped in [catchAsync]: whatever it throws is passed to
    [next] and answered by the error handler, so nothing is left unhandled. *)
Definition caught {A} (c : ST store A) (s : store) : outcome A :=
  let '(s', r) := c s in mk_outcome s' r [].

Definition updateReview_on (ds : data_store) (id : oid) (u : ReviewUpdate) : store -> outcome Review.t :=
  caught (doc ← run_query_on ds op_findOneAndUpdate id (update_exec id u);
          match doc with Some d => mret d | None => st_fail (AppError 404) end).

Definition deleteReview_on (ds : data_store) (id : oid) : store -> outcome unit :=
  caught (doc ← run_query_on ds op_findOneAndDelete id (delete_exec id);
          match doc with Some _ => mret tt | None => st_fail (AppError 404) end).

(** ** The process listeners of [server.js] and Node's dispatch *)

(** The two listener bodies: [process.exit(1)] (lines 5-10), and
    [server.close(() => process.exit(1))] (lines 32-40). *)
Inductive listener := exit_at_once | close_then_exit.

Definition server_listeners : list (string * listener) :=
  [("uncaughtException", exit_at_once); ("unhandledRejectit54353on", close_then_exit)].

(** What becomes of the process: it keeps serving, it exits at once
    (aborting the requests in flight), or it stops accepting connections,
    lets those in flight finish and exits. *)
Inductive fate := serving | exited_at_once | closed_then_exited.

#[export] Instance fate_eq_dec : EqDecision fate.
Proof. solve_decision. Defined.

Inductive rejection_mode := warn_mode | throw_mode.

Definition listeners_of (ls : list (string * listener)) (ev : string) : list listener :=
  map snd (filter (fun p => bool_decide (p.1 = ev)) ls).

(** Node calls the listeners of an event in order; an [exit_at_once]
    ends the process before any [server.close] callback can run. *)
Definition run_listeners (hs : list listener) : fate :=
  if existsb (fun h => match h with exit_at_once => true | close_then_exit => false end) hs
  then exited_at_once else closed_then_exited.

(** An exception nobody catches: the listeners, or Node's default (print
    the stack, exit with code 1). *)
Definition on_uncaught (ls : list (string * listener)) : fate :=
  match listeners_of ls "uncaughtException" with
  | [] => exited_at_once
  | hs => run_listeners hs
  end.

(** A rejection nobody handles: the [unhandledRejection] listeners; with
    none, a warning, or (in [throw] mode) the rejection raised as an
    uncaught exception. *)
Definition on_unhandled_rejection (mode : rejection_mode) (ls : list (string * listener)) : fate :=
  match listeners_of ls "unhandledRejection" with
  | [] => match mode with warn_mode => serving | throw_mode => on_uncaught ls end
  | hs => run_listeners hs
  end.

(** The process after a request that left [rej] unhandled. *)
Definition process_after (mode : rejection_mode) (rej : list js_error) : fate :=
  match rej with
  | [] => serving
  | _ :: _ => on_unhandled_rejection mode server_listeners
  end.

(** ** The model agrees with [Reviews.v] when the data store serves *)

Lemma calcAverageRatings_on_reliable t s :
  calcAverageRatings_on reliable_store t s = calcAverageRatings t s.
Proof. reflexivity. Qed.

Lemma createReview_on_reliable sl tp user id body s :
  createReview_on reliable_store sl tp user id body s =
  let '(s', r) := createReview sl tp user id body s in mk_outcome s' r [].
Proof.
  unfold createReview_on, createReview. rewrite Review_create_commit. st_simpl.
  destruct (create_commit _ _ _ s) as [s1 [r|e]]; [|done].
  unfold post_save_on, floating, post_save. by rewrite calcAverageRatings_on_reliable, calcAverageRatings_eq.
Qed.

Lemma updateReview_on_reliable id u s :
  updateReview_on reliable_store id u s = caught (updateReview id u) s.
Proof. reflexivity. Qed.

Lemma deleteReview_on_reliable id s :
  deleteReview_on reliable_store id s = caught (deleteReview id) s.
Proof. reflexivity. Qed.

(** ** A failing call fails the recomputation, and changes nothing *)

Lemma calcAverageRatings_on_failing f t s :
  calcAverageRatings_on (failing_store f) t s = (s, Err (fault_error f)).
Proof.
  destruct f; unfold calcAverageRatings_on; cbn; st_simpl; [done|].
  unfold aggregate_ratings. by destruct (group_by_tour _).
Qed.

Lemma post_save_on_failing f r s : post_save_on (failing_store f) r s = (s, [fault_error f]).
Proof. unfold post_save_on, floating. by rewrite calcAverageRatings_on_failing. Qed.

(** The query commits, and then rejects with the post hook's error. *)
Lemma run_query_on_failing {A} f op id (exec : ST store A) s s1 r res :
  hook_applies "findOneAnd" op = true ->
  query_commit id exec s = (s1, Ok (Some r, res)) ->
  run_query_on (failing_store f) op id exec s = (s1, Err (fault_error f)).
Proof.
  intros Hop. unfold run_query_on, query_commit, findOne. rewrite Hop. st_simpl.
  destruct (exec s) as [s' [x|e]]; [|done]. intros [= <- -> <-].
  cbn [post_findOneAnd_on]. by rewrite calcAverageRatings_on_failing.
Qed.

Lemma update_commit_ok id u s r :
  reviews s !! id = Some r -> update_errors u = [] ->
  pair_taken (reviews s) id (Review.tour (apply_update u r)) (Review.user (apply_update u r)) = false ->
  query_commit id (update_exec id u) s =
    (set_reviews (<[id := apply_update u r]> (reviews s)) s, Ok (Some r, Some (apply_update u r))).
Proof.
  intros Hr Hu Hp. unfold query_commit, findOne, update_exec. st_simpl.
  by rewrite Hu, Hr, Hp.
Qed.

Lemma delete_commit_ok id s r :
  reviews s !! id = Some r ->
  query_commit id (delete_exec id) s = (set_reviews (delete id (reviews s)) s, Ok (Some r, Some r)).
Proof. intros Hr. unfold query_commit, findOne, delete_exec. st_simpl. by rewrite Hr. Qed.

(** ** The listeners of [server.js] *)

(** Node emits ['unhandledRejection'], never the name [server.js]
    registers: whatever the mode, an unhandled rejection never reaches
    the graceful shutdown of lines 32-40. *)
Lemma server_rejection_listener_unused mode :
  on_unhandled_rejection mode server_listeners =
  match mode with warn_mode => serving | throw_mode => exited_at_once end.
Proof. by destruct mode. Qed.

(** With the event name spelled as Node emits it, the listener runs. *)
Lemma spelled_rejection_listener_runs mode :
  on_unhandled_rejection mode
    [("uncaughtException", exit_at_once); ("unhandledRejection", close_then_exit)] = closed_then_exited.
Proof. by destruct mode. Qed.

(** ** Theorems *)

(** C13: When the recomputation after a review is created rejects (the
    database fails the aggregation or the tour write), the review is
    saved, the client gets the review (201), the tours are left as they
    were, and the rejection is left unhandled.  Under Node's [throw] mode,
    the default since Node 15, it then ends the server at once, through the
    [uncaughtException] listener, because the listener meant for it is
    registered under a misspelled event name; in [warn] mode the server
    goes on with the tour's aggregate stale.  The spec asks for a logged
    failure that is neither fatal nor a failure of the mutation. *)
Theorem createReview_recompute_rejects mode f sl tp user id body s r :
  snd (create_commit sl id (setTourUserIds tp user body) s) = Ok r ->
  createReview_on (failing_store f) sl tp user id body s =
    mk_outcome (set_reviews (<[id := r]> (reviews s)) s) (Ok r) [fault_error f] /\
  process_after mode [fault_error f] =
    match mode with warn_mode => serving | throw_mode => exited_at_once end.
Proof.
  intros Hc. split; [|apply server_rejection_listener_unused].
  unfold createReview_on. destruct (create_commit _ _ _ s) as [s1 res] eqn:E.
  cbn in Hc; subst res. apply create_commit_ok in E as [_ ->].
  by rewrite post_save_on_failing.
Qed.

Lemma createReview_recompute_rejects_witness :
  createReview_on (failing_store (update_rejects (MongoError "connection timed out"))) 0
    (Some 1%nat) 10 100 (sample_body 5) sample_store =
    mk_outcome (set_reviews (<[100%nat := review_100]> (reviews sample_store)) sample_store)
      (Ok review_100) [MongoError "connection timed out"] /\
  process_after throw_mode [MongoError "connection timed out"] = exited_at_once.
Proof.
  apply (createReview_recompute_rejects throw_mode (update_rejects (MongoError "connection timed out"))).
  vm_compute. reflexivity.
Defined.

(** C14: When the recomputation after an update or a delete by id
    rejects, the review is already updated (or deleted) in the store, but
    the awaited post hook makes the query reject, and the controller
    answers with the database's error: the committed mutation is reported
    as failed, where the spec says the post-commit step's failure must not
    be treated as a failure of the mutation. *)
Theorem mutation_recompute_rejects f id u s r :
  reviews s !! id = Some r -> update_errors u = [] ->
  pair_taken (reviews s) id (Review.tour (apply_update u r)) (Review.user (apply_update u r)) = false ->
  updateReview_on (failing_store f) id u s =
    mk_outcome (set_reviews (<[id := apply_update u r]> (reviews s)) s) (Err (fault_error f)) [] /\
  deleteReview_on (failing_store f) id s =
    mk_outcome (set_reviews (delete id (reviews s)) s) (Err (fault_error f)) [].
Proof.
  intros Hr Hu Hp. unfold updateReview_on, deleteReview_on, caught. st_simpl.
  rewrite (run_query_on_failing _ _ _ _ _ _ _ _ (proj1 findOneAnd_hooks_run) (update_commit_ok _ _ _ _ Hr Hu Hp)).
  by rewrite (run_query_on_failing _ _ _ _ _ _ _ _ (proj2 findOneAnd_hooks_run) (delete_commit_ok _ _ _ Hr)).
Qed.

Lemma mutation_recompute_rejects_witness :
  updateReview_on (failing_store (aggregate_rejects (MongoError "connection timed out"))) 100
    (rating_update 4) after_one =
    mk_outcome (set_reviews (<[100%nat := apply_update (rating_update 4) review_100]> (reviews after_one))
                  after_one) (Err (MongoError "connection timed out")) [] /\
  deleteReview_on (failing_store (aggregate_rejects (MongoError "connection timed out"))) 100 after_one =
    mk_outcome (set_reviews (delete 100%nat (reviews after_one)) after_one)
      (Err (MongoError "connection timed out")) [].
Proof.
  apply (mutation_recompute_rejects (aggregate_rejects (MongoError "connection timed out")));
    vm_compute; reflexivity.
Defined.
