(* ===== verification/JsValues.v ===== *)
(** * JavaScript values of a request's query string

    What [APIFeatures] reads: the object [req.query] that Express's query
    parser builds (strings, arrays of values for repeated keys, nested
    objects for [key[sub]=v]), JavaScript's truthiness, [ToString],
    [ToNumber] on strings (the grammar [StringNumericLiteral] of
    ECMA-262, section 7.1.4.1), and the number operations [*], [-] and
    [||] that [paginate] applies.

    Numbers are rationals extended with [NaN] and the infinities; of the
    rounding of doubles only overflow to an infinity and underflow to zero
    are kept (they change the truthiness tests of the code); the rounding
    of the significand is not modelled.  Strings are byte strings: the
    whitespace set is the ASCII one. *)

From S2P Require Import Prelude.
From Stdlib Require Import Ascii.

(** ** Query-string values *)

#[local] Set Warnings "-register-all".
Inductive qval :=
  | QStr (s : string)
  | QArr (l : list qval)
  | QObj (fields : list (string * qval)).

(** [obj[key]] on an object given by its properties in order: the value,
    or [None] for [undefined]. *)
Fixpoint obj_get (key : string) (o : list (string * qval)) : option qval :=
  match o with
  | [] => None
  | (k, v) :: o' => if String.eqb k key then Some v else obj_get key o'
  end.

(** [delete obj[key]]. *)
Fixpoint obj_delete (key : string) (o : list (string * qval)) : list (string * qval) :=
  match o with
  | [] => []
  | (k, v) :: o' => if String.eqb k key then obj_delete key o' else (k, v) :: obj_delete key o'
  end.

(** Truthiness of a property read: [undefined] and [""] are falsy, every
    other string and every array or object is truthy. *)
Definition qval_truthy (v : option qval) : bool :=
  match v with
  | None => false
  | Some (QStr s) => negb (String.eqb s "")
  | Some _ => true
  end.

(** ** Strings *)

Definition chars (s : string) : list ascii := String.list_ascii_of_string s.
Definition of_chars (l : list ascii) : string := String.string_of_list_ascii l.

(** [arr.join(sep)]. *)
Fixpoint join (sep : string) (l : list string) : string :=
  match l with
  | [] => ""
  | [x] => x
  | x :: l' => x ++ sep ++ join sep l'
  end.

(** [ToString] of a query-string value: an array is joined with commas, an
    object prints as [[object Object]]. *)
Fixpoint qval_to_string (v : qval) : string :=
  match v with
  | QStr s => s
  | QArr l => join "," (map qval_to_string l)
  | QObj _ => "[object Object]"
  end.

(** Splitting at every character that satisfies [p]: [s.split(",")] for
    [p] the comma. *)
Fixpoint split_at (p : ascii -> bool) (l : list ascii) : list (list ascii) :=
  match l with
  | [] => [[]]
  | c :: l' =>
      if p c then [] :: split_at p l'
      else match split_at p l' with
           | w :: ws => (c :: w) :: ws
           | [] => [[c]]
           end
  end.

Definition js_split (sep : ascii) (s : string) : list string :=
  map of_chars (split_at (fun c => Ascii.eqb c sep) (chars s)).

(** JavaScript's [WhiteSpace] and [LineTerminator] among the 8-bit code
    units: tab, line feed, vertical tab, form feed, carriage return, space
    and no-break space (U+00A0). *)
Definition is_space (c : ascii) : bool :=
  let n := nat_of_ascii c in (Nat.leb 9 n && Nat.leb n 13) || Nat.eqb n 32 || Nat.eqb n 160.

(** ** Numbers *)

Inductive jsnum := NaN | Fin (q : Q) | PosInf | NegInf.

(** The largest finite double is [2^1024 - 2^971]; a value at or beyond
    the midpoint [2^1024 - 2^970] rounds to an infinity, a value at most
    half the smallest subnormal, [2^-1075], rounds to zero. *)
Definition overflow_bound : Q := inject_Z (2 ^ 1024 - 2 ^ 970).
Definition underflow_bound : Q := 1 # (2 ^ 1075).

Definition of_Q (q : Q) : jsnum :=
  if Qle_bool overflow_bound q then PosInf
  else if Qle_bool overflow_bound (- q) then NegInf
  else if Qle_bool (Qabs q) underflow_bound then Fin 0
  else Fin q.

(** Truthiness: [NaN] and zero are falsy. *)
Definition js_truthy (x : jsnum) : bool :=
  match x with
  | NaN => false
  | Fin q => negb (Qeq_bool q 0)
  | _ => true
  end.

(** [a || b] on numbers. *)
Definition js_or (a b : jsnum) : jsnum := if js_truthy a then a else b.

Definition js_neg (x : jsnum) : jsnum :=
  match x with
  | NaN => NaN
  | Fin q => Fin (- q)
  | PosInf => NegInf
  | NegInf => PosInf
  end.

Definition js_add (a b : jsnum) : jsnum :=
  match a, b with
  | NaN, _ | _, NaN => NaN
  | Fin x, Fin y => of_Q (x + y)
  | Fin _, y => y
  | x, Fin _ => x
  | PosInf, PosInf => PosInf
  | NegInf, NegInf => NegInf
  | _, _ => NaN
  end.

Definition js_sub (a b : jsnum) : jsnum := js_add a (js_neg b).

(** The sign of a product with an infinite factor. *)
Definition inf_times (positive : bool) (x : Q) : jsnum :=
  match Qcompare x 0 with
  | Gt => if positive then PosInf else NegInf
  | Lt => if positive then NegInf else PosInf
  | Eq => NaN
  end.

Definition js_mul (a b : jsnum) : jsnum :=
  match a, b with
  | NaN, _ | _, NaN => NaN
  | Fin x, Fin y => of_Q (x * y)
  | Fin x, PosInf | PosInf, Fin x => inf_times true x
  | Fin x, NegInf | NegInf, Fin x => inf_times false x
  | PosInf, PosInf | NegInf, NegInf => PosInf
  | _, _ => NegInf
  end.

(** ** [ToNumber] on strings (ECMA-262 7.1.4.1.1, StringToNumber) *)

Definition digit_value (c : ascii) : Z :=
  let n := Z.of_nat (nat_of_ascii c) in
  if (48 <=? n)%Z && (n <=? 57)%Z then n - 48
  else if (97 <=? n)%Z && (n <=? 102)%Z then n - 87
  else if (65 <=? n)%Z && (n <=? 70)%Z then n - 55
  else 99.

Definition is_digit_in (base : Z) (c : ascii) : bool := (digit_value c <? base)%Z.

(** The longest prefix of characters satisfying [p], and the rest. *)
Fixpoint span (p : ascii -> bool) (l : list ascii) : list ascii * list ascii :=
  match l with
  | c :: l' => if p c then let '(a, b) := span p l' in (c :: a, b) else ([], l)
  | [] => ([], [])
  end.

Definition digits_value (base : Z) (ds : list ascii) : Z :=
  fold_left (fun acc d => acc * base + digit_value d)%Z ds 0%Z.

(** An optional leading [+] or [-]: whether it was [-], and the rest. *)
Definition split_sign (l : list ascii) : bool * list ascii :=
  match l with
  | c :: r =>
      if Ascii.eqb c "+" then (false, r)
      else if Ascii.eqb c "-" then (true, r)
      else (false, l)
  | [] => (false, [])
  end.

(** [DecimalDigits], [+DecimalDigits] or [-DecimalDigits] and nothing
    after: the exponent of an [ExponentPart]. *)
Definition parse_signed_integer (l : list ascii) : option Z :=
  let '(negative, l') := split_sign l in
  let '(ds, rest) := span (is_digit_in 10) l' in
  match ds, rest with
  | _ :: _, [] => Some (if negative then - digits_value 10 ds else digits_value 10 ds)%Z
  | _, _ => None
  end.

(** The fraction after a [.], if the rest starts with one. *)
Definition split_fraction (l : list ascii) : list ascii * list ascii :=
  match l with
  | c :: r => if Ascii.eqb c "." then span (is_digit_in 10) r else ([], l)
  | [] => ([], [])
  end.

(** [StrUnsignedDecimalLiteral] without [Infinity]: digits, an optional
    fraction, an optional exponent, at least one digit before or after the
    point, and nothing after. *)
Definition parse_unsigned_decimal (l : list ascii) : option Q :=
  let '(int, r1) := span (is_digit_in 10) l in
  let '(frac, r2) := split_fraction r1 in
  let exp :=
    match r2 with
    | [] => Some 0%Z
    | e :: r => if Ascii.eqb e "e" || Ascii.eqb e "E" then parse_signed_integer r else None
    end in
  match int, frac, exp with
  | [], [], _ => None
  | _, _, Some ex =>
      Some (inject_Z (digits_value 10 (int ++ frac)) * Qpower 10 (ex - Z.of_nat (length frac)))
  | _, _, None => None
  end.

(** [StrDecimalLiteral]: an optional sign, then [Infinity] or an unsigned
    decimal literal. *)
Definition parse_decimal (l : list ascii) : jsnum :=
  let '(negative, l') := split_sign l in
  if bool_decide (l' = chars "Infinity") then (if negative then NegInf else PosInf)
  else match parse_unsigned_decimal l' with
       | Some q => of_Q (if negative then - q else q)
       | None => NaN
       end.

(** [NonDecimalIntegerLiteral]: [0b], [0o] or [0x] (either case) and at
    least one digit of the base, nothing else. *)
Definition parse_non_decimal (base : Z) (l : list ascii) : jsnum :=
  let '(ds, rest) := span (is_digit_in base) l in
  match ds, rest with
  | _ :: _, [] => of_Q (inject_Z (digits_value base ds))
  | _, _ => NaN
  end.

(** The base announced by a [0x], [0o] or [0b] prefix, and the rest. *)
Definition non_decimal_prefix (l : list ascii) : option (Z * list ascii) :=
  match l with
  | z :: c :: r =>
      if Ascii.eqb z "0" then
        if Ascii.eqb c "x" || Ascii.eqb c "X" then Some (16%Z, r)
        else if Ascii.eqb c "o" || Ascii.eqb c "O" then Some (8%Z, r)
        else if Ascii.eqb c "b" || Ascii.eqb c "B" then Some (2%Z, r)
        else None
      else None
  | _ => None
  end.

Definition trim (l : list ascii) : list ascii :=
  rev (snd (span is_space (rev (snd (span is_space l))))).

Definition StringToNumber (s : string) : jsnum :=
  match trim (chars s) with
  | [] => Fin 0
  | l =>
      match non_decimal_prefix l with
      | Some (base, r) => parse_non_decimal base r
      | None => parse_decimal l
      end
  end.

(** [ToNumber] of a property read: [undefined] is [NaN]; an array or an
    object is first converted to its string. *)
Definition ToNumber (v : option qval) : jsnum :=
  match v with
  | None => NaN
  | Some x => StringToNumber (qval_to_string x)
  end.

(** A non-empty string of decimal digits, as a list of characters. *)
Definition decimal_numeral (ds : list ascii) : Prop :=
  ds <> [] /\ Forall (fun c => is_digit_in 10 c = true) ds.

(** [fs.join(sep)] on character lists. *)
Fixpoint join_chars (sep : ascii) (fs : list (list ascii)) : list ascii :=
  match fs with
  | [] => []
  | [f] => f
  | f :: fs' => f ++ sep :: join_chars sep fs'
  end.

(** ** Lemmas *)

(** Turn boolean comparisons on [Z] in the context into propositions. *)
Ltac zleb :=
  repeat match goal with
  | H : (_ <=? _)%Z = true |- _ => apply Z.leb_le in H
  | H : (_ <=? _)%Z = false |- _ => apply Z.leb_gt in H
  | H : (_ <? _)%Z = true |- _ => apply Z.ltb_lt in H
  | H : (_ <? _)%Z = false |- _ => apply Z.ltb_ge in H
  end.

Lemma digit_value_nonneg c : (0 <= digit_value c)%Z.
Proof.
  unfold digit_value. set (n := Z.of_nat _).
  destruct (48 <=? n)%Z eqn:E1, (n <=? 57)%Z eqn:E2; simpl; zleb; try lia;
  destruct (97 <=? n)%Z eqn:E3, (n <=? 102)%Z eqn:E4; simpl; zleb; try lia;
  destruct (65 <=? n)%Z eqn:E5, (n <=? 70)%Z eqn:E6; simpl; zleb; lia.
Qed.

Lemma digits_value_nonneg base ds : (0 <= base)%Z -> (0 <= digits_value base ds)%Z.
Proof.
  intros Hb. unfold digits_value.
  assert (H : forall a, (0 <= a)%Z ->
            (0 <= fold_left (fun acc d => acc * base + digit_value d)%Z ds a)%Z).
  { induction ds as [|d ds IH]; intros a Ha; simpl; [done|].
    apply IH. pose proof (digit_value_nonneg d). nia. }
  apply H. lia.
Qed.

(** A decimal digit is one of the characters [0] to [9]. *)
Lemma is_digit10_range c : is_digit_in 10 c = true -> (48 <= nat_of_ascii c <= 57)%nat.
Proof.
  unfold is_digit_in, digit_value. set (n := nat_of_ascii c). intros H.
  destruct (48 <=? Z.of_nat n)%Z eqn:E1, (Z.of_nat n <=? 57)%Z eqn:E2; simpl in H; zleb; try lia;
  destruct (97 <=? Z.of_nat n)%Z eqn:E3, (Z.of_nat n <=? 102)%Z eqn:E4; simpl in H; zleb; try lia;
  destruct (65 <=? Z.of_nat n)%Z eqn:E5, (Z.of_nat n <=? 70)%Z eqn:E6; simpl in H; zleb; lia.
Qed.

Lemma digit_not_space c : is_digit_in 10 c = true -> is_space c = false.
Proof.
  intros H. apply is_digit10_range in H. unfold is_space.
  rewrite (proj2 (Nat.leb_gt _ 13)) by lia. rewrite (proj2 (Nat.eqb_neq _ 32)) by lia.
  rewrite (proj2 (Nat.eqb_neq _ 160)) by lia. by rewrite andb_false_r.
Qed.

(** A decimal digit differs from any character outside [0]-[9]. *)
Lemma digit_neq c d :
  is_digit_in 10 c = true -> (nat_of_ascii d < 48 \/ 57 < nat_of_ascii d)%nat ->
  Ascii.eqb c d = false.
Proof.
  intros Hc Hd. apply is_digit10_range in Hc.
  destruct (Ascii.eqb_spec c d) as [->|]; [lia|done].
Qed.

Lemma span_all p l : Forall (fun c => p c = true) l -> span p l = (l, []).
Proof. induction 1 as [|c l Hc _ IH]; simpl; [done|]. by rewrite Hc, IH. Qed.

Lemma span_space_none m : Forall (fun c => is_space c = false) m -> snd (span is_space m) = m.
Proof. destruct 1 as [|c m Hc _]; simpl; [done|]. by rewrite Hc. Qed.

Lemma trim_id l : Forall (fun c => is_space c = false) l -> trim l = l.
Proof.
  intros H. unfold trim. rewrite (span_space_none l H).
  rewrite span_space_none by (apply Forall_rev; exact H). apply rev_involutive.
Qed.

(** Rationals that are integers compute without normalisation. *)
Lemma Qmult_inject_Z_1 z : inject_Z z * 1 = inject_Z z.
Proof. unfold Qmult, inject_Z. simpl. by rewrite Z.mul_1_r. Qed.

Lemma Qplus_inject_Z a b : inject_Z a + inject_Z b = inject_Z (a + b).
Proof. unfold Qplus, inject_Z. simpl. by rewrite !Z.mul_1_r. Qed.

Lemma Qmult_inject_Z a b : inject_Z a * inject_Z b = inject_Z (a * b).
Proof. reflexivity. Qed.

(** An integer of magnitude below [2^1000] is a double exactly. *)
Lemma of_Q_int z : (Z.abs z < 2 ^ 1000)%Z -> of_Q (inject_Z z) = Fin (inject_Z z).
Proof.
  intros H. unfold of_Q, Qle_bool, overflow_bound, underflow_bound, inject_Z.
  cbn [Qnum Qden Qopp Qabs]. rewrite !Z.mul_1_r.
  destruct (Z.leb_spec (2 ^ 1024 - 2 ^ 970) z); [lia|].
  destruct (Z.leb_spec (2 ^ 1024 - 2 ^ 970) (- z)); [lia|].
  destruct (Z.leb_spec (Z.abs z * Z.pos (2 ^ 1075)) 1); [|done].
  assert (z = 0%Z) as -> by lia. reflexivity.
Qed.

Lemma split_sign_digit c r : is_digit_in 10 c = true -> split_sign (c :: r) = (false, c :: r).
Proof. intros Hc. unfold split_sign. by rewrite !(digit_neq c) by first [exact Hc | vm_compute; lia]. Qed.

Lemma digits_not_infinity ds : decimal_numeral ds -> ds <> chars "Infinity".
Proof.
  intros [Hne Hd] Heq. destruct ds as [|c r]; [done|]. apply Forall_cons in Hd as [Hc _].
  injection Heq as -> _. apply is_digit10_range in Hc. vm_compute in Hc. lia.
Qed.

Lemma parse_unsigned_digits ds :
  decimal_numeral ds -> parse_unsigned_decimal ds = Some (inject_Z (digits_value 10 ds)).
Proof.
  intros [Hne Hd]. unfold parse_unsigned_decimal. rewrite span_all by exact Hd.
  simpl split_fraction. cbv iota beta. destruct ds as [|c r]; [done|].
  rewrite app_nil_r. simpl Qpower. by rewrite Qmult_inject_Z_1.
Qed.

Lemma no_prefix_digits ds : decimal_numeral ds -> non_decimal_prefix ds = None.
Proof.
  intros [_ Hd]. destruct ds as [|c [|c' r]]; [done|done|]. simpl.
  apply Forall_cons in Hd as [_ Hd]. apply Forall_cons in Hd as [Hc' _].
  rewrite !(digit_neq c') by first [exact Hc' | vm_compute; lia]. by destruct (Ascii.eqb c "0").
Qed.

Lemma numeral_no_space ds : decimal_numeral ds -> Forall (fun c => is_space c = false) ds.
Proof. intros [_ Hd]. eapply Forall_impl; [exact Hd|apply digit_not_space]. Qed.

(** ToNumber of a decimal numeral is its value (below [2^1000]). *)
Lemma StringToNumber_digits ds :
  decimal_numeral ds -> (digits_value 10 ds < 2 ^ 1000)%Z ->
  StringToNumber (of_chars ds) = Fin (inject_Z (digits_value 10 ds)).
Proof.
  intros Hn Hlt. pose proof (digits_value_nonneg 10 ds ltac:(lia)) as Hpos.
  unfold StringToNumber, chars, of_chars.
  rewrite String.list_ascii_of_string_of_list_ascii, trim_id by (by apply numeral_no_space).
  pose proof Hn as [Hne Hd]. destruct ds as [|c r]; [done|].
  pose proof Hd as Hd'. apply Forall_cons in Hd' as [Hc _].
  rewrite no_prefix_digits by exact Hn. unfold parse_decimal.
  rewrite split_sign_digit by exact Hc.
  rewrite bool_decide_false by (by apply digits_not_infinity).
  rewrite parse_unsigned_digits by exact Hn. apply of_Q_int. lia.
Qed.

(** ToNumber of [-] followed by a decimal numeral is its opposite. *)
Lemma StringToNumber_neg_digits ds :
  decimal_numeral ds -> (digits_value 10 ds < 2 ^ 1000)%Z ->
  StringToNumber (of_chars ("-"%char :: ds)) = Fin (inject_Z (- digits_value 10 ds)).
Proof.
  intros Hn Hlt. pose proof (digits_value_nonneg 10 ds ltac:(lia)) as Hpos.
  unfold StringToNumber, chars, of_chars.
  rewrite String.list_ascii_of_string_of_list_ascii.
  rewrite trim_id by (apply Forall_cons; split; [reflexivity|by apply numeral_no_space]).
  assert (Hnp : non_decimal_prefix ("-"%char :: ds) = None) by (by destruct ds).
  rewrite Hnp. unfold parse_decimal. simpl split_sign. cbv iota beta.
  rewrite bool_decide_false by (by apply digits_not_infinity).
  rewrite parse_unsigned_digits by done.
  change (- inject_Z (digits_value 10 ds)) with (inject_Z (- digits_value 10 ds)).
  apply of_Q_int. lia.
Qed.

(** A number that equals zero is [+0] after rounding. *)
Lemma of_Q_zero q : q == 0 -> of_Q q = Fin 0.
Proof.
  intros Hq. unfold of_Q.
  assert (Hf : forall x, x == 0 -> Qle_bool overflow_bound x = false).
  { intros x Hx. apply not_true_iff_false. rewrite Qle_bool_iff, Hx.
    intros Hle. vm_compute in Hle. by apply Hle. }
  rewrite (Hf q Hq), (Hf (- q)) by (rewrite Hq; reflexivity).
  replace (Qle_bool (Qabs q) underflow_bound) with true; [reflexivity|].
  symmetry. apply Qle_bool_iff. rewrite Hq. vm_compute. discriminate.
Qed.

(** A falsy number stays falsy when multiplied by one. *)
Lemma js_mul_one_falsy x : js_truthy x = false -> js_truthy (js_mul x (Fin 1)) = false.
Proof.
  destruct x as [|q| |]; simpl; try done.
  intros Hq. apply negb_false_iff, Qeq_bool_iff in Hq.
  rewrite of_Q_zero; [reflexivity|]. rewrite Hq. reflexivity.
Qed.

(** A numeral's number times one. *)
Lemma js_mul_one_int z : (Z.abs z < 2 ^ 1000)%Z -> js_mul (Fin (inject_Z z)) (Fin 1) = Fin (inject_Z z).
Proof. intros H. simpl. rewrite Qmult_inject_Z_1. by apply of_Q_int. Qed.

Lemma js_truthy_int z : z <> 0%Z -> js_truthy (Fin (inject_Z z)) = true.
Proof.
  intros H. simpl. apply negb_true_iff, not_true_iff_false. rewrite Qeq_bool_iff.
  unfold Qeq. simpl. lia.
Qed.

(** Strings and character lists. *)
Lemma chars_app s1 s2 : chars (s1 ++ s2) = chars s1 ++ chars s2.
Proof. induction s1 as [|c s1 IH]; simpl; [done|]. unfold chars in *. by rewrite IH. Qed.

Lemma chars_of_chars l : chars (of_chars l) = l.
Proof. apply String.list_ascii_of_string_of_list_ascii. Qed.

Lemma of_chars_chars s : of_chars (chars s) = s.
Proof. apply String.string_of_list_ascii_of_string. Qed.

Lemma chars_join c fs : chars (join (String c EmptyString) fs) = join_chars c (map chars fs).
Proof.
  induction fs as [|f fs IH]; [done|]. destruct fs as [|g fs]; [done|].
  change (join (String c EmptyString) (f :: g :: fs))
    with (f ++ String c EmptyString ++ join (String c EmptyString) (g :: fs))%string.
  rewrite !chars_app, IH. reflexivity.
Qed.

(** Splitting a joined list at its separator gives the list back. *)
Lemma split_at_app p f l w ws :
  Forall (fun x => p x = false) f -> split_at p l = w :: ws ->
  split_at p (f ++ l) = (f ++ w) :: ws.
Proof.
  intros Hf Hl. induction Hf as [|x f Hx _ IH]; simpl; [done|]. by rewrite Hx, IH.
Qed.

Lemma split_at_sep p c l : p c = true -> split_at p (c :: l) = [] :: split_at p l.
Proof. intros H. simpl. by rewrite H. Qed.

Lemma split_at_join p c fs :
  p c = true -> fs <> [] -> Forall (Forall (fun x => p x = false)) fs ->
  split_at p (join_chars c fs) = fs.
Proof.
  intros Hc. induction fs as [|f fs IH]; intros Hne Hall; [done|].
  apply Forall_cons in Hall as [Hf Hall].
  destruct fs as [|g fs].
  - simpl. rewrite <- (app_nil_r f) at 1.
    rewrite (split_at_app p f [] [] []) by done. by rewrite app_nil_r.
  - change (join_chars c (f :: g :: fs)) with (f ++ c :: join_chars c (g :: fs)).
    rewrite (split_at_app p f _ [] (g :: fs)); [by rewrite app_nil_r|done|].
    rewrite split_at_sep by exact Hc. by rewrite IH.
Qed.

