(* ===== verification/Tours.v ===== *)
(** * The Tour model's write paths ([src/models/tourModel.js])

    [Tour.create(body)] (the [createTour] handler): the document is built
    from the body with the schema's defaults and [trim] setters, validated
    path by path (lines 8-115), given its slug by the [pre('save')] hook
    (lines 152-156) and inserted under the unique index on [name].  The
    update and delete handlers go through [findByIdAndUpdate] (with
    [runValidators]) and [findByIdAndDelete], hence through the tour's
    [pre(/^find/)] middleware (lines 162-168).  The handlers are
    [handlerFactory]'s [createOne], [updateOne] and [deleteOne], which are
    not under [src/] and are modelled from the spec as for reviews.

    Values arrive already of their schema type (a cast error of a string
    where a number is expected is not modelled).  [slugify] is a library
    and a parameter of the section.  The update validators of Mongoose run
    with [this] not bound to the document (the default [context] option):
    the [priceDiscount] validator [val < this.price] then fails whatever
    the value, whether [this.price] throws or is [undefined]. *)

From S2P Require Import Prelude Store Reviews Samples Consistency JsValues.
From stdpp Require Import pretty.
Import Aggregate Mutations.
Local Open Scope Q_scope.

(** ** Request bodies *)

(** A tour body: the fields the request sets. *)
Record TourBody := mk_tbody {
  tb_name : option string;
  tb_duration : option Q;
  tb_maxGroupSize : option Q;
  tb_difficulty : option string;
  tb_ratingsAverage : option Q;
  tb_ratingsQuantity : option nat;
  tb_price : option Q;
  tb_priceDiscount : option Q;
  tb_summary : option string;
  tb_description : option string;
  tb_imageCover : option string;
  tb_images : option (list string);
  tb_createdAt : option Z;
  tb_startDates : option (list Z);
  tb_secretTour : option bool;
  tb_startLocation : option Tour.geo_point;
  tb_locations : option (list Tour.location);
  tb_guides : option (list oid);
}.

(** [trim: true]: [String.prototype.trim]. *)
Definition js_trim (s : string) : string := of_chars (trim (chars s)).

(** [enum: ['easy', 'medium', 'difficult']] (lines 30-33). *)
Definition parse_difficulty (s : string) : option Tour.difficulty :=
  if String.eqb s "easy" then Some Tour.easy
  else if String.eqb s "medium" then Some Tour.medium
  else if String.eqb s "difficult" then Some Tour.difficult
  else None.

(** ** Validators *)

(** [required] on a string: present and not empty. *)
Definition required_str (v : option string) : bool :=
  match v with Some s => negb (String.eqb s "") | None => false end.

Definition required {A} (v : option A) : bool := match v with Some _ => true | None => false end.

(** [maxLength: 40] and [minLength: 10] (lines 13-14), on a present value. *)
Definition name_length_ok (v : option string) : bool :=
  match v with Some s => (10 <=? String.length s)%nat && (String.length s <=? 40)%nat | None => true end.

Definition difficulty_ok (v : option string) : bool :=
  match v with Some s => required (parse_difficulty s) | None => true end.

(** [min: 1] and [max: 5] (lines 39-40), on the value after the setter. *)
Definition ratingsAverage_ok (v : option Q) : bool :=
  match v with
  | Some a => Qle_bool 1 (Tour.ratingsAverage_set a) && Qle_bool (Tour.ratingsAverage_set a) 5
  | None => true
  end.

(** [priceDiscount]'s validator [val < this.price] (lines 53-58), [this]
    being the document. *)
Definition priceDiscount_ok (price : option Q) (v : option Q) : bool :=
  match v, price with
  | Some d, Some p => negb (Qle_bool p d)
  | Some _, None => false
  | None, _ => true
  end.

(** [type: { enum: ['Point'] }] of [startLocation] and of each location. *)
Definition point_ok (g : Tour.geo_point) : bool := String.eqb (Tour.geo_type g) "Point".

(** The paths of the locations whose [type] is not [Point]. *)
Definition locations_errors (ls : list Tour.location) : list string :=
  concat (imap (fun i l => path_error ("locations." +:+ pretty (N.of_nat i) +:+ ".type")
                                      (point_ok (Tour.loc_point l))) ls).

(** The failing paths of a new document, in schema order. *)
Definition tour_errors (b : TourBody) : list string :=
  path_error "name" (required_str (js_trim <$> tb_name b) && name_length_ok (js_trim <$> tb_name b)) ++
  path_error "duration" (required (tb_duration b)) ++
  path_error "maxGroupSize" (required (tb_maxGroupSize b)) ++
  path_error "difficulty" (required (tb_difficulty b) && difficulty_ok (tb_difficulty b)) ++
  path_error "ratingsAverage" (ratingsAverage_ok (tb_ratingsAverage b)) ++
  path_error "price" (required (tb_price b)) ++
  path_error "priceDiscount" (priceDiscount_ok (tb_price b) (tb_priceDiscount b)) ++
  path_error "summary" (required_str (js_trim <$> tb_summary b)) ++
  path_error "imageCover" (required_str (tb_imageCover b)) ++
  path_error "startLocation.type" (default true (point_ok <$> tb_startLocation b)) ++
  locations_errors (default [] (tb_locations b)).

(** The update validators ([runValidators: true]) of the paths the body
    sets: no [required] check, and [priceDiscount]'s validator without the
    document. *)
Definition tour_update_errors (b : TourBody) : list string :=
  path_error "name" (name_length_ok (js_trim <$> tb_name b)) ++
  path_error "difficulty" (difficulty_ok (tb_difficulty b)) ++
  path_error "ratingsAverage" (ratingsAverage_ok (tb_ratingsAverage b)) ++
  path_error "priceDiscount" (priceDiscount_ok None (tb_priceDiscount b)) ++
  path_error "startLocation.type" (default true (point_ok <$> tb_startLocation b)) ++
  locations_errors (default [] (tb_locations b)).

(** ** Create, update, delete *)

(** [startLocation] when the body has none: the defaults of its nested
    paths, [type: 'Point'] and [coordinates: []]. *)
Definition default_start : Tour.geo_point := Tour.mk_geo_point "Point" [] None None.

(** A tour with another name already stored: the unique index on [name]. *)
Definition name_taken (ts : gmap oid Tour.t) (self : oid) (n : string) : bool :=
  existsb (fun '(k, T) => negb (Nat.eqb k self) && String.eqb (Tour.name T) n) (map_to_list ts).

Section WithSchema.

(** The instant the schema was built: [default: Date.now()] (line 76). *)
Context (schema_loaded_at : Z).
(** [slugify(name, { lower: true })], a library function. *)
Context (slugify_lower : string -> string).

(** The document [new Tour(body)] builds: defaults, setters, trimmed
    strings. *)
Definition tour_doc (b : TourBody) : Tour.t :=
  Tour.mk (default "" (js_trim <$> tb_name b)) None (default 0%Q (tb_duration b))
          (default 0%Q (tb_maxGroupSize b))
          (default Tour.easy (tb_difficulty b ≫= parse_difficulty))
          (Tour.ratingsAverage_set (default Tour.ratingsAverage_default (tb_ratingsAverage b)))
          (default 0%nat (tb_ratingsQuantity b)) (default 0%Q (tb_price b)) (tb_priceDiscount b)
          (default "" (js_trim <$> tb_summary b)) (js_trim <$> tb_description b)
          (default "" (tb_imageCover b)) (default [] (tb_images b))
          (default schema_loaded_at (tb_createdAt b)) (default [] (tb_startDates b))
          (default false (tb_secretTour b)) (Some (default default_start (tb_startLocation b)))
          (default [] (tb_locations b)) (default [] (tb_guides b)).

(** [validate()] before [save()]. *)
Definition tour_validate (b : TourBody) : result Tour.t :=
  match tour_errors b with
  | [] => Ok (tour_doc b)
  | errs => Err (ValidationError errs)
  end.

(** The [pre('save')] hook (lines 152-156). *)
Definition pre_save_slug (T : Tour.t) : Tour.t :=
  Tour.mk (Tour.name T) (Some (slugify_lower (Tour.name T))) (Tour.duration T) (Tour.maxGroupSize T)
          (Tour.difficulty_of T) (Tour.ratingsAverage T) (Tour.ratingsQuantity T) (Tour.price T)
          (Tour.priceDiscount T) (Tour.summary T) (Tour.description T) (Tour.imageCover T)
          (Tour.images T) (Tour.createdAt T) (Tour.startDates T) (Tour.secretTour T)
          (Tour.startLocation T) (Tour.locations T) (Tour.guides T).

(** The insert, under the indexes on [_id] and [name]. *)
Definition tour_insert (id : oid) (T : Tour.t) : ST store unit :=
  fun s =>
    match tours s !! id with
    | Some _ => (s, Err (DuplicateKey "_id_"))
    | None =>
        if name_taken (tours s) id (Tour.name T) then (s, Err (DuplicateKey "name_1"))
        else (set_tours (<[id := T]> (tours s)) s, Ok tt)
    end.

(** [Tour.create(body)]: validation, the [pre('save')] hook, the insert. *)
Definition Tour_create (id : oid) (b : TourBody) : ST store Tour.t :=
  T ← st_lift (tour_validate b);
  let T' := pre_save_slug T in
  tour_insert id T';;
  mret T'.

(** [factory.createOne(Tour)]. *)
Definition createTour (id : oid) (body : TourBody) : ST store Tour.t := Tour_create id body.

End WithSchema.

(** The [$set] of a body on a tour, through the setters.  No document
    middleware runs: the slug stays. *)
Definition apply_tour_update (b : TourBody) (T : Tour.t) : Tour.t :=
  Tour.mk (default (Tour.name T) (js_trim <$> tb_name b)) (Tour.slug T)
          (default (Tour.duration T) (tb_duration b)) (default (Tour.maxGroupSize T) (tb_maxGroupSize b))
          (default (Tour.difficulty_of T) (tb_difficulty b ≫= parse_difficulty))
          (default (Tour.ratingsAverage T) (Tour.ratingsAverage_set <$> tb_ratingsAverage b))
          (default (Tour.ratingsQuantity T) (tb_ratingsQuantity b)) (default (Tour.price T) (tb_price b))
          (match tb_priceDiscount b with Some d => Some d | None => Tour.priceDiscount T end)
          (default (Tour.summary T) (js_trim <$> tb_summary b))
          (match tb_description b with Some d => Some (js_trim d) | None => Tour.description T end)
          (default (Tour.imageCover T) (tb_imageCover b)) (default (Tour.images T) (tb_images b))
          (default (Tour.createdAt T) (tb_createdAt b)) (default (Tour.startDates T) (tb_startDates b))
          (default (Tour.secretTour T) (tb_secretTour b))
          (match tb_startLocation b with Some g => Some g | None => Tour.startLocation T end)
          (default (Tour.locations T) (tb_locations b)) (default (Tour.guides T) (tb_guides b)).

(** [Tour.findByIdAndUpdate(id, body, { new: true, runValidators: true })]:
    the update validators, then the query with the [pre(/^find/)] filter,
    then the unique index on [name]. *)
Definition Tour_findByIdAndUpdate (id : oid) (b : TourBody) : ST store (option Tour.t) :=
  fun s =>
    match tour_update_errors b with
    | [] =>
        match tours s !! id with
        | Some T =>
            if tour_query_visible op_findOneAndUpdate T then
              let T' := apply_tour_update b T in
              if name_taken (tours s) id (Tour.name T') then (s, Err (DuplicateKey "name_1"))
              else (set_tours (<[id := T']> (tours s)) s, Ok (Some T'))
            else (s, Ok None)
        | None => (s, Ok None)
        end
    | errs => (s, Err (ValidationError errs))
    end.

(** [Tour.findByIdAndDelete(id)], through the [pre(/^find/)] filter. *)
Definition Tour_findByIdAndDelete (id : oid) : ST store (option Tour.t) :=
  fun s =>
    match tours s !! id with
    | Some T =>
        if tour_query_visible op_findOneAndDelete T then (set_tours (delete id (tours s)) s, Ok (Some T))
        else (s, Ok None)
    | None => (s, Ok None)
    end.

(** [factory.updateOne(Tour)]: [404] when no document was updated. *)
Definition updateTour (id : oid) (b : TourBody) : ST store Tour.t :=
  doc ← Tour_findByIdAndUpdate id b;
  match doc with
  | Some d => mret d
  | None => st_fail (AppError 404)
  end.

(** [factory.deleteOne(Tour)]: [404] when no document was deleted. *)
Definition deleteTour (id : oid) : ST store unit :=
  doc ← Tour_findByIdAndDelete id;
  match doc with
  | Some _ => mret tt
  | None => st_fail (AppError 404)
  end.

(** ** Lemmas *)

Lemma Tour_create_state sl sg id b s :
  fst (Tour_create sl sg id b s) =
  match tour_errors b with
  | [] => if bool_decide (tours s !! id = None) && negb (name_taken (tours s) id (Tour.name (tour_doc sl b)))
          then set_tours (<[id := pre_save_slug sg (tour_doc sl b)]> (tours s)) s else s
  | _ => s
  end.
Proof.
  unfold Tour_create, tour_validate, tour_insert. st_simpl.
  destruct (tour_errors b); [|done]. cbn.
  destruct (tours s !! id); [by rewrite bool_decide_false|]. rewrite bool_decide_true by done.
  cbn. by destruct (name_taken _ _ _).
Qed.

(** A new tour whose body sets no rating field starts with the summary of
    an empty review set. *)
Lemma tour_doc_consistent sl sg b rv id :
  tb_ratingsAverage b = None -> tb_ratingsQuantity b = None -> tour_ratings id rv = [] ->
  tour_consistent rv id (pre_save_slug sg (tour_doc sl b)).
Proof. intros Ha Hq Hr. unfold tour_consistent. rewrite Hr. cbn. by rewrite Ha, Hq. Qed.

(** Writing tour [id] leaves every other tour as it was. *)
Lemma consistent_insert_tour s id T :
  aggregates_consistent s -> (Tour.secretTour T = false -> tour_consistent (reviews s) id T) ->
  aggregates_consistent (set_tours (<[id := T]> (tours s)) s).
Proof.
  intros H HT t T' Ht Hs. cbn in *. destruct (decide (t = id)) as [->|Hne].
  - rewrite lookup_insert_eq in Ht. injection Ht as <-. by apply HT.
  - rewrite lookup_insert_ne in Ht by congruence. by apply (H t T').
Qed.

Lemma Tour_findByIdAndUpdate_errors id b s errs :
  tour_update_errors b = errs -> errs <> [] -> Tour_findByIdAndUpdate id b s = (s, Err (ValidationError errs)).
Proof. intros <- Hne. unfold Tour_findByIdAndUpdate. by destruct (tour_update_errors b). Qed.

(** A secret tour is invisible to the [/^find/] queries of the update and
    the delete. *)
Lemma Tour_findByIdAndUpdate_secret id b s T :
  tours s !! id = Some T -> Tour.secretTour T = true -> tour_update_errors b = [] ->
  Tour_findByIdAndUpdate id b s = (s, Ok None).
Proof.
  intros HT Hs He. unfold Tour_findByIdAndUpdate, tour_query_visible. rewrite He, HT. cbn.
  by rewrite Hs.
Qed.

Lemma Tour_findByIdAndDelete_secret id s T :
  tours s !! id = Some T -> Tour.secretTour T = true -> Tour_findByIdAndDelete id s = (s, Ok None).
Proof. intros HT Hs. unfold Tour_findByIdAndDelete, tour_query_visible. rewrite HT. cbn. by rewrite Hs. Qed.

(** An update by id never runs the [pre('save')] hook: the slug stays
    that of the old name. *)
Lemma updateTour_keeps_slug id b s T' :
  snd (updateTour id b s) = Ok T' ->
  exists T, tours s !! id = Some T /\ Tour.slug T' = Tour.slug T /\ Tour.name T' = default (Tour.name T) (js_trim <$> tb_name b).
Proof.
  unfold updateTour, Tour_findByIdAndUpdate. st_simpl.
  destruct (tour_update_errors b); [|done]. destruct (tours s !! id) as [T|]; [|done].
  destruct (tour_query_visible _ _); [|done]. destruct (name_taken _ _ _); [done|]. cbn.
  intros [= <-]. by exists T.
Qed.

(** ** Theorems *)

(** A valid body for a new tour, with surrounding spaces in its name. *)
Definition snow_body : TourBody :=
  mk_tbody (Some "  The Snow Adventurer ") (Some 4) (Some 10) (Some "difficult") None None (Some 997)
           (Some 500) (Some "Exciting adventure in the snow") None (Some "tour-3-cover.jpg")
           None None None None None None None.

(** The same body with the ratings of an imported tour. *)
Definition snow_body_rated : TourBody :=
  mk_tbody (Some "  The Snow Adventurer ") (Some 4) (Some 10) (Some "difficult") (Some (48 # 10)) (Some 37%nat)
           (Some 997) (Some 500) (Some "Exciting adventure in the snow") None (Some "tour-3-cover.jpg")
           None None None None None None None.

(** An update body setting a discount. *)
Definition discount_update : TourBody :=
  mk_tbody None None None None None None None (Some 100) None None None None None None None None None None.

(** An update body renaming the tour. *)
Definition rename_update : TourBody :=
  mk_tbody (Some "The Forest Walker") None None None None None None None None None None None None None
           None None None None.

(** Creating a tour whose body sets neither [ratingsAverage] nor
    [ratingsQuantity], under an id no review refers to, keeps every visible
    tour's aggregate right: the defaults 0 and 4.5 are the summary of no
    review.  (A failed creation changes nothing.) *)
Theorem createTour_consistent sl sg id b s :
  aggregates_consistent s -> tb_ratingsAverage b = None -> tb_ratingsQuantity b = None ->
  tour_ratings id (reviews s) = [] ->
  aggregates_consistent (fst (createTour sl sg id b s)).
Proof.
  intros H Ha Hq Hr. unfold createTour. rewrite Tour_create_state.
  destruct (tour_errors b); [|done]. destruct (_ && _); [|done].
  apply consistent_insert_tour; [done|]. intros _. by apply tour_doc_consistent.
Qed.

Lemma createTour_consistent_witness :
  aggregates_consistent (fst (createTour 0 (fun n => n) 4 snow_body sample_store)).
Proof. apply createTour_consistent; [decide_true|reflexivity..]. Defined.

(** The aggregate of a new tour is whatever the request body says:
    [POST /tours] with [ratingsQuantity: 37] creates a visible tour that
    claims 37 reviews and has none, although the spec makes the pair a
    derived cache. *)
Theorem createTour_body_ratings :
  aggregates_consistent sample_store /\
  summary_of (fst (createTour 0 (fun n => n) 4 snow_body_rated sample_store)) 4 = Some (37%nat, 24 # 5) /\
  ~ aggregates_consistent (fst (createTour 0 (fun n => n) 4 snow_body_rated sample_store)).
Proof. split; [decide_true|]. split; [vm_compute; reflexivity|decide_false]. Qed.

(** C33: no update can set a discount: [updateTour] with a body that sets
    [priceDiscount] fails with a validation error on [priceDiscount] and
    changes nothing, whatever the price, because the update validator
    cannot see the document. *)
Theorem updateTour_priceDiscount_rejected id b s d :
  tb_priceDiscount b = Some d ->
  exists errs, updateTour id b s = (s, Err (ValidationError errs)) /\ "priceDiscount" ∈ errs.
Proof.
  intros Hd. exists (tour_update_errors b). split.
  - unfold updateTour. st_simpl. rewrite (Tour_findByIdAndUpdate_errors id b s (tour_update_errors b)); [done|done|].
    unfold tour_update_errors. rewrite Hd. cbn. by destruct (path_error _ _), (path_error _ _), (path_error _ _).
  - unfold tour_update_errors. rewrite Hd. cbn [priceDiscount_ok path_error].
    apply elem_of_app. right. apply elem_of_app. right. apply elem_of_app. right.
    apply elem_of_app. left. by left.
Qed.

Lemma updateTour_priceDiscount_rejected_witness :
  exists errs, updateTour 1 discount_update sample_store = (sample_store, Err (ValidationError errs)) /\
               "priceDiscount" ∈ errs.
Proof. by apply (updateTour_priceDiscount_rejected _ _ _ 100). Defined.

(** A secret tour cannot be updated or deleted through the API: the
    tour's [pre(/^find/)] filter also applies to [findByIdAndUpdate] and
    [findByIdAndDelete], so both answer [404] and change nothing, although
    the spec only excludes secret tours from listings. *)
Theorem secret_tour_not_writable id b s T :
  tours s !! id = Some T -> Tour.secretTour T = true -> tour_update_errors b = [] ->
  updateTour id b s = (s, Err (AppError 404)) /\ deleteTour id s = (s, Err (AppError 404)).
Proof.
  intros HT Hs He. split.
  - unfold updateTour. st_simpl. by rewrite (Tour_findByIdAndUpdate_secret id b s T).
  - unfold deleteTour. st_simpl. by rewrite (Tour_findByIdAndDelete_secret id s T).
Qed.

Lemma secret_tour_not_writable_witness :
  updateTour 3 rename_update sample_store = (sample_store, Err (AppError 404)) /\
  deleteTour 3 sample_store = (sample_store, Err (AppError 404)).
Proof. apply (secret_tour_not_writable _ _ _ (sample_tour "The Secret Lagoon" true)); reflexivity. Defined.
