(* ===== verification/TourInvariant.v ===== *)
(** * The stored tours keep the schema's constraints

    The spec (section 2) gives the Tour entity its constraints: a unique
    name of 10 to 40 characters, an optional discount strictly below the
    price, a [ratingsAverage] in [[1, 5]] stored rounded to one decimal.
    [src/models/tourModel.js] checks them with validators when a document
    is saved, with update validators when [runValidators] is set, and not
    at all when the aggregator writes the ratings (reviewModel.js lines
    61-69): the setter alone keeps the average rounded.

    [tour_ok] is the constraint on one stored tour, written with the
    schema's own validators; [tours_wf] adds the unique names.  Every
    write path of the application is a step of [tour_request]: the three
    review requests (with their hooks), and the creation, update and
    deletion of a tour.  Together with the well-formedness of the reviews
    ([Consistency.reviews_wf]), the invariant holds along every sequence
    of them, except for one kind of update: one that sets the price to
    a value not above the discount already stored, which the update
    validators cannot see. *)

From S2P Require Import Prelude Store Reviews Samples Aggregator Consistency JsValues Tours.
Import Aggregate Mutations.
Local Open Scope Q_scope.

(** ** The invariant *)

(** A stored tour meets the schema: the length of its name, its average
    in [[1, 5]] and already rounded by the setter, its discount below its
    price. *)
Definition tour_ok (T : Tour.t) : bool :=
  name_length_ok (Some (Tour.name T)) &&
  Qle_bool 1 (Tour.ratingsAverage T) && Qle_bool (Tour.ratingsAverage T) 5 &&
  Qeq_bool (Tour.ratingsAverage_set (Tour.ratingsAverage T)) (Tour.ratingsAverage T) &&
  priceDiscount_ok (Some (Tour.price T)) (Tour.priceDiscount T).

(** The unique index on [name] (line 11). *)
Definition names_unique (ts : gmap oid Tour.t) : Prop :=
  forall i j Ti Tj, ts !! i = Some Ti -> ts !! j = Some Tj -> Tour.name Ti = Tour.name Tj -> i = j.

Definition tours_wf (ts : gmap oid Tour.t) : Prop :=
  map_Forall (fun _ T => tour_ok T = true) ts /\ names_unique ts.

(** An update that leaves the discount below the price it sets. *)
Definition discount_kept (b : TourBody) (T : Tour.t) : Prop :=
  match tb_price b, Tour.priceDiscount T with
  | Some p, Some d => d < p
  | _, _ => True
  end.

(** Every write request of the application. *)
Inductive tour_request (sl : Z) (sg : string -> string) : store -> store -> Prop :=
  | tr_review s s' : request sl s s' -> tour_request sl sg s s'
  | tr_create id b s : tour_request sl sg s (fst (createTour sl sg id b s))
  | tr_update id b s :
      (forall T, tours s !! id = Some T -> discount_kept b T) ->
      tour_request sl sg s (fst (updateTour id b s))
  | tr_delete id s : tour_request sl sg s (fst (deleteTour id s)).

(** A body that sets the price only. *)
Definition price_update (p : Q) : TourBody :=
  mk_tbody None None None None None None (Some p) None None None None None None None None None None None.

(** A tour sold at 397 with a discount of 100. *)
Definition discounted_tour : Tour.t :=
  Tour.mk "The Park Camper" None 3 12 Tour.medium Tour.ratingsAverage_default 0 397 (Some 100)
          "Camping under the stars" None "tour-camp.jpg" [] 0 [] false None [] [].

Definition discount_store : store := set_tours (<[4%nat := discounted_tour]> (tours sample_store)) sample_store.

(** ** The unique names *)

Lemma name_taken_spec ts self n :
  name_taken ts self n = true <-> exists k T, ts !! k = Some T /\ k <> self /\ Tour.name T = n.
Proof.
  unfold name_taken. rewrite existsb_exists. split.
  - intros [[k T] [Hin H]]. apply andb_true_iff in H as [Hk Hn].
    apply negb_true_iff, Nat.eqb_neq in Hk. apply String.eqb_eq in Hn.
    apply list_elem_of_In, elem_of_map_to_list in Hin. by exists k, T.
  - intros (k & T & Hk & Hne & Hn). exists (k, T). split.
    + by apply list_elem_of_In, elem_of_map_to_list.
    + apply andb_true_iff. split; [by apply negb_true_iff, Nat.eqb_neq|by apply String.eqb_eq].
Qed.

Lemma names_unique_iff ts :
  names_unique ts <-> map_Forall (fun i T => name_taken ts i (Tour.name T) = false) ts.
Proof.
  split.
  - intros U i T Hi. apply not_true_iff_false. intros (k & Tk & Hk & Hne & Hn)%name_taken_spec.
    by apply Hne, (U k i Tk T).
  - intros F i j Ti Tj Hi Hj Hn. destruct (decide (i = j)) as [|Hne]; [done|].
    specialize (F j Tj Hj). apply not_true_iff_false in F. exfalso. apply F, name_taken_spec.
    by exists i, Ti.
Qed.

#[export] Instance names_unique_dec ts : Decision (names_unique ts).
Proof.
  destruct (decide (map_Forall (fun i T => name_taken ts i (Tour.name T) = false) ts)) as [H|H];
    [left|right]; by rewrite names_unique_iff.
Defined.

#[export] Instance tours_wf_dec ts : Decision (tours_wf ts).
Proof. unfold tours_wf. apply _. Defined.

Lemma names_unique_not_taken ts id T :
  names_unique ts -> ts !! id = Some T -> name_taken ts id (Tour.name T) = false.
Proof. intros U H. by apply (proj1 (names_unique_iff ts) U id T). Qed.

Lemma names_unique_insert ts id T :
  names_unique ts -> name_taken ts id (Tour.name T) = false -> names_unique (<[id := T]> ts).
Proof.
  intros U N i j Ti Tj Hi Hj Hn.
  assert (Hno : forall k Tk, ts !! k = Some Tk -> k <> id -> Tour.name Tk = Tour.name T -> False).
  { intros k Tk Hk Hne Hkn. apply not_true_iff_false in N. apply N, name_taken_spec. by exists k, Tk. }
  apply lookup_insert_Some in Hi as [[<- <-]|[Hne Hi]];
  apply lookup_insert_Some in Hj as [[<- <-]|[Hne' Hj]].
  - done.
  - exfalso. apply (Hno j Tj); congruence.
  - exfalso. apply (Hno i Ti); congruence.
  - by apply (U i j Ti Tj).
Qed.

Lemma tours_wf_insert ts id T :
  tours_wf ts -> tour_ok T = true -> name_taken ts id (Tour.name T) = false -> tours_wf (<[id := T]> ts).
Proof.
  intros [F U] Hok Hn. split; [by apply map_Forall_insert_2|by apply names_unique_insert].
Qed.

(** Rewriting a stored tour under its own name. *)
Lemma tours_wf_replace ts id T T' :
  tours_wf ts -> ts !! id = Some T -> Tour.name T' = Tour.name T -> tour_ok T' = true ->
  tours_wf (<[id := T']> ts).
Proof.
  intros [F U] Hi Hn Hok. apply tours_wf_insert; [done|done|]. rewrite Hn.
  by apply names_unique_not_taken.
Qed.

Lemma tours_wf_delete ts id : tours_wf ts -> tours_wf (delete id ts).
Proof.
  intros [F U]. split; [by apply map_Forall_delete|].
  intros i j Ti Tj Hi Hj. apply lookup_delete_Some in Hi as [_ Hi], Hj as [_ Hj]. eauto.
Qed.

#[export] Hint Resolve tours_wf_delete : natours.

(** ** One tour at a time *)

(** Splits the concatenated validator messages into one empty list per path. *)
Ltac split_errors H :=
  repeat match type of H with
  | _ ++ _ = [] => let H1 := fresh "He" in apply app_nil in H as [H1 H]; apply path_error_nil in H1
  end.

(** The setter's rounding is idempotent. *)
Lemma rounded_ok a : Qeq_bool (Tour.ratingsAverage_set (Tour.ratingsAverage_set a)) (Tour.ratingsAverage_set a) = true.
Proof. rewrite ratingsAverage_set_idem. apply Qeq_bool_refl. Qed.

(** A created document that passes the validators meets [tour_ok]. *)
Lemma tour_doc_ok sl sg b : tour_errors b = [] -> tour_ok (pre_save_slug sg (tour_doc sl b)) = true.
Proof.
  unfold tour_errors. intros H. split_errors H.
  unfold tour_ok, tour_doc, pre_save_slug. cbn [Tour.name Tour.ratingsAverage Tour.price Tour.priceDiscount].
  rewrite rounded_ok.
  destruct (tb_name b) as [n|]; [|done]. cbn in He |- *. apply andb_true_iff in He as [_ ->].
  destruct (tb_price b) as [p|]; [|done]. cbn. rewrite He5, !andb_true_r.
  destruct (tb_ratingsAverage b) as [a|]; [exact He3|reflexivity].
Qed.

(** An update that passes the update validators keeps [tour_ok], when
    the price it sets stays above the discount. *)
Lemma apply_update_ok b T :
  tour_update_errors b = [] -> tour_ok T = true -> discount_kept b T -> tour_ok (apply_tour_update b T) = true.
Proof.
  unfold tour_update_errors. intros H HT Hk. split_errors H.
  destruct (tb_priceDiscount b) eqn:Ed; [done|].
  unfold tour_ok in HT. rewrite !andb_true_iff in HT. destruct HT as [[[[HN HL] HU] HR] HD].
  unfold tour_ok, apply_tour_update. cbn [Tour.name Tour.ratingsAverage Tour.price Tour.priceDiscount].
  rewrite Ed, !andb_true_iff. unfold discount_kept in Hk.
  destruct (tb_name b) as [n|], (tb_ratingsAverage b) as [a|]; cbn in *;
    (repeat split; try done; try apply rounded_ok; try (apply andb_true_iff in He1; apply He1));
    destruct (tb_price b) as [p|]; cbn; try done;
    unfold priceDiscount_ok; destruct (Tour.priceDiscount T) as [d|]; try done;
    apply negb_true_iff, not_true_iff_false; rewrite Qle_bool_iff; lra.
Qed.

(** The aggregator's write keeps [tour_ok] for an average in [[1, 5]]. *)
Lemma set_ratings_ok n a T : tour_ok T = true -> 1 <= a <= 5 -> tour_ok (Tour.set_ratings n a T) = true.
Proof.
  intros HT Ha. unfold tour_ok in HT |- *. rewrite !andb_true_iff in HT |- *.
  destruct HT as [[[[HN _] _] _] HD]. cbn [Tour.set_ratings Tour.name Tour.ratingsAverage Tour.price Tour.priceDiscount].
  destruct (ratingsAverage_set_bounds a Ha) as [H1 H5].
  repeat split; try done; [apply Qle_bool_iff, H1|apply Qle_bool_iff, H5|apply rounded_ok].
Qed.

(** The average the pipeline computes for a tour lies in [[1, 5]]. *)
(** The aggregator's average of valid reviews is in [[1, 5]]; an empty
    group gives the default 4.5. *)
Lemma rating_summary_bounds t rv :
  reviews_valid rv -> 1 <= snd (rating_summary (tour_ratings t rv)) <= 5.
Proof.
  intros V. pose proof (tour_ratings_between t rv V) as Hb.
  destruct (tour_ratings t rv) as [|x xs]; cbn.
  - unfold Qle. cbn. lia.
  - by apply Qmean_bounds.
Qed.

Lemma refresh_tour_wf t s :
  tours_wf (tours s) -> reviews_valid (reviews s) -> tours_wf (tours (refresh_tour t s)).
Proof.
  intros W V. unfold refresh_tour. destruct (tours s !! t) as [T|] eqn:Ht; [|done].
  destruct (Tour.secretTour T); [done|].
  pose proof (rating_summary_bounds t (reviews s) V) as Hb.
  destruct (rating_summary _) as [n a]. cbn.
  apply (tours_wf_replace _ _ T); [done|done|done|]. apply set_ratings_ok; [|done].
  by apply (proj1 W t T).
Qed.

(** ** The write requests *)

(** The review requests change the tours only by a recomputation. *)
Lemma request_shape sl s s' :
  request sl s s' -> s' = s \/ exists t s1, s' = refresh_tour t s1 /\ tours s1 = tours s.
Proof.
  intros [tp usr id body s0|id u s0|id s0];
    [unfold createReview; rewrite Review_create_state
    |rewrite updateReview_state, Review_findByIdAndUpdate_state
    |rewrite deleteReview_state, Review_findByIdAndDelete_state];
    repeat case_match; first [left; reflexivity | right; eexists _, _; split; reflexivity].
Qed.

Lemma request_reviews_wf sl s s' : request sl s s' -> reviews_wf (reviews s) -> reviews_wf (reviews s').
Proof. intros []; auto using createReview_wf, updateReview_wf, deleteReview_wf. Qed.

Lemma request_tours_wf sl s s' :
  request sl s s' -> reviews_wf (reviews s) -> tours_wf (tours s) -> tours_wf (tours s').
Proof.
  intros Hr Hrv W. pose proof (request_reviews_wf _ _ _ Hr Hrv) as [V _].
  destruct (request_shape _ _ _ Hr) as [->|(t & s1 & -> & Ht)]; [done|].
  apply refresh_tour_wf; [by rewrite Ht|]. by rewrite <- (refresh_tour_reviews t s1).
Qed.

Lemma createTour_wf sl sg id b s :
  tours_wf (tours s) ->
  tours_wf (tours (fst (createTour sl sg id b s))) /\ reviews (fst (createTour sl sg id b s)) = reviews s.
Proof.
  intros W. unfold createTour. rewrite Tour_create_state.
  destruct (tour_errors b) eqn:E; [|done]. destruct (bool_decide _ && _) eqn:C; [|done].
  apply andb_true_iff in C as [_ C]. apply negb_true_iff in C. cbn. split; [|done].
  apply tours_wf_insert; [done|by apply tour_doc_ok|done].
Qed.

Lemma updateTour_state id b s : fst (updateTour id b s) = fst (Tour_findByIdAndUpdate id b s).
Proof.
  unfold updateTour. st_simpl. by destruct (Tour_findByIdAndUpdate id b s) as [s' [[d|]|e]].
Qed.

Lemma deleteTour_state id s : fst (deleteTour id s) = fst (Tour_findByIdAndDelete id s).
Proof.
  unfold deleteTour. st_simpl. by destruct (Tour_findByIdAndDelete id s) as [s' [[d|]|e]].
Qed.

Lemma updateTour_wf id b s :
  tours_wf (tours s) -> (forall T, tours s !! id = Some T -> discount_kept b T) ->
  tours_wf (tours (fst (updateTour id b s))) /\ reviews (fst (updateTour id b s)) = reviews s.
Proof.
  intros W Hk. rewrite updateTour_state. unfold Tour_findByIdAndUpdate.
  destruct (tour_update_errors b) eqn:E; [|done]. destruct (tours s !! id) as [T|] eqn:Ht; [|done].
  destruct (tour_query_visible _ _); [|done]. destruct (name_taken _ _ _) eqn:N; [done|].
  cbn. split; [|done]. apply tours_wf_insert; [done| |done].
  apply apply_update_ok; [done|by apply (proj1 W id T)|by apply Hk].
Qed.

Lemma deleteTour_wf id s :
  tours_wf (tours s) -> tours_wf (tours (fst (deleteTour id s))) /\ reviews (fst (deleteTour id s)) = reviews s.
Proof.
  intros W. rewrite deleteTour_state. unfold Tour_findByIdAndDelete.
  destruct (tours s !! id) as [T|]; [|done]. destruct (tour_query_visible _ _); [|done].
  cbn. split; [|done]. by apply tours_wf_delete.
Qed.

Lemma tour_request_wf sl sg s s' :
  tour_request sl sg s s' -> tours_wf (tours s) -> reviews_wf (reviews s) ->
  tours_wf (tours s') /\ reviews_wf (reviews s').
Proof.
  intros [s0 s1 Hr|id b s0|id b s0 Hk|id s0] W R.
  - split; [by eapply request_tours_wf|by eapply request_reviews_wf].
  - destruct (createTour_wf sl sg id b s0 W) as [W' ->]. done.
  - destruct (updateTour_wf id b s0 W Hk) as [W' ->]. done.
  - destruct (deleteTour_wf id s0 W) as [W' ->]. done.
Qed.

(** C9: Every tour the application stores meets the schema's
    constraints (the name's length, its uniqueness, the average in [[1, 5]]
    rounded to one decimal, the discount below the price) along every
    sequence of write requests (the review requests with their hooks,
    createTour, updateTour and deleteTour), as long as no update sets a
    price at or below the discount already stored; the reviews stay
    well formed alongside. *)
Theorem reachable_tours_wf sl sg s s' :
  rtc (tour_request sl sg) s s' -> tours_wf (tours s) -> reviews_wf (reviews s) ->
  tours_wf (tours s') /\ reviews_wf (reviews s').
Proof.
  induction 1 as [|s1 s2 s3 Hstep _ IH]; [done|]. intros W R.
  destruct (tour_request_wf _ _ _ _ Hstep W R). by apply IH.
Qed.

(** C10: An update of the price alone to a value at or below the stored
    discount succeeds: the update validator of [priceDiscount] does not
    run, since the body has no discount, and the tour stored breaks the
    schema's own constraint that the discount is below the price. *)
Theorem price_update_breaks_discount s id T d p :
  tours_wf (tours s) -> tours s !! id = Some T -> Tour.secretTour T = false ->
  Tour.priceDiscount T = Some d -> p <= d ->
  updateTour id (price_update p) s =
    (set_tours (<[id := apply_tour_update (price_update p) T]> (tours s)) s,
     Ok (apply_tour_update (price_update p) T)) /\
  tour_ok (apply_tour_update (price_update p) T) = false.
Proof.
  intros W Ht Hs Hd Hp. split.
  - unfold updateTour, Tour_findByIdAndUpdate. st_simpl. cbn [tour_update_errors price_update].
    assert (E : tour_update_errors (price_update p) = []) by reflexivity.
    rewrite E, Ht. unfold tour_query_visible. rewrite Hs. cbn [negb].
    change (Tour.name (apply_tour_update (price_update p) T)) with (Tour.name T).
    rewrite (names_unique_not_taken _ id T (proj2 W) Ht). done.
  - unfold tour_ok. cbn [apply_tour_update price_update tb_priceDiscount tb_price Tour.price Tour.priceDiscount].
    rewrite Hd. unfold priceDiscount_ok. cbn [default Datatypes.id].
    replace (Qle_bool p d) with true by (symmetry; by apply Qle_bool_iff).
    apply andb_false_r.
Qed.

Lemma price_update_breaks_discount_witness :
  updateTour 4%nat (price_update 50) discount_store =
    (set_tours (<[(4%nat) := apply_tour_update (price_update 50) discounted_tour]> (tours discount_store)) discount_store,
     Ok (apply_tour_update (price_update 50) discounted_tour)) /\
  tour_ok (apply_tour_update (price_update 50) discounted_tour) = false.
Proof.
  apply (price_update_breaks_discount discount_store 4%nat discounted_tour 100 50).
  - decide_true.
  - reflexivity.
  - reflexivity.
  - reflexivity.
  - vm_compute. discriminate.
Defined.

Lemma reachable_tours_wf_witness :
  tours_wf (tours after_one) /\ reviews_wf (reviews after_one).
Proof.
  apply (reachable_tours_wf 0%Z (fun x => x) sample_store after_one).
  - unfold after_one. apply rtc_once, tr_review, req_create.
  - decide_true.
  - apply reviews_wf_empty.
Defined.
