(* ===== verification/Reads.v ===== *)
(** * Reading a tour: the populates of the two models

    A tour is read with [Tour.findById(id).populate('reviews')] (the
    [getOne] handler of [handlerFactory.js], not under [src/]: modelled
    from the spec).  Three pieces of the models under [src/] shape the
    answer:
    - the tour's [pre(/^find/)] hooks: the filter on [secretTour] (lines
      162-168) and the populate of [guides] with
      [select: '-__v -passwordChangedAt'] (lines 170-176);
    - the virtual [reviews] (tourModel.js lines 143-149): the reviews whose
      [tour] is the tour's [_id], read with a [Review.find], which runs
      the review's own [pre(/^find/)];
    - that hook (reviewModel.js lines 42-48): the populate of each
      review's [user] with [select: 'name photo'].

    The [User] model is not under [src/]: the users are a parameter, a
    lookup by id.  Mongoose's populate leaves [null] for a single
    reference it cannot find and drops the missing ones of an array.  The
    reviews come in the collection's order, the order in which the
    aggregation of [Reviews.v] reads them. *)

From S2P Require Import Prelude Store Reviews Samples Consistency.
Import Aggregate.
Local Open Scope Q_scope.

(** ** Users, and what the two selects keep of them *)

Record user_doc := mk_user {
  u_name : string;
  u_email : string;
  u_photo : string;
  u_role : string;
  u_passwordChangedAt : option Z;
  u_version : nat;
}.

(** [select: 'name photo'] (and the [_id], always selected). *)
Record user_card := mk_card { card_id : oid; card_name : string; card_photo : string }.

(** [select: '-__v -passwordChangedAt']: every other field. *)
Record guide_view := mk_guide {
  g_id : oid; g_name : string; g_email : string; g_photo : string; g_role : string;
}.

Definition select_card (id : oid) (u : user_doc) : user_card := mk_card id (u_name u) (u_photo u).

Definition select_guide (id : oid) (u : user_doc) : guide_view :=
  mk_guide id (u_name u) (u_email u) (u_photo u) (u_role u).

(** A review as the review's [pre(/^find/)] returns it: its [user]
    replaced by the selected fields, or [null]. *)
Record review_view := mk_review_view {
  rv_id : oid; rv_review : string; rv_rating : Q; rv_tour : oid; rv_user : option user_card;
}.

(** The answer of [getTour]: the document, its populated guides and its
    virtual [reviews]. *)
Record tour_view := mk_tour_view {
  tv_id : oid; tv_tour : Tour.t; tv_guides : list guide_view; tv_reviews : list review_view;
}.

Section Populate.
Context (users : oid -> option user_doc).

(** [populate({ path: 'user', select: 'name photo' })] on one review. *)
Definition populate_user (id : oid) (r : Review.t) : review_view :=
  mk_review_view id (Review.review r) (Review.rating r) (Review.tour r)
    (select_card (Review.user r) <$> users (Review.user r)).

(** [Review.find({ tour: tourId })] through the review's [pre(/^find/)]. *)
Definition Review_find_by_tour (tourId : oid) (rv : gmap oid Review.t) : list review_view :=
  map (fun '(id, r) => populate_user id r) (filter (fun p => Review.tour p.2 = tourId) (map_to_list rv)).

(** [populate({ path: 'guides', select: '-__v -passwordChangedAt' })]. *)
Definition populate_guides (gs : list oid) : list guide_view :=
  omap (fun g => select_guide g <$> users g) gs.

(** [Tour.findById(id).populate('reviews')]: the [pre(/^find/)] filter,
    the guides, the virtual; [null] is answered 404 by the handler. *)
Definition getTour (id : oid) (s : store) : result tour_view :=
  match tours s !! id with
  | Some T =>
      if tour_query_visible op_findOne T
      then Ok (mk_tour_view id T (populate_guides (Tour.guides T)) (Review_find_by_tour id (reviews s)))
      else Err (AppError 404)
  | None => Err (AppError 404)
  end.

End Populate.

(** The ratings the page shows, and the pair it shows beside them. *)
Definition shown_ratings (v : tour_view) : list Q := map rv_rating (tv_reviews v).

Definition shown_summary (v : tour_view) : nat * Q :=
  (Tour.ratingsQuantity (tv_tour v), Tour.ratingsAverage (tv_tour v)).

(** ** Samples *)

Definition sample_users (u : oid) : option user_doc :=
  match u with
  | 10%nat => Some (mk_user "Leo Gillespie" "leo@example.io" "user-10.jpg" "user" None 0)
  | 20%nat => Some (mk_user "Lourdes Browning" "lourdes@example.io" "user-20.jpg" "guide" (Some 1700000000%Z) 0)
  | _ => None
  end.

(** ** The reviews the page shows are those the aggregate counts *)

Lemma filter_map_snd {A B} (P : B -> Prop) `{forall b, Decision (P b)} (l : list (A * B)) :
  filter P (map snd l) = map snd (filter (fun p => P p.2) l).
Proof.
  induction l as [|[a b] l IH]; [done|]. cbn [map].
  rewrite !filter_cons. cbn [snd]. case_decide; cbn; by rewrite IH.
Qed.

Lemma Review_find_by_tour_ratings users tourId rv :
  map rv_rating (Review_find_by_tour users tourId rv) = tour_ratings tourId rv.
Proof.
  unfold Review_find_by_tour, tour_ratings, match_tour, review_docs.
  rewrite filter_map_snd, !map_map. apply map_ext. by intros [id r].
Qed.

Lemma getTour_ok users id s v :
  getTour users id s = Ok v ->
  exists T, tours s !! id = Some T /\ Tour.secretTour T = false /\
    v = mk_tour_view id T (populate_guides users (Tour.guides T)) (Review_find_by_tour users id (reviews s)).
Proof.
  unfold getTour. destruct (tours s !! id) as [T|]; [|done].
  unfold tour_query_visible. cbn [hook_applies]. destruct (Tour.secretTour T) eqn:Hs; [done|].
  intros [= <-]. eauto.
Qed.

(** C11: In a store whose aggregates are consistent, the tour page agrees
    with itself: the [ratingsQuantity] and [ratingsAverage] shown are the
    count and the rounded mean of the ratings of the reviews listed by the
    virtual populate, and the list is as long as the count, whatever
    became of the reviews' authors. *)
Theorem getTour_shows_aggregate users id s v :
  aggregates_consistent s -> getTour users id s = Ok v ->
  shown_summary v = stored_summary (shown_ratings v) /\
  length (tv_reviews v) = Tour.ratingsQuantity (tv_tour v).
Proof.
  intros Hc Hg. destruct (getTour_ok users id s v Hg) as (T & Ht & Hs & ->).
  pose proof (Hc id T Ht Hs) as HT. unfold tour_consistent in HT.
  unfold shown_summary, shown_ratings. cbn [tv_tour tv_reviews].
  rewrite Review_find_by_tour_ratings. split; [done|].
  apply (f_equal fst) in HT. cbn [fst] in HT. rewrite HT, stored_summary_length, <- (Review_find_by_tour_ratings users).
  by rewrite length_map.
Qed.

Lemma getTour_shows_aggregate_witness :
  exists v, getTour sample_users 1 after_one = Ok v /\
  shown_summary v = stored_summary (shown_ratings v) /\
  length (tv_reviews v) = Tour.ratingsQuantity (tv_tour v).
Proof.
  eexists. split; [vm_compute; reflexivity|].
  apply (getTour_shows_aggregate sample_users 1 after_one); [decide_true|vm_compute; reflexivity].
Defined.

(** ** What the populates do with missing users *)

Lemma Review_find_by_tour_elem users tourId rv rid r :
  rv !! rid = Some r -> Review.tour r = tourId -> populate_user users rid r ∈ Review_find_by_tour users tourId rv.
Proof.
  intros Hr Ht. unfold Review_find_by_tour. apply list_elem_of_In, in_map_iff.
  exists (rid, r). split; [done|]. apply list_elem_of_In, list_elem_of_filter. split; [done|].
  by apply elem_of_map_to_list.
Qed.

Lemma populate_guides_ids users gs g :
  g ∈ map g_id (populate_guides users gs) -> g ∈ gs /\ is_Some (users g).
Proof.
  unfold populate_guides. intros (gv & <- & Hin)%list_elem_of_In%in_map_iff.
  apply list_elem_of_In, list_elem_of_omap in Hin as (g' & Hg' & Hu).
  destruct (users g') as [u|] eqn:E; [|done]. injection Hu as <-. cbn. eauto.
Qed.

(** C12: A user deleted from the users collection leaves the tour page
    two ways: each of their reviews is still listed (and counted by the
    aggregate) with [user] set to [null], and a guide among them is
    silently dropped from [guides]. *)
Theorem deleted_users_on_tour_page users id s v :
  getTour users id s = Ok v ->
  (forall rid r, reviews s !! rid = Some r -> Review.tour r = id -> users (Review.user r) = None ->
     exists rw, rw ∈ tv_reviews v /\ rv_id rw = rid /\ rv_user rw = None) /\
  (forall g, users g = None -> g ∉ map g_id (tv_guides v)).
Proof.
  intros Hg. destruct (getTour_ok users id s v Hg) as (T & Ht & Hs & ->). cbn [tv_reviews tv_guides].
  split.
  - intros rid r Hr Hrt Hu. exists (populate_user users rid r). split; [by apply Review_find_by_tour_elem|].
    unfold populate_user. cbn. by rewrite Hu.
  - intros g Hu Hin. apply populate_guides_ids in Hin as [_ Hsome]. rewrite Hu in Hsome. by destruct Hsome.
Qed.

(** Tour 1 of the sample store led by guides 20 and 21, with the review
    of user 10 after that user's deletion. *)
Definition guided_store : store :=
  set_tours (<[1%nat := Tour.mk "The Forest Hiker" None 5 25 Tour.easy 5 1 397 None
                           "Breathtaking hike through the Canadian Banff National Park" None "tour-1.jpg" [] 0 [] false
                           None [] [20%nat; 21%nat]]> (tours after_one)) after_one.

Definition users_without_10 (u : oid) : option user_doc :=
  if decide (u = 10%nat) then None else sample_users u.

Lemma deleted_users_on_tour_page_witness :
  exists v, getTour users_without_10 1 guided_store = Ok v /\
  (exists rw, rw ∈ tv_reviews v /\ rv_id rw = 100%nat /\ rv_user rw = None) /\
  21%nat ∉ map g_id (tv_guides v).
Proof.
  eexists. split; [vm_compute; reflexivity|].
  destruct (deleted_users_on_tour_page users_without_10 1 guided_store _ eq_refl) as [H1 H2].
  split; [apply (H1 100%nat review_100); vm_compute; reflexivity|apply H2; reflexivity].
Defined.
