(* ===== verification/ApiFeatures.v ===== *)
(** * The QueryShaper: class [APIFeatures] ([src/utils/apiFeatures.js])

    An [APIFeatures] object holds a Mongoose query and the request's
    query-string object; each method extends the query and returns the
    object.  The query is modelled by what the chained calls record: the
    [find] conditions, the sort and projection specifications (as Mongoose
    parses their strings) and the [skip] and [limit] options. *)

From S2P Require Import Prelude JsValues.
From Stdlib Require Import Ascii.

(** ** The Mongoose query *)

Record Query := mk_query {
  conditions : list qval;
  sort_spec : list (string * Z);
  projection : list (string * Z);
  skip_opt : option jsnum;
  limit_opt : option jsnum;
}.

(** [Model.find()]: no condition, no option. *)
Definition empty_query : Query := mk_query [] [] [] None None.

(** [obj[key] = v] on an object given by its properties: an existing key
    keeps its place. *)
Fixpoint obj_set {A} (key : string) (v : A) (o : list (string * A)) : list (string * A) :=
  match o with
  | [] => [(key, v)]
  | (k, w) :: o' => if String.eqb k key then (k, v) :: o' else (k, w) :: obj_set key v o'
  end.

(** [arg.split(/\s+/)] followed by [if (!field) continue]: the non-empty
    fields of a specification string.  (Splitting at every whitespace
    character instead of at runs of it only adds empty fields, which are
    skipped.) *)
Definition spec_fields (arg : string) : list string :=
  filter (fun f => f <> "") (map of_chars (split_at is_space (chars arg))).

(** A field and its value: a leading [-] gives [minus] and is removed,
    any other field gives [plus]. *)
Definition field_entry (minus plus : Z) (f : string) : string * Z :=
  match chars f with
  | "-"%char :: r => (of_chars r, minus)
  | _ => (f, plus)
  end.

(** [query.sort(arg)] with a string (mquery's [sort], [push]). *)
Definition query_sort (arg : string) (q : Query) : Query :=
  mk_query (conditions q)
           (fold_left (fun acc f => let '(k, d) := field_entry (-1) 1 f in obj_set k d acc)
                      (spec_fields arg) (sort_spec q))
           (projection q) (skip_opt q) (limit_opt q).

(** [query.select(arg)] with a string (Mongoose's [parseProjection], then
    the fields merged into the query's projection). *)
Definition query_select (arg : string) (q : Query) : Query :=
  mk_query (conditions q) (sort_spec q)
           (fold_left (fun acc f => let '(k, d) := field_entry 0 1 f in obj_set k d acc)
                      (spec_fields arg) (projection q))
           (skip_opt q) (limit_opt q).

Definition query_skip (n : jsnum) (q : Query) : Query :=
  mk_query (conditions q) (sort_spec q) (projection q) (Some n) (limit_opt q).

Definition query_limit (n : jsnum) (q : Query) : Query :=
  mk_query (conditions q) (sort_spec q) (projection q) (skip_opt q) (Some n).

(** ** The class *)

Record APIFeatures := mk_features {
  query : Query;
  queryString : list (string * qval);
}.

Definition with_query (q : Query) (af : APIFeatures) : APIFeatures :=
  mk_features q (queryString af).

(** [sort()] (lines 22-30): the comma-separated list of the [sort]
    parameter, or [-createdAt name].  [split] is a method of strings only:
    an array or object parameter throws. *)
Definition sort (af : APIFeatures) : result APIFeatures :=
  let v := obj_get "sort" (queryString af) in
  if qval_truthy v then
    match v with
    | Some (QStr s) => Ok (with_query (query_sort (join " " (js_split "," s)) (query af)) af)
    | _ => Err (TypeError "this.queryString.sort.split is not a function")
    end
  else Ok (with_query (query_sort "-createdAt name" (query af)) af).

(** [limitFields()] (lines 32-41): the comma-separated list of the
    [fields] parameter, or the exclusion of [__v]. *)
Definition limitFields (af : APIFeatures) : result APIFeatures :=
  let v := obj_get "fields" (queryString af) in
  if qval_truthy v then
    match v with
    | Some (QStr s) => Ok (with_query (query_select (join " " (js_split "," s)) (query af)) af)
    | _ => Err (TypeError "this.queryString.fields.split is not a function")
    end
  else Ok (with_query (query_select "-__v" (query af)) af).

(** [this.queryString.page * 1 || 1] (line 43). *)
Definition page_of (qs : list (string * qval)) : jsnum :=
  js_or (js_mul (ToNumber (obj_get "page" qs)) (Fin 1)) (Fin 1).

(** [this.queryString.limit * 1 || 100] (line 44). *)
Definition limit_of (qs : list (string * qval)) : jsnum :=
  js_or (js_mul (ToNumber (obj_get "limit" qs)) (Fin 1)) (Fin 100).

(** [(page - 1) * limit] (line 45). *)
Definition skip_of (qs : list (string * qval)) : jsnum :=
  js_mul (js_sub (page_of qs) (Fin 1)) (limit_of qs).

(** [paginate()] (lines 42-49). *)
Definition paginate (af : APIFeatures) : APIFeatures :=
  with_query (query_limit (limit_of (queryString af))
                (query_skip (skip_of (queryString af)) (query af))) af.

(** ** Lemmas *)

(** A field as the [sort] and [fields] parameters carry it: not empty, no
    comma, no whitespace. *)
Definition plain_field (f : string) : Prop :=
  chars f <> [] /\ Forall (fun c => Ascii.eqb c "," = false /\ is_space c = false) (chars f).

(** The number parameter [key] read as a numeral, times one, or'ed with a
    default. *)
Lemma numeral_param (qs : list (string * qval)) key ds dflt :
  obj_get key qs = Some (QStr (of_chars ds)) -> decimal_numeral ds ->
  (1 <= digits_value 10 ds < 2 ^ 1000)%Z ->
  js_or (js_mul (ToNumber (obj_get key qs)) (Fin 1)) dflt = Fin (inject_Z (digits_value 10 ds)).
Proof.
  intros Hk Hn Hb. unfold ToNumber. rewrite Hk. simpl qval_to_string.
  rewrite StringToNumber_digits by (done || lia). rewrite js_mul_one_int by lia.
  unfold js_or. by rewrite js_truthy_int by lia.
Qed.

Lemma falsy_param (qs : list (string * qval)) key dflt :
  js_truthy (ToNumber (obj_get key qs)) = false ->
  js_or (js_mul (ToNumber (obj_get key qs)) (Fin 1)) dflt = dflt.
Proof. intros H. unfold js_or. by rewrite js_mul_one_falsy. Qed.

Lemma js_sub_one_int a : (Z.abs (a - 1) < 2 ^ 1000)%Z ->
  js_sub (Fin (inject_Z a)) (Fin 1) = Fin (inject_Z (a - 1)).
Proof.
  intros H. unfold js_sub. cbn [js_neg js_add].
  assert (E : inject_Z a + - (1) = inject_Z (a - 1))
    by (unfold inject_Z, Qplus, Qopp; cbn; f_equal; lia).
  rewrite E. by apply of_Q_int.
Qed.

Lemma js_mul_int a b : (Z.abs (a * b) < 2 ^ 1000)%Z ->
  js_mul (Fin (inject_Z a)) (Fin (inject_Z b)) = Fin (inject_Z (a * b)).
Proof. intros H. simpl. rewrite Qmult_inject_Z. by apply of_Q_int. Qed.

(** [obj[key] = v] for a key not yet present appends the property. *)
Lemma obj_set_fresh {A} k (v : A) (o : list (string * A)) :
  k ∉ map fst o -> obj_set k v o = o ++ [(k, v)].
Proof.
  induction o as [|[k' w] o IH]; intros Hk; simpl; [done|].
  rewrite (proj2 (String.eqb_neq k' k)) by (intros ->; apply Hk; left).
  rewrite IH; [done|]. intros Hin. apply Hk. by right.
Qed.

(** Distinct fields set one after the other come out in order. *)
Lemma fold_obj_set_distinct {B A} (g : B -> string * A) (fs : list B) acc :
  NoDup (map (fun f => fst (g f)) fs) ->
  (forall f, In f fs -> ~ In (fst (g f)) (map fst acc)) ->
  fold_left (fun acc f => let '(k, d) := g f in obj_set k d acc) fs acc = acc ++ map g fs.
Proof.
  revert acc. induction fs as [|f fs IH]; intros acc Hnd Hfresh; simpl; [by rewrite app_nil_r|].
  apply NoDup_cons in Hnd as [Hf Hnd].
  pose proof (Hfresh f (or_introl eq_refl)) as Hf0.
  destruct (g f) as [k d] eqn:Eg. simpl in Hf0.
  rewrite obj_set_fresh by (by rewrite list_elem_of_In).
  rewrite IH; [by rewrite <- app_assoc|done|].
  intros f' Hf'. rewrite map_app, in_app_iff. intros [Hin|Hin].
  - by apply (Hfresh f'); [right|].
  - destruct Hin as [Hin|[]]. apply Hf. apply list_elem_of_In. cbn [fst] in *. rewrite Hin.
    by apply (in_map (fun f => fst (g f))).
Qed.

Lemma filter_all_true (P : string -> Prop) `{forall x, Decision (P x)} l :
  Forall P l -> filter P l = l.
Proof.
  induction 1 as [|x l Hx _ IH]; [done|]. rewrite filter_cons, decide_True by done. by rewrite IH.
Qed.

(** A comma-separated list of plain fields, re-joined with spaces and
    parsed by Mongoose, gives the fields back. *)
Lemma spec_fields_of_list fs :
  fs <> [] -> Forall plain_field fs ->
  spec_fields (join " " (js_split "," (join "," fs))) = fs.
Proof.
  intros Hne Hall.
  assert (Hcomma : Forall (Forall (fun x => Ascii.eqb x "," = false)) (map chars fs)).
  { apply Forall_map. eapply Forall_impl; [exact Hall|]. intros f [_ Hf].
    eapply Forall_impl; [exact Hf|]. by intros c [? _]. }
  assert (Hspace : Forall (Forall (fun x => is_space x = false)) (map chars fs)).
  { apply Forall_map. eapply Forall_impl; [exact Hall|]. intros f [_ Hf].
    eapply Forall_impl; [exact Hf|]. by intros c [_ ?]. }
  assert (Hmap : map chars fs <> []) by (by destruct fs).
  assert (Hid : map of_chars (map chars fs) = fs).
  { rewrite map_map. erewrite map_ext; [apply map_id|]. apply of_chars_chars. }
  unfold js_split. rewrite chars_join, (split_at_join _ ","), Hid by done.
  unfold spec_fields. rewrite chars_join, (split_at_join _ " "), Hid by done.
  apply filter_all_true. eapply Forall_impl; [exact Hall|].
  intros f [Hf _] ->. by apply Hf.
Qed.

(** A comma-joined list of plain fields is a non-empty, truthy string. *)
Lemma join_plain_truthy fs :
  fs <> [] -> Forall plain_field fs -> qval_truthy (Some (QStr (join "," fs))) = true.
Proof.
  intros Hne Hall. cbn [qval_truthy]. apply negb_true_iff, String.eqb_neq. intros E.
  destruct fs as [|f fs]; [done|]. apply Forall_cons in Hall as [[Hf _] _].
  apply (f_equal chars) in E. rewrite chars_join in E. change (chars "") with (@nil ascii) in E.
  destruct fs; cbn [join_chars map] in E; [done|]. by apply app_eq_nil in E as [? _].
Qed.

(** Bounds for [(page - 1) * limit]. *)
Lemma skip_bound p l :
  (1 <= p < 2 ^ 400)%Z -> (1 <= l < 2 ^ 400)%Z -> (Z.abs ((p - 1) * l) < 2 ^ 1000)%Z.
Proof.
  intros Hp Hl. rewrite Z.abs_eq by nia.
  assert ((p - 1) * l < 2 ^ 400 * 2 ^ 400)%Z by nia.
  assert (2 ^ 400 * 2 ^ 400 < 2 ^ 1000)%Z by (rewrite <- Z.pow_add_r by lia; apply Z.pow_lt_mono_r; lia).
  lia.
Qed.

(** ** Pagination *)

(** The query-string object of the examples below. *)
Definition qs_features (qs : list (string * qval)) : APIFeatures := mk_features empty_query qs.

(** C17: Decimal numerals [page = p] and [limit = l] (at least 1) give
    [skip((p - 1) * l)] and [limit(l)]. *)
Theorem paginate_numerals af ps ls :
  obj_get "page" (queryString af) = Some (QStr (of_chars ps)) -> decimal_numeral ps ->
  obj_get "limit" (queryString af) = Some (QStr (of_chars ls)) -> decimal_numeral ls ->
  (1 <= digits_value 10 ps < 2 ^ 400)%Z -> (1 <= digits_value 10 ls < 2 ^ 400)%Z ->
  query (paginate af)
  = query_limit (Fin (inject_Z (digits_value 10 ls)))
      (query_skip (Fin (inject_Z ((digits_value 10 ps - 1) * digits_value 10 ls))) (query af)).
Proof.
  intros Hp Hpn Hl Hln Hpb Hlb. unfold paginate, skip_of, page_of, limit_of. cbn [query with_query].
  assert (2 ^ 400 < 2 ^ 1000)%Z by (apply Z.pow_lt_mono_r; lia).
  rewrite (numeral_param _ "page" ps), (numeral_param _ "limit" ls) by (done || lia).
  rewrite js_sub_one_int by lia. by rewrite js_mul_int by (by apply skip_bound).
Qed.

Lemma paginate_numerals_witness :
  query (paginate (qs_features [("page", QStr "3"); ("limit", QStr "10")]))
  = query_limit (Fin 10) (query_skip (Fin 20) empty_query).
Proof.
  rewrite (paginate_numerals _ ["3"%char] ["1"%char; "0"%char]);
    first [reflexivity | split; [done | repeat constructor] | vm_compute; split; reflexivity].
Defined.

(** C18: A negative [limit] is passed on to [limit()] as it is: the spec
    asks for a limit of zero or less to fall back to the default. *)
Theorem paginate_negative_limit af ls :
  obj_get "limit" (queryString af) = Some (QStr (of_chars ("-"%char :: ls))) ->
  decimal_numeral ls -> (1 <= digits_value 10 ls < 2 ^ 1000)%Z ->
  limit_opt (query (paginate af)) = Some (Fin (inject_Z (- digits_value 10 ls))).
Proof.
  intros Hl Hn Hb. cbn. unfold limit_of, js_or, ToNumber. rewrite Hl. cbn [qval_to_string].
  rewrite StringToNumber_neg_digits, js_mul_one_int by (done || lia).
  by rewrite js_truthy_int by lia.
Qed.

Lemma paginate_negative_limit_witness :
  limit_opt (query (paginate (qs_features [("limit", QStr "-5")]))) = Some (Fin (-5)).
Proof.
  rewrite (paginate_negative_limit _ ["5"%char]);
    first [reflexivity | split; [done | repeat constructor] | vm_compute; split; reflexivity].
Defined.

(** ** Sort and projection *)

(** The query [af] holds with its sort specification replaced. *)
Definition with_sort (spec : list (string * Z)) (q : Query) : Query :=
  mk_query (conditions q) spec (projection q) (skip_opt q) (limit_opt q).

Definition with_projection (spec : list (string * Z)) (q : Query) : Query :=
  mk_query (conditions q) (sort_spec q) spec (skip_opt q) (limit_opt q).

(** [sort=f1,...,fn] with distinct plain fields sorts by the fields in
    that order, a leading [-] giving a descending key. *)
Theorem sort_fields_in_order af fs :
  obj_get "sort" (queryString af) = Some (QStr (join "," fs)) ->
  fs <> [] -> Forall plain_field fs ->
  NoDup (map (fun f => fst (field_entry (-1) 1 f)) fs) ->
  sort_spec (query af) = [] ->
  sort af = Ok (with_query (with_sort (map (field_entry (-1) 1) fs) (query af)) af).
Proof.
  intros Hs Hne Hall Hnd He. unfold sort. cbv zeta. rewrite Hs, join_plain_truthy by done.
  unfold query_sort. rewrite spec_fields_of_list, He, fold_obj_set_distinct;
    first [reflexivity | done | intros ? ? []].
Qed.

Lemma sort_fields_in_order_witness :
  sort (qs_features [("sort", QStr "price,-ratingsAverage")])
  = Ok (with_query (with_sort [("price", 1%Z); ("ratingsAverage", (-1)%Z)] empty_query)
          (qs_features [("sort", QStr "price,-ratingsAverage")])).
Proof.
  rewrite (sort_fields_in_order _ ["price"; "-ratingsAverage"]);
    first [reflexivity | done | apply (bool_decide_unpack _); vm_compute; reflexivity
          | vm_compute; repeat (constructor; try (vm_compute; tauto))].
Defined.

(** [fields=f1,...,fn] with distinct plain fields projects onto the
    fields in that order, a leading [-] excluding the field instead. *)
Theorem limitFields_fields_in_order af fs :
  obj_get "fields" (queryString af) = Some (QStr (join "," fs)) ->
  fs <> [] -> Forall plain_field fs ->
  NoDup (map (fun f => fst (field_entry 0 1 f)) fs) ->
  projection (query af) = [] ->
  limitFields af = Ok (with_query (with_projection (map (field_entry 0 1) fs) (query af)) af).
Proof.
  intros Hs Hne Hall Hnd He. unfold limitFields. cbv zeta. rewrite Hs, join_plain_truthy by done.
  unfold query_select. rewrite spec_fields_of_list, He, fold_obj_set_distinct;
    first [reflexivity | done | intros ? ? []].
Qed.

Lemma limitFields_fields_in_order_witness :
  limitFields (qs_features [("fields", QStr "name,price")])
  = Ok (with_query (with_projection [("name", 1%Z); ("price", 1%Z)] empty_query)
          (qs_features [("fields", QStr "name,price")])).
Proof.
  rewrite (limitFields_fields_in_order _ ["name"; "price"]);
    first [reflexivity | done | apply (bool_decide_unpack _); vm_compute; reflexivity
          | vm_compute; repeat (constructor; try (vm_compute; tauto))].
Defined.

(** C16: the defaults: a [page] and a [limit] parameter that are falsy as
    numbers (missing, empty, zero or not numeric) give [skip(0)] and
    [limit(100)], the defaults page 1 and limit 100; without a (truthy)
    [sort] parameter a query with no sort yet is sorted by [createdAt]
    descending, then by [name]; without a (truthy) [fields] parameter a
    query with no projection yet excludes the version key [__v]. *)
Theorem shaper_defaults af :
  js_truthy (ToNumber (obj_get "page" (queryString af))) = false ->
  js_truthy (ToNumber (obj_get "limit" (queryString af))) = false ->
  qval_truthy (obj_get "sort" (queryString af)) = false -> sort_spec (query af) = [] ->
  qval_truthy (obj_get "fields" (queryString af)) = false -> projection (query af) = [] ->
  query (paginate af) = query_limit (Fin 100) (query_skip (Fin 0) (query af)) /\
  sort af = Ok (with_query (with_sort [("createdAt", (-1)%Z); ("name", 1%Z)] (query af)) af) /\
  limitFields af = Ok (with_query (with_projection [("__v", 0%Z)] (query af)) af).
Proof.
  intros Hp Hl Hs He Hf Hpr. split; [|split].
  - unfold paginate, skip_of, page_of, limit_of. cbn [query with_query].
    rewrite !falsy_param by done. reflexivity.
  - unfold sort, query_sort. cbv zeta. by rewrite Hs, He.
  - unfold limitFields, query_select. cbv zeta. by rewrite Hf, Hpr.
Qed.

Lemma shaper_defaults_witness :
  query (paginate (qs_features [("page", QStr "abc"); ("limit", QStr "0")]))
  = query_limit (Fin 100) (query_skip (Fin 0) empty_query) /\
  sort (qs_features [("page", QStr "abc"); ("limit", QStr "0")])
  = Ok (with_query (with_sort [("createdAt", (-1)%Z); ("name", 1%Z)] empty_query)
          (qs_features [("page", QStr "abc"); ("limit", QStr "0")])) /\
  limitFields (qs_features [("page", QStr "abc"); ("limit", QStr "0")])
  = Ok (with_query (with_projection [("__v", 0%Z)] empty_query) (qs_features [("page", QStr "abc"); ("limit", QStr "0")])).
Proof. apply shaper_defaults; vm_compute; reflexivity. Defined.

(** [paginate()] does not check its numbers: [limit=Infinity] gives
    [limit(Infinity)] and a [skip] of [NaN] ([0 * Infinity]) on the first
    page, and a fractional page is not rounded: [page=2.5] with the default
    limit skips 150 documents, a number of documents no page starts at;
    nor is a negative limit replaced: [limit=-5] gives [limit(-5)]. *)
Theorem paginate_unchecked_numbers af af' af'' :
  obj_get "page" (queryString af) = None ->
  obj_get "limit" (queryString af) = Some (QStr "Infinity") ->
  obj_get "page" (queryString af') = Some (QStr "2.5") ->
  obj_get "limit" (queryString af') = None ->
  obj_get "limit" (queryString af'') = Some (QStr "-5") ->
  query (paginate af) = query_limit PosInf (query_skip NaN (query af)) /\
  (exists q, query (paginate af') = query_limit (Fin 100) (query_skip (Fin q) (query af')) /\ q == 150) /\
  limit_opt (query (paginate af'')) = Some (Fin (inject_Z (-5))).
Proof.
  intros Hp Hl Hp' Hl' Hl''. split; [|split].
  - unfold paginate, skip_of, page_of, limit_of. cbn [query with_query].
    rewrite Hp, Hl. vm_compute; reflexivity.
  - unfold paginate, skip_of, page_of, limit_of. cbn [query with_query].
    rewrite Hp', Hl'. eexists. split; [vm_compute; reflexivity | reflexivity].
  - apply (paginate_negative_limit af'' ["5"%char]); [exact Hl''|split; [done|repeat constructor]|].
    split; vm_compute; [discriminate|reflexivity].
Qed.

Lemma paginate_unchecked_numbers_witness :
  query (paginate (qs_features [("limit", QStr "Infinity")])) = query_limit PosInf (query_skip NaN empty_query) /\
  (exists q, query (paginate (qs_features [("page", QStr "2.5")]))
            = query_limit (Fin 100) (query_skip (Fin q) empty_query) /\ q == 150) /\
  limit_opt (query (paginate (qs_features [("limit", QStr "-5")]))) = Some (Fin (inject_Z (-5))).
Proof. apply paginate_unchecked_numbers; reflexivity. Defined.
