(* ===== verification/Json.v ===== *)
(** * [JSON.stringify] and [JSON.parse] on query-string values

    [APIFeatures.filter] ([src/utils/apiFeatures.js], lines 13-16) turns
    the query-string object into JSON text, edits the text and parses it
    back.  This file models both directions on [qval]s (strings, arrays,
    objects: the only values a query string holds): [stringify] follows
    [SerializeJSONProperty] and [QuoteJSONString] of the ECMAScript
    specification, [json_parse] follows [JSON.parse] on the texts made of
    strings, arrays and objects without white space (every text
    [stringify] produces, edited or not by the filter; another text, with
    numbers, literals or white space, is answered with a [SyntaxError] the
    real parser would not raise).  Characters are 8-bit code units: a
    [\u] escape above [00ff] is refused.  The parser runs on fuel; the
    length of the text is enough fuel, which the round-trip theorem shows. *)

From S2P Require Import Prelude JsValues ApiFeatures.
From Stdlib Require Import Ascii.

(** ** Serialisation *)

Definition dq : ascii := ascii_of_nat 34.
Definition bs : ascii := ascii_of_nat 92.

(** A hexadecimal digit, in lower case as [UnicodeEscape] writes it. *)
Definition hex_digit (n : nat) : ascii :=
  if (n <? 10)%nat then ascii_of_nat (48 + n) else ascii_of_nat (87 + n).

(** [QuoteJSONString] on one code unit: the short escapes, then [\u00XX]
    for the other control characters. *)
Definition escape_char (c : ascii) : list ascii :=
  let n := nat_of_ascii c in
  if (n =? 8)%nat then [bs; "b"%char]
  else if (n =? 9)%nat then [bs; "t"%char]
  else if (n =? 10)%nat then [bs; "n"%char]
  else if (n =? 12)%nat then [bs; "f"%char]
  else if (n =? 13)%nat then [bs; "r"%char]
  else if (n =? 34)%nat then [bs; dq]
  else if (n =? 92)%nat then [bs; bs]
  else if (n <? 32)%nat then [bs; "u"%char; "0"%char; "0"%char; hex_digit (n / 16); hex_digit (n mod 16)]
  else [c].

Definition esc (l : list ascii) : list ascii := flat_map escape_char l.

Definition quote (s : string) : list ascii := dq :: esc (chars s) ++ [dq].

(** [JSON.stringify(v)]: no white space, members in property order. *)
Fixpoint stringify (v : qval) : list ascii :=
  match v with
  | QStr s => quote s
  | QArr vs => "["%char :: join_chars "," (map stringify vs) ++ ["]"%char]
  | QObj fs =>
      "{"%char :: join_chars "," (map (fun '(k, x) => quote k ++ ":"%char :: stringify x) fs)
        ++ ["}"%char]
  end.

(** ** Parsing *)

(** The two-character escapes: backslash followed by a quote, a
    backslash, a slash, or one of [b f n r t]. *)
Definition simple_escape (e : ascii) : option ascii :=
  if Ascii.eqb e dq then Some dq
  else if Ascii.eqb e bs then Some bs
  else if Ascii.eqb e "/" then Some "/"%char
  else if Ascii.eqb e "b" then Some (ascii_of_nat 8)
  else if Ascii.eqb e "f" then Some (ascii_of_nat 12)
  else if Ascii.eqb e "n" then Some (ascii_of_nat 10)
  else if Ascii.eqb e "r" then Some (ascii_of_nat 13)
  else if Ascii.eqb e "t" then Some (ascii_of_nat 9)
  else None.

Definition hex_value (c : ascii) : option nat :=
  let n := nat_of_ascii c in
  if (48 <=? n)%nat && (n <=? 57)%nat then Some (n - 48)%nat
  else if (97 <=? n)%nat && (n <=? 102)%nat then Some (n - 87)%nat
  else if (65 <=? n)%nat && (n <=? 70)%nat then Some (n - 55)%nat
  else None.

(** [\uXXXX], for the code units the 8-bit model has. *)
Definition unicode_escape (h1 h2 h3 h4 : ascii) : option ascii :=
  match hex_value h1, hex_value h2, hex_value h3, hex_value h4 with
  | Some a, Some b, Some c, Some d =>
      let n := (4096 * a + 256 * b + 16 * c + d)%nat in
      if (n <? 256)%nat then Some (ascii_of_nat n) else None
  | _, _, _, _ => None
  end.

(** The characters of a string literal after its opening quote, up to the
    closing quote, and the rest of the text.  A raw control character is a
    syntax error. *)
Fixpoint parse_chars (l : list ascii) : option (list ascii * list ascii) :=
  match l with
  | [] => None
  | c :: l' =>
      if Ascii.eqb c dq then Some ([], l')
      else if Ascii.eqb c bs then
        match l' with
        | e :: l'' =>
            if Ascii.eqb e "u" then
              match l'' with
              | h1 :: h2 :: h3 :: h4 :: r =>
                  match unicode_escape h1 h2 h3 h4, parse_chars r with
                  | Some x, Some (s, r') => Some (x :: s, r')
                  | _, _ => None
                  end
              | _ => None
              end
            else
              match simple_escape e, parse_chars l'' with
              | Some x, Some (s, r') => Some (x :: s, r')
              | _, _ => None
              end
        | [] => None
        end
      else if (nat_of_ascii c <? 32)%nat then None
      else
        match parse_chars l' with
        | Some (s, r) => Some (c :: s, r)
        | None => None
        end
  end.

(** The object [JSON.parse] builds from its members: [CreateDataProperty]
    in text order, so a repeated key keeps its first place and its last
    value. *)
Definition build_object (fs : list (string * qval)) : list (string * qval) :=
  fold_left (fun acc '(k, v) => obj_set k v acc) fs [].

Fixpoint parse_value (fuel : nat) (l : list ascii) {struct fuel} : option (qval * list ascii) :=
  match fuel with
  | O => None
  | S f =>
      match l with
      | c :: r =>
          if Ascii.eqb c dq then
            match parse_chars r with
            | Some (s, r') => Some (QStr (of_chars s), r')
            | None => None
            end
          else if Ascii.eqb c "[" then
            match r with
            | c' :: r' =>
                if Ascii.eqb c' "]" then Some (QArr [], r')
                else match parse_elems f r with
                     | Some (vs, r'') => Some (QArr vs, r'')
                     | None => None
                     end
            | [] => None
            end
          else if Ascii.eqb c "{" then
            match r with
            | c' :: r' =>
                if Ascii.eqb c' "}" then Some (QObj [], r')
                else match parse_members f r with
                     | Some (fs, r'') => Some (QObj (build_object fs), r'')
                     | None => None
                     end
            | [] => None
            end
          else None
      | [] => None
      end
  end
with parse_elems (fuel : nat) (l : list ascii) {struct fuel} : option (list qval * list ascii) :=
  match fuel with
  | O => None
  | S f =>
      match parse_value f l with
      | Some (v, c :: r) =>
          if Ascii.eqb c "," then
            match parse_elems f r with
            | Some (vs, r') => Some (v :: vs, r')
            | None => None
            end
          else if Ascii.eqb c "]" then Some ([v], r)
          else None
      | _ => None
      end
  end
with parse_members (fuel : nat) (l : list ascii) {struct fuel}
  : option (list (string * qval) * list ascii) :=
  match fuel with
  | O => None
  | S f =>
      match l with
      | c :: r =>
          if Ascii.eqb c dq then
            match parse_chars r with
            | Some (k, c' :: r') =>
                if Ascii.eqb c' ":" then
                  match parse_value f r' with
                  | Some (v, c'' :: r'') =>
                      if Ascii.eqb c'' "," then
                        match parse_members f r'' with
                        | Some (fs, r3) => Some ((of_chars k, v) :: fs, r3)
                        | None => None
                        end
                      else if Ascii.eqb c'' "}" then Some ([(of_chars k, v)], r'')
                      else None
                  | _ => None
                  end
                else None
            | _ => None
            end
          else None
      | [] => None
      end
  end.

(** [JSON.parse(text)]: one value and nothing after it. *)
Definition json_parse (l : list ascii) : result qval :=
  match parse_value (length l) l with
  | Some (v, []) => Ok v
  | _ => Err (SyntaxError "Unexpected token in JSON")
  end.

(** What [JSON.parse(JSON.stringify(v))] gives back: [v] with the repeated
    keys of its objects merged. *)
Fixpoint normalize (v : qval) : qval :=
  match v with
  | QStr s => QStr s
  | QArr vs => QArr (map normalize vs)
  | QObj fs => QObj (build_object (map (fun '(k, x) => (k, normalize x)) fs))
  end.

(** [stringify] with the text between the quotes of every key and string
    given by [body] (for [stringify], the escaped code units): the texts
    [filter()] hands to [JSON.parse] after its edit are of this form. *)
Definition quote_with (body : string -> list ascii) (s : string) : list ascii := dq :: body s ++ [dq].

Fixpoint stringify_with (body : string -> list ascii) (v : qval) : list ascii :=
  match v with
  | QStr s => quote_with body s
  | QArr vs => "["%char :: join_chars "," (map (stringify_with body) vs) ++ ["]"%char]
  | QObj fs =>
      "{"%char :: join_chars "," (map (fun '(k, x) => quote_with body k ++ ":"%char :: stringify_with body x) fs)
        ++ ["}"%char]
  end.

(** Every key and string of a value passed through [f]. *)
Fixpoint map_strings (f : string -> string) (v : qval) : qval :=
  match v with
  | QStr s => QStr (f s)
  | QArr vs => QArr (map (map_strings f) vs)
  | QObj fs => QObj (map (fun '(k, x) => (f k, map_strings f x)) fs)
  end.

(** Every key and string of the value satisfies [p]. *)
Fixpoint all_strings (p : string -> bool) (v : qval) : bool :=
  match v with
  | QStr s => p s
  | QArr vs => forallb (all_strings p) vs
  | QObj fs => forallb (fun kx => p (fst kx) && all_strings p (snd kx)) fs
  end.

(** ** Lemmas *)

(** Induction on query-string values through their arrays and objects. *)
Section QvalInd.
Context (P : qval -> Prop).
Context (HS : forall s, P (QStr s)).
Context (HA : forall vs, Forall P vs -> P (QArr vs)).
Context (HO : forall fs, Forall (fun kv => P (snd kv)) fs -> P (QObj fs)).

Fixpoint qval_ind' (v : qval) : P v :=
  match v with
  | QStr s => HS s
  | QArr vs => HA vs ((fix go l := match l return Forall P l with
                                   | [] => @List.Forall_nil _ _
                                   | x :: l' => @List.Forall_cons _ _ x l' (qval_ind' x) (go l')
                                   end) vs)
  | QObj fs => HO fs ((fix go l := match l return Forall (fun kv => P (snd kv)) l with
                                   | [] => @List.Forall_nil _ _
                                   | x :: l' => @List.Forall_cons _ _ x l' (qval_ind' (snd x)) (go l')
                                   end) fs)
  end.
End QvalInd.

(** The parser reads every escaped code unit back. *)
Lemma parse_chars_escape_char c l :
  parse_chars (escape_char c ++ l)
  = match parse_chars l with Some (s, r) => Some (c :: s, r) | None => None end.
Proof.
  destruct c as [b0 b1 b2 b3 b4 b5 b6 b7].
  destruct b0, b1, b2, b3, b4, b5, b6, b7; reflexivity.
Qed.

Lemma parse_chars_esc s rest :
  parse_chars (esc s ++ dq :: rest) = Some (s, rest).
Proof.
  induction s as [|c s IH]; [reflexivity|].
  cbn [esc flat_map]. rewrite <- app_assoc, parse_chars_escape_char.
  unfold esc in IH. by rewrite IH.
Qed.

Lemma parse_chars_quote k rest :
  parse_chars (tail (quote k) ++ rest) = Some (chars k, rest).
Proof. unfold quote. cbn [tail]. rewrite <- app_assoc. apply parse_chars_esc. Qed.

Lemma join_chars_cons2 (c : ascii) x y l : join_chars c (x :: y :: l) = x ++ c :: join_chars c (y :: l).
Proof. reflexivity. Qed.

Lemma join_first_head {A} (g : A -> list ascii)
    (Hg : forall a t, exists c r, g a ++ t = c :: r /\ Ascii.eqb c "]" = false /\ Ascii.eqb c "}" = false)
    x l t :
  exists c r, join_chars "," (map g (x :: l)) ++ t = c :: r /\ Ascii.eqb c "]" = false /\ Ascii.eqb c "}" = false.
Proof.
  destruct l as [|y l]; cbn [map join_chars]; [apply Hg|].
  rewrite <- app_assoc. apply Hg.
Qed.

(** The parser reads back any serialisation whose string bodies it reads
    back: [body s] followed by a quote is read as the code units of
    [decode s]. *)
Section ParseWith.
Context (body : string -> list ascii) (decode : string -> string).
Hypothesis body_parses : forall s rest, parse_chars (body s ++ dq :: rest) = Some (chars (decode s), rest).

(** A serialised value starts with a quote or an opening bracket, never
    with a closing one. *)
Lemma stringify_with_head v rest :
  exists c r, stringify_with body v ++ rest = c :: r /\ Ascii.eqb c "]" = false /\ Ascii.eqb c "}" = false.
Proof. destruct v; simpl; do 2 eexists; repeat split. Qed.

Lemma stringify_with_length v : (1 <= length (stringify_with body v))%nat.
Proof. destruct v; simpl; lia. Qed.

(** The reading of one value, with any fuel at least its length. *)
Definition parses_back (v : qval) : Prop :=
  forall f rest, (length (stringify_with body v) <= f)%nat ->
    parse_value f (stringify_with body v ++ rest) = Some (normalize (map_strings decode v), rest).

Lemma parse_elems_join vs f rest :
  vs <> [] -> Forall parses_back vs ->
  (length (join_chars "," (map (stringify_with body) vs)) < f)%nat ->
  parse_elems f (join_chars "," (map (stringify_with body) vs) ++ "]"%char :: rest)
  = Some (map (fun x => normalize (map_strings decode x)) vs, rest).
Proof.
  revert f. induction vs as [|v vs IH]; intros f Hne Hall Hf; [done|].
  apply Forall_cons in Hall as [Hv Hall]. destruct f as [|f]; [lia|].
  destruct vs as [|v2 vs].
  - cbn [map join_chars] in *. cbn [parse_elems]. rewrite Hv by lia. reflexivity.
  - cbn [map] in *. rewrite join_chars_cons2 in *. rewrite length_app in Hf. cbn [length] in Hf.
    cbn [parse_elems]. rewrite <- app_assoc, Hv by lia. cbn [app].
    cbn [Ascii.eqb Bool.eqb]. rewrite (IH f) by (done || lia). reflexivity.
Qed.

Definition member_text (kx : string * qval) : list ascii :=
  let '(k, x) := kx in quote_with body k ++ ":"%char :: stringify_with body x.

Lemma member_text_head kx t :
  exists c r, member_text kx ++ t = c :: r /\ Ascii.eqb c "]" = false /\ Ascii.eqb c "}" = false.
Proof. destruct kx as [k x]. do 2 eexists. split; [reflexivity | split; reflexivity]. Qed.

Lemma parse_members_join fs f rest :
  fs <> [] -> Forall (fun kv => parses_back (snd kv)) fs ->
  (length (join_chars "," (map member_text fs)) < f)%nat ->
  parse_members f (join_chars "," (map member_text fs) ++ "}"%char :: rest)
  = Some (map (fun '(k, x) => (decode k, normalize (map_strings decode x))) fs, rest).
Proof.
  revert f. induction fs as [|[k x] fs IH]; intros f Hne Hall Hf; [done|].
  apply Forall_cons in Hall as [Hx Hall]. destruct f as [|f]; [lia|]. cbn [snd] in Hx.
  assert (Hq : forall t, quote_with body k ++ t = dq :: (body k ++ dq :: t))
    by (intros t; unfold quote_with; cbn [app]; by rewrite <- app_assoc).
  destruct fs as [|kv2 fs].
  - cbn [map join_chars member_text] in *. cbn [parse_members].
    rewrite <- app_assoc, Hq. cbn [Ascii.eqb Bool.eqb dq ascii_of_nat]. cbn -[parse_chars parse_value].
    rewrite body_parses. cbn -[parse_value].
    rewrite length_app in Hf. cbn [length] in Hf.
    rewrite Hx by lia. cbn. by rewrite of_chars_chars.
  - cbn [map] in *. rewrite join_chars_cons2 in *. cbn [member_text] in *.
    rewrite !length_app in Hf. cbn [length] in Hf.
    cbn [parse_members]. rewrite <- !app_assoc, Hq. cbn -[parse_chars parse_value parse_members join_chars].
    rewrite body_parses. cbn -[parse_value parse_members join_chars].
    rewrite Hx by lia. cbn -[parse_members join_chars]. rewrite Ascii.eqb_refl.
    rewrite (IH f) by (done || lia). by rewrite of_chars_chars.
Qed.

Lemma parse_stringify_with v : parses_back v.
Proof.
  induction v as [s|vs IH|fs IH] using qval_ind'; intros f rest Hf; destruct f as [|f];
    try (pose proof (stringify_with_length (QStr s)); lia);
    try (pose proof (stringify_with_length (QArr vs)); lia);
    try (pose proof (stringify_with_length (QObj fs)); lia).
  - cbn [stringify_with normalize map_strings]. unfold quote_with. cbn [app parse_value]. rewrite Ascii.eqb_refl.
    rewrite <- app_assoc. cbn [app]. rewrite body_parses. by rewrite of_chars_chars.
  - destruct vs as [|v vs]; [reflexivity|].
    cbn [stringify_with normalize map_strings] in *. rewrite map_map.
    cbn [length] in Hf. rewrite length_app in Hf. cbn [length] in Hf.
    cbn [app]. rewrite <- app_assoc. cbn [app].
    destruct (join_first_head (stringify_with body) stringify_with_head v vs ("]"%char :: rest)) as (c & r & E & H1 & _).
    rewrite E. cbn -[parse_elems]. rewrite H1. rewrite <- E.
    rewrite parse_elems_join by (done || lia). reflexivity.
  - destruct fs as [|kx fs]; [reflexivity|].
    cbn [stringify_with normalize map_strings] in *. cbn [length] in Hf. rewrite length_app in Hf. cbn [length] in Hf.
    change (map (fun '(k, x) => quote_with body k ++ ":"%char :: stringify_with body x) (kx :: fs))
      with (map member_text (kx :: fs)) in *.
    cbn [app]. rewrite <- app_assoc. cbn [app].
    destruct (join_first_head member_text member_text_head kx fs ("}"%char :: rest)) as (c & r & E & _ & H2).
    rewrite E. cbn -[parse_members build_object]. rewrite H2. rewrite <- E.
    rewrite parse_members_join by (done || lia).
    assert (Em : map (fun '(k, x) => (decode k, normalize (map_strings decode x))) (kx :: fs)
                 = map (fun '(k, x) => (k, normalize x)) (map (fun '(k, x) => (decode k, map_strings decode x)) (kx :: fs)))
      by (rewrite map_map; apply map_ext; by intros [k x]).
    by rewrite Em.
Qed.

Lemma json_parse_stringify_with v : json_parse (stringify_with body v) = Ok (normalize (map_strings decode v)).
Proof.
  unfold json_parse. rewrite <- (app_nil_r (stringify_with body v)) at 2.
  by rewrite parse_stringify_with by lia.
Qed.

End ParseWith.

Lemma map_strings_id v : map_strings (fun s => s) v = v.
Proof.
  induction v as [s|vs IH|fs IH] using qval_ind'; cbn [map_strings]; [done| |].
  - f_equal. rewrite <- (map_id vs) at 2. by apply map_ext_Forall.
  - f_equal. rewrite <- (map_id fs) at 2. apply map_ext_Forall.
    eapply Forall_impl; [exact IH|]. intros [k x]; cbn. by intros ->.
Qed.

(** Serialising a value whose strings went through [g] is serialising the
    value with the escaped [g s] between the quotes. *)
Lemma stringify_map_strings g v : stringify (map_strings g v) = stringify_with (fun s => esc (chars (g s))) v.
Proof.
  induction v as [s|vs IH|fs IH] using qval_ind'; cbn [map_strings stringify stringify_with]; [done| |].
  - rewrite map_map. do 3 f_equal. by apply map_ext_Forall.
  - rewrite map_map. do 3 f_equal. apply map_ext_Forall.
    eapply Forall_impl; [exact IH|]. intros [k x]; cbn. by intros ->.
Qed.

(** The serialisation depends only on the bodies of the value's strings. *)
Lemma stringify_with_ext (p : string -> bool) b1 b2 (Hb : forall s, p s = true -> b1 s = b2 s) v :
  all_strings p v = true -> stringify_with b1 v = stringify_with b2 v.
Proof.
  induction v as [s|vs IH|fs IH] using qval_ind'; intros Hv; cbn [all_strings stringify_with] in *.
  - unfold quote_with. by rewrite Hb.
  - do 3 f_equal. apply map_ext_Forall. rewrite forallb_forall in Hv.
    rewrite Forall_forall in IH |- *. intros x Hx. apply IH; [done|]. apply Hv. by apply list_elem_of_In.
  - do 3 f_equal. apply map_ext_Forall. rewrite forallb_forall in Hv.
    rewrite Forall_forall in IH |- *. intros [k x] Hx.
    assert (Hkx : In (k, x) fs) by (by apply list_elem_of_In).
    apply Hv, andb_true_iff in Hkx as [Hk Hx']. cbn [fst snd] in Hk, Hx'.
    unfold quote_with. rewrite Hb by done. pose proof (IH (k, x) Hx Hx') as E. cbn [snd] in E. by rewrite E.
Qed.

Lemma all_strings_true v : all_strings (fun _ => true) v = true.
Proof.
  induction v as [s|vs IH|fs IH] using qval_ind'; cbn [all_strings]; [done| |];
    apply forallb_forall; intros x Hx; apply list_elem_of_In in Hx;
    rewrite Forall_forall in IH; by apply IH.
Qed.

Lemma json_parse_stringify v : json_parse (stringify v) = Ok (normalize v).
Proof.
  rewrite <- (map_strings_id v) at 1. rewrite stringify_map_strings.
  rewrite (json_parse_stringify_with _ (fun s => s)) by (intros; apply parse_chars_esc).
  by rewrite map_strings_id.
Qed.

(** Every object of the value has distinct keys (as every JavaScript
    object has). *)
Fixpoint distinct_keys (v : qval) : bool :=
  match v with
  | QStr _ => true
  | QArr vs => forallb distinct_keys vs
  | QObj fs => bool_decide (NoDup (map fst fs)) && forallb (fun kx => distinct_keys (snd kx)) fs
  end.

Lemma build_object_distinct fs : NoDup (map fst fs) -> build_object fs = fs.
Proof.
  intros Hnd. unfold build_object.
  rewrite (fold_obj_set_distinct (fun kx => kx)); [apply map_id | exact Hnd | by intros ? ? []].
Qed.

Lemma normalize_distinct v : distinct_keys v = true -> normalize v = v.
Proof.
  induction v as [s|vs IH|fs IH] using qval_ind'; cbn [distinct_keys normalize]; intros Hd; [done| |].
  - f_equal. rewrite forallb_forall in Hd. induction IH as [|v vs Hv _ IH']; [done|]. cbn [map].
    rewrite Hv by (apply Hd; left; done). rewrite IH'; [done|]. intros x Hx. apply Hd. by right.
  - apply andb_true_iff in Hd as [Hnd Hd]. apply bool_decide_eq_true in Hnd.
    assert (E : map (fun '(k, x) => (k, normalize x)) fs = fs).
    { rewrite forallb_forall in Hd. clear Hnd. induction IH as [|[k x] fs Hx _ IH']; [done|]. cbn [map].
      cbn [snd] in Hx. rewrite Hx by (apply (Hd (k, x)); left; done). rewrite IH'; [done|]. intros y Hy. apply Hd. by right. }
    by rewrite E, build_object_distinct.
Qed.

(** ** Round trip *)

(** [JSON.parse(JSON.stringify(v))] gives [v] back for every
    query-string value whose objects have distinct keys; the parser needs
    no more fuel than the length of the text.  (Without distinct keys it
    gives [normalize v], the repeated keys merged.) *)
Theorem json_roundtrip v : distinct_keys v = true -> json_parse (stringify v) = Ok v.
Proof. intros Hd. by rewrite json_parse_stringify, normalize_distinct. Qed.

Lemma json_roundtrip_witness :
  json_parse (stringify (QObj [("duration", QObj [("gte", QStr "5")]);
                               ("name", QStr (String dq (String bs (String (ascii_of_nat 10) ""))));
                               ("startDates", QArr [QStr "2021"; QStr "2022"])]))
  = Ok (QObj [("duration", QObj [("gte", QStr "5")]);
              ("name", QStr (String dq (String bs (String (ascii_of_nat 10) ""))));
              ("startDates", QArr [QStr "2021"; QStr "2022"])]).
Proof. apply json_roundtrip. reflexivity. Defined.
