(* ===== verification/QueryFilter.v ===== *)
(** * The QueryShaper's [filter] stage ([src/utils/apiFeatures.js], lines 7-20)

    [filter()] copies the query-string object, deletes the four control
    keys, serialises the copy with [JSON.stringify], prefixes every
    comparison word of the text with [$] by
    [replace(/\b(gte|gt|lte|lt)\b/g, ...)], parses the text back with
    [JSON.parse] and passes the object to [query.find].

    [replace_ops] is the global regular-expression replacement as the
    engine runs it: a scan from left to right that tries the four
    alternatives in order at each position where the word boundary holds,
    and resumes after a match.  [word_replace] is its specification on
    words (maximal runs of [\w] characters): a word that is one of the four
    comparison words gets a [$], nothing else changes.  The theorems show
    the scan meets the specification, that the edit never makes the text
    unreadable to [JSON.parse] (it only puts a [$] before a [g] or an [l],
    and no escape holds either), that it amounts to rewriting every key
    and string of the object when no string holds a control character,
    and what happens when one does. *)

From S2P Require Import Prelude JsValues ApiFeatures Json.
From Stdlib Require Import Ascii.

(** ** The regular expression *)

(** [\w]: ASCII letters, digits and the underscore. *)
Definition is_word (c : ascii) : bool :=
  let n := nat_of_ascii c in
  ((48 <=? n) && (n <=? 57) || (65 <=? n) && (n <=? 90) || (97 <=? n) && (n <=? 122) || (n =? 95))%nat.

(** The alternatives of [(gte|gt|lte|lt)], in the order they are tried. *)
Definition ops : list (list ascii) := [chars "gte"; chars "gt"; chars "lte"; chars "lt"].

Fixpoint is_prefix (p l : list ascii) : bool :=
  match p, l with
  | [], _ => true
  | c :: p', d :: l' => Ascii.eqb c d && is_prefix p' l'
  | _ :: _, [] => false
  end.

(** The closing [\b] after a match (whose last character is a word
    character): the next character is not one, or the text ends. *)
Definition at_boundary (rest : list ascii) : bool :=
  match rest with
  | [] => true
  | c :: _ => negb (is_word c)
  end.

(** The alternative that matches at the start of [l], if any. *)
Definition op_at (l : list ascii) : option (list ascii) :=
  find (fun o => is_prefix o l && at_boundary (drop (length o) l)) ops.

(** [text.replace(/\b(gte|gt|lte|lt)\b/g, (match) => `$${match}`)]:
    [prev_word] tells whether the previous character is a word character
    (the opening [\b] before a letter needs it not to be), [skip] counts
    the characters of the last match still to copy. *)
Fixpoint replace_ops (prev_word : bool) (skip : nat) (l : list ascii) : list ascii :=
  match l with
  | [] => []
  | c :: l' =>
      match skip with
      | S k => c :: replace_ops (is_word c) k l'
      | O =>
          if prev_word then c :: replace_ops (is_word c) O l'
          else match op_at l with
               | Some o => "$"%char :: c :: replace_ops (is_word c) (length o - 1)%nat l'
               | None => c :: replace_ops (is_word c) O l'
               end
      end
  end.

(** ** Its specification on words *)

(** A complete word, with its [$] if it is a comparison word. *)
Definition flush (w : list ascii) : list ascii :=
  if bool_decide (w ∈ ops) then "$"%char :: w else w.

(** [cur] is the word read so far. *)
Fixpoint word_replace (cur : list ascii) (l : list ascii) : list ascii :=
  match l with
  | [] => flush cur
  | c :: l' => if is_word c then word_replace (cur ++ [c]) l' else flush cur ++ c :: word_replace [] l'
  end.

(** The same on strings. *)
Definition replace_word_ops (s : string) : string := of_chars (word_replace [] (chars s)).

(** ** The [filter] stage *)

(** [const excludedFields = ['page', 'sort', 'limit', 'fields']] *)
Definition excludedFields : list string := ["page"; "sort"; "limit"; "fields"].

(** [const queryObj = { ...this.queryString }] then
    [excludedFields.forEach((el) => delete queryObj[el])]: a copy, so the
    query-string object itself keeps the control keys for the later
    stages. *)
Definition strip_controls (qs : list (string * qval)) : list (string * qval) :=
  fold_left (fun o el => obj_delete el o) excludedFields qs.

(** [this.query.find(conditions)]: the conditions are added to the
    query's. *)
Definition query_find (v : qval) (q : Query) : Query :=
  mk_query (conditions q ++ [v]) (sort_spec q) (projection q) (skip_opt q) (limit_opt q).

(** [filter()] (lines 7-20). *)
Definition filter (af : APIFeatures) : result APIFeatures :=
  let queryObj := strip_controls (queryString af) in
  let queryStr := replace_ops false O (stringify (QObj queryObj)) in
  match json_parse queryStr with
  | Ok v => Ok (with_query (query_find v (query af)) af)
  | Err e => Err e
  end.

(** ** What [JSON.parse] reads back *)

(** A control character: JSON escapes it with a letter or digits. *)
Definition is_ctrl (c : ascii) : bool := (nat_of_ascii c <? 32)%nat.

Definition str_no_ctrl (s : string) : bool := forallb (fun c => negb (is_ctrl c)) (chars s).

(** No key or string of the value holds a control character. *)
Definition no_ctrl (v : qval) : bool := all_strings str_no_ctrl v.

(** The text the edit leaves between the quotes of a key or string: the
    edit of its escaped code units, in which the letter or digits of an
    escape (the [n] of a line feed's escape) are word characters glued to
    their neighbours. *)
Definition edited_body (s : string) : list ascii := word_replace [] (esc (chars s)).

(** The key or string [JSON.parse] reads from that text. *)
Definition edited_string (s : string) : string :=
  match parse_chars (edited_body s ++ [dq]) with Some (t, _) => of_chars t | None => s end.

(** The first letters of the comparison words. *)
Definition op_initial (c : ascii) : bool := Ascii.eqb c "g" || Ascii.eqb c "l".

(** [t] is [l] with a [$] put before some of its [g] and [l] characters:
    the only change the edit makes to a text. *)
Inductive dollar_ins : list ascii -> list ascii -> Prop :=
| di_nil : dollar_ins [] []
| di_keep c l t : dollar_ins l t -> dollar_ins (c :: l) (c :: t)
| di_add c l t : op_initial c = true -> dollar_ins l t -> dollar_ins (c :: l) ("$"%char :: c :: t).

(** A key that names a MongoDB operator names one of the four comparison
    operators: the word after its [$] is [gte], [gt], [lte] or [lt]. *)
Definition operator_whitelisted (k : string) : bool :=
  match chars k with
  | c :: r => if Ascii.eqb c "$" then bool_decide (fst (span is_word r) ∈ ops) else true
  | [] => true
  end.

(** ** Lemmas *)

Lemma span_cons_true p c l : p c = true -> span p (c :: l) = (c :: fst (span p l), snd (span p l)).
Proof. intros H. cbn. rewrite H. by destruct (span p l). Qed.

Lemma span_cons_false p c l : p c = false -> span p (c :: l) = ([], c :: l).
Proof. intros H. cbn. by rewrite H. Qed.

(** [span] splits a list into its longest prefix of [p] characters and a
    rest that does not start with one. *)
Lemma span_app p l : l = fst (span p l) ++ snd (span p l).
Proof.
  induction l as [|c l IH]; [done|]. destruct (p c) eqn:E.
  - rewrite span_cons_true by done. cbn. by rewrite <- IH.
  - by rewrite span_cons_false.
Qed.

Lemma span_fst_all p l : Forall (fun c => p c = true) (fst (span p l)).
Proof.
  induction l as [|c l IH]; [constructor|]. destruct (p c) eqn:E.
  - rewrite span_cons_true by done. by constructor.
  - by rewrite span_cons_false.
Qed.

Lemma span_snd_head p l : match snd (span p l) with [] => True | c :: _ => p c = false end.
Proof.
  induction l as [|c l IH]; [done|]. destruct (p c) eqn:E.
  - by rewrite span_cons_true.
  - by rewrite span_cons_false.
Qed.

Lemma span_length p l : (length (snd (span p l)) <= length l)%nat.
Proof. rewrite (span_app p l) at 2. rewrite length_app. lia. Qed.

(** A word [o] matches at the start of [l] with a boundary after it
    exactly when [o] is the first word of [l]. *)
Lemma prefix_boundary o l :
  Forall (fun c => is_word c = true) o ->
  is_prefix o l && at_boundary (drop (length o) l) = true <-> fst (span is_word l) = o.
Proof.
  revert l. induction o as [|x o IH]; intros l Ho.
  - cbn [is_prefix length skipn andb]. destruct l as [|c l]; [done|]. cbn [at_boundary].
    destruct (is_word c) eqn:E.
    + rewrite span_cons_true by done. cbn. rewrite E. split; intros H; discriminate H.
    + rewrite span_cons_false by done. cbn. rewrite E. split; reflexivity.
  - apply Forall_cons in Ho as [Hx Ho]. destruct l as [|c l]; [done|].
    cbn [is_prefix length skipn]. destruct (Ascii.eqb_spec x c) as [<-|Hne]; cbn [andb].
    + rewrite span_cons_true by done. cbn [fst]. rewrite IH by done. split; [by intros ->|by inversion 1].
    + split; [done|]. destruct (is_word c) eqn:E.
      * rewrite span_cons_true by done. by inversion 1.
      * by rewrite span_cons_false.
Qed.

Lemma find_ext_in {A} (f g : A -> bool) l :
  (forall x, In x l -> f x = g x) -> find f l = find g l.
Proof.
  induction l as [|x l IH]; intros H; [done|]. cbn. rewrite (H x) by (left; done).
  destruct (g x); [done|]. apply IH. intros y Hy. apply H. by right.
Qed.

Lemma find_eq_self {A} `{EqDecision A} (w : A) l :
  find (fun o => bool_decide (w = o)) l = if bool_decide (w ∈ l) then Some w else None.
Proof.
  induction l as [|x l IH]; [done|]. cbn. rewrite IH.
  destruct (decide (w = x)) as [->|Hne].
  - rewrite !bool_decide_true by (done || by left). done.
  - rewrite bool_decide_false by done.
    rewrite (bool_decide_ext (w ∈ x :: l) (w ∈ l)); [done|]. rewrite elem_of_cons. naive_solver.
Qed.

Lemma ops_words : Forall (Forall (fun c => is_word c = true)) ops.
Proof. repeat constructor. Qed.

(** The alternative found at the start of [l] is the first word of [l],
    when that word is a comparison word. *)
Lemma op_at_span l :
  op_at l = if bool_decide (fst (span is_word l) ∈ ops) then Some (fst (span is_word l)) else None.
Proof.
  unfold op_at. rewrite <- find_eq_self. apply find_ext_in. intros o Ho.
  pose proof (proj1 (Forall_forall _ _) ops_words o (proj2 (list_elem_of_In _ _) Ho)) as Hw.
  destruct (is_prefix o l && at_boundary (drop (length o) l)) eqn:E; symmetry.
  - apply bool_decide_eq_true. by apply prefix_boundary.
  - apply bool_decide_eq_false. intros Hs. apply prefix_boundary in Hs; [congruence|done].
Qed.

(** What the scan does after the end of a word. *)
Definition tail_ops (r : list ascii) : list ascii :=
  match r with [] => [] | c :: r' => c :: replace_ops false O r' end.

Definition tail_spec (r : list ascii) : list ascii :=
  match r with [] => [] | c :: r' => c :: word_replace [] r' end.

(** Inside a word no alternative can match: the scan copies the word. *)
Lemma replace_ops_in_word l :
  replace_ops true O l = fst (span is_word l) ++ tail_ops (snd (span is_word l)).
Proof.
  induction l as [|c l IH]; [done|]. cbn [replace_ops]. destruct (is_word c) eqn:E.
  - rewrite span_cons_true, IH by done. done.
  - by rewrite span_cons_false.
Qed.

(** After a match the scan copies the rest of the matched word. *)
Lemma replace_ops_skip w r :
  Forall (fun c => is_word c = true) w -> replace_ops true (length w) (w ++ r) = w ++ replace_ops true O r.
Proof.
  induction w as [|x w IH]; intros Hw; [done|]. apply Forall_cons in Hw as [Hx Hw].
  cbn [length app replace_ops]. rewrite Hx, IH by done. done.
Qed.

Lemma word_replace_span cur l :
  word_replace cur l = flush (cur ++ fst (span is_word l)) ++ tail_spec (snd (span is_word l)).
Proof.
  revert cur. induction l as [|c l IH]; intros cur; cbn [word_replace].
  - by rewrite app_nil_r, app_nil_r.
  - destruct (is_word c) eqn:E.
    + rewrite span_cons_true, IH by done. cbn [fst snd]. by rewrite <- app_assoc.
    + rewrite span_cons_false by done. by rewrite app_nil_r.
Qed.

Lemma flush_nil : flush [] = [].
Proof. reflexivity. Qed.

(** The rest after a word starts with a non-word character. *)
Lemma span_after_word l :
  span is_word (snd (span is_word l)) = ([], snd (span is_word l)).
Proof.
  pose proof (span_snd_head is_word l) as H.
  destruct (snd (span is_word l)) as [|d r]; [done|]. by rewrite span_cons_false.
Qed.

Lemma tail_ops_spec r :
  (forall r', (length r' < length r)%nat -> replace_ops false O r' = word_replace [] r') ->
  tail_ops r = tail_spec r.
Proof. intros IH. destruct r as [|d r]; [done|]. cbn. rewrite IH; [done|]. cbn. lia. Qed.

Lemma replace_ops_words_upto n l : (length l <= n)%nat -> replace_ops false O l = word_replace [] l.
Proof.
  revert l. induction n as [|n IHn]; intros l Hl.
  { destruct l; [done|cbn in Hl; lia]. }
  destruct l as [|c l]; [done|]. cbn in Hl.
  cbn [replace_ops]. rewrite op_at_span. cbn [word_replace].
  destruct (is_word c) eqn:E.
  - rewrite span_cons_true by done. cbn [fst].
    rewrite word_replace_span. cbn [app].
    assert (Ht : tail_ops (snd (span is_word l)) = tail_spec (snd (span is_word l))).
    { apply tail_ops_spec. intros r' Hr'. apply IHn. pose proof (span_length is_word l). lia. }
    unfold flush. destruct (bool_decide (c :: fst (span is_word l) ∈ ops)).
    + pose proof (span_app is_word l) as El. pose proof (span_fst_all is_word l) as Hw.
      pose proof (span_after_word l) as Hr.
      set (w := fst (span is_word l)) in *. set (r := snd (span is_word l)) in *.
      replace (length (c :: w) - 1)%nat with (length w) by (cbn; lia).
      rewrite El at 1. rewrite replace_ops_skip by exact Hw.
      rewrite replace_ops_in_word, Hr. cbn [fst snd app]. by rewrite Ht.
    + rewrite replace_ops_in_word. by rewrite Ht.
  - rewrite span_cons_false by done. cbn [fst]. rewrite (bool_decide_false ([] ∈ ops)) by (apply (bool_decide_unpack _); vm_compute; reflexivity).
    rewrite flush_nil, IHn by lia. done.
Qed.

(** C19: the engine's scan for [/\b(gte|gt|lte|lt)\b/g] (the alternatives
    tried in order at each position, resuming after each match) puts a [$]
    before exactly the words that are comparison words: it meets the
    specification [word_replace] on every text. *)
Theorem replace_ops_words l : replace_ops false O l = word_replace [] l.
Proof. by apply (replace_ops_words_upto (length l)). Qed.

(** ** The edit on JSON text *)

Lemma word_replace_nonword cur c l :
  is_word c = false -> word_replace cur (c :: l) = flush cur ++ c :: word_replace [] l.
Proof. intros H. cbn. by rewrite H. Qed.

(** A word ends at a non-word character: the text on either side is
    edited on its own. *)
Lemma word_replace_app_nonword cur a c b :
  is_word c = false -> word_replace cur (a ++ c :: b) = word_replace cur a ++ c :: word_replace [] b.
Proof.
  intros Hc. revert cur. induction a as [|x a IH]; intros cur; cbn [app].
  - by rewrite word_replace_nonword.
  - cbn [word_replace]. destruct (is_word x); [apply IH|]. rewrite IH. by rewrite <- app_assoc.
Qed.

Lemma word_replace_nonword_nil c l :
  is_word c = false -> word_replace [] (c :: l) = c :: word_replace [] l.
Proof. intros H. by rewrite word_replace_nonword. Qed.

Lemma escape_char_plain c :
  is_ctrl c = false -> c <> dq -> c <> bs -> escape_char c = [c].
Proof.
  destruct c as [b0 b1 b2 b3 b4 b5 b6 b7].
  destruct b0, b1, b2, b3, b4, b5, b6, b7; intros H1 H2 H3;
    first [reflexivity | discriminate H1 | by destruct H2 | by destruct H3].
Qed.

Lemma is_word_plain c : is_word c = true -> is_ctrl c = false /\ c <> dq /\ c <> bs.
Proof.
  destruct c as [b0 b1 b2 b3 b4 b5 b6 b7].
  destruct b0, b1, b2, b3, b4, b5, b6, b7; intros H;
    first [discriminate H | split; [reflexivity | split; discriminate]].
Qed.

Lemma esc_app a b : esc (a ++ b) = esc a ++ esc b.
Proof. apply flat_map_app. Qed.

(** Word characters are written as themselves. *)
Lemma esc_words w : Forall (fun c => is_word c = true) w -> esc w = w.
Proof.
  induction 1 as [|x l Hx _ IH]; [done|]. cbn [esc flat_map]. destruct (is_word_plain x Hx) as (? & ? & ?).
  rewrite escape_char_plain by done. cbn. unfold esc in IH. by rewrite IH.
Qed.

Lemma esc_flush cur : Forall (fun c => is_word c = true) cur -> esc (flush cur) = flush cur.
Proof.
  intros Hw. pose proof (esc_words cur Hw) as Hid.
  unfold flush. destruct (bool_decide _); [|done]. cbn [esc flat_map]. unfold esc in Hid. by rewrite Hid.
Qed.

(** Escaping a string without control characters only puts a backslash,
    a non-word character, before a quote or a backslash: the words are
    those of the string. *)
Lemma word_replace_esc cur s :
  Forall (fun c => is_word c = true) cur -> Forall (fun c => is_ctrl c = false) s ->
  word_replace cur (esc s) = esc (word_replace cur s).
Proof.
  revert cur. induction s as [|x s IH]; intros cur Hcur Hs.
  { change (esc []) with (@nil ascii). cbn [word_replace]. by rewrite esc_flush. }
  apply Forall_cons in Hs as [Hx Hs].
  change (esc (x :: s)) with (escape_char x ++ esc s).
  destruct (is_word x) eqn:Ew.
  - destruct (is_word_plain x Ew) as (_ & ? & ?). rewrite escape_char_plain by done. cbn [app word_replace].
    rewrite Ew, IH; [done| |done]. apply Forall_app. split; [done|by constructor].
  - rewrite (word_replace_nonword cur x s Ew), esc_app, esc_flush by done.
    change (esc (x :: word_replace [] s)) with (escape_char x ++ esc (word_replace [] s)).
    rewrite <- IH by done.
    destruct (decide (x = dq)) as [->|Hdq]; [|destruct (decide (x = bs)) as [->|Hbs]].
    + change (escape_char dq) with [bs; dq]. cbn [app].
      rewrite word_replace_nonword by reflexivity. by rewrite word_replace_nonword_nil by reflexivity.
    + change (escape_char bs) with [bs; bs]. cbn [app].
      rewrite word_replace_nonword by reflexivity. by rewrite word_replace_nonword_nil by reflexivity.
    + rewrite escape_char_plain by done. cbn [app]. by rewrite word_replace_nonword.
Qed.

Lemma str_no_ctrl_Forall s : str_no_ctrl s = true -> Forall (fun c => is_ctrl c = false) (chars s).
Proof.
  unfold str_no_ctrl. rewrite forallb_forall, Forall_forall. intros H c Hc.
  apply negb_true_iff, H. by apply list_elem_of_In.
Qed.

(** The edit of a quoted key or string stays between its quotes. *)
Lemma word_replace_quote s l :
  word_replace [] (quote s ++ l) = quote_with edited_body s ++ word_replace [] l.
Proof.
  unfold quote, quote_with, edited_body. cbn [app].
  rewrite word_replace_nonword_nil by reflexivity. rewrite <- !app_assoc. cbn [app].
  by rewrite word_replace_app_nonword by reflexivity.
Qed.

(** Without control characters the text between the quotes is the
    escaped edit of the string. *)
Lemma edited_body_no_ctrl s : str_no_ctrl s = true -> edited_body s = esc (chars (replace_word_ops s)).
Proof.
  intros Hs. unfold edited_body, replace_word_ops. rewrite chars_of_chars.
  apply word_replace_esc; [constructor | by apply str_no_ctrl_Forall].
Qed.

Lemma word_replace_join {A} (f g : A -> list ascii) xs l :
  (forall x, In x xs -> forall t, word_replace [] (f x ++ t) = g x ++ word_replace [] t) ->
  word_replace [] (join_chars "," (map f xs) ++ l) = join_chars "," (map g xs) ++ word_replace [] l.
Proof.
  revert l. induction xs as [|x xs IH]; intros l H; [done|].
  destruct xs as [|y xs]; cbn [map join_chars]; [apply H; by left|].
  rewrite <- app_assoc. cbn [app]. rewrite H by (by left).
  rewrite word_replace_nonword_nil by reflexivity.
  change (f y :: map f xs) with (map f (y :: xs)). rewrite IH by (intros; apply H; by right).
  by rewrite <- app_assoc.
Qed.

(** The edit of a serialised value edits the text between the quotes of
    every key and string, and nothing else. *)
Lemma word_replace_stringify v l :
  word_replace [] (stringify v ++ l) = stringify_with edited_body v ++ word_replace [] l.
Proof.
  revert l. induction v as [s|vs IH|fs IH] using qval_ind'; intros l.
  - apply word_replace_quote.
  - cbn [stringify stringify_with app]. rewrite word_replace_nonword_nil by reflexivity. f_equal.
    rewrite <- app_assoc. cbn [app].
    rewrite (word_replace_join stringify (stringify_with edited_body)).
    + rewrite word_replace_nonword_nil by reflexivity. by rewrite <- app_assoc.
    + rewrite Forall_forall in IH. intros x Hx t. apply IH. by apply list_elem_of_In.
  - cbn [stringify stringify_with app]. rewrite word_replace_nonword_nil by reflexivity. f_equal.
    rewrite <- app_assoc. cbn [app].
    rewrite (word_replace_join (fun '(k, x) => quote k ++ ":"%char :: stringify x) (member_text edited_body)).
    + rewrite word_replace_nonword_nil by reflexivity. by rewrite <- app_assoc.
    + rewrite Forall_forall in IH. intros [k x] Hin t.
      cbn [member_text]. rewrite <- app_assoc, word_replace_quote.
      rewrite <- app_assoc. f_equal. cbn [app].
      rewrite word_replace_nonword_nil by reflexivity. f_equal.
      apply (IH (k, x)). by apply list_elem_of_In.
Qed.

(** Without control characters, the text between the quotes is that of
    the edited keys and strings. *)
Lemma stringify_with_no_ctrl v :
  no_ctrl v = true -> stringify_with edited_body v = stringify (map_strings replace_word_ops v).
Proof.
  intros Hv. rewrite stringify_map_strings. apply (stringify_with_ext str_no_ctrl); [|done].
  apply edited_body_no_ctrl.
Qed.

(** ** The edit only puts dollars before [g] and [l] *)

Lemma dollar_ins_refl l : dollar_ins l l.
Proof. induction l; by constructor. Qed.

Lemma dollar_ins_app a a' b b' : dollar_ins a a' -> dollar_ins b b' -> dollar_ins (a ++ b) (a' ++ b').
Proof. induction 1; intros Hb; cbn; [done | constructor; auto | constructor; auto]. Qed.

Lemma dollar_ins_flush w : dollar_ins w (flush w).
Proof.
  unfold flush. case_bool_decide as H; [|apply dollar_ins_refl].
  apply list_elem_of_In in H. cbn in H.
  destruct H as [<-|[<-|[<-|[<-|[]]]]]; cbn; repeat constructor.
Qed.

Lemma word_replace_dollar_ins l : forall cur, dollar_ins (cur ++ l) (word_replace cur l).
Proof.
  induction l as [|c l IH]; intros cur; cbn [word_replace].
  - rewrite app_nil_r. apply dollar_ins_flush.
  - destruct (is_word c).
    + replace (cur ++ c :: l) with ((cur ++ [c]) ++ l) by (by rewrite <- app_assoc). apply IH.
    + apply dollar_ins_app; [apply dollar_ins_flush | constructor; apply (IH [])].
Qed.

Lemma dollar_ins_cons_inv c l t :
  dollar_ins (c :: l) t -> exists t', dollar_ins l t' /\ (t = c :: t' \/ op_initial c = true /\ t = "$"%char :: c :: t').
Proof. inversion 1; subst; eauto. Qed.

(** Text without [g] or [l] gets no dollar. *)
Lemma dollar_ins_app_plain u l t :
  forallb (fun c => negb (op_initial c)) u = true -> dollar_ins (u ++ l) t -> exists t', t = u ++ t' /\ dollar_ins l t'.
Proof.
  revert t. induction u as [|c u IH]; intros t Hu H; [by exists t|].
  cbn in Hu. apply andb_true_iff in Hu as [Hc Hu]. cbn [app] in H.
  apply dollar_ins_cons_inv in H as (t1 & H1 & [->|[Hg _]]).
  - destruct (IH _ Hu H1) as (t2 & -> & H2). by exists t2.
  - by rewrite Hg in Hc.
Qed.

(** A code unit is written as itself, or as an escape whose letters and
    digits are neither [g] nor [l]. *)
Lemma escape_char_cases c :
  escape_char c = [c] \/ forallb (fun d => negb (op_initial d)) (escape_char c) = true.
Proof.
  destruct c as [b0 b1 b2 b3 b4 b5 b6 b7].
  destruct b0, b1, b2, b3, b4, b5, b6, b7; (left; reflexivity) || (right; reflexivity).
Qed.

Lemma parse_chars_plain c l :
  escape_char c = [c] -> parse_chars (c :: l) = match parse_chars l with Some (s, r) => Some (c :: s, r) | None => None end.
Proof. intros E. by rewrite <- (parse_chars_escape_char c l), E. Qed.

(** The parser reads an escaped string with dollars put into it, up to the
    closing quote. *)
(** The parser reads an escaped string with dollars put into it, up to the
    closing quote: it reads the string with the same dollars. *)
Lemma parse_chars_dollar_ins s : forall t,
  dollar_ins (esc s) t -> exists r, dollar_ins s r /\ forall rest, parse_chars (t ++ dq :: rest) = Some (r, rest).
Proof.
  induction s as [|c s IH]; intros t H.
  - cbn in H. inversion H; subst. exists []. split; [constructor | done].
  - change (esc (c :: s)) with (escape_char c ++ esc s) in H.
    destruct (escape_char_cases c) as [Ec|Ec].
    + rewrite Ec in H. cbn [app] in H. apply dollar_ins_cons_inv in H as (t1 & H1 & Ht).
      destruct (IH t1 H1) as (r & Hd & Hr).
      destruct Ht as [->|[Hg ->]]; [exists (c :: r) | exists ("$"%char :: c :: r)];
        (split; [by constructor|intros rest; cbn [app]]).
      * by rewrite (parse_chars_plain c), Hr.
      * rewrite (parse_chars_plain "$") by reflexivity. by rewrite (parse_chars_plain c), Hr.
    + destruct (dollar_ins_app_plain _ _ _ Ec H) as (t1 & -> & H1).
      destruct (IH t1 H1) as (r & Hd & Hr). exists (c :: r). split; [by constructor|intros rest].
      by rewrite <- app_assoc, parse_chars_escape_char, Hr.
Qed.

(** Whatever the key or string, [JSON.parse] reads its edited text. *)
Lemma edited_body_parses s rest :
  parse_chars (edited_body s ++ dq :: rest) = Some (chars (edited_string s), rest).
Proof.
  destruct (parse_chars_dollar_ins (chars s) (edited_body s)) as (r & _ & Hr).
  { apply (word_replace_dollar_ins (esc (chars s)) []). }
  unfold edited_string. rewrite !Hr. by rewrite chars_of_chars.
Qed.

(** The text [filter()] parses: the serialised object with the edited
    text between the quotes of each key and string. *)
Lemma filter_text qs :
  replace_ops false O (stringify (QObj qs)) = stringify_with edited_body (QObj qs).
Proof.
  rewrite replace_ops_words, <- (app_nil_r (stringify (QObj qs))), word_replace_stringify.
  cbn [word_replace]. by rewrite flush_nil, app_nil_r.
Qed.

(** *** Operators in the edited keys *)

(** Text that starts with a non-word character, or is empty. *)
Definition starts_nonword (l : list ascii) : bool :=
  match l with [] => true | c :: _ => negb (is_word c) end.

Lemma word_replace_words cur w t :
  Forall (fun c => is_word c = true) w -> word_replace cur (w ++ t) = word_replace (cur ++ w) t.
Proof.
  intros Hw. revert cur. induction Hw as [|x w Hx _ IH]; intros cur; [by rewrite app_nil_r|].
  cbn [app word_replace]. rewrite Hx, IH. by rewrite <- app_assoc.
Qed.

Lemma word_replace_boundary cur t :
  starts_nonword t = true -> word_replace cur t = flush cur ++ word_replace [] t.
Proof.
  destruct t as [|c t]; cbn [starts_nonword word_replace].
  - by rewrite flush_nil, app_nil_r.
  - intros Hc. apply negb_true_iff in Hc. rewrite Hc. by rewrite flush_nil.
Qed.

(** A non-word code unit is written starting with a non-word character:
    itself or a backslash. *)
Lemma escape_char_nonword c :
  is_word c = false -> exists e t, escape_char c = e :: t /\ is_word e = false.
Proof.
  destruct c as [b0 b1 b2 b3 b4 b5 b6 b7].
  destruct b0, b1, b2, b3, b4, b5, b6, b7; intros H;
    first [discriminate H | do 2 eexists; split; reflexivity].
Qed.

Lemma esc_starts_nonword m : starts_nonword m = true -> starts_nonword (esc m) = true.
Proof.
  destruct m as [|d m]; [done|]. cbn [starts_nonword]. intros Hd. apply negb_true_iff in Hd.
  change (esc (d :: m)) with (escape_char d ++ esc m).
  destruct (escape_char_nonword d Hd) as (e & t & -> & He). cbn. by rewrite He.
Qed.

Lemma op_initial_word c : op_initial c = true -> is_word c = true.
Proof. unfold op_initial. by intros [->%Ascii.eqb_eq | ->%Ascii.eqb_eq]%orb_true_iff. Qed.

(** Dollars go before a [g] or an [l] only: a text that starts with a
    non-word character still does. *)
Lemma dollar_ins_starts_nonword m r : dollar_ins m r -> starts_nonword m = true -> starts_nonword r = true.
Proof.
  destruct 1 as [|c l t _|c l t Hc _]; [done..|]. cbn. by rewrite (op_initial_word c Hc).
Qed.

Lemma parse_chars_words w l :
  Forall (fun c => is_word c = true) w ->
  parse_chars (w ++ l) = match parse_chars l with Some (s, r) => Some (w ++ s, r) | None => None end.
Proof.
  induction 1 as [|x w Hx _ IH]; [cbn [app]; by destruct (parse_chars l) as [[]|]|].
  destruct (is_word_plain x Hx) as (? & ? & ?). cbn [app].
  rewrite parse_chars_plain, IH by (by apply escape_char_plain). by destruct (parse_chars l) as [[]|].
Qed.

Lemma span_words_boundary w r :
  Forall (fun c => is_word c = true) w -> starts_nonword r = true -> fst (span is_word (w ++ r)) = w.
Proof.
  induction 1 as [|x w Hx _ IH]; intros Hr.
  - destruct r as [|d r]; [done|]. cbn in Hr. apply negb_true_iff in Hr. cbn [app]. by rewrite span_cons_false.
  - cbn [app]. rewrite span_cons_true by done. cbn [fst]. by rewrite IH.
Qed.

(** The key [JSON.parse] reads after the edit: the first word of the key
    with its [$] when it is a comparison word, then the rest of the key
    with dollars put before some of its [g] and [l]. *)
Lemma edited_string_chars s :
  exists r, dollar_ins (snd (span is_word (chars s))) r /\
    chars (edited_string s) = flush (fst (span is_word (chars s))) ++ r.
Proof.
  set (w := fst (span is_word (chars s))). set (m := snd (span is_word (chars s))).
  assert (Hw : Forall (fun c => is_word c = true) w) by apply span_fst_all.
  assert (Hm : starts_nonword m = true).
  { pose proof (span_snd_head is_word (chars s)) as H. subst m. destruct (snd _); [done|]. cbn. by rewrite H. }
  assert (Hb : edited_body s = flush w ++ word_replace [] (esc m)).
  { unfold edited_body. rewrite (span_app is_word (chars s)). fold w m.
    rewrite esc_app, esc_words, word_replace_words by done. cbn [app].
    by apply word_replace_boundary, esc_starts_nonword. }
  destruct (parse_chars_dollar_ins m (word_replace [] (esc m))) as (r & Hd & Hr).
  { apply (word_replace_dollar_ins (esc m) []). }
  exists r. split; [done|]. unfold edited_string. rewrite Hb, <- app_assoc.
  unfold flush. case_bool_decide.
  - cbn [app]. rewrite (parse_chars_plain "$"), parse_chars_words, Hr by (done || reflexivity).
    by rewrite chars_of_chars.
  - rewrite parse_chars_words, Hr by done. by rewrite chars_of_chars.
Qed.

(** A key that does not start with [$] comes out of [filter()] naming no
    operator but the four comparison operators. *)
Lemma edited_string_operator s :
  match chars s with c :: _ => Ascii.eqb c "$" = false | [] => True end ->
  operator_whitelisted (edited_string s) = true.
Proof.
  intros Hs. destruct (edited_string_chars s) as (r & Hd & Hc).
  assert (Hm : starts_nonword (snd (span is_word (chars s))) = true).
  { pose proof (span_snd_head is_word (chars s)) as H. destruct (snd _); [done|]. cbn. by rewrite H. }
  pose proof (span_fst_all is_word (chars s)) as Hw.
  unfold operator_whitelisted. rewrite Hc. unfold flush. case_bool_decide as Hop.
  - cbn [app Ascii.eqb Bool.eqb]. apply bool_decide_eq_true.
    rewrite span_words_boundary; [done..|]. exact (dollar_ins_starts_nonword _ _ Hd Hm).
  - destruct (fst (span is_word (chars s))) as [|c w] eqn:Ew; cbn [app].
    + pose proof (span_app is_word (chars s)) as Hl. rewrite Ew in Hl. cbn [app] in Hl.
      rewrite <- Hl in Hd. destruct (chars s) as [|c cs]; [by inversion Hd|].
      apply dollar_ins_cons_inv in Hd as (t & _ & [->|[Hg ->]]).
      * cbn. by rewrite Hs.
      * rewrite span_cons_true in Ew by (by apply op_initial_word). discriminate Ew.
    + apply Forall_cons in Hw as [Hcw _].
      destruct (Ascii.eqb c "$") eqn:E; [|done]. apply Ascii.eqb_eq in E as ->. discriminate Hcw.
Qed.

(** ** Theorems *)

(** [filter()] never throws: whatever the query string, the text it
    hands to [JSON.parse] is well formed, and the conditions it adds to the
    query are the query-string object without its control keys, each key
    and string replaced by what [JSON.parse] reads from its escaped text
    after the edit, repeated keys merged. *)
Theorem filter_total af :
  filter af = Ok (with_query (query_find (normalize (map_strings edited_string
                                (QObj (strip_controls (queryString af))))) (query af)) af).
Proof.
  unfold filter. cbv zeta. rewrite filter_text.
  by rewrite (json_parse_stringify_with edited_body edited_string edited_body_parses).
Qed.

(** C20: When no key or string of the query-string object holds a control
    character, [filter()] never throws, and the conditions it adds to the
    query are the query-string object without its control keys, with a
    [$] before every comparison word of every key and string (the words
    [gte], [gt], [lte], [lt] standing alone), repeated keys merged as
    [JSON.parse] merges them. *)
Theorem filter_rewrites_words af :
  no_ctrl (QObj (strip_controls (queryString af))) = true ->
  filter af = Ok (with_query (query_find (normalize (map_strings replace_word_ops
                                          (QObj (strip_controls (queryString af))))) (query af)) af).
Proof.
  intros Hc. unfold filter. cbv zeta. rewrite filter_text, stringify_with_no_ctrl by done.
  by rewrite json_parse_stringify.
Qed.

Lemma filter_rewrites_words_witness :
  filter (qs_features [("duration", QObj [("gte", QStr "5")]); ("page", QStr "2")])
  = Ok (with_query (query_find (normalize (map_strings replace_word_ops
                                  (QObj (strip_controls [("duration", QObj [("gte", QStr "5")]); ("page", QStr "2")]))))
                     empty_query)
                   (qs_features [("duration", QObj [("gte", QStr "5")]); ("page", QStr "2")])).
Proof. apply filter_rewrites_words. reflexivity. Defined.

(** A line feed followed by [gt]. *)
Definition lf_gt : string := String (ascii_of_nat 10) "gt".

(** With a control character the edit depends on its JSON escape: a
    line feed is written [\n], whose [n] glues to the following [gt], so
    [filter()] leaves the value [lf_gt] as it is although [gt] stands alone
    in it; [filter_rewrites_words] needs its hypothesis. *)
Theorem filter_control_char_escape :
  filter (qs_features [("name", QStr lf_gt)])
  = Ok (with_query (query_find (QObj [("name", QStr lf_gt)]) empty_query) (qs_features [("name", QStr lf_gt)]))
  /\ replace_word_ops lf_gt = String (ascii_of_nat 10) "$gt".
Proof. split; vm_compute; reflexivity. Qed.
