(* ===== verification/Middleware.v ===== *)
(** * The query-string middleware of [src/app.js] and the controllers' chain

    Before a controller sees [req.query], three middlewares that [app.js]
    mounts in this order rewrite it: [mongoSanitize()] (line 103) removes
    every key that starts with [$] or holds a dot, at any depth; [xss()]
    (line 107) replaces every [<] of every key and string by [&lt;], by
    serialising the object, editing the text and parsing it back; [hpp]
    (lines 110-115) keeps the last of the values of a repeated parameter,
    unless the parameter is on its whitelist.  The controllers then build
    the query with [filter], [sort], [limitFields] and [paginate] in this
    order (the [getAll] handler of [handlerFactory.js], not under [src/]:
    modelled from the spec).

    The theorems show what each middleware guarantees, that none of them
    throws, which requests make the whole chain throw, and that no
    operator outside the spec's whitelist ([$gte], [$gt], [$lte], [$lt])
    reaches the conditions of the query, whatever the query string. *)

From S2P Require Import Prelude JsValues ApiFeatures Json QueryFilter.
From Stdlib Require Import Ascii.

(** ** [mongoSanitize()] *)

(** [/^\$|\./]: the keys [express-mongo-sanitize] removes. *)
Definition unsafe_key (k : string) : bool :=
  match chars k with c :: _ => Ascii.eqb c "$" | [] => false end
  || existsb (fun c => Ascii.eqb c ".") (chars k).

(** The members of an object without its unsafe keys, the others
    sanitised by [f]: [delete obj[key]] for an unsafe key, a recursive call
    for the others. *)
Fixpoint drop_unsafe (f : qval -> qval) (fs : list (string * qval)) : list (string * qval) :=
  match fs with
  | [] => []
  | (k, x) :: fs' => if unsafe_key k then drop_unsafe f fs' else (k, f x) :: drop_unsafe f fs'
  end.

(** [_sanitize(target)]: the walk [withEach] through arrays and objects. *)
Fixpoint sanitize (v : qval) : qval :=
  match v with
  | QStr s => QStr s
  | QArr vs => QArr (map sanitize vs)
  | QObj fs => QObj (drop_unsafe sanitize fs)
  end.

(** ** [xss()] *)

(** [inHTMLData] of [xss-filters]: every [<] becomes [&lt;]. *)
Definition lt_entity (c : ascii) : list ascii := if Ascii.eqb c "<" then chars "&lt;" else [c].

Definition inHTMLData (l : list ascii) : list ascii := flat_map lt_entity l.

(** [clean(data)] of [xss-clean] on an object:
    [JSON.parse(inHTMLData(JSON.stringify(data)).trim())]. *)
Definition xss_clean (v : qval) : result qval := json_parse (trim (inHTMLData (stringify v))).

(** The edit on one key or string. *)
Definition escape_lt (s : string) : string := of_chars (inHTMLData (chars s)).

(** ** [hpp({ whitelist })] *)

Definition hpp_whitelist : list string :=
  ["duration"; "ratingsQuantity"; "ratingsAverage"; "maxGroupSize"; "difficulty"; "price"].

(** A top-level parameter whose value is an array keeps its last element,
    unless it is whitelisted.  The last element of an empty array is
    [undefined], which every later reader treats as a missing parameter
    ([JSON.stringify] omits it, a property read finds it falsy): the
    parameter is dropped. *)
Fixpoint hpp_fields (whitelist : list string) (fs : list (string * qval)) : list (string * qval) :=
  match fs with
  | [] => []
  | (k, QArr vs) :: fs' =>
      if bool_decide (k ∈ whitelist) then (k, QArr vs) :: hpp_fields whitelist fs'
      else match rev vs with
           | v :: _ => (k, v) :: hpp_fields whitelist fs'
           | [] => hpp_fields whitelist fs'
           end
  | kx :: fs' => kx :: hpp_fields whitelist fs'
  end.

(** ** The request *)

(** [req.query] after the three middlewares.  [JSON.parse] of an object's
    text gives an object; the other branch is never taken. *)
Definition app_query (q : list (string * qval)) : result (list (string * qval)) :=
  v ← xss_clean (sanitize (QObj q));
  match v with
  | QObj fs => mret (hpp_fields hpp_whitelist fs)
  | _ => mret []
  end.

(** [new APIFeatures(Model.find(filter), req.query).filter().sort()
    .limitFields().paginate()] in [getAll]. *)
Definition getAll_features (base : Query) (qs : list (string * qval)) : result APIFeatures :=
  af ← filter (mk_features base qs);
  af ← sort af;
  af ← limitFields af;
  mret (paginate af).

Definition getAll_request (base : Query) (raw : list (string * qval)) : result APIFeatures :=
  qs ← app_query raw; getAll_features base qs.

(** ** What the middlewares promise *)

(** Every key of the value, at any depth, satisfies [p]. *)
Fixpoint all_keys (p : string -> bool) (v : qval) : bool :=
  match v with
  | QStr _ => true
  | QArr vs => forallb (all_keys p) vs
  | QObj fs => forallb (fun kx => p (fst kx) && all_keys p (snd kx)) fs
  end.

(** No key of the value, at any depth, is unsafe. *)
Definition keys_safe (v : qval) : bool := all_keys (fun k => negb (unsafe_key k)) v.

(** The key does not start with [$]. *)
Definition no_dollar_head (k : string) : bool :=
  match chars k with c :: _ => negb (Ascii.eqb c "$") | [] => true end.

(** What [hpp] leaves of one parameter. *)
Definition hpp_param (whitelist : list string) (k : string) (v : option qval) : option qval :=
  match v with
  | Some (QArr vs) =>
      if bool_decide (k ∈ whitelist) then v
      else match rev vs with w :: _ => Some w | [] => None end
  | _ => v
  end.

(** The two exceptions of the chain: a [sort] or [fields] parameter that
    is truthy and not a string has no [split] method. *)
Definition sort_split_error : js_error := TypeError "this.queryString.sort.split is not a function".
Definition fields_split_error : js_error := TypeError "this.queryString.fields.split is not a function".

(** ** Lemmas *)

(** *** [xss()] edits every key and string *)

(** An edit of the code units that keeps the JSON punctuation edits the
    text between the quotes of every key and string, and nothing else. *)
Section Edit.
Context (g : ascii -> list ascii).
Hypothesis g_punct : forall c, c ∈ [dq; "["; "]"; "{"; "}"; ","; ":"]%char -> g c = [c].

Lemma flat_map_join {A} (f h : A -> list ascii) xs :
  (forall x, In x xs -> flat_map g (f x) = h x) ->
  flat_map g (join_chars "," (map f xs)) = join_chars "," (map h xs).
Proof.
  induction xs as [|x xs IH]; intros H; [done|].
  destruct xs as [|y xs]; [cbn [map join_chars]; apply H; by left|].
  cbn [map]. rewrite !join_chars_cons2, flat_map_app. cbn [flat_map]. rewrite g_punct by set_solver.
  rewrite H by (by left). change (f y :: map f xs) with (map f (y :: xs)).
  rewrite IH by (intros; apply H; by right). done.
Qed.

Lemma flat_map_stringify v :
  flat_map g (stringify v) = stringify_with (fun s => flat_map g (esc (chars s))) v.
Proof.
  induction v as [s|vs IH|fs IH] using qval_ind'; cbn [stringify stringify_with]; unfold quote, quote_with.
  - cbn [flat_map]. rewrite flat_map_app. cbn [flat_map]. by rewrite !g_punct by set_solver.
  - cbn [flat_map]. rewrite flat_map_app. cbn [flat_map]. rewrite !g_punct by set_solver.
    f_equal. f_equal. apply flat_map_join. rewrite Forall_forall in IH. intros x Hx.
    apply IH. by apply list_elem_of_In.
  - cbn [flat_map]. rewrite flat_map_app. cbn [flat_map]. rewrite !g_punct by set_solver.
    f_equal. f_equal. apply flat_map_join.
    rewrite Forall_forall in IH. intros [k x] Hin. cbn [fst snd].
    rewrite !flat_map_app. cbn [flat_map]. rewrite !g_punct by set_solver.
    assert (Hkx : In (k, x) fs) by done. apply list_elem_of_In, IH in Hkx. cbn [snd] in Hkx.
    rewrite Hkx, flat_map_app. cbn [flat_map]. rewrite g_punct by set_solver. rewrite <- !app_assoc. cbn [app]. by rewrite <- !app_assoc.
Qed.

End Edit.

Lemma lt_entity_punct c : c ∈ [dq; "["; "]"; "{"; "}"; ","; ":"]%char -> lt_entity c = [c].
Proof. intros Hc. set_unfold in Hc. destruct_or! Hc; by subst. Qed.

(** The edit commutes with the escapes: [<] is written as itself, and
    [&lt;] holds no character JSON escapes. *)
Lemma lt_entity_escape c : flat_map lt_entity (escape_char c) = esc (lt_entity c).
Proof.
  destruct c as [b0 b1 b2 b3 b4 b5 b6 b7].
  destruct b0, b1, b2, b3, b4, b5, b6, b7; reflexivity.
Qed.

Lemma inHTMLData_esc l : inHTMLData (esc l) = esc (inHTMLData l).
Proof.
  induction l as [|c l IH]; [done|]. unfold inHTMLData in *.
  change (esc (c :: l)) with (escape_char c ++ esc l). cbn [flat_map].
  by rewrite flat_map_app, lt_entity_escape, IH, esc_app.
Qed.

Lemma inHTMLData_stringify v : inHTMLData (stringify v) = stringify (map_strings escape_lt v).
Proof.
  unfold inHTMLData. rewrite flat_map_stringify by apply lt_entity_punct.
  rewrite stringify_map_strings. apply (stringify_with_ext (fun _ => true)); [|apply all_strings_true].
  intros s _. unfold escape_lt. rewrite chars_of_chars. apply inHTMLData_esc.
Qed.

(** [trim()] leaves a text that starts and ends with other than white space. *)
Lemma trim_enclosed c m d : is_space c = false -> is_space d = false -> trim (c :: m ++ [d]) = c :: m ++ [d].
Proof.
  intros Hc Hd. unfold trim. cbn [span]. rewrite Hc. cbn [snd].
  rewrite app_comm_cons, rev_app_distr. cbn [rev app span]. rewrite Hd. cbn [snd].
  cbn [rev]. by rewrite rev_app_distr, rev_involutive.
Qed.

Lemma stringify_enclosed v : exists c m d, stringify v = c :: m ++ [d] /\ is_space c = false /\ is_space d = false.
Proof.
  destruct v; cbn [stringify]; [unfold quote|..]; do 3 eexists;
    (split; [rewrite ?app_assoc; reflexivity | split; reflexivity]).
Qed.

(** *** [mongoSanitize()] *)

Lemma drop_unsafe_safe fs :
  Forall (fun kv => keys_safe (sanitize (snd kv)) = true) fs ->
  forallb (fun kx => negb (unsafe_key (fst kx)) && keys_safe (snd kx)) (drop_unsafe sanitize fs) = true.
Proof.
  induction 1 as [|[k x] fs Hx _ IH]; [done|]. cbn [drop_unsafe snd] in Hx |- *.
  destruct (unsafe_key k) eqn:Ek; [done|]. cbn [forallb fst snd]. by rewrite Ek, Hx, IH.
Qed.

Lemma drop_unsafe_id fs :
  Forall (fun kv => keys_safe (snd kv) = true -> sanitize (snd kv) = snd kv) fs ->
  forallb (fun kx => negb (unsafe_key (fst kx)) && keys_safe (snd kx)) fs = true ->
  drop_unsafe sanitize fs = fs.
Proof.
  induction 1 as [|[k x] fs Hx _ IH]; [done|]. cbn [forallb drop_unsafe fst snd] in Hx |- *.
  intros [[Hk Hs]%andb_true_iff Hfs]%andb_true_iff. apply negb_true_iff in Hk.
  rewrite Hk. by rewrite Hx, IH.
Qed.

(** *** [hpp] *)

Lemma obj_get_notin k fs : k ∉ map fst fs -> obj_get k fs = None.
Proof.
  induction fs as [|[k' v] fs IH]; intros Hk; [done|]. cbn [obj_get].
  destruct (String.eqb k' k) eqn:E.
  - apply String.eqb_eq in E as ->. set_solver.
  - apply IH. set_solver.
Qed.

Lemma hpp_fields_None wl k fs : obj_get k fs = None -> obj_get k (hpp_fields wl fs) = None.
Proof.
  induction fs as [|[k' v] fs IH]; [done|]. cbn [obj_get].
  destruct (String.eqb k' k) eqn:E; [done|]. intros H.
  destruct v; cbn [hpp_fields]; repeat case_match; cbn [obj_get]; rewrite ?E; auto.
Qed.

(** *** The request *)

(** The text [xss()] parses: the serialisation of the edited value. *)
Lemma xss_text v : trim (inHTMLData (stringify v)) = stringify (map_strings escape_lt v).
Proof.
  rewrite inHTMLData_stringify.
  destruct (stringify_enclosed (map_strings escape_lt v)) as (c & m & d & E & Hc & Hd).
  by rewrite E, trim_enclosed.
Qed.

Lemma app_query_ok q : exists fs, app_query q = Ok fs.
Proof. unfold app_query, xss_clean. rewrite xss_text, json_parse_stringify. cbn. by eexists. Qed.

Lemma filter_ok af : exists af', filter af = Ok af'.
Proof.
  unfold filter. cbv zeta. rewrite filter_text.
  rewrite (json_parse_stringify_with edited_body edited_string edited_body_parses). by eexists.
Qed.

Lemma sort_err af e : sort af = Err e -> e = sort_split_error.
Proof. unfold sort, sort_split_error. cbv zeta. repeat case_match; congruence. Qed.

Lemma limitFields_err af e : limitFields af = Err e -> e = fields_split_error.
Proof. unfold limitFields, fields_split_error. cbv zeta. repeat case_match; congruence. Qed.

(** *** Operator keys through the chain *)

Lemma sanitize_keys_safe v : keys_safe (sanitize v) = true.
Proof.
  unfold keys_safe. induction v as [s|vs IH|fs IH] using qval_ind'; cbn [sanitize all_keys]; [done| |].
  - apply forallb_forall. intros x (y & <- & Hy)%in_map_iff.
    rewrite Forall_forall in IH. apply IH. by apply list_elem_of_In.
  - apply drop_unsafe_safe. eapply Forall_impl; [exact IH|]. done.
Qed.

Lemma all_keys_Forall p fs :
  all_keys p (QObj fs) = true <-> Forall (fun kx => p (fst kx) = true /\ all_keys p (snd kx) = true) fs.
Proof.
  cbn [all_keys]. rewrite forallb_forall, Forall_forall.
  setoid_rewrite <- list_elem_of_In. by setoid_rewrite andb_true_iff.
Qed.

Lemma all_keys_map_strings (p q : string -> bool) f (Hf : forall k, p k = true -> q (f k) = true) v :
  all_keys p v = true -> all_keys q (map_strings f v) = true.
Proof.
  induction v as [s|vs IH|fs IH] using qval_ind'; cbn [map_strings]; [done| |].
  - cbn [all_keys]. rewrite !forallb_forall. intros Hv x (y & <- & Hy)%in_map_iff.
    rewrite Forall_forall in IH. apply IH; [by apply list_elem_of_In|]. by apply Hv.
  - rewrite !all_keys_Forall, !Forall_forall. rewrite Forall_forall in IH. intros Hv y Hy%list_elem_of_In.
    apply in_map_iff in Hy as ([k x] & <- & Hin). apply list_elem_of_In in Hin.
    destruct (Hv _ Hin) as [Hk Hx]. cbn in *. split; [by apply Hf|]. by apply (IH (k, x)).
Qed.

Lemma obj_set_Forall {A} (P : string * A -> Prop) k v o :
  Forall P o -> P (k, v) -> Forall P (obj_set k v o).
Proof.
  induction 1 as [|[k' w] o Hw Ho IH]; intros Hkv; cbn; [by constructor|].
  destruct (String.eqb k' k) eqn:E; [apply String.eqb_eq in E as ->; by constructor | constructor; auto].
Qed.

Lemma build_object_Forall (P : string * qval -> Prop) fs : Forall P fs -> Forall P (build_object fs).
Proof.
  unfold build_object. intros Hfs. cut (Forall P (@nil (string * qval))); [|constructor].
  generalize (@nil (string * qval)) as acc.
  induction Hfs as [|[k x] fs Hx _ IH]; intros acc Hacc; [done|]. cbn. apply IH. by apply obj_set_Forall.
Qed.

(** [JSON.parse] merges repeated keys: it keeps keys and values. *)
Lemma all_keys_normalize p v : all_keys p v = true -> all_keys p (normalize v) = true.
Proof.
  induction v as [s|vs IH|fs IH] using qval_ind'; cbn [normalize]; [done| |].
  - cbn [all_keys]. rewrite !forallb_forall. intros Hv x (y & <- & Hy)%in_map_iff.
    rewrite Forall_forall in IH. apply IH; [by apply list_elem_of_In|]. by apply Hv.
  - rewrite !all_keys_Forall. intros Hv. apply build_object_Forall. rewrite Forall_forall in Hv, IH |- *.
    intros y Hy%list_elem_of_In. apply in_map_iff in Hy as ([k x] & <- & Hin). apply list_elem_of_In in Hin.
    destruct (Hv _ Hin) as [Hk Hx]. cbn in *. split; [done|]. by apply (IH (k, x)).
Qed.

Lemma hpp_fields_all_keys p wl fs : all_keys p (QObj fs) = true -> all_keys p (QObj (hpp_fields wl fs)) = true.
Proof.
  rewrite !all_keys_Forall. induction fs as [|[k v] fs IH]; intros Hfs; [done|].
  apply Forall_cons in Hfs as [[Hk Hv] Hfs]. cbn [fst snd] in Hk, Hv.
  destruct v as [s|vs|gs]; cbn [hpp_fields]; [constructor; [by split|by apply IH]| |constructor; [by split|by apply IH]].
  case_bool_decide; [constructor; [by split|by apply IH]|].
  destruct (rev vs) as [|w ws] eqn:Er; [by apply IH|]. constructor; [|by apply IH]. split; [done|]. cbn [snd].
  cbn [all_keys] in Hv. rewrite forallb_forall in Hv. apply Hv, in_rev. rewrite Er. by left.
Qed.

Lemma obj_delete_all_keys p k fs : all_keys p (QObj fs) = true -> all_keys p (QObj (obj_delete k fs)) = true.
Proof.
  rewrite !all_keys_Forall. induction fs as [|[k' v] fs IH]; intros Hfs; [done|].
  apply Forall_cons in Hfs as [Hkv Hfs]. cbn [obj_delete].
  destruct (String.eqb k' k); [by apply IH|constructor; [done|by apply IH]].
Qed.

Lemma strip_controls_all_keys p fs : all_keys p (QObj fs) = true -> all_keys p (QObj (strip_controls fs)) = true.
Proof. unfold strip_controls, excludedFields. cbn [fold_left]. intros H. by repeat apply obj_delete_all_keys. Qed.

Lemma unsafe_no_dollar k : negb (unsafe_key k) = true -> no_dollar_head k = true.
Proof.
  unfold unsafe_key, no_dollar_head. intros H. apply negb_true_iff, orb_false_iff in H as [H _].
  destruct (chars k); [done|]. by rewrite H.
Qed.

Lemma escape_lt_no_dollar k : no_dollar_head k = true -> no_dollar_head (escape_lt k) = true.
Proof.
  unfold no_dollar_head, escape_lt, inHTMLData. rewrite chars_of_chars.
  destruct (chars k) as [|c l]; [done|]. cbn [flat_map]. unfold lt_entity.
  by destruct (Ascii.eqb c "<").
Qed.

(** After the middlewares no key of [req.query], at any depth, starts with
    [$]. *)
Lemma app_query_no_dollar raw qs : app_query raw = Ok qs -> all_keys no_dollar_head (QObj qs) = true.
Proof.
  assert (H : all_keys no_dollar_head (normalize (map_strings escape_lt (sanitize (QObj raw)))) = true).
  { apply all_keys_normalize, (all_keys_map_strings (fun k => negb (unsafe_key k))); [|apply sanitize_keys_safe].
    intros k Hk. by apply escape_lt_no_dollar, unsafe_no_dollar. }
  unfold app_query, xss_clean. rewrite xss_text, json_parse_stringify. cbv [mbind result_mbind mret result_mret].
  cbn [sanitize map_strings normalize]. intros [= <-]. by apply hpp_fields_all_keys.
Qed.

Lemma filter_conditions af af' :
  filter af = Ok af' ->
  conditions (query af') = conditions (query af) ++ [normalize (map_strings edited_string (QObj (strip_controls (queryString af))))].
Proof.
  unfold filter. cbv zeta. rewrite filter_text, (json_parse_stringify_with edited_body edited_string edited_body_parses).
  by intros [= <-].
Qed.

Lemma sort_conditions af af' : sort af = Ok af' -> conditions (query af') = conditions (query af).
Proof. unfold sort. cbv zeta. by repeat case_match; intros [= <-]. Qed.

Lemma limitFields_conditions af af' : limitFields af = Ok af' -> conditions (query af') = conditions (query af).
Proof. unfold limitFields. cbv zeta. by repeat case_match; intros [= <-]. Qed.
(** ** Theorems *)

(** [mongoSanitize()] leaves no key that starts with [$] or holds a
    dot, at any depth of the query-string object, and changes nothing in
    a value that has none. *)
Theorem sanitize_spec v : keys_safe (sanitize v) = true /\ (keys_safe v = true -> sanitize v = v).
Proof.
  split; [apply sanitize_keys_safe|]. unfold keys_safe.
  induction v as [s|vs IH|fs IH] using qval_ind'; cbn [sanitize all_keys]; [done| |].
  - intros Hv. f_equal. rewrite <- (map_id vs) at 2. apply map_ext_Forall.
    rewrite forallb_forall in Hv. rewrite Forall_forall in IH |- *. intros x Hx.
    apply IH; [done|]. apply Hv. by apply list_elem_of_In.
  - intros Hv. f_equal. by apply drop_unsafe_id.
Qed.

(** [xss()] never throws on the query-string object: it gives the
    object with every [<] of every key and string replaced by [&lt;]
    (keys that become equal merged, as [JSON.parse] merges them). *)
Theorem xss_clean_escapes v : xss_clean v = Ok (normalize (map_strings escape_lt v)).
Proof. unfold xss_clean. rewrite xss_text. apply json_parse_stringify. Qed.

(** After [hpp], a parameter of an object with distinct keys reads
    as before, except that an array under a key off the whitelist reads
    as its last element (nothing for an empty array). *)
Theorem hpp_fields_get wl fs k :
  NoDup (map fst fs) -> obj_get k (hpp_fields wl fs) = hpp_param wl k (obj_get k fs).
Proof.
  induction fs as [|[k' v] fs IH]; intros Hnd; [done|].
  apply NoDup_cons in Hnd as [Hk' Hnd]. cbn [map fst] in Hk'. cbn [obj_get].
  destruct (String.eqb k' k) eqn:E.
  - apply String.eqb_eq in E as <-. unfold hpp_param.
    destruct v as [s|vs|gs]; cbn [hpp_fields obj_get]; rewrite ?String.eqb_refl; [done| |done].
    case_bool_decide; cbn [obj_get]; rewrite ?String.eqb_refl; [done|].
    destruct (rev vs); cbn [obj_get]; rewrite ?String.eqb_refl; [|done].
    by apply hpp_fields_None, obj_get_notin.
  - rewrite <- IH by done. destruct v as [s|vs|gs]; cbn [hpp_fields]; repeat case_match; cbn [obj_get]; by rewrite ?E.
Qed.

Lemma hpp_fields_get_witness :
  NoDup (map fst [("sort", QArr [QStr "price"; QStr "-price"]); ("price", QArr [QStr "1"; QStr "2"])]) /\
  obj_get "sort" (hpp_fields hpp_whitelist [("sort", QArr [QStr "price"; QStr "-price"]); ("price", QArr [QStr "1"; QStr "2"])])
  = Some (QStr "-price").
Proof.
  assert (Hnd : NoDup (map fst [("sort", QArr [QStr "price"; QStr "-price"]); ("price", QArr [QStr "1"; QStr "2"])]))
    by (apply (bool_decide_unpack _); vm_compute; reflexivity).
  split; [exact Hnd|]. rewrite (hpp_fields_get hpp_whitelist _ "sort" Hnd). reflexivity.
Defined.

(** C22: whatever the query string, the only exceptions of a request's
    query building are the [TypeError]s of [sort()] and [limitFields()] on
    a parameter that is not a string: the middlewares and [filter()] never
    throw, [paginate()] cannot.  The spec asks for malformed parameters to
    fall back to the defaults instead. *)
Theorem getAll_request_errors base raw e :
  getAll_request base raw = Err e -> e = sort_split_error \/ e = fields_split_error.
Proof.
  intros H. unfold getAll_request, getAll_features in H. cbv [mbind result_mbind mret result_mret] in H.
  destruct (app_query_ok raw) as [qs Eq]. rewrite Eq in H.
  destruct (filter_ok (mk_features base qs)) as [af Ef]. rewrite Ef in H.
  destruct (sort af) as [af'|e'] eqn:Es; [|injection H as <-; left; by eapply sort_err].
  destruct (limitFields af') as [af''|e'] eqn:El; [discriminate H|injection H as <-; right; by eapply limitFields_err].
Qed.

(** [?sort[a]=1]: a bracketed key gives an object. *)
Definition sort_object_query : list (string * qval) := [("sort", QObj [("a", QStr "1")])].

Lemma getAll_request_errors_witness :
  getAll_request empty_query sort_object_query = Err sort_split_error /\
  (sort_split_error = sort_split_error \/ sort_split_error = fields_split_error).
Proof.
  assert (H : getAll_request empty_query sort_object_query = Err sort_split_error) by (vm_compute; reflexivity).
  split; [exact H | exact (getAll_request_errors empty_query sort_object_query sort_split_error H)].
Defined.

(** The spec's request [?duration[gte]=5&difficulty=easy&page=2&sort=price],
    as Express's query parser gives it. *)
Definition spec_query : list (string * qval) :=
  [("duration", QObj [("gte", QStr "5")]); ("difficulty", QStr "easy"); ("page", QStr "2"); ("sort", QStr "price")].

(** The spec's request, through the three middlewares and the four
    stages: the conditions [{ duration: { $gte: '5' }, difficulty: 'easy' }]
    (the string ['5'] is left to Mongoose's cast), sorted by [price], the
    version key excluded, the second page of 100. *)
Theorem getAll_request_spec_example :
  getAll_request empty_query spec_query
  = Ok (mk_features (mk_query [QObj [("duration", QObj [("$gte", QStr "5")]); ("difficulty", QStr "easy")]]
                              [("price", 1%Z)] [("__v", 0%Z)] (Some (Fin 100)) (Some (Fin 100)))
                    spec_query).
Proof. vm_compute. reflexivity. Qed.

(** [?difficulty=lt&gte=4&$where=1&name.first=x&sort=price&sort=-price]. *)
Definition bypass_query : list (string * qval) :=
  [("difficulty", QStr "lt"); ("gte", QStr "4"); ("$where", QStr "1"); ("name.first", QStr "x");
   ("sort", QArr [QStr "price"; QStr "-price"])].

(** The sanitiser removes the operator key [$where] and the dotted
    key, and [hpp] keeps the last [sort]; but [filter()] runs after the
    sanitiser, so the plain key [gte] becomes the top-level operator
    [$gte] (which MongoDB refuses) and the value [lt] the string ['$lt']. *)
Theorem getAll_request_operator_bypass :
  getAll_request empty_query bypass_query
  = Ok (mk_features (mk_query [QObj [("difficulty", QStr "$lt"); ("$gte", QStr "4")]]
                              [("price", (-1)%Z)] [("__v", 0%Z)] (Some (Fin 0)) (Some (Fin 100)))
                    [("difficulty", QStr "lt"); ("gte", QStr "4"); ("sort", QStr "-price")]).
Proof. vm_compute. reflexivity. Qed.

(** C21: no operator but the four comparison operators: whatever the query
    string, every key of the conditions a request adds to the query, at
    any depth, that starts with [$] is [$gte], [$gt], [$lte] or [$lt]
    followed by a word boundary.  The sanitiser removes the caller's
    operator keys, [xss()] and [hpp] add none, and [filter()] only puts a
    [$] before a comparison word standing alone. *)
Theorem getAll_request_operators base raw af :
  getAll_request base raw = Ok af ->
  exists v, conditions (query af) = conditions base ++ [v] /\ all_keys operator_whitelisted v = true.
Proof.
  unfold getAll_request, getAll_features. cbv [mbind result_mbind mret result_mret].
  destruct (app_query raw) as [qs|e] eqn:Eq; [|discriminate].
  destruct (filter (mk_features base qs)) as [af1|e] eqn:Ef; [|discriminate].
  destruct (sort af1) as [af2|e] eqn:Es; [|discriminate].
  destruct (limitFields af2) as [af3|e] eqn:El; [|discriminate].
  intros [= <-]. exists (normalize (map_strings edited_string (QObj (strip_controls qs)))). split.
  - cbn [paginate with_query query query_limit query_skip conditions].
    rewrite (limitFields_conditions _ _ El), (sort_conditions _ _ Es), (filter_conditions _ _ Ef). done.
  - apply all_keys_normalize, (all_keys_map_strings no_dollar_head).
    + intros k Hk. apply edited_string_operator. unfold no_dollar_head in Hk.
      destruct (chars k); [done|]. by apply negb_true_iff.
    + by apply strip_controls_all_keys, (app_query_no_dollar raw).
Qed.

Lemma getAll_request_operators_witness :
  getAll_request empty_query bypass_query
  = Ok (mk_features (mk_query [QObj [("difficulty", QStr "$lt"); ("$gte", QStr "4")]]
                              [("price", (-1)%Z)] [("__v", 0%Z)] (Some (Fin 0)) (Some (Fin 100)))
                    [("difficulty", QStr "lt"); ("gte", QStr "4"); ("sort", QStr "-price")]) /\
  exists v, [QObj [("difficulty", QStr "$lt"); ("$gte", QStr "4")]] = [] ++ [v] /\ all_keys operator_whitelisted v = true.
Proof.
  assert (H : getAll_request empty_query bypass_query
              = Ok (mk_features (mk_query [QObj [("difficulty", QStr "$lt"); ("$gte", QStr "4")]]
                                          [("price", (-1)%Z)] [("__v", 0%Z)] (Some (Fin 0)) (Some (Fin 100)))
                                [("difficulty", QStr "lt"); ("gte", QStr "4"); ("sort", QStr "-price")]))
    by (vm_compute; reflexivity).
  split; [exact H | exact (getAll_request_operators empty_query bypass_query _ H)].
Defined.
