(* ===== verification/FrontEnd.v ===== *)
(** * The front-end scripts ([src/public/js/mapbox.js], [stripe.js])

    [displayMap(locations)] (mapbox.js) draws a tour's locations: for each
    location, in order, a marker and a popup at [loc.coordinates], the
    popup's HTML [<p>Day ${loc.day}: ${loc.description}</p>], and
    [bounds.extend(loc.coordinates)]; then [map.fitBounds(bounds, ...)]
    with a fixed padding.  The map library (mapbox-gl, loaded by the page
    and not in the repository) is modelled from its code for what these
    calls do: [LngLat.convert] accepts an array of two or three numbers and
    throws otherwise, the [LngLat] constructor throws for a latitude
    outside [[-90, 90]], [LngLatBounds.extend] starts from the first point
    and then widens by [Math.min] and [Math.max], and [fitBounds] of
    bounds never extended reads [_sw.lng] of [undefined].  A throw in the
    [forEach] leaves the markers added so far and stops the function.

    [bookTour(tourId)] (stripe.js) asks the API for a checkout session
    with [axios], then calls [stripe.redirectToCheckout]; a throw or a
    rejection of either is caught and shown with [showAlert].  [axios]
    rejects on a non-2xx answer; [redirectToCheckout] navigates away, or
    resolves to [{ error }] when it cannot, or throws for an invalid
    argument.  The API's answer and Stripe's behaviour are the section's
    parameters.

    The number-to-text conversion of the template ([${loc.day}]) is a
    parameter too: the model's numbers are exact rationals, and only the
    fact that the text of a number holds no [<] is used. *)

From Stdlib Require Import Ascii Qminmax.
From stdpp Require Import pretty.
From S2P Require Import Prelude Store JsValues Middleware.
Local Open Scope Q_scope.

(** ** [mapbox.js] *)

Record lnglat := mk_lnglat { lng : Q; lat : Q }.

(** [LngLat.convert] of the array [loc.coordinates], and the checks of
    the [LngLat] constructor. *)
Definition lnglat_convert (c : list Q) : result lnglat :=
  match c with
  | [x; y] | [x; y; _] =>
      if Qle_bool (-90) y && Qle_bool y 90 then Ok (mk_lnglat x y)
      else Err (PlainError "Invalid LngLat latitude value: must be between -90 and 90")
  | _ => Err (PlainError "`LngLatLike` argument must be specified as a LngLat instance, an object {lng: <lng>, lat: <lat>}, an object {lon: <lng>, lat: <lat>}, or an array of [<lng>, <lat>]")
  end.

(** South-west and north-east corners. *)
Definition bounds := option (lnglat * lnglat).

(** [LngLatBounds.extend] with a point. *)
Definition extend (b : bounds) (p : lnglat) : bounds :=
  match b with
  | None => Some (p, p)
  | Some (sw, ne) =>
      Some (mk_lnglat (Qmin (lng p) (lng sw)) (Qmin (lat p) (lat sw)),
            mk_lnglat (Qmax (lng p) (lng ne)) (Qmax (lat p) (lat ne)))
  end.

(** The padding of [fitBounds] (lines 42-49): top, bottom, left, right. *)
Definition fit_padding : Z * Z * Z * Z := (200, 150, 100, 100)%Z.

(** What the script leaves on the map: the markers and the popups in the
    order they were added, the bounds built so far, and the view fitted
    to bounds with its padding. *)
Record map_state := mk_map {
  markers : list lnglat;
  popups : list (lnglat * list ascii);
  map_bounds : bounds;
  view : option (lnglat * lnglat * (Z * Z * Z * Z));
}.

Definition empty_map : map_state := mk_map [] [] None None.

Section Map.
(** The text JavaScript gives a number in a template. *)
Context (number_text : Q -> string).

Definition js_text (v : option Q) : list ascii :=
  match v with Some q => chars (number_text q) | None => chars "undefined" end.

(** [`<p>Day ${loc.day}: ${loc.description}</p>`]. *)
Definition popup_html (l : Tour.location) : list ascii :=
  chars "<p>Day " ++ js_text (Tour.day l) ++ chars ": " ++
  chars (default "undefined" (Tour.geo_description (Tour.loc_point l))) ++ chars "</p>".

(** The body of the [forEach] (lines 16-40): the marker's [setLngLat]
    converts the coordinates (a throw leaves the marker unattached), the
    popup converts them again, then [bounds.extend]. *)
Definition add_location (l : Tour.location) (m : map_state) : result map_state :=
  p ← lnglat_convert (Tour.coordinates (Tour.loc_point l));
  mret (mk_map (markers m ++ [p]) (popups m ++ [(p, popup_html l)]) (extend (map_bounds m) p) (view m)).

Fixpoint forEach_location (ls : list Tour.location) (m : map_state) : map_state * option js_error :=
  match ls with
  | [] => (m, None)
  | l :: ls' =>
      match add_location l m with
      | Ok m' => forEach_location ls' m'
      | Err e => (m, Some e)
      end
  end.

(** [map.fitBounds(bounds, { padding })]. *)
Definition fitBounds (m : map_state) : result map_state :=
  match map_bounds m with
  | Some (sw, ne) => Ok (mk_map (markers m) (popups m) (map_bounds m) (Some (sw, ne, fit_padding)))
  | None => Err (TypeError "Cannot read properties of undefined (reading 'lng')")
  end.

Definition displayMap (ls : list Tour.location) : map_state * option js_error :=
  match forEach_location ls empty_map with
  | (m, None) =>
      match fitBounds m with
      | Ok m' => (m', None)
      | Err e => (m, Some e)
      end
  | (m, Some e) => (m, Some e)
  end.

End Map.

(** Whether a location's coordinates are a point the map accepts. *)
Definition point_ok (l : Tour.location) : bool :=
  match lnglat_convert (Tour.coordinates (Tour.loc_point l)) with Ok _ => true | Err _ => false end.

(** [p] lies in the box of corners [sw] and [ne]. *)
Definition in_box (sw ne p : lnglat) : Prop :=
  lng sw <= lng p <= lng ne /\ lat sw <= lat p <= lat ne.

(** ** [stripe.js] *)

(** [`/api/v1/bookings/checkout-session/${tourId}`]. *)
Definition session_url (tourId : string) : string := "/api/v1/bookings/checkout-session/" ++ tourId.

(** What the click leads to: the browser leaves for Stripe's checkout,
    an alert shows an error, or nothing happens. *)
Inductive book_effect :=
  | redirected (sessionId : string)
  | alert_shown (e : js_error)
  | no_effect.

(** [session.data.session.id]: a property read of [undefined] throws. *)
Definition session_id (data : option qval) : result (option string) :=
  match data with
  | Some (QObj fs) =>
      match obj_get "session" fs with
      | Some (QObj ss) =>
          Ok (match obj_get "id" ss with Some (QStr i) => Some i | _ => None end)
      | Some _ => Ok None
      | None => Err (TypeError "Cannot read properties of undefined (reading 'id')")
      end
  | Some _ => Err (TypeError "Cannot read properties of undefined (reading 'id')")
  | None => Err (TypeError "Cannot read properties of undefined (reading 'session')")
  end.

Section Checkout.
(** The answer of the API to a GET of a path (its [data], or the
    rejection of [axios]); and [redirectToCheckout({ sessionId })]: it
    throws ([Err]), resolves to [{ error }] ([Ok (Some e)]), or navigates
    away ([Ok None]). *)
Context (axios_get : string -> result (option qval)).
Context (redirectToCheckout : option string -> result (option js_error)).

Definition bookTour (tourId : string) : book_effect :=
  match axios_get (session_url tourId) with
  | Err e => alert_shown e
  | Ok data =>
      match session_id data with
      | Err e => alert_shown e
      | Ok sid =>
          match redirectToCheckout sid with
          | Err e => alert_shown e
          | Ok (Some _) => no_effect
          | Ok None => match sid with Some i => redirected i | None => no_effect end
          end
      end
  end.

End Checkout.

(** ** Samples *)

Definition day_text (q : Q) : string := pretty (Qnum q).

Definition sample_location (lng0 lat0 : Q) (d : Q) (desc : string) : Tour.location :=
  Tour.mk_location (Tour.mk_geo_point "Point" [lng0; lat0] None (Some desc)) (Some d).

Definition forest_locations : list Tour.location :=
  [sample_location (-116214 # 1000) (51417 # 1000) 1 "Banff National Park";
   sample_location (-118076 # 1000) (52875 # 1000) 3 "Jasper National Park";
   sample_location (-117490 # 1000) (51261 # 1000) 5 "Glacier National Park of Canada"].

Definition session_api (path : string) : result (option qval) :=
  if String.eqb path (session_url "5c88fa8cf4afda39709c2955")
  then Ok (Some (QObj [("status", QStr "success"); ("session", QObj [("id", QStr "cs_test_a1")])]))
  else Err (AxiosError 404).

Definition stripe_offline (sid : option string) : result (option js_error) :=
  match sid with
  | Some _ => Ok (Some (PlainError "Failed to fetch"))
  | None => Err (PlainError "IntegrationError: Invalid value for redirectToCheckout: sessionId")
  end.

(** ** The bounds *)

Lemma Qmin_choice x y : Qmin x y = x \/ Qmin x y = y.
Proof. unfold Qmin, GenericMinMax.gmin. destruct (x ?= y); auto. Qed.

Lemma Qmax_choice x y : Qmax x y = x \/ Qmax x y = y.
Proof. unfold Qmax, GenericMinMax.gmax. destruct (x ?= y); auto. Qed.

(** The corners of the bounds are coordinates of points they were
    extended with. *)
Definition corners_from (ps : list lnglat) (b : bounds) : Prop :=
  match b with
  | Some (sw, ne) =>
      lng sw ∈ map lng ps /\ lat sw ∈ map lat ps /\ lng ne ∈ map lng ps /\ lat ne ∈ map lat ps
  | None => ps = []
  end.

Definition box_of (ps : list lnglat) (b : bounds) : Prop :=
  match b with Some (sw, ne) => Forall (in_box sw ne) ps | None => ps = [] end.

Lemma in_box_extend sw ne p q :
  in_box sw ne q ->
  in_box (mk_lnglat (Qmin (lng p) (lng sw)) (Qmin (lat p) (lat sw)))
         (mk_lnglat (Qmax (lng p) (lng ne)) (Qmax (lat p) (lat ne))) q.
Proof.
  intros [[H1 H2] [H3 H4]]. unfold in_box. cbn [lng lat]. split; split;
    [rewrite Q.min_le_iff|rewrite Q.max_le_iff|rewrite Q.min_le_iff|rewrite Q.max_le_iff]; auto.
Qed.

Lemma in_box_extend_self sw ne p :
  in_box (mk_lnglat (Qmin (lng p) (lng sw)) (Qmin (lat p) (lat sw)))
         (mk_lnglat (Qmax (lng p) (lng ne)) (Qmax (lat p) (lat ne))) p.
Proof.
  unfold in_box. cbn [lng lat]. split; split; [apply Q.le_min_l|apply Q.le_max_l|apply Q.le_min_l|apply Q.le_max_l].
Qed.

Lemma box_of_extend ps b p : box_of ps b -> box_of (ps ++ [p]) (extend b p).
Proof.
  destruct b as [[sw ne]|]; cbn.
  - intros H. apply Forall_app. split; [|constructor; [apply in_box_extend_self|done]].
    eapply Forall_impl; [exact H|]. intros q. apply in_box_extend.
  - intros ->. constructor; [|done]. split; split; apply Qle_refl.
Qed.

Lemma corners_from_extend ps b p : corners_from ps b -> corners_from (ps ++ [p]) (extend b p).
Proof.
  destruct b as [[sw ne]|]; cbn.
  - intros (H1 & H2 & H3 & H4). rewrite !map_app. cbn [map]. rewrite !elem_of_app, !list_elem_of_singleton.
    split_and!;
      [destruct (Qmin_choice (lng p) (lng sw)) as [->| ->]
      |destruct (Qmin_choice (lat p) (lat sw)) as [->| ->]
      |destruct (Qmax_choice (lng p) (lng ne)) as [->| ->]
      |destruct (Qmax_choice (lat p) (lat ne)) as [->| ->]]; auto.
  - intros ->. cbn. rewrite !list_elem_of_singleton. done.
Qed.

(** ** The loop of [displayMap] *)

Definition location_points (ls : list Tour.location) : result (list lnglat) :=
  mapM (fun l => lnglat_convert (Tour.coordinates (Tour.loc_point l))) ls.

Section Loop.
Context (number_text : Q -> string).

(** The [forEach] ends without a throw exactly when every location is a
    point, and then it has added the points in order, each with its popup,
    and widened the bounds with each. *)
Lemma forEach_location_ok ls m :
  Forall (fun l => point_ok l = true) ls ->
  exists ps, location_points ls = Ok ps /\ length ps = length ls /\
    forEach_location number_text ls m =
      (mk_map (markers m ++ ps) (popups m ++ zip ps (map (popup_html number_text) ls))
              (fold_left extend ps (map_bounds m)) (view m), None).
Proof.
  revert m. induction ls as [|l ls IH]; intros m HF.
  - exists []. cbn. rewrite !app_nil_r. by destruct m.
  - inversion HF as [|? ? Hl HF']; subst. unfold point_ok in Hl.
    destruct (lnglat_convert _) as [p|] eqn:Ep; [|done].
    destruct (IH (mk_map (markers m ++ [p]) (popups m ++ [(p, popup_html number_text l)])
                        (extend (map_bounds m) p) (view m)) HF') as (ps & Hps & Hlen & Hrun).
    exists (p :: ps). unfold location_points in *. cbn. rewrite Ep, Hps. cbn.
    split_and!; [done|by rewrite Hlen|]. unfold add_location. rewrite Ep. cbn [mbind result_mbind mret result_mret].
    rewrite Hrun. cbn [markers popups map_bounds view fold_left zip map]. by rewrite <- !app_assoc.
Qed.

End Loop.

Lemma fold_extend_inv ps0 ps b :
  box_of ps0 b -> corners_from ps0 b ->
  box_of (ps0 ++ ps) (fold_left extend ps b) /\ corners_from (ps0 ++ ps) (fold_left extend ps b).
Proof.
  revert ps0 b. induction ps as [|p ps IH]; intros ps0 b Hb Hc; cbn [fold_left].
  - by rewrite app_nil_r.
  - rewrite (cons_middle p ps0 ps), app_assoc.
    apply IH; [by apply box_of_extend|by apply corners_from_extend].
Qed.

Section Display.
Context (number_text : Q -> string).

Lemma forEach_location_fail ls m :
  ~ Forall (fun l => point_ok l = true) ls -> exists m' e, forEach_location number_text ls m = (m', Some e).
Proof.
  revert m. induction ls as [|l ls IH]; intros m HF; [by exfalso; apply HF|]. cbn [forEach_location].
  unfold add_location. destruct (lnglat_convert _) as [p|e] eqn:Ep; cbn; [|eauto].
  apply IH. intros HF'. apply HF. constructor; [|done]. unfold point_ok. by rewrite Ep.
Qed.

(** What [displayMap] leaves when it does not throw. *)
Lemma displayMap_ok ls :
  ls <> [] -> Forall (fun l => point_ok l = true) ls ->
  exists ps, location_points ls = Ok ps /\ length ps = length ls /\
    displayMap number_text ls =
      (mk_map ps (zip ps (map (popup_html number_text) ls)) (fold_left extend ps None)
              (match fold_left extend ps None with Some (sw, ne) => Some (sw, ne, fit_padding) | None => None end),
       None) /\
    is_Some (fold_left extend ps None).
Proof.
  intros Hne HF. destruct (forEach_location_ok number_text ls empty_map HF) as (ps & Hps & Hlen & Hrun).
  exists ps. unfold displayMap. rewrite Hrun. cbn [markers popups map_bounds view empty_map app].
  destruct (fold_extend_inv [] ps None eq_refl eq_refl) as [_ Hc]. cbn [app] in Hc.
  unfold fitBounds. cbn [map_bounds]. destruct (fold_left extend ps None) as [[sw ne]|] eqn:Ef.
  - split_and!; [done|done|done|eauto].
  - exfalso. cbn in Hc. subst ps. destruct ls; [done|]. discriminate Hlen.
Qed.

Lemma forEach_location_app l1 l2 m :
  forEach_location number_text (l1 ++ l2) m =
  match forEach_location number_text l1 m with
  | (m1, None) => forEach_location number_text l2 m1
  | r => r
  end.
Proof.
  revert m. induction l1 as [|l l1 IH]; intros m; [done|]. cbn [app forEach_location].
  destruct (add_location number_text l m); [apply IH|done].
Qed.

Lemma displayMap_no_error ls m :
  displayMap number_text ls = (m, None) -> ls <> [] /\ Forall (fun l => point_ok l = true) ls.
Proof.
  intros H. destruct (decide (Forall (fun l => point_ok l = true) ls)) as [HF|HF].
  - split; [|done]. intros ->. discriminate H.
  - destruct (forEach_location_fail ls empty_map HF) as (m' & e & He).
    unfold displayMap in H. by rewrite He in H.
Qed.

End Display.

(** ** The map's theorems *)

(** C28: When [displayMap] does not throw, the map shows one marker per
    location, at its coordinates and in order, one popup per location,
    and it is fitted, with the padding of lines 42-49, to a box that
    holds every marker and whose four sides each pass through a marker:
    the smallest box around the tour's locations. *)
Theorem displayMap_fits_locations number_text ls m :
  displayMap number_text ls = (m, None) ->
  location_points ls = Ok (markers m) /\ (length (popups m) = length ls)%nat /\
  exists sw ne, view m = Some (sw, ne, fit_padding) /\ Forall (in_box sw ne) (markers m) /\
    lng sw ∈ map lng (markers m) /\ lat sw ∈ map lat (markers m) /\
    lng ne ∈ map lng (markers m) /\ lat ne ∈ map lat (markers m).
Proof.
  intros H. destruct (displayMap_no_error number_text ls m H) as [Hne HF].
  destruct (displayMap_ok number_text ls Hne HF) as (ps & Hps & Hlen & Hd & [[sw ne] Hb]).
  rewrite Hd, Hb in H. injection H as <-. cbn [markers popups view].
  destruct (fold_extend_inv [] ps None eq_refl eq_refl) as [Hbox Hc]. rewrite Hb in Hbox, Hc.
  cbn [app] in Hbox, Hc. destruct (location_points ls) eqn:E; [|done]. injection Hps as ->.
  split_and!; [done| |by exists sw, ne].
  rewrite length_zip, length_map. lia.
Qed.

Lemma displayMap_fits_locations_witness :
  exists m, displayMap day_text forest_locations = (m, None) /\
  location_points forest_locations = Ok (markers m) /\ (length (popups m) = length forest_locations)%nat /\
  exists sw ne, view m = Some (sw, ne, fit_padding) /\ Forall (in_box sw ne) (markers m) /\
    lng sw ∈ map lng (markers m) /\ lat sw ∈ map lat (markers m) /\
    lng ne ∈ map lng (markers m) /\ lat ne ∈ map lat (markers m).
Proof.
  eexists. split; [vm_compute; reflexivity|].
  apply (displayMap_fits_locations day_text forest_locations). vm_compute. reflexivity.
Defined.

(** C29: Where [displayMap] throws.  For a tour without locations,
    [fitBounds] reads the corner of bounds never extended and throws a
    [TypeError], with no marker on the map.  For a location whose
    coordinates are not a pair (or triple) of numbers, or whose latitude
    lies outside [[-90, 90]] (the schema, [coordinates: [Number]], checks
    neither), [setLngLat] throws: the markers and popups of the locations
    before it stay, the map is never fitted. *)
Theorem displayMap_errors number_text ls :
  (ls = [] -> displayMap number_text ls = (empty_map, Some (TypeError "Cannot read properties of undefined (reading 'lng')"))) /\
  (forall pre l post e,
     Forall (fun l => point_ok l = true) pre -> lnglat_convert (Tour.coordinates (Tour.loc_point l)) = Err e ->
     ls = pre ++ l :: post ->
     exists ps, location_points pre = Ok ps /\
       displayMap number_text ls =
         (mk_map ps (zip ps (map (popup_html number_text) pre)) (fold_left extend ps None) None, Some e)).
Proof.
  split; [by intros ->|]. intros pre l post e HF He ->.
  destruct (forEach_location_ok number_text pre empty_map HF) as (ps & Hps & _ & Hrun).
  exists ps. split; [done|]. unfold displayMap. rewrite forEach_location_app, Hrun.
  cbn [forEach_location]. unfold add_location at 1. rewrite He. reflexivity.
Qed.

Definition bad_latitude : Tour.location := sample_location (-116 # 1) 95 2 "Lake Louise".

Lemma displayMap_errors_witness :
  exists ps, location_points [List.hd bad_latitude forest_locations] = Ok ps /\
    displayMap day_text ([List.hd bad_latitude forest_locations] ++ bad_latitude :: List.tl forest_locations) =
      (mk_map ps (zip ps (map (popup_html day_text) [List.hd bad_latitude forest_locations]))
              (fold_left extend ps None) None,
       Some (PlainError "Invalid LngLat latitude value: must be between -90 and 90")).
Proof.
  apply (proj2 (displayMap_errors day_text _) [List.hd bad_latitude forest_locations] bad_latitude
           (List.tl forest_locations)); [repeat constructor|vm_compute; reflexivity|reflexivity].
Defined.

(** ** The popups *)

Definition count_lt (l : list ascii) : nat := count_occ ascii_dec l "<"%char.

Lemma count_lt_app l1 l2 : count_lt (l1 ++ l2) = (count_lt l1 + count_lt l2)%nat.
Proof. apply count_occ_app. Qed.

Lemma count_lt_inHTMLData l : count_lt (inHTMLData l) = 0%nat.
Proof.
  induction l as [|c l IH]; [done|]. unfold inHTMLData in *. cbn [flat_map].
  rewrite count_lt_app, IH. unfold lt_entity. destruct (Ascii.eqb_spec c "<") as [->|Hc]; [reflexivity|].
  unfold count_lt. cbn. by destruct (ascii_dec c "<").
Qed.

(** C30: The popup's HTML (line 35) holds the two tags of its template and
    every [<] of the location's description: [setHTML] renders the
    description as markup.  A description that came through the API was
    escaped by [xss()] (its [<] written [&lt;]), and its popup holds the
    template's tags only; one written to the database another way (the
    import of the sample data, the shell) injects its own markup into the
    page. *)
Theorem popup_renders_description number_text l d :
  (forall q, count_lt (chars (number_text q)) = 0%nat) ->
  Tour.geo_description (Tour.loc_point l) = Some d ->
  count_lt (popup_html number_text l) = (2 + count_lt (chars d))%nat /\
  (forall d0, d = escape_lt d0 -> count_lt (popup_html number_text l) = 2%nat).
Proof.
  intros Hn Hd.
  assert (Hday : count_lt (js_text number_text (Tour.day l)) = 0%nat) by (destruct (Tour.day l); cbn [js_text]; [apply Hn|reflexivity]).
  assert (Hp : count_lt (popup_html number_text l) = (2 + count_lt (chars d))%nat).
  { unfold popup_html. rewrite Hd. cbn [default]. rewrite !count_lt_app, Hday. unfold id. cbn. lia. }
  split; [done|]. intros d0 ->. rewrite Hp. unfold escape_lt.
  by rewrite chars_of_chars, count_lt_inHTMLData.
Qed.

Definition injected_location : Tour.location :=
  sample_location (-116 # 1) 51 1 "<img src=x onerror=alert(document.cookie)>".

(** The text of a day that is a single digit. *)
Definition digit_text (q : Q) : string := String (ascii_of_nat (48 + Z.to_nat (Qnum q mod 10))) EmptyString.

Lemma popup_renders_description_witness :
  count_lt (popup_html digit_text injected_location) =
    (2 + count_lt (chars "<img src=x onerror=alert(document.cookie)>"))%nat /\
  (forall d0, "<img src=x onerror=alert(document.cookie)>" = escape_lt d0 ->
     count_lt (popup_html digit_text injected_location) = 2%nat).
Proof.
  apply (popup_renders_description digit_text injected_location); [|reflexivity].
  intros q. unfold digit_text, count_lt, chars. cbn [String.list_ascii_of_string count_occ].
  destruct (ascii_dec _ _) as [E|]; [exfalso|reflexivity].
  pose proof (Z.mod_pos_bound (Qnum q) 10 ltac:(lia)) as Hb.
  assert (Hk : (Z.to_nat (Qnum q mod 10) < 10)%nat)
    by (change 10%nat with (Z.to_nat 10); apply Z2Nat.inj_lt; lia).
  apply (f_equal nat_of_ascii) in E. rewrite nat_ascii_embedding in E by lia.
  change (nat_of_ascii "<") with 60%nat in E. lia.
Defined.
