(* ===== verification/RateLimit.v ===== *)
(** * The API rate limiter and the client address it counts by

    [src/app.js] enables [trust proxy] (line 25) and mounts
    [rateLimit({ max: 100, windowMs: 60 * 60 * 1000 })] on ['/api']
    (lines 85-90).  The limiter keeps, in the memory store of
    express-rate-limit, a hit counter per key that all restart together at
    the end of each fixed window of an hour; its key is [req.ip]; a
    request whose counter, once incremented, exceeds [max] is answered
    429 and goes no further.

    With [trust proxy] set to [true], Express computes [req.ip] with
    [proxy-addr] trusting every hop: the address list is the socket's
    address followed by the [X-Forwarded-For] entries from right to left,
    and the last trusted one, the leftmost entry of the header, is the
    client's address.  That entry is whatever the client wrote.

    Times are milliseconds since the limiter was created; a request is
    its socket address, its [X-Forwarded-For] header (if any), its path
    and its arrival time. *)

From Stdlib Require Import Ascii Sorted.
From stdpp Require Import sorting pretty.
From S2P Require Import Prelude JsValues.
Local Open Scope nat_scope.

(** ** Requests and [req.ip] *)

Record request := mk_request {
  socket_addr : string;
  forwarded_for : option string;
  req_path : string;
  arrival : Z;
}.

(** The [forwarded] module: the header's comma-separated entries, each
    without the spaces around it, empty ones dropped, from right to left. *)
Fixpoint drop_sp (l : list ascii) : list ascii :=
  match l with
  | c :: l' => if Ascii.eqb c " " then drop_sp l' else l
  | [] => []
  end.

Definition trim_sp (l : list ascii) : list ascii := rev (drop_sp (rev (drop_sp l))).

Definition parse_forwarded (h : string) : list string :=
  rev (map of_chars (List.filter (fun w => negb (bool_decide (w = [])))
                       (map trim_sp (split_at (fun c => Ascii.eqb c ",") (chars h))))).

Definition forwarded_addrs (rq : request) : list string :=
  socket_addr rq :: match forwarded_for rq with Some h => parse_forwarded h | None => [] end.

(** [proxyaddr.all]: the addresses up to the first hop that is not
    trusted, by its position. *)
Fixpoint alladdrs (trust : nat -> bool) (i : nat) (addrs : list string) : list string :=
  match addrs with
  | [] => []
  | [a] => [a]
  | a :: rest => if trust i then a :: alladdrs trust (S i) rest else [a]
  end.

(** [req.ip]: the last of them. *)
Definition req_ip (trust : nat -> bool) (rq : request) : string :=
  default (socket_addr rq) (last (alladdrs trust 0 (forwarded_addrs rq))).

(** [app.enable('trust proxy')] (line 25): every hop is trusted. *)
Definition trust_proxy : nat -> bool := fun _ => true.

(** ** Mounting on ['/api'] *)

Definition ascii_lower (c : ascii) : ascii :=
  let n := nat_of_ascii c in
  if Nat.leb 65 n && Nat.leb n 90 then ascii_of_nat (n + 32) else c.

(** [app.use(prefix, ...)]: the path starts with the prefix, ignoring
    case, and goes on with a [/] or ends there. *)
Definition mount_matches (prefix path : string) : bool :=
  let p := map ascii_lower (chars prefix) in
  let l := map ascii_lower (chars path) in
  bool_decide (take (length p) l = p) &&
  match drop (length p) l with
  | [] => true
  | c :: _ => Ascii.eqb c "/"
  end.

(** ** The memory store and the limiter *)

Definition max_hits : nat := 100.
Definition windowMs : Z := 60 * 60 * 1000.

Definition window_of (t : Z) : Z := t / windowMs.

Record limiter := mk_limiter {
  lim_window : Z;
  lim_hits : gmap string nat;
}.

Definition limiter_init : limiter := mk_limiter 0%Z ∅.

(** [resetAll] at the end of each window, then [incr(key)]; the request
    passes when the new count is at most [max]. *)
Definition limiter_hit (t : Z) (key : string) (L : limiter) : limiter * bool :=
  let L1 := if Z.ltb (lim_window L) (window_of t) then mk_limiter (window_of t) ∅ else L in
  let n := S (default 0 (lim_hits L1 !! key)) in
  (mk_limiter (lim_window L1) (<[key := n]> (lim_hits L1)), Nat.leb n max_hits).

(** [app.use('/api', limiter)] (line 90): the requests under [/api] are
    counted by [req.ip]; the others pass untouched. *)
Definition limit_request (trust : nat -> bool) (L : limiter) (rq : request) : limiter * bool :=
  if mount_matches "/api" (req_path rq) then limiter_hit (arrival rq) (req_ip trust rq) L
  else (L, true).

(** A sequence of requests: which of them pass. *)
Fixpoint run_limiter (trust : nat -> bool) (L : limiter) (rqs : list request) : limiter * list bool :=
  match rqs with
  | [] => (L, [])
  | rq :: rqs' =>
      let '(L1, b) := limit_request trust L rq in
      let '(L2, bs) := run_limiter trust L1 rqs' in
      (L2, b :: bs)
  end.

(** The passes counted against [k] in window [w]: the requests under
    [/api], of client address [k], arrived in [w], that passed. *)
Definition counted (trust : nat -> bool) (k : string) (w : Z) (rq : request) : bool :=
  mount_matches "/api" (req_path rq) && bool_decide (req_ip trust rq = k) &&
  Z.eqb (window_of (arrival rq)) w.

Fixpoint passed_in (trust : nat -> bool) (k : string) (w : Z) (rqs : list request) (bs : list bool) : nat :=
  match rqs, bs with
  | rq :: rqs', b :: bs' => (if counted trust k w rq && b then 1 else 0) + passed_in trust k w rqs' bs'
  | _, _ => 0
  end.

(** What is left of [k]'s allowance in window [w], in the state [L]. *)
Definition allowance (L : limiter) (k : string) (w : Z) : nat :=
  if Z.eqb w (lim_window L) then max_hits - default 0 (lim_hits L !! k) else max_hits.

(** An address written without commas or spaces, as a client may put it
    in [X-Forwarded-For]. *)
Definition plain_addr (h : string) : bool :=
  negb (bool_decide (chars h = [])) &&
  forallb (fun c => negb (Ascii.eqb c ",") && negb (Ascii.eqb c " ")) (chars h).

(** [n] requests sent from one socket at the same instant, each with its
    own [X-Forwarded-For] value. *)
Definition spoofed (sock : string) (t : Z) (n : nat) : list request :=
  map (fun i => mk_request sock (Some ("10.0." +:+ pretty i)) "/api/v1/tours" t) (seq 0 n).

(** ** Lemmas *)

Lemma window_of_mono t t' : (t <= t')%Z -> (window_of t <= window_of t')%Z.
Proof. intros H. apply Z.div_le_mono; [reflexivity|done]. Qed.

Lemma run_limiter_cons trust L rq rqs :
  run_limiter trust L (rq :: rqs) =
  (fst (run_limiter trust (fst (limit_request trust L rq)) rqs),
   snd (limit_request trust L rq) :: snd (run_limiter trust (fst (limit_request trust L rq)) rqs)).
Proof. cbn. by destruct (limit_request _ _ _), (run_limiter _ _ _). Qed.

(** Requests of later windows pass nothing in [w]. *)
Lemma passed_in_later trust k w rqs bs :
  Forall (fun rq => (w < window_of (arrival rq))%Z) rqs -> passed_in trust k w rqs bs = 0.
Proof.
  intros Hf. revert bs. induction Hf as [|rq rqs Hw _ IH]; intros [|b bs]; cbn; try done.
  unfold counted. rewrite (proj2 (Z.eqb_neq _ _)) by lia. rewrite andb_false_r. cbn. apply IH.
Qed.

(** The window a request leaves the limiter in. *)
Lemma limit_request_window trust L rq :
  (lim_window L <= window_of (arrival rq))%Z ->
  (lim_window (fst (limit_request trust L rq)) <= window_of (arrival rq))%Z /\
  (lim_window L <= lim_window (fst (limit_request trust L rq)))%Z.
Proof.
  intros H. unfold limit_request, limiter_hit.
  destruct (mount_matches _ _); [|cbn; lia].
  destruct (Z.ltb_spec (lim_window L) (window_of (arrival rq))); cbn; lia.
Qed.

(** One request: what it passes in [w], and what is left of the allowance. *)
Lemma limit_request_allowance trust L rq k w :
  (lim_window L <= window_of (arrival rq))%Z ->
  (if counted trust k w rq && snd (limit_request trust L rq) then 1 else 0) +
    (if Z.eqb w (lim_window L) && Z.ltb (lim_window L) (window_of (arrival rq)) then 0
     else allowance (fst (limit_request trust L rq)) k w)
  <= allowance L k w.
Proof.
  intros Hle. unfold limit_request, counted, allowance.
  destruct (mount_matches _ _); cbn [andb fst snd].
  2:{ destruct (Z.eqb _ _), (Z.ltb _ _); cbn; lia. }
  unfold limiter_hit. cbn [fst snd lim_window lim_hits].
  destruct (Z.ltb_spec (lim_window L) (window_of (arrival rq))) as [Hlt|Hge];
    cbn [lim_window lim_hits].
  all: destruct (bool_decide_reflect (req_ip trust rq = k)) as [<-|Hk];
    [rewrite !lookup_insert_eq | rewrite !lookup_insert_ne by done];
    rewrite ?lookup_empty; cbn [default andb]; unfold id;
    destruct (Z.eqb_spec (window_of (arrival rq)) w), (Z.eqb_spec w (lim_window L)),
             (Z.eqb_spec w (window_of (arrival rq))); subst; cbn [andb];
    unfold max_hits; try lia.
  all: repeat match goal with |- context [Nat.leb ?a ?b] => destruct (Nat.leb_spec a b) end; unfold id; lia.
Qed.

(** Starting in a window no later than the requests', a sorted sequence
    passes at most the allowance left. *)
Lemma passed_in_allowance trust L rqs k w :
  StronglySorted (fun a b => (arrival a <= arrival b)%Z) rqs ->
  Forall (fun rq => (lim_window L <= window_of (arrival rq))%Z) rqs ->
  passed_in trust k w rqs (snd (run_limiter trust L rqs)) <= allowance L k w.
Proof.
  revert L. induction rqs as [|rq rqs IH]; intros L Hs Hf; [cbn; lia|].
  apply StronglySorted_inv in Hs as [Hs Hrq]. apply Forall_cons in Hf as [Hw _].
  rewrite run_limiter_cons. cbn [passed_in snd].
  pose proof (limit_request_allowance trust L rq k w Hw) as Hstep.
  destruct (limit_request_window trust L rq Hw) as [Hw1 _].
  assert (Hlater : forall z, (z <= window_of (arrival rq))%Z ->
                   Forall (fun x => (z <= window_of (arrival x))%Z) rqs).
  { intros z Hz. eapply Forall_impl; [exact Hrq|]. intros x Hx.
    pose proof (window_of_mono _ _ Hx). lia. }
  specialize (IH _ Hs (Hlater _ Hw1)).
  destruct (Z.eqb w (lim_window L) && Z.ltb (lim_window L) (window_of (arrival rq))) eqn:E; [|lia].
  apply andb_true_iff in E as [E1 E2]. apply Z.eqb_eq in E1. apply Z.ltb_lt in E2.
  rewrite passed_in_later; [lia|]. eapply Forall_impl; [apply (Hlater _ (Z.le_refl _))|].
  cbn. lia.
Qed.

Lemma drop_sp_plain l : Forall (fun c => Ascii.eqb c " " = false) l -> drop_sp l = l.
Proof. intros [|c l' Hc _]; cbn; [done|]. by rewrite Hc. Qed.

Lemma trim_sp_plain l : Forall (fun c => Ascii.eqb c " " = false) l -> trim_sp l = l.
Proof.
  intros H. unfold trim_sp. rewrite (drop_sp_plain l H), drop_sp_plain; [apply rev_involutive|].
  by apply Forall_rev.
Qed.

(** Under [trust proxy], a plain [X-Forwarded-For] value is [req.ip]. *)
Lemma req_ip_forwarded sock h path t :
  plain_addr h = true -> req_ip trust_proxy (mk_request sock (Some h) path t) = h.
Proof.
  unfold plain_addr. intros [Hne Hall]%andb_true_iff. rewrite forallb_forall in Hall.
  assert (Hc : Forall (fun c => Ascii.eqb c "," = false) (chars h)).
  { apply Forall_forall. intros c Hin%list_elem_of_In. apply Hall, andb_true_iff in Hin as [H _].
    by apply negb_true_iff. }
  assert (Hs : Forall (fun c => Ascii.eqb c " " = false) (chars h)).
  { apply Forall_forall. intros c Hin%list_elem_of_In. apply Hall, andb_true_iff in Hin as [_ H].
    by apply negb_true_iff. }
  unfold req_ip, forwarded_addrs, parse_forwarded. cbn [forwarded_for socket_addr].
  rewrite <- (app_nil_r (chars h)), (split_at_app _ (chars h) [] [] []), app_nil_r by done.
  cbn [map List.filter]. rewrite trim_sp_plain, Hne by done. cbn.
  by rewrite of_chars_chars.
Qed.

(** Fresh plain addresses each pass, whatever the window. *)
Lemma fresh_forwarded_pass sock path t L hs :
  mount_matches "/api" path = true -> NoDup hs -> Forall (fun h => plain_addr h = true) hs ->
  (lim_window L <= window_of t)%Z -> Forall (fun h => lim_hits L !! h = None) hs ->
  snd (run_limiter trust_proxy L (map (fun h => mk_request sock (Some h) path t) hs)) =
  repeat true (length hs).
Proof.
  revert L. induction hs as [|h hs IH]; intros L Hm Hnd Hp Hw Hf; [done|].
  apply NoDup_cons in Hnd as [Hh Hnd]. apply Forall_cons in Hp as [Hph Hp].
  apply Forall_cons in Hf as [Hfh Hf].
  rewrite map_cons, run_limiter_cons. cbn [snd length repeat]. f_equal.
  - unfold limit_request. cbn [req_path arrival]. rewrite Hm, req_ip_forwarded by done.
    unfold limiter_hit. destruct (Z.ltb _ _); cbn [snd lim_hits]; rewrite ?lookup_empty, ?Hfh; reflexivity.
  - apply IH; try done.
    + apply (limit_request_window trust_proxy L (mk_request sock (Some h) path t) Hw).
    + unfold limit_request. cbn [req_path arrival]. rewrite Hm, req_ip_forwarded by done.
      apply Forall_forall. intros h' Hin. assert (h <> h') by (intros ->; done).
      unfold limiter_hit. destruct (Z.ltb _ _); cbn; rewrite lookup_insert_ne by done;
        [apply lookup_empty|]. by apply (proj1 (Forall_forall _ _) Hf).
Qed.

(** ** Theorems *)

(** However the requests interleave, as long as they arrive in
    order of time, the limiter lets at most [max] (100) requests under
    [/api] with a given client address through in each window of an
    hour.  This holds for any [trust proxy] setting: the bound is on the
    address Express computes. *)
Theorem limiter_window_bound trust rqs k w :
  Sorted (fun a b => (arrival a <= arrival b)%Z) rqs ->
  Forall (fun rq => (0 <= arrival rq)%Z) rqs ->
  passed_in trust k w rqs (snd (run_limiter trust limiter_init rqs)) <= max_hits.
Proof.
  intros Hs H0. etrans; [apply passed_in_allowance|].
  - apply Sorted_StronglySorted; [intros ?????; lia|done].
  - eapply Forall_impl; [exact H0|]. intros rq Hr. cbn. apply Z.div_pos; [done|reflexivity].
  - unfold allowance, max_hits. destruct (Z.eqb w _); lia.
Qed.

Lemma limiter_window_bound_witness :
  passed_in (fun _ => false) "203.0.113.7" 0 (spoofed "203.0.113.7" 5000 150)
    (snd (run_limiter (fun _ => false) limiter_init (spoofed "203.0.113.7" 5000 150))) <= max_hits.
Proof.
  apply limiter_window_bound; [decide_true|decide_true].
Defined.

(** A request of a client that connects from [sock] without an
    [X-Forwarded-For] header, on [path], in the hour [w]. *)
Definition in_hour_from (sock path : string) (w : Z) (rq : request) : Prop :=
  socket_addr rq = sock /\ forwarded_for rq = None /\ req_path rq = path /\
  (w * 3600000 <= arrival rq < (w + 1) * 3600000)%Z.

(** The limiter's state counts [n] requests of [sock] in the hour [w], or
    is still in an earlier window and [n] is 0. *)
Definition counts_hour (sock : string) (w : Z) (L : limiter) (n : nat) : Prop :=
  ((w <= lim_window L)%Z /\ default 0 (lim_hits L !! sock) = n) \/ (n = 0 /\ (lim_window L < w)%Z).

Lemma req_ip_direct trust rq : forwarded_for rq = None -> req_ip trust rq = socket_addr rq.
Proof. intros Hf. unfold req_ip, forwarded_addrs. by rewrite Hf. Qed.

Lemma window_of_hour t w : (w * 3600000 <= t < (w + 1) * 3600000)%Z -> window_of t = w.
Proof. intros Ht. unfold window_of, windowMs. symmetry. apply (Z.div_unique_pos _ _ _ (t - w * 3600000)); lia. Qed.

Lemma counts_hour_init sock w : counts_hour sock w limiter_init 0.
Proof.
  unfold counts_hour. cbn. rewrite lookup_empty. destruct (Z.le_gt_cases w 0); [left|right]; split; done || lia.
Qed.

Lemma limit_request_in_hour trust sock path w L n rq :
  mount_matches "/api" path = true -> in_hour_from sock path w rq -> counts_hour sock w L n ->
  snd (limit_request trust L rq) = Nat.leb (S n) max_hits /\ counts_hour sock w (fst (limit_request trust L rq)) (S n).
Proof.
  intros Hm (Hs & Hf & Hp & Ht) Hc. unfold limit_request, limiter_hit.
  rewrite Hp, Hm, req_ip_direct, Hs, (window_of_hour _ w Ht) by done.
  destruct Hc as [[Hw Hn] | [-> Hw]].
  - rewrite (proj2 (Z.ltb_ge _ _) Hw). cbn [fst snd lim_hits lim_window]. rewrite Hn. split; [done|].
    left. cbn [lim_hits lim_window]. by rewrite lookup_insert_eq.
  - rewrite (proj2 (Z.ltb_lt _ _) Hw). cbn [fst snd lim_hits lim_window]. rewrite lookup_empty. split; [done|].
    left. cbn [lim_hits lim_window]. rewrite lookup_insert_eq. split; [lia|done].
Qed.

Lemma run_limiter_in_hour trust sock path w rqs L n :
  mount_matches "/api" path = true -> Forall (in_hour_from sock path w) rqs -> counts_hour sock w L n ->
  snd (run_limiter trust L rqs) = map (fun i => Nat.leb i max_hits) (seq (S n) (length rqs)).
Proof.
  intros Hm Hall. revert L n. induction Hall as [|rq rqs Hrq Hall IH]; intros L n Hc; [done|].
  destruct (limit_request_in_hour trust sock path w L n rq Hm Hrq Hc) as [Hb Hc'].
  rewrite run_limiter_cons. cbn [length seq map snd]. rewrite Hb. f_equal. by apply IH.
Qed.

(** C25: The limit of [app.js] (line 84: [max: 100], [windowMs] of an
    hour) for a client that connects directly: of the requests under
    [/api] it sends in one clock hour, whatever [trust proxy] is, the
    first 100 pass and every later one is refused; the [i]-th passes
    exactly when [i <= 100]. *)
Theorem limiter_hour_one_client trust sock path w rqs :
  mount_matches "/api" path = true -> Forall (in_hour_from sock path w) rqs ->
  snd (run_limiter trust limiter_init rqs) = map (fun i => Nat.leb i 100) (seq 1 (length rqs)).
Proof. intros Hm Hall. apply (run_limiter_in_hour trust sock path w rqs limiter_init 0 Hm Hall), counts_hour_init. Qed.

Lemma limiter_hour_one_client_witness :
  snd (run_limiter trust_proxy limiter_init (repeat (mk_request "203.0.113.7" None "/api/v1/tours" 5000) 150)) =
  map (fun i => Nat.leb i 100) (seq 1 150).
Proof.
  apply (limiter_hour_one_client trust_proxy "203.0.113.7" "/api/v1/tours" 0); [reflexivity|].
  apply Forall_forall. intros rq ->%list_elem_of_In%repeat_spec. unfold in_hour_from. cbn. split_and!; reflexivity || lia.
Defined.

(** C26: With [app.enable('trust proxy')], [req.ip] is the leftmost
    [X-Forwarded-For] entry, which the client writes: one client, from one
    socket and at one instant, gets any number of requests past the
    limiter by giving each a different header value.  The limit of 100
    requests an hour per address does not bound a client. *)
Theorem forwarded_for_bypass sock path t hs :
  mount_matches "/api" path = true -> (0 <= t)%Z -> NoDup hs -> Forall (fun h => plain_addr h = true) hs ->
  snd (run_limiter trust_proxy limiter_init (map (fun h => mk_request sock (Some h) path t) hs)) =
  repeat true (length hs).
Proof.
  intros Hm Ht Hnd Hp. apply fresh_forwarded_pass; try done.
  - cbn. apply Z.div_pos; [done|reflexivity].
  - apply Forall_forall. intros h _. apply lookup_empty.
Qed.

Lemma forwarded_for_bypass_witness :
  snd (run_limiter trust_proxy limiter_init
         (map (fun h => mk_request "203.0.113.7" (Some h) "/api/v1/tours" 5000)
              (map (fun i => "10.0." +:+ pretty i) (seq 0 150)))) = repeat true 150.
Proof.
  apply (forwarded_for_bypass "203.0.113.7" "/api/v1/tours" 5000
           (map (fun i => "10.0." +:+ pretty i) (seq 0 150)));
    first [reflexivity | lia | decide_true].
Defined.
