(* ===== verification/Routes.v ===== *)
(** * The routers of the API and the access they grant

    [src/routes/tourRoutes.js], [reviewRoutes.js] and [userRoutes.js] build
    three Express routers; [src/app.js] mounts them on [/api/v1/tours],
    [/api/v1/users] and [/api/v1/reviews] (lines 128-130) and answers 404
    to everything else (lines 133-144).  The tour router also mounts the
    review router on ['/:id/reviews'] (tourRoutes.js line 18); the review
    router is created with [mergeParams: true], so it sees the tour's
    parameters as well.

    A router is the list of its layers in the order the code registers
    them: [router.use(...)] (middleware for every path under the router),
    [router.route(path).get(...).post(...)] (one route with a chain per
    method) and [router.use(path, subRouter)].  Express runs the first
    layer whose path matches; a middleware that calls [next] hands over to
    the next matching layer.  Literal path segments match without regard
    to case, a [:param] segment matches one non-empty segment, and a
    trailing slash is ignored.

    [authController.protect] and [authController.restrictTo] are not under
    [src/]; they are modelled from their use: [protect] refuses (401) a
    request without a logged-in user, [restrictTo(...roles)] refuses (403)
    a user whose role is not listed.  The other middleware of the chains
    ([aliasTopTours], [setTourUserIds], the image uploads) calls [next]. *)

From Stdlib Require Import Ascii.
From S2P Require Import Prelude Store JsValues RateLimit.
Local Open Scope nat_scope.

(** ** Routers *)

Inductive seg := Lit (s : string) | Param (name : string).

Inductive role := role_user | role_guide | role_lead_guide | role_admin.

#[export] Instance role_eq_dec : EqDecision role.
Proof. solve_decision. Defined.

Inductive step :=
  | protect
  | restrictTo (roles : list role)
  | through (name : string)
  | handle (name : string).

Inductive router_name := appRouter | tourRouter | reviewRouter | userRouter.

Inductive layer :=
  | use_layer (steps : list step)
  | route_layer (pat : list seg) (methods : list (string * list step))
  | mount_layer (pat : list seg) (sub : router_name).

(** [tourRoutes.js] lines 18-52. *)
Definition tour_layers : list layer :=
  [ mount_layer [Param "id"; Lit "reviews"] reviewRouter;
    route_layer [Lit "top-5-cheap"] [("GET", [through "aliasTopTours"; handle "getAllTours"])];
    route_layer [Lit "tour-stats"] [("GET", [handle "getTourStats"])];
    route_layer [Lit "monthly-plan"; Param "year"]
      [("GET", [protect; restrictTo [role_admin; role_lead_guide; role_guide]; handle "getMonthlyPlan"])];
    route_layer [Lit "tours-within"; Param "distance"; Lit "center"; Param "latlng"; Lit "unit"; Param "unit"]
      [("GET", [handle "getToursWithin"])];
    route_layer [Lit "distances"; Param "latlng"; Lit "unit"; Param "unit"] [("GET", [handle "getDistances"])];
    route_layer []
      [("GET", [handle "getAllTours"]);
       ("POST", [protect; restrictTo [role_admin; role_lead_guide]; handle "createTour"])];
    route_layer [Param "id"]
      [("GET", [handle "getTour"]);
       ("PATCH", [protect; restrictTo [role_admin; role_lead_guide]; through "uploadTourImages";
                  through "resizeTourImages"; handle "updateTour"]);
       ("DELETE", [protect; restrictTo [role_admin; role_lead_guide]; handle "deleteTour"])] ].

(** [reviewRoutes.js] lines 9-22. *)
Definition review_layers : list layer :=
  [ use_layer [protect];
    route_layer []
      [("GET", [handle "getAllReviews"]);
       ("POST", [restrictTo [role_user]; through "setTourUserIds"; handle "createReview"])];
    route_layer [Param "id"]
      [("PATCH", [restrictTo [role_user; role_admin]; handle "updateReview"]);
       ("DELETE", [restrictTo [role_user; role_admin]; handle "deleteReview"]);
       ("GET", [handle "getReview"])] ].

(** [userRoutes.js] lines 7-32. *)
Definition user_layers : list layer :=
  [ route_layer [Lit "signup"] [("POST", [handle "signup"])];
    route_layer [Lit "login"] [("POST", [handle "login"])];
    route_layer [Lit "logout"] [("GET", [handle "logout"])];
    route_layer [Lit "forgotPassword"] [("POST", [handle "forgotPassword"])];
    route_layer [Lit "resetPassword"; Param "token"] [("PATCH", [handle "resetPassword"])];
    use_layer [protect];
    route_layer [Lit "me"] [("GET", [through "getMe"; handle "getUser"])];
    route_layer [Lit "updateMyPassword"] [("PATCH", [handle "updatePassword"])];
    route_layer [Lit "updateMe"]
      [("PATCH", [through "uploadUserPhoto"; through "resizeUserPhoto"; handle "updateMe"])];
    route_layer [Lit "deleteMe"] [("DELETE", [handle "deleteMe"])];
    use_layer [protect; restrictTo [role_admin]];
    route_layer [] [("GET", [handle "getAllUsers"]); ("POST", [handle "createUser"])];
    route_layer [Param "id"]
      [("GET", [handle "getUser"]); ("PATCH", [handle "updateUser"]); ("DELETE", [handle "deleteUser"])] ].

(** [app.js] lines 128-130. *)
Definition app_layers : list layer :=
  [ mount_layer [Lit "api"; Lit "v1"; Lit "tours"] tourRouter;
    mount_layer [Lit "api"; Lit "v1"; Lit "users"] userRouter;
    mount_layer [Lit "api"; Lit "v1"; Lit "reviews"] reviewRouter ].

Definition router_layers (r : router_name) : list layer :=
  match r with
  | appRouter => app_layers
  | tourRouter => tour_layers
  | reviewRouter => review_layers
  | userRouter => user_layers
  end.

(** [express.Router({ mergeParams: true })] (reviewRoutes.js line 9). *)
Definition mergeParams (r : router_name) : bool :=
  match r with reviewRouter => true | _ => false end.

(** ** Matching *)

(** The segments of a path: [/a/b/] is [["a"; "b"]]. *)
Definition segments (path : string) : list string :=
  let ws := js_split "/"%char path in
  let ws := match ws with EmptyString :: ws' => ws' | _ => ws end in
  match rev ws with EmptyString :: ws' => rev ws' | _ => ws end.

Definition lower (s : string) : list ascii := map ascii_lower (chars s).

Definition params := list (string * string).

Fixpoint param_get (k : string) (ps : params) : option string :=
  match ps with
  | [] => None
  | (k', v) :: ps' => if String.eqb k k' then Some v else param_get k ps'
  end.

(** A pattern against the first segments: the parameters and the rest. *)
Fixpoint match_prefix (pat : list seg) (ws : list string) : option (params * list string) :=
  match pat, ws with
  | [], _ => Some ([], ws)
  | Lit s :: pat', w :: ws' =>
      if bool_decide (lower s = lower w) then match_prefix pat' ws' else None
  | Param n :: pat', w :: ws' =>
      if String.eqb w "" then None
      else (fun '(ps, rest) => ((n, w) :: ps, rest)) <$> match_prefix pat' ws'
  | _ :: _, [] => None
  end.

Definition match_full (pat : list seg) (ws : list string) : option params :=
  match match_prefix pat ws with
  | Some (ps, []) => Some ps
  | _ => None
  end.

Fixpoint method_chain (m : string) (ms : list (string * list step)) : option (list step) :=
  match ms with
  | [] => None
  | (m', ch) :: ms' => if String.eqb m m' then Some ch else method_chain m ms'
  end.

(** ** Dispatch *)

(** The logged-in user, if any: an id and a role. *)
Definition user := option (oid * role).

Inductive dispatch_result :=
  | Handled (ran : list string) (ps : params)
  | Refused (status : Z)
  | OutOfFuel.

(** Where a chain leaves the request: handed to the next layer (with the
    middleware run so far), or answered. *)
Inductive chain_end := Next (ran : list string) | Stop (r : dispatch_result).

Definition step_passes (u : user) (s : step) : bool :=
  match s, u with
  | protect, None => false
  | restrictTo rs, Some (_, r) => bool_decide (r ∈ rs)
  | restrictTo _, None => false
  | _, _ => true
  end.

(** A chain of middleware: [protect] answers 401 without a user;
    [restrictTo] answers 403 to a role it does not list (and, without
    [req.user], throws: 500). *)
Fixpoint run_chain (u : user) (ps : params) (ran : list string) (ch : list step) : chain_end :=
  match ch with
  | [] => Next ran
  | protect :: ch' => if step_passes u protect then run_chain u ps ran ch' else Stop (Refused 401)
  | restrictTo rs :: ch' =>
      match u with
      | None => Stop (Refused 500)
      | Some _ => if step_passes u (restrictTo rs) then run_chain u ps ran ch' else Stop (Refused 403)
      end
  | through n :: ch' => run_chain u ps (ran ++ [n]) ch'
  | handle n :: _ => Stop (Handled (ran ++ [n]) ps)
  end.

Section Layers.
(** The request (user, method, path segments left), the router's
    [mergeParams] and the parameters it inherits, and how a mounted
    router is entered (its parameters, the rest of the path, the
    middleware run so far). *)
Context (u : user) (m : string) (merge : bool) (parent : params) (ws : list string).
Context (enter : router_name -> params -> list string -> list string -> chain_end).

Definition own_params (ps : params) : params := if merge then ps ++ parent else ps.

(** The layers of a router, in order. *)
Fixpoint run_layers (ran : list string) (ls : list layer) : chain_end :=
  match ls with
  | [] => Next ran
  | use_layer ch :: ls' =>
      match run_chain u (own_params []) ran ch with
      | Next ran' => run_layers ran' ls'
      | Stop r => Stop r
      end
  | route_layer pat ms :: ls' =>
      match match_full pat ws, method_chain m ms with
      | Some ps, Some ch =>
          match run_chain u (own_params ps) ran ch with
          | Next ran' => run_layers ran' ls'
          | Stop r => Stop r
          end
      | _, _ => run_layers ran ls'
      end
  | mount_layer pat sub :: ls' =>
      match match_prefix pat ws with
      | Some (ps, rest) =>
          match enter sub (own_params ps) rest ran with
          | Next ran' => run_layers ran' ls'
          | Stop r => Stop r
          end
      | None => run_layers ran ls'
      end
  end.

End Layers.

(** A router, entered with [fuel] levels of nesting left. *)
Fixpoint route_router (fuel : nat) (u : user) (m : string) (r : router_name) (parent : params)
    (ws : list string) (ran : list string) : chain_end :=
  run_layers u m (mergeParams r) parent ws
    (fun sub ps rest ran' =>
       match fuel with
       | 0 => Stop OutOfFuel
       | S fuel' => route_router fuel' u m sub ps rest ran'
       end)
    ran (router_layers r).

(** The application: the routers, then [app.all('*')], a 404. *)
Definition app_dispatch (fuel : nat) (u : user) (m : string) (path : string) : dispatch_result :=
  match route_router fuel u m appRouter [] (segments path) [] with
  | Stop r => r
  | Next _ => Refused 404
  end.

(** The application mounts the tour router, which mounts the review
    router: two levels. *)
Definition api_fuel : nat := 2.

(** ** The ways to a handler, and the access the code means to grant *)

Section Entries.
(** The ways into a mounted router, given the steps run before it. *)
Context (sub_entries : router_name -> list step -> list (list step * string)).

(** The handlers a chain can reach, with the steps run before each. *)
Fixpoint chain_entries (pre : list step) (ch : list step) : list (list step * string) :=
  match ch with
  | [] => []
  | handle n :: _ => [(pre, n)]
  | s :: ch' => chain_entries (pre ++ [s]) ch'
  end.

Fixpoint layer_entries (pre : list step) (ls : list layer) : list (list step * string) :=
  match ls with
  | [] => []
  | use_layer ch :: ls' => chain_entries pre ch ++ layer_entries (pre ++ ch) ls'
  | route_layer _ ms :: ls' => flat_map (fun mc => chain_entries pre mc.2) ms ++ layer_entries pre ls'
  | mount_layer _ sub :: ls' => sub_entries sub pre ++ layer_entries pre ls'
  end.

End Entries.

Fixpoint router_entries (fuel : nat) (r : router_name) (pre : list step) : list (list step * string) :=
  layer_entries (fun sub pre' => match fuel with 0 => [] | S f => router_entries f sub pre' end)
    pre (router_layers r).

(** The routers a router mounts, and how deep the nesting goes below it. *)
Definition mounts (ls : list layer) : list router_name :=
  flat_map (fun l => match l with mount_layer _ sub => [sub] | _ => [] end) ls.

Definition router_depth (r : router_name) : nat :=
  match r with appRouter => 2 | tourRouter => 1 | reviewRouter | userRouter => 0 end.

(** Who may reach a handler. *)
Inductive access := anyone | logged_in | role_in (rs : list role).

Definition permits (a : access) (u : user) : bool :=
  match a, u with
  | anyone, _ => true
  | logged_in, Some _ => true
  | role_in rs, Some (_, r) => bool_decide (r ∈ rs)
  | _, None => false
  end.

(** The access the routes are written to grant: tours are written by
    administrators and lead guides, the monthly plan is for the staff,
    users are managed by administrators, reviews are written by users and
    edited by users and administrators, and a user's own account and the
    reviews need a login. *)
Definition access_policy (h : string) : access :=
  if bool_decide (h ∈ ["createTour"; "updateTour"; "deleteTour"]) then role_in [role_admin; role_lead_guide]
  else if bool_decide (h = "getMonthlyPlan") then role_in [role_admin; role_lead_guide; role_guide]
  else if bool_decide (h ∈ ["getAllUsers"; "createUser"; "updateUser"; "deleteUser"]) then role_in [role_admin]
  else if bool_decide (h = "createReview") then role_in [role_user]
  else if bool_decide (h ∈ ["updateReview"; "deleteReview"]) then role_in [role_user; role_admin]
  else if bool_decide (h ∈ ["getAllReviews"; "getReview"; "getUser"; "updatePassword"; "updateMe"; "deleteMe"])
  then logged_in
  else anyone.

(** Steps that, once passed, guarantee the access [a]. *)
Definition guards_give (G : list step) (a : access) : bool :=
  match a with
  | anyone => true
  | logged_in => existsb (fun s => match s with protect | restrictTo _ => true | _ => false end) G
  | role_in rs => existsb (fun s => match s with restrictTo rs' => bool_decide (rs' ⊆ rs) | _ => false end) G
  end.

Definition passes_all (u : user) (G : list step) : Prop := Forall (fun s => step_passes u s = true) G.

(** A path segment as a client writes it: not empty, without [/]. *)
Definition plain_segment (t : string) : bool :=
  negb (String.eqb t "") && forallb (fun c => negb (Ascii.eqb c "/")) (chars t).

(** ** Lemmas *)

Lemma run_chain_not_oof u ps ran ch : run_chain u ps ran ch <> Stop OutOfFuel.
Proof.
  revert ran. induction ch as [|[] ch IH]; intros ran; cbn; try done;
    repeat case_match; try done; apply IH.
Qed.

Lemma run_chain_next u ps ran ch ran' : run_chain u ps ran ch = Next ran' -> passes_all u ch.
Proof.
  revert ran. induction ch as [|s ch IH]; intros ran; [constructor|].
  destruct s; cbn [run_chain].
  - destruct (step_passes u protect) eqn:E; [|intros [=]]. intros Hn. constructor; [done|]. exact (IH _ Hn).
  - destruct u as [[? r]|]; [|intros [=]]. destruct (step_passes _ (restrictTo _)) eqn:E; [|intros [=]].
    intros Hn. constructor; [done|]. exact (IH _ Hn).
  - intros Hn. constructor; [done|]. exact (IH _ Hn).
  - intros [=].
Qed.

Lemma run_chain_handled u ps ran ch pre names ps' :
  passes_all u pre -> run_chain u ps ran ch = Stop (Handled names ps') ->
  exists G h, (G, h) ∈ chain_entries pre ch /\ passes_all u G /\ last names = Some h.
Proof.
  revert ran pre. induction ch as [|s ch IH]; intros ran pre Hpre; [done|].
  assert (Hs : forall ran', step_passes u s = true -> run_chain u ps ran' ch = Stop (Handled names ps') ->
            exists G h, (G, h) ∈ chain_entries (pre ++ [s]) ch /\ passes_all u G /\ last names = Some h)
    by (intros ran' Hp; apply IH; apply Forall_app; split; [done|by constructor]).
  destruct s; cbn [run_chain].
  - case_match; [by apply Hs|done].
  - destruct u as [[]|]; [|done]. case_match; [by apply Hs|done].
  - by apply Hs.
  - intros [= <- _]. exists pre, name. split; [by left|]. split; [done|]. by rewrite last_snoc.
Qed.

Lemma method_chain_elem m ms ch : method_chain m ms = Some ch -> exists m', (m', ch) ∈ ms.
Proof.
  induction ms as [|[m' ch'] ms IH]; cbn; [done|]. case_match.
  - intros [= <-]. exists m'. by left.
  - intros Hm. destruct (IH Hm) as [m'' ?]. exists m''. by right.
Qed.

Section LayerLemmas.
Context (u : user) (m : string) (merge : bool) (parent : params) (ws : list string).

(** Only the routers a list mounts matter to it. *)
Lemma run_layers_ext e1 e2 ran ls :
  (forall sub ps rest ran', sub ∈ mounts ls -> e1 sub ps rest ran' = e2 sub ps rest ran') ->
  run_layers u m merge parent ws e1 ran ls = run_layers u m merge parent ws e2 ran ls.
Proof.
  revert ran. induction ls as [|[] ls IH]; intros ran He; cbn; [done|..].
  - case_match; [apply IH|done]. intros; apply He; cbn; rewrite ?elem_of_cons; auto.
  - repeat case_match; try (apply IH; intros; apply He; cbn; rewrite ?elem_of_cons; auto). done.
  - assert (IH' : forall r, run_layers u m merge parent ws e1 r ls = run_layers u m merge parent ws e2 r ls)
      by (intros r; apply IH; intros; apply He; cbn; rewrite ?elem_of_cons; auto).
    case_match; [|apply IH']. destruct p as [ps rest]. rewrite He by (cbn; rewrite elem_of_cons; auto).
    case_match; [apply IH'|done].
Qed.

Lemma run_layers_not_oof e ran ls :
  (forall sub ps rest ran', sub ∈ mounts ls -> e sub ps rest ran' <> Stop OutOfFuel) ->
  run_layers u m merge parent ws e ran ls <> Stop OutOfFuel.
Proof.
  revert ran. induction ls as [|[] ls IH]; intros ran He; cbn; [done|..].
  - destruct (run_chain _ _ _ _) eqn:E; [apply IH; intros; apply He; cbn; rewrite ?elem_of_cons; auto|].
    intros [= ->]. by eapply run_chain_not_oof.
  - repeat case_match; try (apply IH; intros; apply He; cbn; rewrite ?elem_of_cons; auto);
      intros [= ->]; by eapply run_chain_not_oof.
  - destruct (match_prefix pat ws) as [[ps rest]|];
      [|apply IH; intros; apply He; cbn; rewrite ?elem_of_cons; auto].
    destruct (e _ _ _ _) eqn:E; [apply IH; intros; apply He; cbn; rewrite ?elem_of_cons; auto|].
    intros [= ->]. apply (He sub (own_params merge parent ps) rest ran); [cbn; rewrite elem_of_cons; auto|exact E].
Qed.

Lemma run_layers_sound e sub_entries ls :
  (forall sub pre ps rest ran names ps', passes_all u pre ->
     e sub ps rest ran = Stop (Handled names ps') ->
     exists G h, (G, h) ∈ sub_entries sub pre /\ passes_all u G /\ last names = Some h) ->
  forall pre ran names ps', passes_all u pre ->
  run_layers u m merge parent ws e ran ls = Stop (Handled names ps') ->
  exists G h, (G, h) ∈ layer_entries sub_entries pre ls /\ passes_all u G /\ last names = Some h.
Proof.
  intros He. induction ls as [|[] ls IH]; intros pre ran names ps' Hpre; cbn; [done|..].
  - destruct (run_chain _ _ _ _) eqn:E.
    + intros H. apply run_chain_next in E.
      destruct (IH (pre ++ steps) _ _ _ (Forall_app_2 _ _ _ Hpre E) H) as (G & h & ? & ?).
      exists G, h. rewrite elem_of_app. eauto.
    + intros [= ->]. destruct (run_chain_handled _ _ _ _ _ _ _ Hpre E) as (G & h & ? & ?).
      exists G, h. rewrite elem_of_app. eauto.
  - destruct (match_full pat ws), (method_chain m methods) as [ch|] eqn:Em;
      try (intros H; destruct (IH pre _ _ _ Hpre H) as (G & h & ? & ?);
           exists G, h; rewrite elem_of_app; eauto).
    destruct (run_chain _ _ _ _) eqn:E.
    + intros H. destruct (IH pre _ _ _ Hpre H) as (G & h & ? & ?).
      exists G, h. rewrite elem_of_app. eauto.
    + intros [= ->]. destruct (run_chain_handled _ _ _ _ _ _ _ Hpre E) as (G & h & Hg & ?).
      destruct (method_chain_elem _ _ _ Em) as [m' Hin].
      exists G, h. split; [|done]. rewrite elem_of_app, list_elem_of_In, in_flat_map. left.
      exists (m', ch). split; [by apply list_elem_of_In|]. by apply list_elem_of_In.
  - destruct (match_prefix pat ws) as [[ps rest]|];
      [destruct (e sub _ _ _) eqn:E|];
      try (intros H; destruct (IH pre _ _ _ Hpre H) as (G & h & ? & ?);
           exists G, h; rewrite elem_of_app; eauto).
    intros [= ->]. destruct (He _ _ _ _ _ _ _ Hpre E) as (G & h & ? & ?).
    exists G, h. rewrite elem_of_app. eauto.
Qed.

End LayerLemmas.

Lemma mounts_depth r sub : sub ∈ mounts (router_layers r) -> S (router_depth sub) <= router_depth r.
Proof.
  destruct r; cbn; intros H;
    repeat (apply elem_of_cons in H as [->|H]; [cbn; lia|]); by apply elem_of_nil in H.
Qed.

(** Enough fuel for a router's nesting: more changes nothing, and the
    dispatch never runs out. *)
Lemma route_router_fuel fuel : forall r fuel' u m parent ws ran,
  router_depth r <= fuel -> fuel <= fuel' ->
  route_router fuel' u m r parent ws ran = route_router fuel u m r parent ws ran /\
  route_router fuel u m r parent ws ran <> Stop OutOfFuel.
Proof.
  induction fuel as [|f IH]; intros r fuel' u m parent ws ran Hd Hle.
  - assert (Hno : forall sub, sub ∈ mounts (router_layers r) -> False)
      by (intros sub Hs; apply mounts_depth in Hs; lia).
    split; [destruct fuel'; cbn [route_router]; [done|]|cbn [route_router]].
    + apply run_layers_ext. intros ???? Hs. destruct (Hno _ Hs).
    + apply run_layers_not_oof. intros ???? Hs. destruct (Hno _ Hs).
  - destruct fuel' as [|f']; [lia|]. cbn [route_router]. split.
    + apply run_layers_ext. intros sub ps rest ran' Hs. apply mounts_depth in Hs.
      apply IH; lia.
    + apply run_layers_not_oof. intros sub ps rest ran' Hs. apply mounts_depth in Hs.
      apply (IH sub f); lia.
Qed.

Lemma route_router_sound fuel : forall u m r parent ws ran pre names ps,
  passes_all u pre -> route_router fuel u m r parent ws ran = Stop (Handled names ps) ->
  exists G h, (G, h) ∈ router_entries fuel r pre /\ passes_all u G /\ last names = Some h.
Proof.
  induction fuel as [|f IH]; intros u m r parent ws ran pre names ps Hpre;
    cbn [route_router router_entries]; apply run_layers_sound; try done.
  intros sub pre' ps' rest ran' names' ps''. apply IH.
Qed.

Lemma app_dispatch_handled fuel u m path names ps :
  app_dispatch fuel u m path = Handled names ps ->
  exists G h, (G, h) ∈ router_entries fuel appRouter [] /\ passes_all u G /\ last names = Some h.
Proof.
  unfold app_dispatch. destruct (route_router _ _ _ _ _ _ _) eqn:E; [done|].
  intros ->. eapply route_router_sound; [constructor|exact E].
Qed.

Lemma guards_give_permits G a u : guards_give G a = true -> passes_all u G -> permits a u = true.
Proof.
  intros Hg Hp. unfold passes_all in Hp. rewrite Forall_forall in Hp. destruct a as [| |rs]; [done|..];
    cbn in Hg; apply existsb_exists in Hg as [s [Hin Hs]];
    specialize (Hp s (proj2 (list_elem_of_In _ _) Hin)); destruct s; try done;
    destruct u as [[? r]|]; try done; cbn in *.
  apply bool_decide_eq_true in Hs, Hp. apply bool_decide_eq_true. by apply Hs.
Qed.

(** Every way the route table gives to a handler passes the guards its
    access asks for. *)
Lemma app_entries_policy :
  Forall (fun e => guards_give e.1 (access_policy e.2) = true) (router_entries api_fuel appRouter []).
Proof. decide_true. Qed.


Lemma segments_join ws :
  ws <> [] -> Forall (fun t => plain_segment t = true) ws -> segments (String "/" (join "/" ws)) = ws.
Proof.
  intros Hne Hp. unfold segments, js_split.
  change (chars (String "/" (join "/" ws))) with ("/"%char :: chars (join "/" ws)).
  rewrite chars_join, split_at_sep by reflexivity.
  rewrite split_at_join; [|reflexivity|by destruct ws|].
  2:{ rewrite Forall_map. eapply Forall_impl; [exact Hp|]. intros t Ht.
      apply andb_true_iff in Ht as [_ Ht]. rewrite forallb_forall in Ht.
      apply Forall_forall. intros c Hc%list_elem_of_In. apply negb_true_iff, Ht, Hc. }
  cbn [map]. rewrite map_map, (map_ext (fun x => of_chars (chars x)) id of_chars_chars), map_id.
  change (of_chars []) with EmptyString. cbn beta iota.
  destruct (List.rev ws) as [|t rws] eqn:E; [done|].
  assert (Ht : plain_segment t = true).
  { apply (Forall_forall (fun t => plain_segment t = true) ws); [done|].
    apply list_elem_of_In, in_rev. rewrite E. by left. }
  by destruct t.
Qed.

(** A path of plain segments, in the form [segments_join] reads. *)
Ltac plain_path ws :=
  match goal with
  | |- context [app_dispatch _ _ _ ?p] =>
      change p with (String "/" (join "/" ws)); unfold app_dispatch;
      rewrite segments_join; [|done|repeat constructor; assumption]
  end.

(** ** Theorems *)

(** C23: Whatever the path, the method and the user, a request the
    routers hand to a handler comes from a user the handler's access
    allows: tours are created, updated and deleted only by administrators
    and lead guides, the monthly plan is served only to staff, users are
    managed only by administrators, reviews are created only by users and
    edited only by users and administrators, and the review and account
    routes need a login.  The route order, the [router.use] middleware
    that covers only the routes after it, and the mounted review router
    are all taken into account. *)
Theorem router_enforces_policy u m path names ps :
  app_dispatch api_fuel u m path = Handled names ps ->
  exists h, last names = Some h /\ permits (access_policy h) u = true.
Proof.
  intros H. destruct (app_dispatch_handled _ _ _ _ _ _ H) as (G & h & Hin & Hp & Hl).
  exists h. split; [done|]. eapply guards_give_permits; [|exact Hp].
  exact (proj1 (Forall_forall _ _) app_entries_policy (G, h) Hin).
Qed.

Lemma router_enforces_policy_witness :
  exists h, last ["uploadTourImages"; "resizeTourImages"; "updateTour"] = Some h /\
            permits (access_policy h) (Some (1%nat, role_lead_guide)) = true.
Proof.
  apply (router_enforces_policy (Some (1%nat, role_lead_guide)) "PATCH" "/api/v1/tours/5" _ [("id", "5")]).
  vm_compute. reflexivity.
Defined.

(** Routing terminates: the routers nest two deep, so with two
    levels of fuel or more every request gets the same answer, and never
    the one for running out. *)
Theorem app_dispatch_terminates fuel u m path :
  api_fuel <= fuel ->
  app_dispatch fuel u m path = app_dispatch api_fuel u m path /\ app_dispatch api_fuel u m path <> OutOfFuel.
Proof.
  intros Hf. unfold app_dispatch.
  destruct (route_router_fuel api_fuel appRouter fuel u m [] (segments path) [] (le_n _) Hf) as [-> Hn].
  split; [done|]. destruct (route_router _ _ _ _ _ _ _); [done|]. by intros ->.
Qed.

Lemma app_dispatch_terminates_witness :
  app_dispatch 5 None "GET" "/api/v1/tours" = app_dispatch api_fuel None "GET" "/api/v1/tours" /\
  app_dispatch api_fuel None "GET" "/api/v1/tours" <> OutOfFuel.
Proof. apply app_dispatch_terminates. unfold api_fuel. lia. Defined.

(** C24: Any logged-in user with the role [user] reaches [updateReview]
    and [deleteReview] for every review id: no step of the chain looks
    at who wrote the review, where the spec allows only the review's
    owner or an administrator.  And a review posted under a tour,
    [POST /api/v1/tours/:id/reviews], reaches [createReview] with the
    tour's id as the parameter [id], not [tourId] as the comment of
    reviewRoutes.js (line 6) names it. *)
Theorem review_routes_params uid t :
  plain_segment t = true ->
  app_dispatch api_fuel (Some (uid, role_user)) "PATCH" ("/api/v1/reviews/" +:+ t) =
    Handled ["updateReview"] [("id", t)] /\
  app_dispatch api_fuel (Some (uid, role_user)) "DELETE" ("/api/v1/reviews/" +:+ t) =
    Handled ["deleteReview"] [("id", t)] /\
  app_dispatch api_fuel (Some (uid, role_user)) "POST" ("/api/v1/tours/" +:+ t +:+ "/reviews") =
    Handled ["setTourUserIds"; "createReview"] [("id", t)].
Proof.
  intros Ht. split; [|split].
  - plain_path ["api"; "v1"; "reviews"; t].
    destruct t as [|c t']; [done|]. vm_compute. reflexivity.
  - plain_path ["api"; "v1"; "reviews"; t].
    destruct t as [|c t']; [done|]. vm_compute. reflexivity.
  - plain_path ["api"; "v1"; "tours"; t; "reviews"].
    destruct t as [|c t']; [done|]. vm_compute. reflexivity.
Qed.

Lemma review_routes_params_witness :
  app_dispatch api_fuel (Some (42%nat, role_user)) "PATCH" ("/api/v1/reviews/" +:+ "7") =
    Handled ["updateReview"] [("id", "7")] /\
  app_dispatch api_fuel (Some (42%nat, role_user)) "DELETE" ("/api/v1/reviews/" +:+ "7") =
    Handled ["deleteReview"] [("id", "7")] /\
  app_dispatch api_fuel (Some (42%nat, role_user)) "POST" ("/api/v1/tours/" +:+ "7" +:+ "/reviews") =
    Handled ["setTourUserIds"; "createReview"] [("id", "7")].
Proof. apply review_routes_params. reflexivity. Defined.
