(* ===== verification/AppPipeline.v ===== *)
(** * The middleware stack of [src/app.js]

    [app.js] registers, in this order: [cors()] (line 36),
    [app.options('*', cors())] (line 41), [express.static] on [public]
    (line 46), [helmet] (lines 49-77), [morgan] in development only (lines
    80-82), the rate limiter on [/api] (lines 85-90), the Stripe webhook
    route with a raw body (line 93), the JSON and urlencoded body parsers
    limited to [10kb] (lines 96-97), [cookieParser] (line 98),
    [mongoSanitize] (line 103), [xss] (line 107), [hpp] (lines 110-115),
    [compression] (line 117), the request-time stamp (lines 121-124), the
    view router on [/] (line 127), the three API routers (lines 128-130),
    the booking router (line 131) and [app.all('*')] (lines 133-144).
    Express runs them in that order; each either answers or calls [next].

    A request is what these middlewares read: its method, the part
    [RateLimit.v] reads (socket, [X-Forwarded-For], path, arrival), the
    logged-in user [Routes.v] dispatches on, the content type and length of
    its body and whether a non-empty body parses, and [req.query].  The
    middleware the stack is made of is the inductive [mw]; [run_mw] is one
    middleware, with the limiter's store as the state it changes, and
    [run_stack] runs a list of them; [serve] is the application.  The view
    and booking routers and [express.static]'s directory are not under
    [src/]: the section takes them as parameters.  The responses record
    which of the two header sets of the stack they carry: [cors]'s
    [Access-Control-Allow-Origin] and [helmet]'s security headers.

    The theorems show that the stack composes the models of the other
    files: a request that reaches the API routers has been counted by the
    limiter, has a body within the parsers' limits, and carries the query
    of [Middleware.app_query]; that [app.options] and [morgan] never change
    a response; that static files and preflight answers leave before
    [helmet]; which answer an oversize body gets; and that the webhook
    reads bodies ten times larger than the API may, uncounted. *)

From Stdlib Require Import Ascii.
From S2P Require Import Prelude Store JsValues Json Middleware RateLimit Routes.
Local Open Scope N_scope.

(** ** Requests and responses *)

Inductive content_type := ct_json | ct_urlencoded | ct_other.

Record http_request := mk_http {
  rq_method : string;
  rq_net : request;
  rq_user : user;
  rq_type : content_type;
  rq_body_len : N;
  rq_body_parses : bool;
  rq_query : list (string * qval);
}.

Definition rq_path (rq : http_request) : string := req_path (rq_net rq).

Definition is_method (m : string) (rq : http_request) : bool := String.eqb (rq_method rq) m.

Inductive header := h_cors | h_helmet.

(** Who answered: [cors] (a preflight, 204), [express.static], the
    limiter (429), the webhook, a body parser (413 or 400, through the
    error handler), [xss], the view router, the API routers (with the
    [req.query] they saw), the booking router, or [app.all('*')]. *)
Inductive answer :=
  | Preflight
  | StaticFile (path : string)
  | TooMany
  | Webhook
  | BodyError (status : Z)
  | QueryError (e : js_error)
  | View (r : dispatch_result)
  | Routed (query : list (string * qval)) (r : dispatch_result)
  | Booking (r : dispatch_result)
  | NotFound.

Record response := mk_response { answer_of : answer; headers_of : list header }.

(** What a middleware hands to the next: [req.query] as the middlewares
    rewrite it, and the headers set so far. *)
Record ctx := mk_ctx { c_query : qval; c_headers : list header }.

Inductive mw :=
  | mw_cors | mw_options | mw_static | mw_helmet | mw_morgan | mw_limiter
  | mw_webhook | mw_json | mw_urlencoded | mw_cookieParser
  | mw_mongoSanitize | mw_xss | mw_hpp | mw_compression | mw_requestTime
  | mw_viewRouter | mw_apiRouters | mw_bookingRouter | mw_notFound.

(** The stack, with [morgan] when [NODE_ENV] is [development]. *)
Definition app_stack (development : bool) : list mw :=
  [mw_cors; mw_options; mw_static; mw_helmet] ++
  (if development then [mw_morgan] else []) ++
  [mw_limiter; mw_webhook; mw_json; mw_urlencoded; mw_cookieParser;
   mw_mongoSanitize; mw_xss; mw_hpp; mw_compression; mw_requestTime;
   mw_viewRouter; mw_apiRouters; mw_bookingRouter; mw_notFound].

(** ** The body parsers *)

(** ['10kb'], which the [bytes] package reads as 10 * 1024 bytes, and
    [express.raw]'s default of ['100kb']. *)
Definition json_limit : N := 10 * 1024.
Definition raw_limit : N := 100 * 1024.

(** [express.json({ limit: '10kb' })]: a JSON body over the limit is
    refused with 413 before it is read; an empty one gives [{}]; one that
    does not parse gives 400.  Other content types pass. *)
Definition json_body_error (rq : http_request) : option Z :=
  match rq_type rq with
  | ct_json =>
      if N.ltb json_limit (rq_body_len rq) then Some 413%Z
      else if N.eqb (rq_body_len rq) 0 || rq_body_parses rq then None else Some 400%Z
  | _ => None
  end.

(** [express.urlencoded({ extended: true, limit: '10kb' })]. *)
Definition urlencoded_too_large (rq : http_request) : bool :=
  match rq_type rq with ct_urlencoded => N.ltb json_limit (rq_body_len rq) | _ => false end.

(** [express.raw({ type: 'application/json' })] reads JSON bodies only. *)
Definition raw_too_large (rq : http_request) : bool :=
  match rq_type rq with ct_json => N.ltb raw_limit (rq_body_len rq) | _ => false end.

(** [app.post('/webhook-checkout', ...)]. *)
Definition webhook_route (rq : http_request) : bool :=
  is_method "POST" rq && bool_decide (is_Some (match_full [Lit "webhook-checkout"] (segments (rq_path rq)))).

(** The object [req.query] is, after [xss] parsed it back. *)
Definition query_fields (v : qval) : list (string * qval) :=
  match v with QObj fs => fs | _ => [] end.

(** ** The stack *)

Section App.
(** The files under [public] that [express.static] serves, and the
    answers of the view router and the booking router (not under [src/])
    to a method and the path segments under their mount. *)
Context (public_file : string -> bool).
Context (views bookings : string -> list string -> option dispatch_result).

Definition add_header (h : header) (c : ctx) : ctx := mk_ctx (c_query c) (c_headers c ++ [h]).

Definition answer_with (a : answer) (c : ctx) : ctx + response := inr (mk_response a (c_headers c)).

Definition static_hit (rq : http_request) : bool :=
  (is_method "GET" rq || is_method "HEAD" rq) && public_file (rq_path rq).

(** One middleware: it hands the request on ([inl]) or answers ([inr]).
    [cors()] sets its header on every response and, with its default
    [preflightContinue: false], ends every OPTIONS request with 204. *)
Definition run_mw (m : mw) (rq : http_request) (L : limiter) (c : ctx) : limiter * (ctx + response) :=
  match m with
  | mw_cors =>
      let c' := add_header h_cors c in
      (L, if is_method "OPTIONS" rq then answer_with Preflight c' else inl c')
  | mw_options =>
      (L, if is_method "OPTIONS" rq then answer_with Preflight (add_header h_cors c) else inl c)
  | mw_static => (L, if static_hit rq then answer_with (StaticFile (rq_path rq)) c else inl c)
  | mw_helmet => (L, inl (add_header h_helmet c))
  | mw_limiter =>
      let '(L', ok) := limit_request trust_proxy L (rq_net rq) in
      (L', if ok then inl c else answer_with TooMany c)
  | mw_webhook =>
      (L, if webhook_route rq
          then answer_with (if raw_too_large rq then BodyError 413 else Webhook) c else inl c)
  | mw_json => (L, match json_body_error rq with Some st => answer_with (BodyError st) c | None => inl c end)
  | mw_urlencoded => (L, if urlencoded_too_large rq then answer_with (BodyError 413) c else inl c)
  | mw_mongoSanitize => (L, inl (mk_ctx (sanitize (c_query c)) (c_headers c)))
  | mw_xss =>
      (L, match xss_clean (c_query c) with
          | Ok v => inl (mk_ctx v (c_headers c))
          | Err e => answer_with (QueryError e) c
          end)
  | mw_hpp => (L, inl (mk_ctx (QObj (hpp_fields hpp_whitelist (query_fields (c_query c)))) (c_headers c)))
  | mw_viewRouter =>
      (L, match views (rq_method rq) (segments (rq_path rq)) with
          | Some r => answer_with (View r) c
          | None => inl c
          end)
  | mw_apiRouters =>
      (L, match route_router api_fuel (rq_user rq) (rq_method rq) appRouter [] (segments (rq_path rq)) [] with
          | Stop r => answer_with (Routed (query_fields (c_query c)) r) c
          | Next _ => inl c
          end)
  | mw_bookingRouter =>
      (L, match match_prefix [Lit "api"; Lit "v1"; Lit "bookings"] (segments (rq_path rq)) with
          | Some (_, rest) =>
              match bookings (rq_method rq) rest with
              | Some r => answer_with (Booking r) c
              | None => inl c
              end
          | None => inl c
          end)
  | mw_notFound => (L, answer_with NotFound c)
  | mw_morgan | mw_cookieParser | mw_compression | mw_requestTime => (L, inl c)
  end.

(** The stack in order; past its end Express's final handler answers 404. *)
Fixpoint run_stack (ms : list mw) (rq : http_request) (L : limiter) (c : ctx) : limiter * response :=
  match ms with
  | [] => (L, mk_response NotFound (c_headers c))
  | m :: ms' =>
      let '(L', r) := run_mw m rq L c in
      match r with
      | inl c' => run_stack ms' rq L' c'
      | inr resp => (L', resp)
      end
  end.

Definition ctx0 (rq : http_request) : ctx := mk_ctx (QObj (rq_query rq)) [].

Definition serve (development : bool) (L : limiter) (rq : http_request) : limiter * response :=
  run_stack (app_stack development) rq L (ctx0 rq).

(** Requests one after the other, the limiter's store shared. *)
Fixpoint run_all (ms : list mw) (L : limiter) (rqs : list http_request) : limiter * list response :=
  match rqs with
  | [] => (L, [])
  | rq :: rqs' =>
      let '(L1, r) := run_stack ms rq L (ctx0 rq) in
      let '(L2, rs) := run_all ms L1 rqs' in
      (L2, r :: rs)
  end.

Definition serve_all (development : bool) : limiter -> list http_request -> limiter * list response :=
  run_all (app_stack development).

End App.

(** The stack without [app.options] and [morgan]. *)
Definition lean_stack : list mw :=
  [mw_cors; mw_static; mw_helmet; mw_limiter; mw_webhook; mw_json; mw_urlencoded;
   mw_cookieParser; mw_mongoSanitize; mw_xss; mw_hpp; mw_compression; mw_requestTime;
   mw_viewRouter; mw_apiRouters; mw_bookingRouter; mw_notFound].

(** The body limits the API's handlers may rely on. *)
Definition body_accepted (rq : http_request) : bool :=
  match rq_type rq with
  | ct_json => N.leb (rq_body_len rq) json_limit && (N.eqb (rq_body_len rq) 0 || rq_body_parses rq)
  | ct_urlencoded => N.leb (rq_body_len rq) json_limit
  | ct_other => true
  end.

(** ** Sample requests *)

Definition sample_net (p : string) : request := mk_request "203.0.113.7" None p 0%Z.

(** [GET /api/v1/tours?sort=price], anonymous. *)
Definition tours_get : http_request :=
  mk_http "GET" (sample_net "/api/v1/tours") None ct_other 0 true [("sort", QStr "price")].

(** A logged-in user posts a review with a JSON body of [len] bytes. *)
Definition review_post (len : N) : http_request :=
  mk_http "POST" (sample_net "/api/v1/reviews") (Some (7%nat, role_user)) ct_json len true [].

(** Stripe posts a checkout event of [len] bytes. *)
Definition webhook_post (len : N) : http_request :=
  mk_http "POST" (sample_net "/webhook-checkout") None ct_json len true [].

Definition stylesheet_get : http_request :=
  mk_http "GET" (sample_net "/css/style.css") None ct_other 0 true [].

Definition public_css : string -> bool := fun p => String.eqb p "/css/style.css".
Definition no_views : string -> list string -> option dispatch_result := fun _ _ => None.

(** ** Running the stack *)

Section StackLemmas.
Context (public_file : string -> bool) (views bookings : string -> list string -> option dispatch_result).
Context (rq : http_request).

Lemma run_stack_step m ms L c L' c' :
  run_mw public_file views bookings m rq L c = (L', inl c') ->
  run_stack public_file views bookings (m :: ms) rq L c = run_stack public_file views bookings ms rq L' c'.
Proof. intros H. cbn [AppPipeline.run_stack]. by rewrite H. Qed.

Lemma run_stack_answer m ms L c L' r :
  run_mw public_file views bookings m rq L c = (L', inr r) ->
  run_stack public_file views bookings (m :: ms) rq L c = (L', r).
Proof. intros H. cbn [AppPipeline.run_stack]. by rewrite H. Qed.

(** A middleware that hands every request on untouched can be left out. *)
Lemma run_stack_skip m ms1 ms2 :
  (forall L c, run_mw public_file views bookings m rq L c = (L, inl c)) ->
  forall L c, run_stack public_file views bookings (ms1 ++ m :: ms2) rq L c =
              run_stack public_file views bookings (ms1 ++ ms2) rq L c.
Proof.
  intros Hm. induction ms1 as [|m1 ms1 IH]; intros L c; cbn [app AppPipeline.run_stack].
  - by rewrite Hm.
  - destruct (run_mw public_file views bookings m1 rq L c) as [L1 [c1|r]]; [apply IH|done].
Qed.

End StackLemmas.

Section Lean.
Context (public_file : string -> bool) (views bookings : string -> list string -> option dispatch_result).

(** [cors()] has answered every OPTIONS request before [app.options] is
    reached, and [morgan] only logs. *)
Lemma serve_lean development L rq :
  serve public_file views bookings development L rq = run_stack public_file views bookings lean_stack rq L (ctx0 rq).
Proof.
  unfold serve, app_stack.
  transitivity (run_stack public_file views bookings
    ([mw_cors; mw_options] ++ [mw_static; mw_helmet] ++ [mw_limiter; mw_webhook; mw_json; mw_urlencoded;
      mw_cookieParser; mw_mongoSanitize; mw_xss; mw_hpp; mw_compression; mw_requestTime;
      mw_viewRouter; mw_apiRouters; mw_bookingRouter; mw_notFound]) rq L (ctx0 rq)).
  { destruct development; [|reflexivity].
    exact (run_stack_skip _ _ _ rq mw_morgan [mw_cors; mw_options; mw_static; mw_helmet] _ (fun _ _ => eq_refl) L _). }
  destruct (is_method "OPTIONS" rq) eqn:Eo.
  - unfold lean_stack. cbn [app].
    rewrite !(run_stack_answer _ _ _ rq mw_cors _ L _ L (mk_response Preflight [h_cors])); [done| |];
      cbn; by rewrite Eo.
  - apply (run_stack_skip _ _ _ rq mw_options [mw_cors]). intros L' c. cbn. by rewrite Eo.
Qed.

End Lean.

(** ** What reaches the routers *)

(** One middleware of the stack in hypothesis [H] hands the request on,
    or answers with something other than the [Routed] answer [Ha] says. *)
Ltac pass H E :=
  erewrite run_stack_step in H by (cbn [run_mw c_query c_headers add_header ctx0]; rewrite ?E; reflexivity).
Ltac stop H Ha E :=
  erewrite run_stack_answer in H by (cbn [run_mw c_query c_headers add_header ctx0]; rewrite ?E; reflexivity);
  injection H as <- <-; cbn [answer_of] in Ha; repeat case_match; discriminate Ha.
(** The same steps on the goal. *)
Ltac pass_goal E :=
  erewrite run_stack_step by (cbn [run_mw c_query c_headers add_header ctx0]; rewrite ?E; reflexivity).
Ltac stop_goal E :=
  erewrite run_stack_answer by (cbn [run_mw c_query c_headers add_header ctx0]; rewrite ?E; reflexivity).

Lemma body_accepted_parsers rq :
  json_body_error rq = None -> urlencoded_too_large rq = false -> body_accepted rq = true.
Proof.
  unfold json_body_error, urlencoded_too_large, body_accepted.
  destruct (rq_type rq); [|intros _ Hu|done].
  - destruct (N.ltb_spec json_limit (rq_body_len rq)); [done|].
    destruct (_ || _) eqn:E; [|done]. intros _ _. apply andb_true_iff. split; [by apply N.leb_le|done].
  - apply N.ltb_ge in Hu. by apply N.leb_le.
Qed.

Lemma static_hit_not_options public_file rq : static_hit public_file rq = true -> is_method "OPTIONS" rq = false.
Proof.
  unfold static_hit, is_method. intros [H _]%andb_true_iff.
  apply orb_true_iff in H as [H|H]; apply String.eqb_eq in H; by rewrite H.
Qed.

Lemma post_not_options_static public_file rq :
  is_method "POST" rq = true -> is_method "OPTIONS" rq = false /\ static_hit public_file rq = false.
Proof. unfold static_hit, is_method. intros H%String.eqb_eq. by rewrite H. Qed.

(** C27: A request that the API routers answer (tourRoutes, userRoutes,
    reviewRoutes under [/api/v1]) has gone through every guard [app.js]
    puts before them: the limiter counted it and let it pass, its body is
    within the parsers' 10kb limits and parses, the view router declined
    it, the routers' answer is the one [Routes.v] computes, the query they
    see is [app_query] of the raw query (mongoSanitize, xss, hpp), and
    the response carries the CORS and helmet headers. *)
Theorem api_request_guarded public_file views bookings development L rq L' resp q r :
  serve public_file views bookings development L rq = (L', resp) -> answer_of resp = Routed q r ->
  limit_request trust_proxy L (rq_net rq) = (L', true) /\
  body_accepted rq = true /\
  app_query (rq_query rq) = Ok q /\
  views (rq_method rq) (segments (rq_path rq)) = None /\
  route_router api_fuel (rq_user rq) (rq_method rq) appRouter [] (segments (rq_path rq)) [] = Stop r /\
  headers_of resp = [h_cors; h_helmet].
Proof.
  rewrite serve_lean. intros H Ha. unfold lean_stack in H.
  destruct (is_method "OPTIONS" rq) eqn:Eo; [stop H Ha Eo|pass H Eo].
  destruct (static_hit public_file rq) eqn:Es; [stop H Ha Es|pass H Es].
  pass H Es.
  destruct (limit_request trust_proxy L (rq_net rq)) as [L1 []] eqn:El; [pass H El|stop H Ha El].
  destruct (webhook_route rq) eqn:Ew; [stop H Ha Ew|pass H Ew].
  destruct (json_body_error rq) eqn:Ej; [stop H Ha Ej|pass H Ej].
  destruct (urlencoded_too_large rq) eqn:Eu; [stop H Ha Eu|pass H Eu].
  pass H Eu. pass H Eu.
  destruct (xss_clean (sanitize (QObj (rq_query rq)))) as [v|e] eqn:Ex; [pass H Ex|stop H Ha Ex].
  pass H Ex. pass H Ex. pass H Ex.
  destruct (views (rq_method rq) (segments (rq_path rq))) eqn:Ev; [stop H Ha Ev|pass H Ev].
  destruct (route_router api_fuel (rq_user rq) (rq_method rq) appRouter [] (segments (rq_path rq)) []) eqn:Er.
  - pass H Er. cbn [run_stack run_mw c_headers] in H.
    destruct (match_prefix _ _) as [[? rest]|]; [destruct (bookings _ rest)|];
      injection H as <- <-; cbn [answer_of] in Ha; discriminate Ha.
  - erewrite run_stack_answer in H by (cbn [run_mw c_query c_headers add_header ctx0]; rewrite Er; reflexivity).
    injection H as <- <-. cbn [answer_of] in Ha. injection Ha as <- <-.
    split_and!; try done.
    + by apply body_accepted_parsers.
    + unfold app_query. rewrite Ex. by destruct v.
Qed.

Lemma api_request_guarded_witness :
  limit_request trust_proxy limiter_init (rq_net tours_get)
    = (fst (limit_request trust_proxy limiter_init (rq_net tours_get)), true) /\
  body_accepted tours_get = true /\
  app_query (rq_query tours_get) = Ok [("sort", QStr "price")] /\
  no_views (rq_method tours_get) (segments (rq_path tours_get)) = None /\
  route_router api_fuel (rq_user tours_get) (rq_method tours_get) appRouter [] (segments (rq_path tours_get)) []
    = Stop (Handled ["getAllTours"] []) /\
  headers_of (mk_response (Routed [("sort", QStr "price")] (Handled ["getAllTours"] [])) [h_cors; h_helmet])
    = [h_cors; h_helmet].
Proof.
  apply (api_request_guarded public_css no_views no_views false limiter_init tours_get
           (fst (limit_request trust_proxy limiter_init (rq_net tours_get)))
           (mk_response (Routed [("sort", QStr "price")] (Handled ["getAllTours"] [])) [h_cors; h_helmet])).
  - vm_compute. reflexivity.
  - reflexivity.
Defined.

(** ** What leaves before the routers *)

(** A JSON body over 10kb, sent anywhere but the webhook (and not as a
    preflight or a static file), is answered 413 by [express.json] before
    any router runs, after the limiter has counted it (or 429 if the
    limiter refuses it first). *)
Theorem oversize_json_refused public_file views bookings development L rq :
  rq_type rq = ct_json -> json_limit < rq_body_len rq ->
  is_method "OPTIONS" rq = false -> static_hit public_file rq = false -> webhook_route rq = false ->
  serve public_file views bookings development L rq =
    (fst (limit_request trust_proxy L (rq_net rq)),
     mk_response (if snd (limit_request trust_proxy L (rq_net rq)) then BodyError 413 else TooMany)
                 [h_cors; h_helmet]).
Proof.
  intros Ht Hl Eo Es Ew. rewrite serve_lean. unfold lean_stack.
  assert (Ej : json_body_error rq = Some 413%Z).
  { unfold json_body_error. rewrite Ht. by apply N.ltb_lt in Hl as ->. }
  pass_goal Eo. pass_goal Es. pass_goal Es.
  destruct (limit_request trust_proxy L (rq_net rq)) as [L1 []] eqn:El.
  - pass_goal El. pass_goal Ew. by stop_goal Ej.
  - by stop_goal El.
Qed.

Lemma oversize_json_refused_witness :
  serve public_css no_views no_views false limiter_init (review_post 20000) =
    (fst (limit_request trust_proxy limiter_init (rq_net (review_post 20000))),
     mk_response (if snd (limit_request trust_proxy limiter_init (rq_net (review_post 20000)))
                  then BodyError 413 else TooMany) [h_cors; h_helmet]).
Proof.
  apply (oversize_json_refused public_css no_views no_views false limiter_init (review_post 20000));
    vm_compute; reflexivity.
Defined.

(** The Stripe webhook, registered before the body parsers and off
    [/api], reads JSON bodies up to [express.raw]'s default of 100kb, ten
    times what the API accepts, and no limiter counts it: a POST to
    [/webhook-checkout] leaves the limiter's store as it was. *)
Theorem webhook_reads_large_bodies public_file views bookings development L rq :
  is_method "POST" rq = true -> rq_path rq = "/webhook-checkout" ->
  serve public_file views bookings development L rq =
    (L, mk_response (if raw_too_large rq then BodyError 413 else Webhook) [h_cors; h_helmet]).
Proof.
  intros Hm Hp. destruct (post_not_options_static public_file rq Hm) as [Eo Es].
  assert (El : limit_request trust_proxy L (rq_net rq) = (L, true)).
  { unfold limit_request. fold (rq_path rq). by rewrite Hp. }
  assert (Ew : webhook_route rq = true).
  { unfold webhook_route. rewrite Hm, Hp. reflexivity. }
  rewrite serve_lean. unfold lean_stack.
  pass_goal Eo. pass_goal Es. pass_goal Es. pass_goal El. by stop_goal Ew.
Qed.

Lemma webhook_reads_large_bodies_witness :
  (json_limit < rq_body_len (webhook_post 51200))%N /\
  serve public_css no_views no_views false limiter_init (webhook_post 51200) =
    (limiter_init, mk_response (if raw_too_large (webhook_post 51200) then BodyError 413 else Webhook)
                               [h_cors; h_helmet]).
Proof.
  split; [vm_compute; reflexivity|].
  apply (webhook_reads_large_bodies public_css no_views no_views false limiter_init (webhook_post 51200));
    reflexivity.
Defined.

